(* ===== verification/_CoqProject ===== *)
-Q . S2P
Prelude.v
Proto.v
CString.v
Generator.v
Json.v
RegistryText.v
Regex.v
GenText.v
GenTextSpec.v
GenC.v
GenImports.v
HostState.v
HostIo.v
Flush.v
Registry.v
RegistryScan.v
RegistryInv.v
RegistryParse.v
Tty.v
Startup.v
Demux.v
DemuxSpec.v
DemuxInv.v
HostIoInv.v
Par.v
TtySpec.v
StartupInv.v
RegistrySpec.v
Route.v
Demo.v
RouteSpec.v
Records.v
Fds.v
HostSpec.v
Mux.v
MuxUplink.v
MuxBatch.v
MuxDown.v
MuxSpec.v
HostTx.v
HostTxInv.v
TxPar.v
HostTxSpec.v
Reader.v
TxParSpec.v
ReaderInv.v
ReaderLoop.v
ReaderSpec.v
Main.v
MainInv.v
MainSpec.v
Duplex.v
Sinks.v
PassthruSink.v
DebugSink.v
NullSink.v
SinksSpec.v
GuestSink.v
GuestInv.v
GuestReport.v
System.v
ColdStart.v
Muxd.v
MuxdInv.v
MuxdSpec.v
MuxdHost.v
Exec.v
ExecInv.v
ExecSpec.v
ExecMuxd.v
Router.v
RouterSpec.v
Stdio.v
StdioSpec.v
Bridge.v
