(* ===== verification/Prelude.v ===== *)
(** * The Virtioso channel multiplexer: a verification development

    Virtioso carries the consoles of many guests and components over one UART.
    On the target, a CAmkES component (the Mux) frames the output of its
    clients and delivers input to them; on the host, [tcu_com] takes the byte
    stream apart into pseudoterminals and sends back what is typed there.  A
    Linux daemon plays the Mux's part inside a Linux guest, and a helper runs
    a command as its client.  This development models these programs from their
    sources and proves what they do, each alone and joined through the bytes
    they exchange.

    ** Protocol

    A VCMux stream is a sequence of tokens: payload bytes, selections of a
    stream ([0xfe] id), an escaped [0xfe], control records ([0xfe 0xfd] type
    length body).  It travels bare or inside the segments of the NVIDIA TCU
    protocol ([0xff] tag).  [Proto] has the constants of
    [host/uart-proto.h] and this grammar with its encoding [wire]; every
    producer is related to it ("what it sends is the encoding of ...") and
    every consumer ("fed the encoding of ..., it does ...").

    ** The model

    Bytes are [byte], a C string is the list of its bytes, integers are [Z]
    with the wrap-around written where the C type makes it visible.  A
    function of the program is a computation [M S A] (this file): a state, and
    either a result or the way the program stopped ([AssertFail],
    [Undefined], [Exited], [OutOfFuel]).  An out-of-bounds access is
    [Undefined].  [wp] is the weakest precondition; [total] accepts no stop,
    [partial] all of them.

    The host program talks to an operating system that answers each request
    from the history of all calls ([HostState]).  Theorems quantify over the
    answers, or state what is promised of them: [alloc_ok] (allocations
    succeed), [ptys_open], [soft_result] and [tolerates] (writes to a PTY at
    most fail softly), [good_fds] (a new descriptor is not open),
    [prompt] (the UART is ready and takes what it is given), [output_answers]
    (polls for output answer and are not interrupted), [no_short] (a device
    write takes all or nothing; [taken] says what it may take otherwise),
    [polls_open] ([poll] answers on an open descriptor), [lock_writes].

    ** Files

    Host, [src/host/tcu_com.c]:
    - [CString]: [strstr], [strtol], [snprintf] and the like, of libc.
    - [HostState]: the globals as a record, system calls and their history;
      [preserves] and [call_blind], the interface by which an invariant that
      does not mind certain calls goes through the code.
    - [HostIo]: [should_retry_io], [poll_output], [putbuf_or_exit],
      [putch_or_exit]; [HostIoInv]: their lemmas.
    - [Flush]: [get_timestamp], [flush_stream], [patch2flush_stream].
    - [Json]: the JSON scanners and [write_json_string].
    - [Registry]: the table [tags], registry records, CONNECTED
      announcements, [create_pty_at_index]; [RegistryInv]: its invariant [wf].
    - [Tty], [TtySpec]: [open_tty_device], UUCP lock files, baud rates.
    - [Startup]: [main] up to the threads; [StartupInv]: it establishes [wf].
    - [Demux]: [feed_virtioso_byte] and
      [feed_nvidia_outer_or_virtioso_raw]; [DemuxInv]: safety for all bytes;
      [DemuxSpec]: refinement of the tokens.
    - [Route], [RouteSpec], [Records]: which PTY is offered which byte; a pure
      routing machine implemented by the feeders.
    - [Fds]: every channel has a descriptor of its own.
    - [HostTx], [HostTxInv], [HostTxSpec]: [write_data_to_uart],
      [write_virtioso_data_to_uart], [pty_input_handler].
    - [Par]: threads as trees of actions, a machine that interleaves them, a
      rule ([obeys]) a thread keeps on its own and what follows for a pool;
      [TxPar], [TxParSpec]: the downlink again, with its write lock.
    - [Reader], [ReaderInv], [ReaderLoop], [ReaderSpec]: [tty_input_handler]
      and the legacy TCU demultiplexer; the loop is verified once against the
      class [machine], of which both demultiplexers are instances.
    - [Main], [MainInv], [MainSpec]: [main] as a whole, its threads taking
      whole turns in an arbitrary order after start-up; invariants that go
      through all of it.
    - [Duplex]: the reader's turns among the single actions of the writers.
    - [Demo]: concrete hosts; [HostSpec]: properties of table and parser.

    Host, the Python tools [src/host/console_router.py] and
    [src/host/qemu_mux_uplink_bridge.py]:
    - [Router]: the event loop that starts [tcu_com] and reads its
      announcements; [RouterSpec]: what it learns from them.
    - [Stdio]: manifests and the mode around one process; [StdioSpec]: what it
      records.
    - [Bridge]: the bridge to a QEMU socket, and that it copies.

    The registry, [src/tools/generate_camkes_stream_registry.py] and back:
    - [Regex]: a matcher with Python's order of attempts, sound and complete
      for the relation that says what a match is.
    - [GenText]: the patterns, the blocks, the imports and [main];
      [GenTextSpec]: assemblies as data, and that the patterns find in their
      text what they were written from; [GenImports]: the files an assembly
      imports; [GenC]: the literal and the names of the generated C.
    - [Generator]: ids and document; [RegistryText], [RegistryScan],
      [RegistryParse], [RegistrySpec]: the host's scanners read it back.

    Target, [src/sel4]:
    - [Mux]: [console_mux.c]; [MuxUplink], [MuxBatch]: framing, registry and
      the batch RPC; [MuxDown]: rings as bounded queues and the downlink;
      [MuxSpec]: properties.
    - [GuestSink], [GuestInv]: [guest_console_sink.c], verified against the
      class [batch_server], of which the Mux is an instance; [GuestReport]:
      the build whose reports go through the dataport themselves.
    - [Sinks], [PassthruSink], [DebugSink], [NullSink], [SinksSpec].

    Linux, [src/linux]:
    - [Muxd]: [virtioso-mux-proto] and [virtioso-muxd] as a step relation
      whose interleaving points are the [await]s, with an executable form;
      [MuxdInv], [MuxdSpec]: properties over all interleavings.
    - [Exec]: [virtioso-mux-exec], a step of one of its tasks as a function of
      what scheduler, clock, child and socket choose; [ExecInv], [ExecSpec].

    Joined: [System] (guest to PTY, PTY to ring), [ColdStart] (generator, Mux
    and host from the start), [MuxdHost] (daemon to host), [ExecMuxd] (a
    command, the helper, the daemon, the host), [RouterSpec] (host and router).

    ** What is shown

    - Delivery: [demux_frames_raw], [demux_frames_tcu], [guest_to_pty],
      [cold_start], [muxd_to_host], [exec_to_host], [host_to_ring],
      [legacy_frames]: each stream's bytes reach its own end, whole and in
      order, and nothing else does.
    - Safety: [demux_total], [main_runs] and their likes: any bytes, any
      sequence of whole turns of the threads; no array is left, no assertion
      fails, every call returns.
    - Interleaving: [writers_serialised]: the PTY threads' actions one by one,
      under the write lock and any failures; [writers_deliver]: on a UART that
      takes everything; [duplex_runs]: there with the reader of the UART beside
      them, in both directions; [hangup_aborts_writer]: what goes wrong while
      the reader opens the UART again; [muxd_sessions], [exec_delivers]: tasks
      between their [await]s.
    - Ends: [muxd_winds_down], [exec_ends]: no task waits for ever.
    - Refinement: the byte machines against tokens, queues and routing
      machines; the enqueue of the Mux against a bounded queue, among the
      reads of its client ([ring_is_queue]); the wire against what the daemon's
      clients sent.
    - Round trip: [generator_reads_assembly], from the text of an assembly to
      its registry; [registry_roundtrip], from the registry to the host's
      table.
    - Mismatch: [router_run]: the router reads its host line by line however
      the output is cut, but records no session in the mode it starts it in.
    - Recording: [stdio_records]: what the router reads from a command and for
      it is in its logs, up to a write to the terminal that fails; what the
      terminal, the PTY and the command do not take at once is lost to them.
    - Ownership: [channels_own_descriptors], [open_tty_owns], and the lock
      file in [main_runs].
    - Errors and bounds: soft PTY failures; what a downlink write that failed
      or was cut short put on the UART, and that the cut is not reported
      ([downlink_sends]); dataports with bad indices; the ids of the daemon's
      pool, which leave the documented range at 0xff ([id_alloc]) and are not
      distinct once it is exhausted ([muxd_sessions]).

    ** Fuel

    The retry loops of [HostIo] take fuel, because an operating system may
    answer EINTR for ever; one unit suffices where calls are not interrupted,
    and [retry_io_mono] in [HostIoInv] shows that more changes nothing.  The
    240 retries of [open_tty_device] are the source's.
    [guest_console_sink_flush] calls itself through its report at most once
    ([guest_reports]): two units suffice, and one where reports do not go
    through the dataport.  The registry loop gets one turn per byte of the
    document and each turn passes a byte; the generator's and the daemon's id
    searches get one turn per id; the lossy UTF-8 decoder and the searches of
    [Regex] and [GenText] one per byte; the queue of imports one turn per file
    ([generator_reads_assembly]).  The
    threads' loops are endless in the source and are observed for any number
    of turns.

    ** Not modelled

    Messages on [stderr] and the usage text; the bits of the terminal
    attributes; the start-up logging of the Mux: none of it is read back by
    the programs.  In [Main] the host's threads take turns whole, and only
    when start-up is over; within the
    turns only the PTY threads are interleaved ([TxPar]), with whole turns of
    the reader between their actions ([Duplex]), where the threads of channels
    that a registry adds have not yet run.  Of the Python tools: [json.loads], the
    file system's errors (a log file takes what is written to it) and the
    clean-up of processes; short writes of [Bridge] to its standard output,
    which is what it offers, not what arrives; the generator's
    preprocessor and its search for an imported file, which are parameters of
    [main], and the fixed C text around its tables.  The daemon's socket set-up; build files and CAmkES interface
    declarations, which have no logic of their own. *)

From stdpp Require Export base option list numbers strings.
From Stdlib Require Export Strings.Byte.
From Stdlib Require Export ZArith Lia.

#[global] Open Scope Z_scope.
#[global] Open Scope list_scope.

(* ------------------------------------------------------------------ *)
(** ** Bytes: C's [unsigned char] *)

#[global] Instance byte_eq_decision : EqDecision byte := Byte.byte_eq_dec.

(** The value of an [unsigned char]. *)
Definition b2z (b : byte) : Z := Z.of_N (Byte.to_N b).

(** The conversion [(unsigned char)z], reduction modulo 256. *)
Definition z2b (z : Z) : byte :=
  match Byte.of_N (Z.to_N (z mod 256)) with Some b => b | None => x00 end.

(** A string literal as the bytes the C program stores. *)
Definition bs (s : string) : list byte := String.list_byte_of_string s.

(** A literal between double quotes, as in the C source's keys. *)
Definition quoted (s : string) : list byte := x22 :: bs s ++ [x22].

(* ------------------------------------------------------------------ *)
(** ** Machine integers *)

Definition u32 (z : Z) : Z := z mod 2 ^ 32.
Definition u64 (z : Z) : Z := z mod 2 ^ 64.
(** The conversion of an [unsigned int] to [int] (two's complement). *)
Definition s32 (z : Z) : Z := (z + 2 ^ 31) mod 2 ^ 32 - 2 ^ 31.

(* ------------------------------------------------------------------ *)
(** ** A state monad with abrupt termination

    A C function is a computation over an explicit state.  It finishes
    with a value ([Done]) or stops the program: an [assert] that fails,
    [exit]/[pthread_exit], an undefined behaviour (a read or write outside
    an array, a null dereference), or the fuel of a retry loop. *)

Inductive stop : Type := AssertFail | Exited (code : Z) | Undefined | OutOfFuel.

Inductive outcome (S A : Type) : Type :=
| Done (a : A) (s : S)
| Stop (w : stop) (s : S).
Arguments Done {S A} a s.
Arguments Stop {S A} w s.

Definition M (S A : Type) : Type := S → outcome S A.

Definition ret {S A} (a : A) : M S A := λ s, Done a s.

Definition bind {S A B} (m : M S A) (k : A → M S B) : M S B := λ s,
  match m s with
  | Done a s' => k a s'
  | Stop w s' => Stop w s'
  end.

Definition halt {S A} (w : stop) : M S A := λ s, Stop w s.
Definition get {S} : M S S := λ s, Done s s.
Definition modify {S} (f : S → S) : M S unit := λ s, Done tt (f s).
Definition assert_c {S} (b : bool) : M S unit := if b then ret tt else halt AssertFail.

Declare Scope c_scope.
Delimit Scope c_scope with C.
Notation "x <- m ;; k" := (bind m (λ x, k))
  (at level 100, m at next level, right associativity) : c_scope.
Notation "'let*' p := m 'in' k" := (bind m (λ x, match x with p => k end))
  (at level 10, p pattern, m at level 100, k at level 200) : c_scope.
Notation "m ;;; k" := (bind m (λ _, k))
  (at level 100, right associativity) : c_scope.
#[global] Open Scope c_scope.

(** [a[i]] and [a[i] = v] on an array; outside its bounds the behaviour is
    undefined. *)
Definition arr_get {S A} (l : list A) (i : Z) : M S A :=
  if i <? 0 then halt Undefined
  else match l !! Z.to_nat i with Some a => ret a | None => halt Undefined end.

Definition arr_set {S A} (l : list A) (i : Z) (v : A) : M S (list A) :=
  if (i <? 0) || (Z.of_nat (length l) <=? i) then halt Undefined
  else ret (<[Z.to_nat i := v]> l).

(** Run a body on every element of a list, in order. *)
Fixpoint for_each {S A} (l : list A) (f : A → M S unit) : M S unit :=
  match l with
  | [] => ret tt
  | a :: l' => f a ;;; for_each l' f
  end.

(** Weakest precondition: the computation finishes with the postcondition,
    or stops for an allowed reason.  [safe] allows every reason but an
    undefined behaviour; [total] allows none. *)
Definition wp {S A} (ok : stop → Prop) (m : M S A) (Q : A → S → Prop) (s : S) : Prop :=
  match m s with
  | Done a s' => Q a s'
  | Stop w _ => ok w
  end.

Definition safe (w : stop) : Prop := w ≠ Undefined.
Definition total (w : stop) : Prop := False.

(* ------------------------------------------------------------------ *)
(** ** Lemmas: bytes and integers *)

Lemma b2z_range b : 0 ≤ b2z b < 256.
Proof. unfold b2z. pose proof (Byte.to_N_bounded b). lia. Qed.

Lemma z2b_b2z b : z2b (b2z b) = b.
Proof.
  unfold z2b. rewrite Z.mod_small by apply b2z_range.
  unfold b2z. by rewrite N2Z.id, Byte.of_to_N.
Qed.

Lemma b2z_z2b z : b2z (z2b z) = z mod 256.
Proof.
  unfold z2b. pose proof (Z.mod_pos_bound z 256 eq_refl).
  destruct (Byte.of_N (Z.to_N (z mod 256))) as [b|] eqn:Hb.
  - apply Byte.to_of_N in Hb. unfold b2z. rewrite Hb. lia.
  - apply Byte.of_N_None_iff in Hb. lia.
Qed.

Lemma b2z_inj a b : b2z a = b2z b → a = b.
Proof. intros H. by rewrite <-(z2b_b2z a), H, z2b_b2z. Qed.

Lemma b2z_eq a b : b2z a = b2z b ↔ a = b.
Proof. split; [apply b2z_inj | by intros ->]. Qed.

Lemma b2z_z2b_small z : 0 ≤ z < 256 → b2z (z2b z) = z.
Proof. intros H. rewrite b2z_z2b. by apply Z.mod_small. Qed.

(** [(hi << 8) | lo] rebuilds a 16-bit length from its two bytes. *)
Lemma be16_join hi lo :
  Z.lor (Z.shiftl (b2z hi) 8) (b2z lo) = 256 * b2z hi + b2z lo.
Proof.
  pose proof (b2z_range lo). rewrite Z.shiftl_mul_pow2 by lia.
  change (2 ^ 8) with 256. rewrite (Z.mul_comm 256).
  enough (Z.land (b2z hi * 256) (b2z lo) = 0) as Hl
    by (rewrite Z.add_nocarry_lxor, Z.lxor_lor by done; done).
  change 256 with (2 ^ 8). apply Z.bits_inj'. intros n Hn. rewrite Z.land_spec, Z.bits_0.
  destruct (Z.lt_ge_cases n 8).
  - by rewrite Z.mul_pow2_bits_low by lia.
  - rewrite (Z.bits_above_log2 (b2z lo) n); [by rewrite andb_false_r|lia|].
    destruct (Z.eq_dec (b2z lo) 0) as [->|]; [simpl; lia|].
    apply Z.log2_lt_pow2; [lia|]. apply Z.lt_le_trans with (2 ^ 8); [lia|].
    apply Z.pow_le_mono_r; lia.
Qed.

(* ------------------------------------------------------------------ *)
(** ** Lemmas: the monad *)

Lemma run_bind {S A B} (m : M S A) (k : A → M S B) s a s' :
  m s = Done a s' → bind m k s = k a s'.
Proof. intros H. unfold bind. by rewrite H. Qed.

Lemma run_bind_stop {S A B} (m : M S A) (k : A → M S B) s w s' :
  m s = Stop w s' → bind m k s = Stop w s'.
Proof. intros H. unfold bind. by rewrite H. Qed.

Lemma bind_ret_l {S A B} (a : A) (k : A → M S B) s : bind (ret a) k s = k a s.
Proof. done. Qed.

Lemma bind_assoc {S A B C} (m : M S A) (f : A → M S B) (g : B → M S C) s :
  bind (bind m f) g s = bind m (λ a, bind (f a) g) s.
Proof. unfold bind. by destruct (m s). Qed.

Lemma bind_ext {S A B} (m : M S A) (f g : A → M S B) s :
  (∀ a s', m s = Done a s' → f a s' = g a s') → bind m f s = bind m g s.
Proof. intros H. unfold bind. destruct (m s) eqn:E; auto. Qed.

Lemma arr_get_run {S A} (l : list A) i a (s : S) :
  0 ≤ i → l !! Z.to_nat i = Some a → arr_get l i s = Done a s.
Proof.
  intros Hi Hl. unfold arr_get. rewrite (proj2 (Z.ltb_ge i 0)) by lia. by rewrite Hl.
Qed.

Lemma arr_set_run {S A} (l : list A) i v (s : S) :
  0 ≤ i < Z.of_nat (length l) → arr_set l i v s = Done (<[Z.to_nat i := v]> l) s.
Proof.
  intros Hi. unfold arr_set.
  rewrite (proj2 (Z.ltb_ge i 0)), (proj2 (Z.leb_gt _ i)) by lia. done.
Qed.

Lemma for_each_app {S A} (l1 l2 : list A) (f : A → M S unit) s :
  for_each (l1 ++ l2) f s = (for_each l1 f ;;; for_each l2 f) s.
Proof.
  revert s. induction l1 as [|a l1 IH]; intros s; [done|]. cbn [for_each app].
  rewrite bind_assoc. apply bind_ext. intros _ s' _. apply IH.
Qed.

Lemma wp_ret {S A} ok (a : A) Q (s : S) : Q a s → wp ok (ret a) Q s.
Proof. done. Qed.

Lemma wp_bind {S A B} ok (m : M S A) (k : A → M S B) Q s :
  wp ok m (λ a s', wp ok (k a) Q s') s → wp ok (bind m k) Q s.
Proof. unfold wp, bind. by destruct (m s). Qed.

Lemma wp_bind_run {S A B} ok (m : M S A) (k : A → M S B) Q s a s' :
  m s = Done a s' → wp ok (k a) Q s' → wp ok (bind m k) Q s.
Proof. unfold wp, bind. by intros ->. Qed.

Lemma wp_bind_inv {S A B} ok (m : M S A) (k : A → M S B) Q s :
  wp ok (bind m k) Q s → wp ok m (λ a s', wp ok (k a) Q s') s.
Proof. unfold wp, bind. by destruct (m s). Qed.

Lemma wp_bind_eq {S A B} ok (m m' : M S A) (k : A → M S B) Q s :
  m s = m' s → wp ok (bind m' k) Q s → wp ok (bind m k) Q s.
Proof. unfold wp, bind. by intros ->. Qed.

Lemma wp_mono {S A} ok (m : M S A) (Q R : A → S → Prop) s :
  wp ok m Q s → (∀ a s', Q a s' → R a s') → wp ok m R s.
Proof. unfold wp. destruct (m s); auto. Qed.

Lemma wp_get {S} ok Q (s : S) : Q s s → wp ok get Q s.
Proof. done. Qed.

Lemma wp_modify {S} ok f Q (s : S) : Q tt (f s) → wp ok (modify f) Q s.
Proof. done. Qed.

Lemma wp_halt {S A} (ok : stop → Prop) w (Q : A → S → Prop) s :
  ok w → wp ok (halt w) Q s.
Proof. done. Qed.

Lemma wp_assert {S} (ok : stop → Prop) b Q (s : S) :
  (b = false → ok AssertFail) → (b = true → Q tt s) → wp ok (assert_c b) Q s.
Proof. destruct b; intros Hf Ht; [by apply Ht | by apply Hf]. Qed.

Lemma wp_arr_get {S A} ok (l : list A) i Q (s : S) :
  0 ≤ i < Z.of_nat (length l) →
  (∀ a, l !! Z.to_nat i = Some a → Q a s) → wp ok (arr_get l i) Q s.
Proof.
  intros Hi HQ. destruct (lookup_lt_is_Some_2 l (Z.to_nat i)) as [a Ha]; [lia|].
  unfold wp. rewrite (arr_get_run _ _ a) by (done || lia). auto.
Qed.

Lemma wp_arr_set {S A} ok (l : list A) i v Q (s : S) :
  0 ≤ i < Z.of_nat (length l) → Q (<[Z.to_nat i := v]> l) s →
  wp ok (arr_set l i v) Q s.
Proof. intros Hi HQ. unfold wp. by rewrite arr_set_run. Qed.

Lemma wp_done {S A} ok (m : M S A) Q s a s' :
  m s = Done a s' → wp ok m Q s → Q a s'.
Proof. unfold wp. by intros ->. Qed.

(** What holds of a run that is known. *)
Lemma wp_done_inv {S A} ok (m : M S A) (Q : A → S → Prop) (s s' : S) (a : A) :
  wp ok m Q s → m s = Done a s' → Q a s'.
Proof. unfold wp. intros Hw Hm. by rewrite Hm in Hw. Qed.

Lemma wp_total_done {S A} (m : M S A) Q s :
  wp total m Q s → ∃ a s', m s = Done a s' ∧ Q a s'.
Proof. unfold wp. destruct (m s); [eauto|done]. Qed.

Lemma wp_weaken {S A} (ok ok' : stop → Prop) (m : M S A) Q s :
  (∀ w, ok w → ok' w) → wp ok m Q s → wp ok' m Q s.
Proof. unfold wp. destruct (m s); auto. Qed.

Lemma wp_conj {S A} ok (m : M S A) Q R s :
  wp ok m Q s → wp ok m R s → wp ok m (λ a s', Q a s' ∧ R a s') s.
Proof. unfold wp. destruct (m s); auto. Qed.

(** Facts about the result only, whether or not the computation stops. *)
Definition partial (w : stop) : Prop := True.

(** What holds of a result, and the stops there are. *)
Lemma wp_combine {S A} ok (m : M S A) Q s :
  wp partial m Q s → wp ok m (λ _ _, True) s → wp ok m Q s.
Proof. unfold wp. by destruct (m s). Qed.

Lemma wp_any {S A} (m : M S A) s : wp partial m (λ _ _, True) s.
Proof. unfold wp. by destruct (m s). Qed.

Lemma wp_partial_done {S A} (m : M S A) (Q : A → S → Prop) s :
  (∀ a s', m s = Done a s' → Q a s') → wp partial m Q s.
Proof. unfold wp. destruct (m s); [eauto|done]. Qed.

Create HintDb c_wp.
#[export] Hint Resolve wp_ret wp_get wp_modify wp_halt wp_assert wp_arr_get wp_arr_set : c_wp.

(** One structural step of a proof about a program. *)
Ltac wp_step :=
  lazymatch goal with
  | |- wp _ (bind _ _) _ _ => apply wp_bind
  | |- wp _ (ret _) _ _ => apply wp_ret
  | |- wp _ get _ _ => apply wp_get
  | |- wp _ (modify _) _ _ => apply wp_modify
  | |- wp _ (halt _) _ _ => apply wp_halt; try discriminate
  | |- wp _ (assert_c _) _ _ => apply wp_assert; [try discriminate|intros ?]
  | |- wp _ (if ?b then _ else _) _ _ => destruct b eqn:?
  | |- wp _ (match ?x with _ => _ end) _ _ => destruct x eqn:?
  | |- wp _ (let _ := _ in _) _ _ => cbv zeta
  end.
Ltac wp_steps := repeat (wp_step; cbv beta).

(** Skip every call, keeping only the structure of the result. *)
Ltac wp_skip :=
  repeat first [ progress (wp_step; cbv beta)
               | eapply wp_mono; [apply wp_any | intros; cbv beta] ].

(** Turn boolean tests of the source into propositions for [lia]. *)
Ltac z_bool :=
  repeat match goal with
  | H : (_ <? _) = true |- _ => apply Z.ltb_lt in H
  | H : (_ <? _) = false |- _ => apply Z.ltb_ge in H
  | H : (_ <=? _) = true |- _ => apply Z.leb_le in H
  | H : (_ <=? _) = false |- _ => apply Z.leb_gt in H
  | H : (_ =? _) = true |- _ => apply Z.eqb_eq in H
  | H : (_ =? _) = false |- _ => apply Z.eqb_neq in H
  | H : (_ <? _)%nat = true |- _ => apply Nat.ltb_lt in H
  | H : (_ <? _)%nat = false |- _ => apply Nat.ltb_ge in H
  | H : (_ <=? _)%nat = true |- _ => apply Nat.leb_le in H
  | H : (_ <=? _)%nat = false |- _ => apply Nat.leb_gt in H
  | H : (_ && _) = true |- _ => apply andb_prop in H as [? ?]
  | H : (_ || _) = false |- _ => apply orb_false_elim in H as [? ?]
  | H : negb _ = true |- _ => apply negb_true_iff in H
  | H : negb _ = false |- _ => apply negb_false_iff in H
  | H : bool_decide _ = true |- _ => apply bool_decide_eq_true in H
  | H : bool_decide _ = false |- _ => apply bool_decide_eq_false in H
  end.
