(* ===== verification/Proto.v ===== *)
(** * The wire protocols

    The protocol bytes of [host/uart-proto.h] (and their copies in
    [sel4/Mux/src/console_mux.c]), and an abstract specification of the
    VCMux byte stream: a sequence of tokens, each with its encoding.  The
    multiplexers of both sides are related to this specification, and to
    each other through it. *)

From S2P Require Import Prelude.

(** NVIDIA TCU layer. *)
Definition UART_PROTO_ESC_START : byte := xff.
Definition UART_PROTO_ESC_ESC : byte := xff.
Definition UART_PROTO_ESC_RESET : byte := xfd.

(** Commands of the header that no program of the repository sends or handles. *)
Definition UART_PROTO_ESC_ID_HYP : byte := xfe.
Definition UART_PROTO_ESC_NAME_QUERY : byte := xfc.
Definition UART_PROTO_ESC_NAME_REPLY : byte := xfb.
Definition UART_PROTO_ESC_NAME_DELIM : byte := xfa.

(** VCMux layer. *)
Definition VCMUX_PROTO_ESC_START : byte := xfe.
Definition VCMUX_PROTO_ESC_ESC : byte := xfe.
Definition VCMUX_PROTO_ESC_DEFAULT : byte := x00.
Definition VCMUX_PROTO_ESC_CONTROL : byte := xfd.
Definition VCMUX_PROTO_CONTROL_STREAM_CONNECTED : byte := x01.
Definition VCMUX_PROTO_CONTROL_STREAM_REGISTRY : byte := x02.
Definition VCMUX_PROTO_CONTROL_DOWNLINK_ACK : byte := x03.
Definition VCMUX_PROTO_CONTROL_STREAM_DISCONNECTED : byte := x04.

(* ------------------------------------------------------------------ *)
(** ** Tokens: the abstract VCMux stream *)

Inductive token : Type :=
| TByte (b : byte)                          (** one payload byte *)
| TSelect (stream_id : byte)                (** switch the current stream *)
| TDefault                                  (** back to the unframed stream *)
| TRegistry (json : list byte)              (** STREAM_REGISTRY record *)
| TAck                                      (** DOWNLINK_ACK record *)
| TConnected (body : list byte)             (** stream id and name *)
| TDisconnected (body : list byte).         (** stream id *)

(** A payload byte on the wire: the escape byte is doubled. *)
Definition esc_byte (b : byte) : list byte :=
  if bool_decide (b = VCMUX_PROTO_ESC_START) then [VCMUX_PROTO_ESC_ESC; b] else [b].

Definition esc_bytes (l : list byte) : list byte := concat (map esc_byte l).

(** A control record with a 16-bit big-endian length. *)
Definition control_record (ctrl : byte) (body : list byte) : list byte :=
  let len := Z.of_nat (length body) in
  [VCMUX_PROTO_ESC_START; VCMUX_PROTO_ESC_CONTROL; ctrl;
   z2b (Z.land (Z.shiftr len 8) 0xff); z2b (Z.land len 0xff)] ++ body.

Definition wire (t : token) : list byte :=
  match t with
  | TByte b => esc_byte b
  | TSelect s => [VCMUX_PROTO_ESC_START; s]
  | TDefault => [VCMUX_PROTO_ESC_START; VCMUX_PROTO_ESC_DEFAULT]
  | TRegistry json => control_record VCMUX_PROTO_CONTROL_STREAM_REGISTRY json
  | TAck => [VCMUX_PROTO_ESC_START; VCMUX_PROTO_ESC_CONTROL;
             VCMUX_PROTO_CONTROL_DOWNLINK_ACK]
  | TConnected body => control_record VCMUX_PROTO_CONTROL_STREAM_CONNECTED body
  | TDisconnected body => control_record VCMUX_PROTO_CONTROL_STREAM_DISCONNECTED body
  end.

Definition wires (ts : list token) : list byte := concat (map wire ts).

(** The stream ids a multiplexer may select: not the protocol bytes. *)
Definition selectable (s : byte) : bool :=
  negb (bool_decide (s = VCMUX_PROTO_ESC_DEFAULT)) &&
  negb (bool_decide (s = VCMUX_PROTO_ESC_START)) &&
  negb (bool_decide (s = VCMUX_PROTO_ESC_CONTROL)).

(** Tokens that can be sent: bodies fit their length field and are not empty. *)
Definition body_ok (body : list byte) : bool :=
  (0 <? Z.of_nat (length body)) && (Z.of_nat (length body) <=? 0xffff).

Definition token_ok (t : token) : bool :=
  match t with
  | TSelect s => selectable s
  | TRegistry b | TConnected b | TDisconnected b => body_ok b
  | _ => true
  end.

(** A data frame as both multiplexers document it:
    [0xfe, sid, payload with 0xfe doubled, 0xfe, 0x00]. *)
Definition frame (sid : byte) (payload : list byte) : list byte :=
  [VCMUX_PROTO_ESC_START; sid] ++ esc_bytes payload ++
  [VCMUX_PROTO_ESC_START; VCMUX_PROTO_ESC_DEFAULT].

Definition frame_tokens (sid : byte) (payload : list byte) : list token :=
  [TSelect sid] ++ map TByte payload ++ [TDefault].

(* ------------------------------------------------------------------ *)
(** ** The TCU layer's escaping *)

(** A byte followed by the escape complement when it is the escape byte. *)
Definition tcu_byte (b : byte) : list byte :=
  if bool_decide (b = UART_PROTO_ESC_START) then [b; UART_PROTO_ESC_ESC] else [b].

Definition tcu_bytes (l : list byte) : list byte := concat (map tcu_byte l).

Definition tcu_frame (tag_value : byte) (l : list byte) : list byte :=
  [UART_PROTO_ESC_START; tag_value] ++ tcu_bytes l.

(* ------------------------------------------------------------------ *)
(** ** Lemmas *)

Lemma wires_app a b : wires (a ++ b) = wires a ++ wires b.
Proof. unfold wires. by rewrite map_app, concat_app. Qed.

Lemma wires_cons t ts : wires (t :: ts) = wire t ++ wires ts.
Proof. done. Qed.

Lemma wires_bytes l : wires (map TByte l) = esc_bytes l.
Proof. unfold wires, esc_bytes. by rewrite map_map. Qed.

Lemma esc_bytes_app a b : esc_bytes (a ++ b) = esc_bytes a ++ esc_bytes b.
Proof. unfold esc_bytes. by rewrite map_app, concat_app. Qed.

Lemma tcu_bytes_app a b : tcu_bytes (a ++ b) = tcu_bytes a ++ tcu_bytes b.
Proof. unfold tcu_bytes. by rewrite map_app, concat_app. Qed.

Lemma tcu_byte_escape : tcu_byte UART_PROTO_ESC_START =
  [UART_PROTO_ESC_START; UART_PROTO_ESC_ESC].
Proof. done. Qed.

Lemma tcu_byte_plain b : b ≠ UART_PROTO_ESC_START → tcu_byte b = [b].
Proof. intros Hb. unfold tcu_byte. by rewrite bool_decide_eq_false_2. Qed.

Lemma frame_wires sid payload : frame sid payload = wires (frame_tokens sid payload).
Proof. unfold frame, frame_tokens. by rewrite !wires_app, wires_bytes. Qed.

Lemma esc_byte_length b : (1 ≤ length (esc_byte b) ≤ 2)%nat.
Proof. unfold esc_byte. case_bool_decide; cbn; lia. Qed.

Lemma esc_bytes_length (l : list byte) :
  (length l ≤ length (esc_bytes l) ≤ 2 * length l)%nat.
Proof.
  induction l as [|b l IH]; [cbn; lia|]. unfold esc_bytes in *. cbn [map concat].
  rewrite length_app. pose proof (esc_byte_length b). cbn [length]. lia.
Qed.

Lemma selectable_spec s :
  selectable s = true ↔ s ≠ x00 ∧ s ≠ xfe ∧ s ≠ xfd.
Proof.
  unfold selectable. rewrite !andb_true_iff, !negb_true_iff, !bool_decide_eq_false. tauto.
Qed.

(** The length field as the receiver reassembles it. *)
Lemma control_length (body : list byte) :
  Z.of_nat (length body) ≤ 0xffff →
  let len := Z.of_nat (length body) in
  Z.lor (Z.shiftl (b2z (z2b (Z.land (Z.shiftr len 8) 0xff))) 8)
        (b2z (z2b (Z.land len 0xff))) = len.
Proof.
  intros Hlen len. rewrite be16_join, !b2z_z2b.
  change 0xff with (Z.ones 8). rewrite !Z.land_ones, Z.shiftr_div_pow2 by lia.
  change (2 ^ 8) with 256. rewrite !Z.mod_mod by lia.
  rewrite (Z.mod_small (len / 256)).
  - pose proof (Z.div_mod len 256). lia.
  - split; [apply Z.div_pos; lia|]. apply Z.div_lt_upper_bound; lia.
Qed.
