(* ===== verification/CString.v ===== *)
(** * The C string functions the host program calls

    A C string is the list of its bytes before the terminating NUL; a
    pointer into it is an offset, and reading at the offset of the
    terminator gives NUL.  [strstr], [isspace] and [strtol] (base 10, C
    locale) are written out as the standard describes them; [%u] and
    [%s] conversions of [printf] as functions to bytes. *)

From S2P Require Import Prelude.

(** The string a buffer holds: the bytes before the first NUL. *)
Fixpoint cstr (buf : list byte) : list byte :=
  match buf with
  | [] => []
  | c :: l => if bool_decide (c = x00) then [] else c :: cstr l
  end.

(** [s[i]]. *)
Definition char_at (s : list byte) (i : nat) : byte := default x00 (s !! i).

(** [isspace] in the C locale: tab, newline, VT, FF, CR and space. *)
Definition isspace (c : byte) : bool :=
  bool_decide (c = x20) || ((9 <=? b2z c) && (b2z c <=? 13)).

Definition isdigit (c : byte) : bool := (48 <=? b2z c) && (b2z c <=? 57).

Fixpoint is_prefix (p l : list byte) : bool :=
  match p, l with
  | [], _ => true
  | a :: p', b :: l' => bool_decide (a = b) && is_prefix p' l'
  | _ :: _, [] => false
  end.

(** [strstr] on the part of the string from offset [pos] on, as a suffix. *)
Fixpoint strstr_from (needle l : list byte) (pos : nat) : option nat :=
  if is_prefix needle l then Some pos
  else match l with
       | [] => None
       | _ :: l' => strstr_from needle l' (S pos)
       end.

(** [strstr(s + start, needle) - s]. *)
Definition strstr (s : list byte) (start : nat) (needle : list byte) : option nat :=
  strstr_from needle (drop start s) start.

(** [while ( *pos && isspace( *pos )) pos++]. *)
Fixpoint skip_space_from (l : list byte) (pos : nat) : nat :=
  match l with
  | c :: l' => if isspace c then skip_space_from l' (S pos) else pos
  | [] => pos
  end.
Definition skip_space (s : list byte) (pos : nat) : nat :=
  skip_space_from (drop pos s) pos.

(** [strtol(s + pos, &endptr, 10)]: the value, whether a number was found
    ([endptr != pos]), and whether it overflowed ([errno == ERANGE]; the
    value is then the nearest [long]). *)
Definition LONG_MAX : Z := 2 ^ 63 - 1.
Definition LONG_MIN : Z := - 2 ^ 63.

Fixpoint digits_value (l : list byte) (acc : Z) : Z :=
  match l with
  | c :: l' => if isdigit c then digits_value l' (10 * acc + (b2z c - 48)) else acc
  | [] => acc
  end.

Record strtol_result : Type := StrtolResult {
  strtol_value : Z; strtol_found : bool; strtol_erange : bool
}.

Definition strtol (s : list byte) (pos : nat) : strtol_result :=
  let l := drop (skip_space s pos) s in
  let '(neg, l) :=
    match l with
    | c :: l' => if bool_decide (c = x2d) then (true, l')
                 else if bool_decide (c = x2b) then (false, l') else (false, l)
    | [] => (false, l)
    end in
  let found := match l with c :: _ => isdigit c | [] => false end in
  let v := if neg then - digits_value l 0 else digits_value l 0 in
  if negb found then StrtolResult 0 false false
  else if LONG_MAX <? v then StrtolResult LONG_MAX true true
  else if v <? LONG_MIN then StrtolResult LONG_MIN true true
  else StrtolResult v true false.

(** [%u] and [%d]: decimal digits, most significant first. *)
Fixpoint dec_digits (fuel : nat) (n : Z) (acc : list byte) : list byte :=
  match fuel with
  | O => acc
  | S f =>
      let acc' := z2b (48 + n mod 10) :: acc in
      if n <? 10 then acc' else dec_digits f (n / 10) acc'
  end.
(** Enough digits for any 64-bit value. *)
Definition fmt_u (n : Z) : list byte := dec_digits 20 n [].
Definition fmt_d (n : Z) : list byte :=
  if n <? 0 then x2d :: fmt_u (- n) else fmt_u n.

(** [%0<w>u] and [%<w>d]: at least [w] characters. *)
Definition pad_left (c : byte) (w : nat) (l : list byte) : list byte :=
  replicate (w - length l) c ++ l.

(** [%04x] of a byte. *)
Definition hex_digit (n : Z) : byte :=
  z2b (if n <? 10 then 48 + n else 87 + n).
Definition fmt_04x (c : byte) : list byte :=
  [x30; x30; hex_digit (b2z c / 16); hex_digit (b2z c mod 16)].

(** What [snprintf(buf, size, ...)] leaves in [buf] as a string. *)
Definition snprintf (size : nat) (text : list byte) : list byte := take (size - 1) text.

(* ------------------------------------------------------------------ *)
(** ** Lemmas *)

Lemma cstr_id l : x00 ∉ l → cstr l = l.
Proof.
  induction l as [|c l IH]; intros Hl; [done|]. cbn.
  apply not_elem_of_cons in Hl as [Hc Hl].
  rewrite bool_decide_eq_false_2 by done. by rewrite IH.
Qed.

Lemma cstr_app_nul l r : x00 ∉ l → cstr (l ++ x00 :: r) = l.
Proof.
  induction l as [|c l IH]; intros Hl; [done|]. cbn.
  apply not_elem_of_cons in Hl as [Hc Hl].
  rewrite bool_decide_eq_false_2 by done. by rewrite IH.
Qed.

Lemma cstr_no_nul l : x00 ∉ cstr l.
Proof.
  induction l as [|c l IH]; cbn; [apply not_elem_of_nil|].
  case_bool_decide; [apply not_elem_of_nil|].
  apply not_elem_of_cons. done.
Qed.

Lemma cstr_length l : (length (cstr l) ≤ length l)%nat.
Proof. induction l as [|c l IH]; cbn; [lia|]. case_bool_decide; cbn; lia. Qed.

Lemma is_prefix_app p l : is_prefix p (p ++ l) = true.
Proof. induction p; cbn; [done|]. by rewrite bool_decide_eq_true_2. Qed.

Lemma is_prefix_spec p l : is_prefix p l = true ↔ ∃ r, l = p ++ r.
Proof.
  split; [|intros [r ->]; apply is_prefix_app].
  revert l. induction p as [|a p IH]; intros l Hp; [by exists l|].
  destruct l as [|b l]; [done|]. cbn in Hp. z_bool. subst.
  destruct (IH _ H0) as [r ->]. by exists r.
Qed.

Lemma strstr_from_bounds needle l pos i :
  strstr_from needle l pos = Some i →
  (pos ≤ i ∧ i + length needle ≤ pos + length l)%nat.
Proof.
  revert pos. induction l as [|c l IH]; intros pos Hs; cbn in Hs.
  - destruct (is_prefix needle []) eqn:Hp; [|done]. injection Hs as <-.
    apply is_prefix_spec in Hp as [r Hr]. 
    apply (f_equal length) in Hr. rewrite length_app in Hr. cbn in *. lia.
  - destruct (is_prefix needle (c :: l)) eqn:Hp.
    + injection Hs as <-. apply is_prefix_spec in Hp as [r Hr].
      apply (f_equal length) in Hr. rewrite length_app in Hr. cbn in *. lia.
    + apply IH in Hs. cbn. lia.
Qed.

Lemma strstr_bounds s start needle i :
  (start ≤ length s)%nat → strstr s start needle = Some i →
  (start ≤ i ∧ i + length needle ≤ length s)%nat.
Proof.
  intros Hst Hs. apply strstr_from_bounds in Hs. rewrite length_drop in Hs. lia.
Qed.

(** The needle is found where it first occurs. *)
Lemma strstr_from_skip needle l1 l2 pos :
  (∀ i, (i < length l1)%nat → is_prefix needle (drop i (l1 ++ l2)) = false) →
  strstr_from needle (l1 ++ l2) pos = strstr_from needle l2 (pos + length l1).
Proof.
  revert pos. induction l1 as [|c l1 IH]; intros pos Hn; [by rewrite Nat.add_0_r|].
  cbn [app strstr_from]. pose proof (Hn 0%nat) as H0. cbn in H0.
  cbn [is_prefix] in *. rewrite H0 by (cbn; lia). rewrite IH.
  - f_equal. cbn. lia.
  - intros i Hi. apply (Hn (S i)). cbn. lia.
Qed.

Lemma strstr_from_here needle l pos :
  is_prefix needle l = true → strstr_from needle l pos = Some pos.
Proof. intros Hp. destruct l; cbn in *; by rewrite Hp. Qed.

Lemma skip_space_from_bounds l pos :
  (pos ≤ skip_space_from l pos ≤ pos + length l)%nat.
Proof.
  revert pos. induction l as [|c l IH]; intros pos; cbn; [lia|].
  destruct (isspace c); [|lia]. specialize (IH (S pos)). lia.
Qed.

Lemma char_at_app s1 s2 : char_at (s1 ++ s2) (length s1) = default x00 (head s2).
Proof.
  unfold char_at. rewrite lookup_app_r by lia. rewrite Nat.sub_diag. by destruct s2.
Qed.

Lemma hex_digit_inj m n : 0 ≤ m < 16 → 0 ≤ n < 16 → hex_digit m = hex_digit n → m = n.
Proof.
  intros Hm Hn Heq. apply (f_equal b2z) in Heq. unfold hex_digit in Heq.
  destruct (m <? 10) eqn:?, (n <? 10) eqn:?; z_bool;
    rewrite !b2z_z2b_small in Heq by lia; lia.
Qed.

(* ------------------------------------------------------------------ *)
(** ** Lemmas: offsets as splits of the string *)

Lemma strstr_app a b needle :
  strstr (a ++ b) (length a) needle = strstr_from needle b (length a).
Proof. unfold strstr. by rewrite drop_app_length. Qed.

Lemma skip_space_app a ws b :
  forallb isspace ws = true → isspace (default x00 (head b)) = false →
  skip_space (a ++ ws ++ b) (length a) = (length a + length ws)%nat.
Proof.
  intros Hws Hb. unfold skip_space. rewrite drop_app_length.
  assert (Hgo : ∀ pos, skip_space_from (ws ++ b) pos = (pos + length ws)%nat); [|apply Hgo].
  induction ws as [|c ws IH]; intros pos; cbn in *.
  - destruct b as [|c b]; cbn in *; [lia|]. rewrite Hb. lia.
  - apply andb_prop in Hws as [-> Hws]. rewrite IH by done. lia.
Qed.

Lemma char_at_head a c b : char_at (a ++ c :: b) (length a) = c.
Proof. by rewrite char_at_app. Qed.

(* ------------------------------------------------------------------ *)
(** ** Lemmas: decimal numbers are read back *)

Lemma digit_byte n : isdigit (z2b (48 + n mod 10)) = true ∧ b2z (z2b (48 + n mod 10)) = 48 + n mod 10.
Proof.
  pose proof (Z.mod_pos_bound n 10 eq_refl). unfold isdigit. rewrite b2z_z2b_small by lia.
  split; [|done]. apply andb_true_intro. split; apply Z.leb_le; lia.
Qed.

Lemma dec_digits_acc f n acc : dec_digits f n acc = dec_digits f n [] ++ acc.
Proof.
  revert n acc. induction f as [|f IH]; intros n acc; [done|]. cbn [dec_digits].
  destruct (n <? 10); [done|]. rewrite IH, (IH _ [_]), <-app_assoc. done.
Qed.

Lemma dec_digits_digits f n : forallb isdigit (dec_digits f n []) = true.
Proof.
  revert n. induction f as [|f IH]; intros n; [done|]. cbn [dec_digits].
  pose proof (proj1 (digit_byte n)) as Hd.
  destruct (n <? 10); [cbn [forallb]; by rewrite Hd|].
  rewrite dec_digits_acc, forallb_app, IH. cbn [forallb]. by rewrite Hd.
Qed.

Lemma digits_value_snoc l d acc :
  forallb isdigit l = true → isdigit d = true →
  digits_value (l ++ [d]) acc = 10 * digits_value l acc + (b2z d - 48).
Proof.
  revert acc. induction l as [|c l IH]; intros acc Hl Hd; cbn [app digits_value forallb] in *.
  - by rewrite Hd.
  - apply andb_prop in Hl as [-> Hl]. by apply IH.
Qed.

Lemma digits_value_stop l b acc :
  forallb isdigit l = true → isdigit (default x00 (head b)) = false →
  digits_value (l ++ b) acc = digits_value l acc.
Proof.
  revert acc. induction l as [|c l IH]; intros acc Hl Hb; cbn [app digits_value forallb] in *.
  - destruct b as [|c b]; [done|]. cbn in *. by rewrite Hb.
  - apply andb_prop in Hl as [-> Hl]. by apply IH.
Qed.

Lemma dec_digits_value f n :
  0 ≤ n < 10 ^ Z.of_nat f → digits_value (dec_digits f n []) 0 = n.
Proof.
  revert n. induction f as [|f IH]; intros n Hn; [cbn in *; lia|]. cbn [dec_digits].
  destruct (digit_byte n) as [Hd Hv].
  destruct (n <? 10) eqn:Hs; z_bool.
  - cbn [digits_value]. rewrite Hd, Hv, Z.mod_small by lia. lia.
  - rewrite Nat2Z.inj_succ, Z.pow_succ_r in Hn by lia.
    rewrite dec_digits_acc, digits_value_snoc by (done || apply dec_digits_digits).
    rewrite Hv, IH; [pose proof (Z.div_mod n 10); lia|].
    split; [apply Z.div_pos; lia|apply Z.div_lt_upper_bound; lia].
Qed.

Lemma length_dec_digits f n acc : (length (dec_digits f n acc) ≤ f + length acc)%nat.
Proof.
  revert n acc. induction f as [|f IH]; intros n acc; cbn [dec_digits]; [lia|].
  destruct (n <? 10); [cbn; lia|]. etrans; [apply IH|]. cbn. lia.
Qed.

Lemma length_fmt_d z : (length (fmt_d z) ≤ 21)%nat.
Proof.
  unfold fmt_d, fmt_u. pose proof (length_dec_digits 20 z []). pose proof (length_dec_digits 20 (- z) []).
  destruct (z <? 0); cbn [length] in *; lia.
Qed.

Lemma dec_digits_nonempty f n acc : dec_digits (S f) n acc ≠ [].
Proof.
  revert n acc. induction f as [|f IH]; intros n acc; [cbn; by destruct (n <? 10)|].
  change (dec_digits (S (S f)) n acc) with
    (if n <? 10 then z2b (48 + n mod 10) :: acc
     else dec_digits (S f) (n / 10) (z2b (48 + n mod 10) :: acc)).
  destruct (n <? 10); [done|apply IH].
Qed.

Lemma fmt_u_cons n : ∃ d l, fmt_u n = d :: l ∧ isdigit d = true.
Proof.
  pose proof (dec_digits_digits 20 n) as Hd. fold (fmt_u n) in Hd.
  destruct (fmt_u n) as [|d l] eqn:Hl; [by apply dec_digits_nonempty in Hl|].
  exists d, l. by apply andb_prop in Hd as [? _].
Qed.

Lemma isdigit_plain c :
  isdigit c = true → isspace c = false ∧ c ≠ x2d ∧ c ≠ x2b.
Proof.
  unfold isdigit, isspace. intros Hc. z_bool. split_and!.
  - apply orb_false_intro; [apply bool_decide_eq_false_2; intros ->; cbn in *; lia|].
    apply andb_false_intro2. apply Z.leb_gt. lia.
  - intros ->. cbn in *. lia.
  - intros ->. cbn in *. lia.
Qed.

(** [strtol] reads back what [%d] printed, after any white space. *)
Lemma strtol_fmt_d a ws z b :
  forallb isspace ws = true → LONG_MIN < z < LONG_MAX →
  isdigit (default x00 (head b)) = false →
  strtol (a ++ ws ++ fmt_d z ++ b) (length a) = StrtolResult z true false.
Proof.
  intros Hws Hz Hb. unfold strtol.
  assert (Hn : ∀ n, 0 ≤ n ≤ LONG_MAX → digits_value (fmt_u n ++ b) 0 = n).
  { intros n Hn. rewrite digits_value_stop by (done || apply dec_digits_digits).
    apply dec_digits_value. unfold LONG_MAX in Hn. cbn. lia. }
  destruct (fmt_u_cons z) as (d & l & Hl & Hd).
  destruct (fmt_u_cons (- z)) as (d' & l' & Hl' & Hd').
  destruct (isdigit_plain _ Hd) as (Hsp & Hm & Hp).
  rewrite skip_space_app; [|done|].
  2: { unfold fmt_d. destruct (z <? 0); [done|]. by rewrite Hl. }
  rewrite (app_assoc a), drop_app_length' by (by rewrite length_app).
  unfold fmt_d. destruct (z <? 0) eqn:Hs; z_bool.
  - cbn [app]. rewrite bool_decide_eq_true_2 by done.
    rewrite Hn by (unfold LONG_MIN, LONG_MAX in *; lia).
    rewrite Hl'. cbn [app]. rewrite Hd'. cbn [negb].
    rewrite (proj2 (Z.ltb_ge _ _)), (proj2 (Z.ltb_ge _ _)) by (unfold LONG_MIN, LONG_MAX in *; lia).
    f_equal. lia.
  - specialize (Hn z ltac:(unfold LONG_MAX in *; lia)).
    rewrite Hl in *. cbn [app] in *.
    rewrite !bool_decide_eq_false_2 by done. cbn [app]. rewrite Hn, Hd. cbn [negb].
    rewrite (proj2 (Z.ltb_ge _ _)), (proj2 (Z.ltb_ge _ _)) by (unfold LONG_MIN, LONG_MAX in *; lia).
    done.
Qed.
