(* ===== verification/Generator.v ===== *)
(** * The registry generator

    [tools/generate_camkes_stream_registry.py]: the stream ids it assigns to
    the components of a CAmkES assembly and the JSON document it writes for
    the Mux to send.  The components, their console interfaces and the
    connections are inputs here; [GenText] finds them in the assembly's text.
    A Python string is the list of its code points, all below 256. *)

From S2P Require Import Prelude CString.

(* ------------------------------------------------------------------ *)
(** ** [json.dumps(value, sort_keys=True)] *)

(** The printed document as its chunks: string literals and what is between
    them. *)
Inductive chunk : Type := CStr (s : list byte) | CRaw (l : list byte).

(** A character of a literal, as the ASCII encoder of [json] escapes it. *)
Definition json_char (c : byte) : list byte :=
  if bool_decide (c = x22) || bool_decide (c = x5c) then [x5c; c]
  else if bool_decide (c = x0a) then [x5c; x6e]
  else if bool_decide (c = x0d) then [x5c; x72]
  else if bool_decide (c = x09) then [x5c; x74]
  else if bool_decide (c = x0c) then [x5c; x66]
  else if bool_decide (c = x08) then [x5c; x62]
  else if (0x20 <=? b2z c) && (b2z c <=? 0x7e) then [c]
  else [x5c; x75] ++ fmt_04x c.

Definition chunk_text (k : chunk) : list byte :=
  match k with
  | CStr s => [x22] ++ concat (map json_char s) ++ [x22]
  | CRaw l => l
  end.
Definition text (cs : list chunk) : list byte := concat (map chunk_text cs).

(** [", ".join(...)]. *)
Definition comma_sep (vs : list (list chunk)) : list chunk :=
  match vs with
  | [] => []
  | v :: vs' => v ++ concat (map (λ v, CRaw (bs ", ") :: v) vs')
  end.

Definition jstr (s : list byte) : list chunk := [CStr s].
Definition jint (z : Z) : list chunk := [CRaw (fmt_d z)].
Definition jlist (vs : list (list chunk)) : list chunk :=
  CRaw (bs "[") :: comma_sep vs ++ [CRaw (bs "]")].

(** [sorted(dct.items())]: strings are ordered by their code points. *)
Fixpoint str_le (a b : list byte) : bool :=
  match a, b with
  | [], _ => true
  | _ :: _, [] => false
  | x :: a', y :: b' =>
      if b2z x <? b2z y then true else if b2z y <? b2z x then false else str_le a' b'
  end.
Fixpoint insert_key {A} (kv : list byte * A) (l : list (list byte * A))
    : list (list byte * A) :=
  match l with
  | [] => [kv]
  | kv' :: l' => if str_le kv.1 kv'.1 then kv :: l else kv' :: insert_key kv l'
  end.
Definition sort_keys {A} (l : list (list byte * A)) : list (list byte * A) :=
  foldr insert_key [] l.

Definition jdict (fields : list (list byte * list chunk)) : list chunk :=
  CRaw (bs "{") ::
  comma_sep (map (λ kv, CStr kv.1 :: CRaw (bs ": ") :: kv.2) (sort_keys fields)) ++
  [CRaw (bs "}")].

(* ------------------------------------------------------------------ *)
(** ** The streams of the components *)

(** The kinds [CONSOLE_INTERFACE_RE] matches. *)
Inductive interface_kind : Type := PutChar | GetChar.
#[global] Instance interface_kind_eq_dec : EqDecision interface_kind.
Proof. solve_decision. Defined.

Record interface : Type := Interface { if_kind : interface_kind; if_name : list byte }.

Record stream : Type := Stream {
  st_id : Z;
  st_component : list byte;
  st_type : list byte;
  st_id_source : list byte;
  st_direction : list byte;
  st_interfaces : list interface
}.

Definition RESERVED_STREAM_IDS : list Z := [0; 0xfd; 0xfe].

(** [_next_stream_id]: each turn of the loop passes one reserved id, so as
    many turns as there are reserved ids are enough. *)
Fixpoint next_stream_id_loop (n : nat) (current : Z) : Z :=
  match n with
  | O => current
  | S n' => if bool_decide (current ∈ RESERVED_STREAM_IDS)
            then next_stream_id_loop n' (current + 1) else current
  end.
Definition next_stream_id (current : Z) : Z :=
  next_stream_id_loop (S (length RESERVED_STREAM_IDS)) current.

(** [_stream_direction]. *)
Definition stream_direction (interfaces : list interface) : list byte :=
  let kinds := if_kind <$> interfaces in
  let put := bool_decide (PutChar ∈ kinds) in
  let get := bool_decide (GetChar ∈ kinds) in
  if put && get then bs "bidirectional"
  else if put then bs "output"
  else if get then bs "input"
  else bs "none".

(** The loop of [_component_instances] over the matches of [COMPONENT_RE]
    (type and name); [None] is [ValueError]. *)
Fixpoint instances_loop (types : list byte → list interface)
    (matches : list (list byte * list byte)) (seen : list (list byte))
    (next_id : Z) : option (list stream) :=
  match matches with
  | [] => Some []
  | (component_type, component_name) :: rest =>
      if bool_decide (component_name ∈ seen) then None
      else
        let interfaces := types component_type in
        let '(id, source, next_id) :=
          match interfaces with
          | [] => (-1, bs "none", next_id)
          | _ :: _ => let id := next_stream_id next_id in
                      (id, bs "component.common.c", id + 1)
          end in
        s ← instances_loop types rest (component_name :: seen) next_id;
        Some (Stream id component_name component_type source
                (stream_direction interfaces) interfaces :: s)
  end.
Definition component_instances (types : list byte → list interface)
    (matches : list (list byte * list byte)) : option (list stream) :=
  match instances_loop types matches [] 1 with
  | Some (s :: l) => Some (s :: l)
  | _ => None
  end.

(* ------------------------------------------------------------------ *)
(** ** Sources and sinks of the Mux *)

(** A match of [CONNECTION_RE]. *)
Record connection : Type := Connection {
  from_component : list byte; from_interface : list byte;
  to_component : list byte; to_interface : list byte
}.

(** [stream_by_component[name]["stream_id"]], [None] for the two errors. *)
Definition stream_id_of (streams : list stream) (name : list byte) : option Z :=
  s ← find (λ s, bool_decide (st_component s = name)) streams;
  if st_id s <? 0 then None else Some (st_id s).

Record mux_source : Type := MuxSource {
  ms_component : list byte; ms_interface : list byte; ms_source : list byte; ms_id : Z
}.

Fixpoint mux_sources (conns : list connection) (streams : list stream)
    : option (list mux_source) :=
  match conns with
  | [] => Some []
  | c :: rest =>
      if negb (bool_decide (to_interface c = bs "mux_batch"))
      then mux_sources rest streams
      else
        id ← stream_id_of streams (from_component c);
        l ← mux_sources rest streams;
        Some (MuxSource (to_component c) (to_interface c) (from_component c) id :: l)
  end.

Record demux_sink : Type := DemuxSink {
  ds_component : list byte; ds_interface : list byte; ds_index : Z;
  ds_source : list byte; ds_id : Z
}.

(** [sinks_by_endpoint] is the list of the endpoints of the sinks so far. *)
Fixpoint demux_sinks (conns : list connection) (streams : list stream)
    (endpoints : list (list byte * list byte)) : option (list demux_sink) :=
  match conns with
  | [] => Some []
  | c :: rest =>
      match strstr (to_interface c) 0 (bs "getchar") with
      | None => demux_sinks rest streams endpoints
      | Some _ =>
          let target_key := (to_component c, to_interface c) in
          id ← stream_id_of streams (from_component c);
          let index := Z.of_nat (length (filter (λ e, e = target_key) endpoints)) in
          l ← demux_sinks rest streams (target_key :: endpoints);
          Some (DemuxSink (to_component c) (to_interface c) index (from_component c) id :: l)
      end
  end.

(* ------------------------------------------------------------------ *)
(** ** The registry *)

Definition kind_name (k : interface_kind) : list byte :=
  match k with PutChar => bs "PutChar" | GetChar => bs "GetChar" end.

Definition interface_json (i : interface) : list chunk :=
  jdict [(bs "kind", jstr (kind_name (if_kind i))); (bs "name", jstr (if_name i))].

Definition stream_json (s : stream) : list chunk :=
  jdict [(bs "stream_id", jint (st_id s));
         (bs "component", jstr (st_component s));
         (bs "type", jstr (st_type s));
         (bs "stream_id_source", jstr (st_id_source s));
         (bs "direction", jstr (st_direction s));
         (bs "interfaces", jlist (map interface_json (st_interfaces s)));
         (bs "aliases", jlist [])].

Definition mux_source_json (m : mux_source) : list chunk :=
  jdict [(bs "mux_component", jstr (ms_component m));
         (bs "mux_interface", jstr (ms_interface m));
         (bs "component", jstr (ms_source m));
         (bs "stream_id", jint (ms_id m))].

Definition demux_sink_json (d : demux_sink) : list chunk :=
  jdict [(bs "demux_component", jstr (ds_component d));
         (bs "demux_interface", jstr (ds_interface d));
         (bs "demux_client_index", jint (ds_index d));
         (bs "component", jstr (ds_source d));
         (bs "stream_id", jint (ds_id d))].

(** The document [virtioso_camkes_stream_registry_json], from the lists. *)
Definition registry_json (name source : list byte) (streams : list stream)
    (sources : list mux_source) (sinks : list demux_sink) : list byte :=
  text (jdict
    [(bs "schema", jstr (bs "virtioso.camkes_component_identity.v1"));
     (bs "name", jstr name);
     (bs "source", jstr source);
     (bs "streams", jlist (map stream_json streams));
     (bs "mux_sources", jlist (map mux_source_json sources));
     (bs "demux_sinks", jlist (map demux_sink_json sinks))]).

(** The part of [main] after the preprocessor: the streams and the document. *)
Definition generate (types : list byte → list interface)
    (matches : list (list byte * list byte)) (conns : list connection)
    (name source : list byte) : option (list stream * list byte) :=
  streams ← component_instances types matches;
  sources ← mux_sources conns streams;
  sinks ← demux_sinks conns streams [];
  Some (streams, registry_json name source streams sources sinks).
