(* ===== verification/Json.v ===== *)
(** * The registry's JSON scanners

    [json_string_value_after], [json_int_value_after],
    [json_find_matching], [json_find_array_after] and
    [json_find_key_before] of [host/tcu_com.c], and the JSON string printer
    [write_json_string].  They work on a C string with offsets for
    pointers.  The scanners do not allocate except [xstrndup], which is
    left to the caller (see [Registry.v]). *)

From S2P Require Import Prelude CString.

(** The closing quote of a string value; a backslash is refused. *)
Fixpoint string_end (l : list byte) (pos : nat) : option nat :=
  match l with
  | [] => None
  | c :: l' =>
      if bool_decide (c = x22) then Some pos
      else if bool_decide (c = x5c) then None
      else string_end l' (S pos)
  end.

(** [json_string_value_after]: the bytes handed to [xstrndup]. *)
Definition json_string_value_after (s : list byte) (start : nat) (key : list byte)
    : option (list byte) :=
  match strstr s start key with
  | None => None
  | Some pos =>
      let pos := skip_space s (pos + length key)%nat in
      if negb (bool_decide (char_at s pos = x3a)) then None
      else
        let pos := skip_space s (S pos) in
        if negb (bool_decide (char_at s pos = x22)) then None
        else
          let value_start := S pos in
          match string_end (drop value_start s) value_start with
          | None => None
          | Some value_end => Some (take (value_end - value_start) (drop value_start s))
          end
  end.

(** [json_int_value_after]: [Some value] is return code 0. *)
Definition json_int_value_after (s : list byte) (start : nat) (key : list byte)
    : option Z :=
  match strstr s start key with
  | None => None
  | Some pos =>
      let pos := skip_space s (pos + length key)%nat in
      if negb (bool_decide (char_at s pos = x3a)) then None
      else
        let r := strtol s (S pos) in
        let value := strtol_value r in
        if strtol_erange r || negb (strtol_found r) || (value <? -1) || (0xff <? value)
        then None else Some value
  end.

(** The loop of [json_find_matching]. *)
Fixpoint find_matching_from (open_ch close_ch : byte) (l : list byte) (pos : nat)
    (depth : Z) (in_string escaped : bool) : option nat :=
  match l with
  | [] => None
  | ch :: l' =>
      if in_string then
        if escaped then find_matching_from open_ch close_ch l' (S pos) depth true false
        else if bool_decide (ch = x5c) then
          find_matching_from open_ch close_ch l' (S pos) depth true true
        else if bool_decide (ch = x22) then
          find_matching_from open_ch close_ch l' (S pos) depth false false
        else find_matching_from open_ch close_ch l' (S pos) depth true false
      else if bool_decide (ch = x22) then
        find_matching_from open_ch close_ch l' (S pos) depth true escaped
      else if bool_decide (ch = open_ch) then
        find_matching_from open_ch close_ch l' (S pos) (depth + 1) false escaped
      else if bool_decide (ch = close_ch) then
        if depth - 1 =? 0 then Some pos
        else find_matching_from open_ch close_ch l' (S pos) (depth - 1) false escaped
      else find_matching_from open_ch close_ch l' (S pos) depth false escaped
  end.

Definition json_find_matching (s : list byte) (open : nat) (open_ch close_ch : byte)
    : option nat :=
  find_matching_from open_ch close_ch (drop open s) open 0 false false.

(** [json_find_array_after]: the offsets of the brackets. *)
Definition json_find_array_after (s : list byte) (start : nat) (key : list byte)
    : option (nat * nat) :=
  match strstr s start key with
  | None => None
  | Some pos =>
      let pos := skip_space s (pos + length key)%nat in
      if negb (bool_decide (char_at s pos = x3a)) then None
      else
        let pos := skip_space s (S pos) in
        if negb (bool_decide (char_at s pos = x5b)) then None
        else
          match json_find_matching s pos x5b x5d with
          | None => None
          | Some array_end => Some (pos, array_end)
          end
  end.

(** [json_find_key_before]. *)
Definition json_find_key_before (s : list byte) (start end_ : nat) (key : list byte)
    : option nat :=
  match strstr s start key with
  | None => None
  | Some pos => if (end_ <=? pos)%nat then None else Some pos
  end.

(** One character as [write_json_string] prints it. *)
Definition json_escape (p : byte) : list byte :=
  if bool_decide (p = x22) || bool_decide (p = x5c) then [x5c; p]
  else if bool_decide (p = x0a) then [x5c; x6e]
  else if bool_decide (p = x0d) then [x5c; x72]
  else if bool_decide (p = x09) then [x5c; x74]
  else if b2z p <? 0x20 then [x5c; x75] ++ fmt_04x p
  else [p].

(** [write_json_string]: the bytes written to the stream. *)
Definition write_json_string (value : list byte) : list byte :=
  [x22] ++ concat (map json_escape value) ++ [x22].

(* ------------------------------------------------------------------ *)
(** ** Lemmas: offsets stay inside the string *)

Lemma find_matching_bounds o c l pos d ins esc i :
  find_matching_from o c l pos d ins esc = Some i → (pos ≤ i < pos + length l)%nat.
Proof.
  revert pos d ins esc. induction l as [|ch l IH]; intros pos d ins esc Hf; [done|].
  cbn [find_matching_from length] in *.
  repeat case_match; try (apply IH in Hf; lia). simplify_eq. lia.
Qed.

Lemma json_find_matching_bounds s o oc cc i :
  json_find_matching s o oc cc = Some i → (o ≤ i < length s)%nat.
Proof.
  intros Hf. apply find_matching_bounds in Hf. rewrite length_drop in Hf. lia.
Qed.

Lemma json_find_array_bounds s start key a e :
  json_find_array_after s start key = Some (a, e) → (a ≤ e < length s)%nat.
Proof.
  unfold json_find_array_after. intros Hf. repeat case_match; simplify_eq.
  by eapply json_find_matching_bounds.
Qed.
