(* ===== verification/RegistryText.v ===== *)
(** * Scanning what the generator printed

    The host's scanners look for keys as quoted text and count brackets.  On
    a document printed by [json.dumps] whose literals need no escape, a key is
    found at the first literal equal to it, and a printed value is skipped as
    a whole. *)

From S2P Require Import Prelude CString Json Generator.

(** A character of the text between literals. *)
Definition raw_char (c : byte) : bool :=
  bool_decide (c ∈ bs "{}[],: -0123456789").

(** A character a literal shows as it is. *)
Definition plain_char (c : byte) : bool :=
  (0x20 <=? b2z c) && (b2z c <=? 0x7e) &&
  negb (bool_decide (c = x22)) && negb (bool_decide (c = x5c)).

Definition plain (s : list byte) : bool := forallb plain_char s.

Definition good_chunk (k : chunk) : bool :=
  match k with CStr s => plain s | CRaw l => forallb raw_char l end.
Definition good (cs : list chunk) : bool := forallb good_chunk cs.

(** A key the scanners look for: letters and underscores. *)
Definition key_char (c : byte) : bool :=
  ((97 <=? b2z c) && (b2z c <=? 122)) || (b2z c =? 95).
Definition key_ok (key : list byte) : bool :=
  forallb key_char key && negb (bool_decide (key = [])).

(** A printed value leaves the bracket counter where it was. *)
Definition bracket (o c : byte) : Prop := (o = x5b ∧ c = x5d) ∨ (o = x7b ∧ c = x7d).
Definition skipped (cs : list chunk) : Prop :=
  ∀ o c rest pos d, bracket o c → 1 ≤ d →
    find_matching_from o c (text cs ++ rest) pos d false false =
    find_matching_from o c rest (pos + length (text cs)) d false false.

(* ------------------------------------------------------------------ *)
(** ** Lemmas: the text of chunks *)

Lemma text_app a b : text (a ++ b) = text a ++ text b.
Proof. unfold text. by rewrite map_app, concat_app. Qed.

Lemma text_cons k cs : text (k :: cs) = chunk_text k ++ text cs.
Proof. done. Qed.

Lemma good_app a b : good (a ++ b) = good a && good b.
Proof. apply forallb_app. Qed.

Lemma plain_char_json c : plain_char c = true → json_char c = [c].
Proof.
  unfold plain_char, json_char. intros Hc. z_bool.
  rewrite !(bool_decide_eq_false_2 (c = _)) by (intros ->; cbn in *; done || lia).
  cbn [orb]. by rewrite (proj2 (Z.leb_le _ _)), (proj2 (Z.leb_le _ _)) by lia.
Qed.

Lemma plain_text s : plain s = true → chunk_text (CStr s) = [x22] ++ s ++ [x22].
Proof.
  intros Hs. cbn [chunk_text]. do 2 f_equal.
  induction s as [|c s IH]; [done|]. cbn in *. apply andb_prop in Hs as [Hc Hs].
  by rewrite plain_char_json, IH.
Qed.

Lemma plain_no_quote c : plain_char c = true → c ≠ x22 ∧ c ≠ x5c ∧ c ≠ x00.
Proof. unfold plain_char. intros Hc. z_bool. split_and!; [done..|]. intros ->. cbn in *. lia. Qed.

Lemma raw_char_ind (P : byte → Prop) :
  Forall P (bs "{}[],: -0123456789") → ∀ c, raw_char c = true → P c.
Proof. intros HP c Hc. unfold raw_char in Hc. z_bool. rewrite Forall_forall in HP. auto. Qed.

Lemma raw_char_spec c : raw_char c = true → c ≠ x22 ∧ c ≠ x00 ∧ key_char c = false.
Proof.
  apply (raw_char_ind (λ c, c ≠ x22 ∧ c ≠ x00 ∧ key_char c = false)). cbn.
  repeat (apply Forall_cons; split; [by vm_compute|]). apply Forall_nil. done.
Qed.

Lemma key_char_quote c : key_char c = true → c ≠ x22.
Proof. intros Hc ->. done. Qed.

Lemma good_no_nul cs : good cs = true → x00 ∉ text cs.
Proof.
  induction cs as [|k cs IH]; intros Hg; [apply not_elem_of_nil|].
  cbn [good forallb] in Hg. apply andb_prop in Hg as [Hk Hg].
  rewrite text_cons. apply not_elem_of_app. split; [|by apply IH].
  destruct k as [s|l]; [rewrite plain_text by done|]; cbn [chunk_text good_chunk] in *.
  - intros Hin. rewrite !elem_of_app, !list_elem_of_singleton in Hin.
    destruct Hin as [?|[Hin|?]]; [done| |done].
    unfold plain in Hk. rewrite forallb_forall in Hk.
    by apply list_elem_of_In, Hk, plain_no_quote in Hin as (_ & _ & ?).
  - intros Hin. rewrite forallb_forall in Hk.
    by apply list_elem_of_In, Hk, raw_char_spec in Hin as (_ & ? & _).
Qed.

(* ------------------------------------------------------------------ *)
(** ** Lemmas: finding a key *)

(** Text without a quote is passed. *)
Lemma strstr_unquoted key l r pos :
  x22 ∉ l →
  strstr_from (x22 :: key) (l ++ r) pos = strstr_from (x22 :: key) r (pos + length l).
Proof.
  intros Hl. apply strstr_from_skip. intros i Hi.
  destruct (lookup_lt_is_Some_2 l i Hi) as [c Hc].
  rewrite drop_app_le by lia. rewrite (drop_S _ _ _ Hc). cbn.
  rewrite bool_decide_eq_false_2; [done|]. intros <-.
  by apply Hl, (list_elem_of_lookup_2 _ i).
Qed.

Lemma prefix_key_literal key s r :
  plain s = true → key_ok key = true → s ≠ key →
  is_prefix (key ++ [x22]) (s ++ x22 :: r) = false.
Proof.
  intros Hs Hk Hne. apply not_true_iff_false. intros Hp.
  apply is_prefix_spec in Hp as [t Ht].
  unfold key_ok in Hk. apply andb_prop in Hk as [Hk _]. clear -Hs Hk Hne Ht.
  revert s Hs Hne Ht. induction key as [|k key IH]; intros [|c s] Hs Hne Ht;
    cbn [app plain key_ok forallb] in *; [done|..].
  - apply andb_prop in Hs as [Hs _]. apply plain_no_quote in Hs as [Hs _]. congruence.
  - injection Ht as <- _. apply andb_prop in Hk as [Hk _]. by apply key_char_quote in Hk.
  - injection Ht as <- Ht. apply andb_prop in Hs as [_ Hs]. apply andb_prop in Hk as [_ Hk].
    eapply (IH Hk s); [done| |done]. congruence.
Qed.

(** What follows a literal is not a letter of a key. *)
Lemma good_head cs r :
  good cs = true → key_char (default x00 (head (text cs ++ x22 :: r))) = false.
Proof.
  induction cs as [|[s|[|c l]] cs IH]; intros Hg; [done|done| |].
  - cbn in Hg. by apply IH.
  - cbn in Hg. apply andb_prop in Hg as [Hg _]. apply andb_prop in Hg as [Hc _].
    cbn. by apply raw_char_spec.
Qed.

Lemma prefix_key_end key r :
  key_ok key = true → key_char (default x00 (head r)) = false →
  is_prefix (x22 :: key ++ [x22]) (x22 :: r) = false.
Proof.
  unfold key_ok. intros Hk Hr. destruct key as [|k key]; [done|]. cbn in Hk.
  do 2 apply andb_prop in Hk as [Hk _]. cbn.
  destruct r as [|c r]; [done|]. cbn in *.
  rewrite (bool_decide_eq_false_2 (k = c)) by congruence. apply andb_false_r.
Qed.

(** A key is found at the first literal equal to it. *)
Lemma strstr_key key cs r pos :
  good cs = true → key_ok key = true → CStr key ∉ cs →
  strstr_from (x22 :: key ++ [x22]) (text cs ++ x22 :: key ++ [x22] ++ r) pos =
  Some (pos + length (text cs))%nat.
Proof.
  intros Hg Hk. revert pos. induction cs as [|k cs IH]; intros pos Hnot.
  { rewrite strstr_from_here; [cbn; f_equal; lia|].
    replace (text [] ++ _) with ((x22 :: key ++ [x22]) ++ r) by (cbn; by rewrite <-app_assoc).
    apply is_prefix_app. }
  pose proof Hg as Hg'. cbn [good forallb] in Hg. apply andb_prop in Hg as [Hc Hg].
  apply not_elem_of_cons in Hnot as [Hne Hnot].
  rewrite text_cons, <-app_assoc, length_app, Nat.add_assoc.
  destruct k as [s|l]; [rewrite (plain_text s) by done|]; cbn [good_chunk chunk_text] in *.
  - rewrite <-!app_assoc. cbn [app].
    set (rest := text cs ++ _) in *.
    assert (Hne' : s ≠ key) by (intros ->; by apply Hne).
    assert (Hp : is_prefix (x22 :: key ++ [x22]) (x22 :: s ++ x22 :: rest) = false).
    { cbn. by apply prefix_key_literal. }
    cbn [strstr_from]. rewrite Hp.
    rewrite strstr_unquoted.
    2: { intros Hin. unfold plain in Hc. rewrite forallb_forall in Hc.
         by apply list_elem_of_In, Hc, plain_no_quote in Hin as [? _]. }
    cbn [strstr_from]. rewrite prefix_key_end; [|done|by apply good_head].
    rewrite IH by done. f_equal. cbn. rewrite ?length_app. cbn. lia.
  - rewrite strstr_unquoted.
    2: { intros Hin. rewrite forallb_forall in Hc.
         by apply list_elem_of_In, Hc, raw_char_spec in Hin as [? _]. }
    by apply IH.
Qed.

(* ------------------------------------------------------------------ *)
(** ** Lemmas: counting brackets *)

Lemma skipped_app a b : skipped a → skipped b → skipped (a ++ b).
Proof.
  intros Ha Hb o c rest pos d Ho Hd. rewrite text_app, <-app_assoc, Ha, Hb by done.
  rewrite length_app. f_equal. lia.
Qed.

Lemma skipped_nil : skipped [].
Proof. intros o c rest pos d _ _. cbn. by rewrite Nat.add_0_r. Qed.

Lemma skipped_concat css : Forall skipped css → skipped (concat css).
Proof. induction 1; [apply skipped_nil|by apply skipped_app]. Qed.

Lemma matching_literal o c s rest pos d :
  plain s = true →
  find_matching_from o c (s ++ x22 :: rest) pos d true false =
  find_matching_from o c rest (S (pos + length s)) d false false.
Proof.
  revert pos. induction s as [|b s IH]; intros pos Hs; cbn [app find_matching_from].
  - rewrite bool_decide_eq_false_2 by done. rewrite bool_decide_eq_true_2 by done.
    f_equal. cbn. lia.
  - cbn in Hs. apply andb_prop in Hs as [Hb Hs]. apply plain_no_quote in Hb as (? & ? & _).
    rewrite !bool_decide_eq_false_2 by done. rewrite IH by done. f_equal. cbn. lia.
Qed.

Lemma skipped_str s : plain s = true → skipped [CStr s].
Proof.
  intros Hs o c rest pos d Ho Hd.
  rewrite text_cons, plain_text by done. cbn [text map concat].
  rewrite app_nil_r, <-!app_assoc. cbn [app find_matching_from].
  rewrite bool_decide_eq_true_2 by done. rewrite matching_literal by done.
  f_equal. cbn. rewrite ?length_app. cbn. lia.
Qed.

(** Text that is neither quote nor bracket. *)
Definition flat_char (c : byte) : bool := bool_decide (c ∈ bs ",: -0123456789").

Lemma flat_char_spec b o c :
  flat_char b = true → bracket o c → b ≠ x22 ∧ b ≠ o ∧ b ≠ c.
Proof.
  intros Hb Ho. unfold flat_char in Hb. z_bool.
  assert (Hf : Forall (λ b, b ≠ x22 ∧ b ≠ x5b ∧ b ≠ x5d ∧ b ≠ x7b ∧ b ≠ x7d)
    (bs ",: -0123456789")) by (vm_compute; repeat (apply Forall_cons; split; [done|]); by apply Forall_nil).
  rewrite Forall_forall in Hf. apply Hf in Hb.
  destruct Hb as (? & ? & ? & ? & ?), Ho as [[-> ->]|[-> ->]]; done.
Qed.

Lemma skipped_raw l : forallb flat_char l = true → skipped [CRaw l].
Proof.
  intros Hl o c rest pos d Ho Hd. cbn [text map concat chunk_text]. rewrite app_nil_r.
  revert pos. induction l as [|b l IH]; intros pos; cbn in *; [by rewrite Nat.add_0_r|].
  apply andb_prop in Hl as [Hb Hl]. destruct (flat_char_spec _ _ _ Hb Ho) as (? & ? & ?).
  rewrite !bool_decide_eq_false_2 by done. rewrite IH by done. f_equal. lia.
Qed.

(** A bracketed value, whichever brackets are counted. *)
Lemma skipped_wrap o' c' cs :
  bracket o' c' → skipped cs → skipped (CRaw [o'] :: cs ++ [CRaw [c']]).
Proof.
  intros Ho' Hcs o c rest pos d Ho Hd.
  rewrite text_cons, text_app. cbn [chunk_text text map concat app].
  rewrite <-app_assoc. cbn [app length]. rewrite length_app. cbn [length].
  destruct Ho as [[-> ->]|[-> ->]], Ho' as [[-> ->]|[-> ->]]; cbn [find_matching_from];
    rewrite !bool_decide_eq_false_2, ?bool_decide_eq_true_2 by done; cbv iota;
    rewrite Hcs by (unfold bracket; lia || auto); cbn [find_matching_from];
    rewrite !bool_decide_eq_false_2, ?bool_decide_eq_true_2 by done; cbv iota;
    rewrite ?(proj2 (Z.eqb_neq _ 0)) by lia; f_equal; lia.
Qed.

(** The matching bracket of a printed value. *)
Lemma matching_found o c a cs rest :
  bracket o c → skipped cs →
  json_find_matching (a ++ o :: text cs ++ c :: rest) (length a) o c =
  Some (length a + S (length (text cs)))%nat.
Proof.
  intros Ho Hcs. unfold json_find_matching. rewrite drop_app_length.
  assert (o ≠ x22 ∧ c ≠ x22 ∧ c ≠ o) as (? & ? & ?) by (by destruct Ho as [[-> ->]|[-> ->]]).
  cbn [find_matching_from]. rewrite (bool_decide_eq_false_2 (o = x22)) by done.
  rewrite bool_decide_eq_true_2 by done. rewrite Hcs by (done || lia).
  cbn [find_matching_from]. rewrite !bool_decide_eq_false_2, bool_decide_eq_true_2 by done.
  cbn. f_equal. lia.
Qed.

(* ------------------------------------------------------------------ *)
(** ** Lemmas: what the encoder prints is scanned as a value *)

(** A value: no character needs care, and the scanners step over it. *)
Definition value (cs : list chunk) : Prop := good cs = true ∧ skipped cs.

Lemma value_app a b : value a → value b → value (a ++ b).
Proof.
  intros [Ha ?] [Hb ?]. split; [by rewrite good_app, Ha, Hb|by apply skipped_app].
Qed.

Lemma value_raw l : forallb flat_char l = true → value [CRaw l].
Proof.
  intros Hl. split; [|by apply skipped_raw]. cbn. rewrite andb_true_r.
  rewrite forallb_forall in *. intros c Hc. apply Hl in Hc. unfold flat_char, raw_char in *.
  z_bool. fold (raw_char c).
  assert (Hf : forallb raw_char (bs ",: -0123456789") = true) by (vm_compute; reflexivity).
  rewrite forallb_forall in Hf. by apply Hf, list_elem_of_In.
Qed.

Lemma value_jstr s : plain s = true → value (jstr s).
Proof. intros Hs. split; [cbn; by rewrite Hs|by apply skipped_str]. Qed.

Lemma value_jint z : value (jint z).
Proof.
  apply value_raw. assert (Hu : ∀ n, forallb flat_char (fmt_u n) = true).
  { intros n. apply forallb_forall. intros c Hc.
    pose proof (dec_digits_digits 20 n) as Hd. rewrite forallb_forall in Hd.
    apply Hd in Hc. unfold isdigit in Hc. z_bool. rewrite <-(z2b_b2z c).
    assert (Hi : Z.to_nat (b2z c - 48) ∈ seq 0 10) by (apply elem_of_seq; lia).
    replace (b2z c) with (48 + Z.of_nat (Z.to_nat (b2z c - 48))) by lia.
    revert Hi. generalize (Z.to_nat (b2z c - 48)). apply Forall_forall.
    repeat (apply Forall_cons; split; [by vm_compute|]). by apply Forall_nil. }
  unfold fmt_d. destruct (z <? 0); [|apply Hu]. cbn [forallb]. by rewrite Hu.
Qed.

Lemma value_nil : value [].
Proof. split; [done|apply skipped_nil]. Qed.

Lemma value_comma_sep vs : Forall value vs → value (comma_sep vs).
Proof.
  intros Hvs. destruct Hvs as [|v vs Hv Hvs]; [apply value_nil|].
  apply value_app; [done|]. induction Hvs as [|w vs Hw _ IH]; [apply value_nil|].
  cbn [map concat]. apply value_app; [|done].
  apply (value_app [_]); [by apply value_raw|done].
Qed.

Lemma value_wrap o c cs : bracket o c → value cs → value (CRaw [o] :: cs ++ [CRaw [c]]).
Proof.
  intros Ho [Hg Hs]. split; [|by apply skipped_wrap].
  cbn [good forallb]. fold (good (cs ++ [CRaw [c]])). rewrite good_app, Hg.
  destruct Ho as [[-> ->]|[-> ->]]; by vm_compute.
Qed.

Lemma value_jlist vs : Forall value vs → value (jlist vs).
Proof. intros Hvs. apply value_wrap; [by left|by apply value_comma_sep]. Qed.

Lemma value_field k v :
  plain k = true → value v → value (CStr k :: CRaw (bs ": ") :: v).
Proof.
  intros Hk Hv. apply (value_app [_]); [by apply value_jstr|].
  apply (value_app [_]); [by apply value_raw|done].
Qed.
#[export] Hint Resolve value_jstr value_jint value_jlist value_field value_comma_sep : c_wp.

Lemma sort_keys_elem {A} (kv : list byte * A) l : kv ∈ sort_keys l → kv ∈ l.
Proof.
  assert (Hi : ∀ x m, kv ∈ insert_key x m → kv = x ∨ kv ∈ m).
  { intros x m. induction m as [|y m IH]; cbn [insert_key].
    - intros ?%list_elem_of_singleton. by left.
    - destruct (str_le _ _).
      + intros [?|?]%elem_of_cons; auto.
      + intros [->|Hin]%elem_of_cons; [by right; left|].
        destruct (IH Hin) as [?|?]; [by left|by right; right]. }
  induction l as [|x l IH]; cbn [sort_keys foldr]; [done|].
  intros [->|Hin]%Hi; [left|right; by apply IH].
Qed.
