(* ===== verification/Regex.v ===== *)
(** * Python's regular expressions

    What [tools/generate_camkes_stream_registry.py] uses of [re]: a matcher
    that tries alternatives in order and repetitions greedily, [search] and
    [finditer], over code points below 256; a relation [mt] that says what a
    match is, and that the matcher finds the leftmost one. *)

From S2P Require Import Prelude.

(** [\w] and [\s] of a [str] pattern. *)
Definition is_word (b : byte) : bool :=
  let z := b2z b in
  ((48 <=? z) && (z <=? 57)) || ((65 <=? z) && (z <=? 90)) || (z =? 95) || ((97 <=? z) && (z <=? 122)) ||
  existsb (Z.eqb z) [0xaa; 0xb2; 0xb3; 0xb5; 0xb9; 0xba; 0xbc; 0xbd; 0xbe] ||
  ((0xc0 <=? z) && negb (z =? 0xd7) && negb (z =? 0xf7)).

Definition is_space (b : byte) : bool :=
  let z := b2z b in
  ((9 <=? z) && (z <=? 13)) || ((28 <=? z) && (z <=? 32)) || (z =? 0x85) || (z =? 0xa0).

(** [[A-Za-z_]] and [[A-Za-z0-9_]]. *)
Definition id_start (b : byte) : bool :=
  let z := b2z b in ((65 <=? z) && (z <=? 90)) || (z =? 95) || ((97 <=? z) && (z <=? 122)).
Definition id_char (b : byte) : bool := id_start b || ((48 <=? b2z b) && (b2z b <=? 57)).

Inductive regex : Type :=
| Eps
| Chr (p : byte → bool)
| Many (p : byte → bool)                 (** [p*], greedy *)
| Cat (a b : regex)
| Alt (a b : regex)
| WordB                                  (** [\b] *)
| Group (a : regex).                     (** [( )]; never nested here *)

Definition lit (c : byte) : regex := Chr (λ b, bool_decide (b = c)).
Definition lits (l : list byte) : regex := foldr (λ c, Cat (lit c)) Eps l.
Fixpoint cats (l : list regex) : regex :=
  match l with [] => Eps | [r] => r | r :: l' => Cat r (cats l') end.
Definition many1 (p : byte → bool) : regex := Cat (Chr p) (Many p).
Definition opt (a : regex) : regex := Alt a Eps.

(** Is there a boundary before [s]?  [prev] says whether it comes after a word
    character. *)
Definition boundary (prev : bool) (s : list byte) : bool :=
  xorb prev (match s with c :: _ => is_word c | [] => false end).

(** Does what follows [u] come after a word character? *)
Definition after (prev : bool) (u : list byte) : bool :=
  match last u with Some c => is_word c | None => prev end.

Section Run.
Context {A : Type}.

Fixpoint run_many (p : byte → bool) (prev : bool) (s : list byte)
    (k : bool → list byte → option A) : option A :=
  match s with
  | c :: s' =>
      if p c then match run_many p (is_word c) s' k with Some x => Some x | None => k prev s end
      else k prev s
  | [] => k prev s
  end.

(** [r] from here on, then [k]: the groups, what came before, the rest. *)
Fixpoint run (r : regex) (caps : list (list byte)) (prev : bool) (s : list byte)
    (k : list (list byte) → bool → list byte → option A) : option A :=
  match r with
  | Eps => k caps prev s
  | Chr p => match s with c :: s' => if p c then k caps (is_word c) s' else None | [] => None end
  | Many p => run_many p prev s (k caps)
  | Cat a b => run a caps prev s (λ caps prev s, run b caps prev s k)
  | Alt a b => match run a caps prev s k with Some x => Some x | None => run b caps prev s k end
  | WordB => if boundary prev s then k caps prev s else None
  | Group a =>
      run a caps prev s (λ caps prev s', k (caps ++ [take (length s - length s') s]) prev s')
  end.
End Run.

(** A match: its groups, whether it ended with a word character, the rest. *)
Definition found : Type := list (list byte) * bool * list byte.

Definition match_here (r : regex) (prev : bool) (s : list byte) : option found :=
  run r [] prev s (λ caps prev s, Some (caps, prev, s)).

(** [pattern.search] from a position on. *)
Fixpoint search (r : regex) (prev : bool) (s : list byte) : option found :=
  match match_here r prev s with
  | Some f => Some f
  | None => match s with c :: s' => search r (is_word c) s' | [] => None end
  end.

(** [pattern.finditer], for patterns that do not match the empty string: at
    most one match per character. *)
Fixpoint finditer_loop (n : nat) (r : regex) (prev : bool) (s : list byte) : list (list (list byte)) :=
  match n with
  | O => []
  | S n' =>
      match search r prev s with
      | Some (caps, prev', s') => caps :: finditer_loop n' r prev' s'
      | None => []
      end
  end.
Definition finditer (r : regex) (s : list byte) : list (list (list byte)) := finditer_loop (length s) r false s.

(* ------------------------------------------------------------------ *)
(** ** What a match is *)

(** [r] matches [u], after [prev] and before [s], with the groups [cs]. *)
Inductive mt : regex → bool → list byte → list byte → list (list byte) → Prop :=
| mt_eps prev s : mt Eps prev [] s []
| mt_chr p prev c s : p c = true → mt (Chr p) prev [c] s []
| mt_many p prev u s : Forall (λ c, p c = true) u → mt (Many p) prev u s []
| mt_cat a b prev u v s ca cb :
    mt a prev u (v ++ s) ca → mt b (after prev u) v s cb → mt (Cat a b) prev (u ++ v) s (ca ++ cb)
| mt_alt_l a b prev u s cs : mt a prev u s cs → mt (Alt a b) prev u s cs
| mt_alt_r a b prev u s cs : mt b prev u s cs → mt (Alt a b) prev u s cs
| mt_wordb prev s : boundary prev s = true → mt WordB prev [] s []
| mt_group a prev u s cs : mt a prev u s cs → mt (Group a) prev u s (cs ++ [u]).

(* ------------------------------------------------------------------ *)
(** ** Lemmas *)

Lemma after_app prev u v : after prev (u ++ v) = after (after prev u) v.
Proof.
  unfold after. destruct v as [|c v] using rev_ind; [by rewrite app_nil_r; destruct (last u)|].
  by rewrite app_assoc, !last_snoc.
Qed.

Lemma after_cons prev c u : after prev (c :: u) = after (is_word c) u.
Proof. apply (after_app prev [c] u). Qed.

Lemma run_many_sound {A} p prev s (k : bool → list byte → option A) x :
  run_many p prev s k = Some x →
  ∃ u s', s = u ++ s' ∧ Forall (λ c, p c = true) u ∧ k (after prev u) s' = Some x.
Proof.
  revert prev. induction s as [|c s IH]; intros prev; cbn [run_many]; [by exists [], []|].
  destruct (p c) eqn:Hp; [|by exists [], (c :: s)].
  destruct (run_many p (is_word c) s k) as [y|] eqn:Hr; [|by exists [], (c :: s)].
  intros [= <-]. destruct (IH _ Hr) as (u & s' & -> & Hu & Hk). exists (c :: u), s'. split; [done|].
  split; [by constructor|by rewrite after_cons].
Qed.

Lemma run_sound {A} r caps prev s (k : list (list byte) → bool → list byte → option A) x :
  run r caps prev s k = Some x →
  ∃ u s' cs, s = u ++ s' ∧ mt r prev u s' cs ∧ k (caps ++ cs) (after prev u) s' = Some x.
Proof.
  revert caps prev s k x. induction r as [|p|p|a IHa b IHb|a IHa b IHb| |a IHa]; intros caps prev s k x; cbn [run].
  - intros Hk. exists [], s, []. rewrite app_nil_r. by repeat constructor.
  - destruct s as [|c s]; [done|]. destruct (p c) eqn:Hp; [|done]. intros Hk.
    exists [c], s, []. rewrite app_nil_r. by repeat constructor.
  - intros (u & s' & -> & Hu & Hk)%run_many_sound. exists u, s', []. rewrite app_nil_r. by repeat constructor.
  - intros (u & s1 & ca & -> & Ha & Hk)%IHa. apply IHb in Hk as (v & s' & cb & -> & Hb & Hk).
    exists (u ++ v), s', (ca ++ cb). rewrite after_app, !app_assoc. rewrite <-app_assoc in Hk |- *.
    split; [done|]. split; [by constructor|by rewrite <-app_assoc].
  - destruct (run a caps prev s k) as [y|] eqn:Ha.
    + intros [= <-]. destruct (IHa _ _ _ _ _ Ha) as (u & s' & cs & Hs & Hm & Hk). exists u, s', cs.
      by repeat constructor.
    + intros (u & s' & cs & Hs & Hm & Hk)%IHb. exists u, s', cs. split; [done|]. split; [by apply mt_alt_r|done].
  - destruct (boundary prev s) eqn:Hb; [|done]. intros Hk. exists [], s, []. rewrite app_nil_r. by repeat constructor.
  - intros (u & s' & cs & -> & Hm & Hk)%IHa. exists u, s', (cs ++ [u]). split; [done|]. split; [by constructor|].
    rewrite length_app, Nat.add_sub, take_app_length, <-app_assoc in Hk. by rewrite app_assoc in Hk |- *.
Qed.

Lemma run_many_complete {A} p prev u s (k : bool → list byte → option A) :
  Forall (λ c, p c = true) u → is_Some (k (after prev u) s) → is_Some (run_many p prev (u ++ s) k).
Proof.
  intros Hu. revert prev. induction Hu as [|c u Hc _ IH]; intros prev Hk; cbn [app run_many].
  - destruct s as [|c s]; [done|]. cbn [run_many]. destruct (p c); [|done]. by destruct (run_many _ _ _ _).
  - rewrite Hc. rewrite after_cons in Hk. by destruct (IH _ Hk) as [x ->].
Qed.

Lemma run_complete {A} r prev u s cs : mt r prev u s cs → ∀ caps (k : _ → _ → _ → option A),
  is_Some (k (caps ++ cs) (after prev u) s) → is_Some (run r caps prev (u ++ s) k).
Proof.
  induction 1 as [prev s|p prev c s Hp|p prev u s Hu|a b prev u v s ca cb _ IHa _ IHb|a b prev u s cs _ IH
    |a b prev u s cs _ IH|prev s Hb|a prev u s cs _ IH]; intros caps k Hk; cbn [run app].
  - by rewrite app_nil_r in Hk.
  - by rewrite Hp, app_nil_r in *.
  - rewrite app_nil_r in Hk. by apply run_many_complete.
  - rewrite <-app_assoc. apply IHa, IHb. by rewrite <-after_app, <-app_assoc.
  - destruct (IH caps k Hk) as [x ->]. done.
  - destruct (run a _ _ _ _); [done|]. by apply IH.
  - by rewrite Hb, app_nil_r in *.
  - apply IH. rewrite length_app, Nat.add_sub, take_app_length, <-app_assoc. done.
Qed.

Lemma match_here_sound r prev s cs prev' s' :
  match_here r prev s = Some (cs, prev', s') →
  ∃ u, s = u ++ s' ∧ prev' = after prev u ∧ mt r prev u s' cs.
Proof. intros (u & s1 & cs1 & -> & Hm & [= <- <- <-])%run_sound. by exists u. Qed.

Lemma match_here_none r prev s :
  match_here r prev s = None ↔ ∀ u s' cs, s = u ++ s' → ¬ mt r prev u s' cs.
Proof.
  split.
  - intros Hn u s' cs -> Hm. unfold match_here in Hn.
    destruct (run_complete _ _ _ _ _ Hm [] (λ caps prev s, Some (caps, prev, s))) as [x Hx]; [by eexists|].
    by rewrite Hn in Hx.
  - intros Hno. destruct (match_here r prev s) as [[[cs p'] s']|] eqn:Hf; [|done].
    apply match_here_sound in Hf as (u & -> & _ & Hm). by edestruct Hno.
Qed.

(** [search] finds the leftmost match, if there is one. *)
Lemma search_sound r prev s cs prev' s' :
  search r prev s = Some (cs, prev', s') →
  ∃ x u, s = x ++ u ++ s' ∧ prev' = after prev (x ++ u) ∧ mt r (after prev x) u s' cs ∧
    ∀ x1 x2, x = x1 ++ x2 → x2 ≠ [] → match_here r (after prev x1) (x2 ++ u ++ s') = None.
Proof.
  revert prev. induction s as [|c s IH]; intros prev; cbn [search].
  - destruct (match_here r prev []) as [[[cs1 p1] s1]|] eqn:Hm; [|done]. intros [= <- <- <-].
    apply match_here_sound in Hm as (u & Hs & -> & Hm). exists [], u. split_and!; try done.
    by intros [|] [|] [=].
  - destruct (match_here r prev (c :: s)) as [[[cs1 p1] s1]|] eqn:Hm.
    + intros [= <- <- <-]. apply match_here_sound in Hm as (u & Hs & -> & Hm). exists [], u. split_and!; try done.
      by intros [|] [|] [=].
    + intros (x & u & -> & -> & Hu & Hno)%IH. exists (c :: x), u. cbn [app]. rewrite !after_cons.
      split_and!; try done. intros [|c1 x1] x2 Hx H2; cbn in Hx; subst; [exact Hm|].
      injection Hx as <- ->. rewrite after_cons. by apply Hno.
Qed.

Lemma search_none r prev s :
  search r prev s = None → ∀ x y, s = x ++ y → match_here r (after prev x) y = None.
Proof.
  revert prev. induction s as [|c s IH]; intros prev; cbn [search].
  - destruct (match_here r prev []) eqn:Hm; [done|]. intros _ [|] [|] [=]. exact Hm.
  - destruct (match_here r prev (c :: s)) eqn:Hm; [done|]. intros Hs [|c1 x] y [=]; subst; [exact Hm|].
    rewrite after_cons. by eapply IH.
Qed.

Lemma search_skip r prev x y :
  (∀ x1 x2, x = x1 ++ x2 → x2 ≠ [] → match_here r (after prev x1) (x2 ++ y) = None) →
  search r prev (x ++ y) = search r (after prev x) y.
Proof.
  revert prev. induction x as [|c x IH]; intros prev Hno; [done|]. cbn [app search].
  pose proof (Hno [] (c :: x) eq_refl ltac:(done)) as H0. cbn [app] in H0. unfold after in H0 at 1. cbn in H0.
  rewrite H0, after_cons. apply IH. intros x1 x2 -> H2. rewrite <-(after_cons prev). by apply (Hno (c :: x1)).
Qed.

Lemma search_here r prev s f : match_here r prev s = Some f → search r prev s = Some f.
Proof. destruct s; cbn; by intros ->. Qed.

(** *** Patterns that end at a byte *)

Definition all_bytes : list byte := map z2b (seqZ 0 256).

Lemma all_bytes_elem b : b ∈ all_bytes.
Proof.
  apply list_elem_of_In, in_map_iff. exists (b2z b). split; [apply z2b_b2z|].
  apply list_elem_of_In, elem_of_seqZ. pose proof (b2z_range b). lia.
Qed.

(** No part of [r] takes a [t]. *)
Fixpoint avoids (t : byte) (r : regex) : bool :=
  match r with
  | Eps | WordB => true
  | Chr p | Many p => negb (p t)
  | Cat a b | Alt a b => avoids t a && avoids t b
  | Group a => avoids t a
  end.

(** Every match ends with its only [t]. *)
Fixpoint ends (t : byte) (r : regex) : bool :=
  match r with
  | Chr p => forallb (λ b, Bool.eqb (p b) (bool_decide (b = t))) all_bytes
  | Cat a b => avoids t a && ends t b
  | _ => false
  end.

(** Every match has a [q]. *)
Fixpoint requires (q : byte) (r : regex) : bool :=
  match r with
  | Chr p => forallb (λ b, negb (p b) || bool_decide (b = q)) all_bytes
  | Cat a b => requires q a || requires q b
  | Alt a b => requires q a && requires q b
  | Group a => requires q a
  | _ => false
  end.

Lemma mt_avoids t r prev u s cs : mt r prev u s cs → avoids t r = true → t ∉ u.
Proof.
  induction 1 as [|p prev c s Hp|p prev u s Hu|a b ? u v ??? _ IHa _ IHb|a b ???? _ IH|a b ???? _ IH| |a ???? _ IH];
    cbn [avoids]; rewrite ?andb_true_iff, ?negb_true_iff; intros Hav.
  - apply not_elem_of_nil.
  - rewrite list_elem_of_singleton. intros ->. congruence.
  - intros Ht. rewrite Forall_forall in Hu. rewrite (Hu _ Ht) in Hav. done.
  - rewrite not_elem_of_app. tauto.
  - tauto.
  - tauto.
  - apply not_elem_of_nil.
  - auto.
Qed.

Lemma mt_ends t r prev u s cs : mt r prev u s cs → ends t r = true → ∃ v, u = v ++ [t] ∧ t ∉ v.
Proof.
  induction 1 as [|p prev c s Hp|p prev u s Hu|a b prev u v s ca cb Ha _ Hb IHb|a b ???? _ IH|a b ???? _ IH| |a ???? _ IH];
    cbn [ends]; rewrite ?andb_true_iff; try done.
  - rewrite forallb_forall. intros He. specialize (He c). rewrite Hp in He.
    destruct (bool_decide (c = t)) eqn:Hc; [|discriminate He; apply list_elem_of_In, all_bytes_elem].
    apply bool_decide_eq_true in Hc as ->. exists []. split; [done|apply not_elem_of_nil].
  - intros [Hav He]. destruct (IHb He) as (w & -> & Hw). exists (u ++ w). rewrite app_assoc. split; [done|].
    rewrite not_elem_of_app. split; [by eapply mt_avoids|done].
Qed.

Lemma mt_requires q r prev u s cs : mt r prev u s cs → requires q r = true → q ∈ u.
Proof.
  induction 1 as [|p prev c s Hp|p prev u s Hu|a b ? u v ??? _ IHa _ IHb|a b ???? _ IH|a b ???? _ IH| |a ???? _ IH];
    cbn [requires]; rewrite ?andb_true_iff, ?orb_true_iff, ?elem_of_app; try done.
  - rewrite forallb_forall. intros He. specialize (He c). rewrite Hp in He. cbn in He.
    rewrite list_elem_of_singleton. symmetry. eapply bool_decide_eq_true, He.
    apply list_elem_of_In, all_bytes_elem.
  - tauto.
  - tauto.
  - tauto.
Qed.

Lemma mt_nonempty t r prev s cs : ends t r = true → ¬ mt r prev [] s cs.
Proof. intros He Hm. by destruct (mt_ends t _ _ _ _ _ Hm He) as ([|] & [=] & _). Qed.

(** What is left of [y ++ t :: rest], seen from [y ++ [t]]: parts that do not
    take a [t] go the same way on both. *)
Section Local.
Context (t : byte) {A B : Type} (R : A → B → Prop).
Local Abbreviation same := (option_Forall2 R).

Lemma same_or a a' b b' :
  same a a' → same b b' →
  same (match a with Some x => Some x | None => b end) (match a' with Some x => Some x | None => b' end).
Proof. intros [x y H|] Hb; [by constructor|done]. Qed.

Lemma run_many_local p prev y rest (k : bool → list byte → option A) (k' : bool → list byte → option B) :
  p t = false → (∀ prev y1 y2, y = y1 ++ y2 → same (k prev (y2 ++ t :: rest)) (k' prev (y2 ++ [t]))) →
  same (run_many p prev (y ++ t :: rest) k) (run_many p prev (y ++ [t]) k').
Proof.
  intros Ht Hk. revert prev. induction y as [|c y IH]; intros prev; cbn [app run_many].
  - rewrite Ht. by apply (Hk _ [] []).
  - destruct (p c); [|by apply (Hk _ [] (c :: y))]. apply same_or; [|by apply (Hk _ [] (c :: y))].
    apply IH. intros q y1 y2 ->. by apply (Hk _ (c :: y1)).
Qed.

Lemma run_local r caps prev y rest (k : list (list byte) → bool → list byte → option A) k' :
  avoids t r = true →
  (∀ caps prev y1 y2, y = y1 ++ y2 → same (k caps prev (y2 ++ t :: rest)) (k' caps prev (y2 ++ [t]))) →
  same (run r caps prev (y ++ t :: rest) k) (run r caps prev (y ++ [t]) k').
Proof.
  revert caps prev y k k'. induction r as [|p|p|a IHa b IHb|a IHa b IHb| |a IHa]; intros caps prev y k k';
    cbn [avoids run]; rewrite ?andb_true_iff, ?negb_true_iff; intros Hav Hk.
  - by apply (Hk _ _ [] y).
  - destruct y as [|c y]; cbn [app]; [rewrite Hav; constructor|].
    destruct (p c); [by apply (Hk _ _ [c] y)|constructor].
  - apply run_many_local; [done|]. intros. by eapply Hk.
  - apply IHa; [tauto|]. intros caps1 prev1 y1 y2 ->. apply IHb; [tauto|]. intros caps2 prev2 z1 z2 ->.
    apply (Hk _ _ (y1 ++ z1) z2). by rewrite app_assoc.
  - apply same_or; [apply IHa|apply IHb]; tauto.
  - unfold boundary. destruct y as [|c y]; cbn [app]; (destruct (xorb _ _); [|constructor]); [by apply (Hk _ _ [] [])|by apply (Hk _ _ [] (c :: y))].
  - apply IHa; [done|]. intros caps1 prev1 y1 y2 ->. rewrite !length_app. cbn [length].
    replace (length y1 + length y2 + S (length rest) - (length y2 + S (length rest)))%nat with (length y1) by lia.
    replace (length y1 + length y2 + 1 - (length y2 + 1))%nat with (length y1) by lia.
    rewrite <-!app_assoc, !take_app_length. by eapply Hk.
Qed.

Lemma run_ends r caps prev y rest (k : list (list byte) → bool → list byte → option A) k' :
  ends t r = true → t ∉ y → (∀ caps prev, same (k caps prev rest) (k' caps prev [])) →
  same (run r caps prev (y ++ t :: rest) k) (run r caps prev (y ++ [t]) k').
Proof.
  revert caps prev y k k'. induction r as [|p|p|a _ b IHb| | |]; intros caps prev y k k'; cbn [ends run];
    rewrite ?andb_true_iff; try done.
  - intros He Hy Hk. rewrite forallb_forall in He.
    destruct y as [|c y]; cbn [app]; [destruct (p t); [done|constructor]|].
    specialize (He c). apply not_elem_of_cons in Hy as [Hc _]. rewrite bool_decide_eq_false_2 in He by done.
    destruct (p c); [|constructor]. discriminate He. apply list_elem_of_In, all_bytes_elem.
  - intros [Hav He] Hy Hk. apply run_local; [done|]. intros caps1 prev1 y1 y2 ->.
    apply not_elem_of_app in Hy as [_ Hy]. by apply IHb.
Qed.
End Local.

(** A match of such a pattern is the same whatever follows. *)
Lemma match_here_local t r prev y rest :
  ends t r = true → t ∉ y →
  match_here r prev (y ++ t :: rest) =
  match match_here r prev (y ++ [t]) with Some (cs, q, _) => Some (cs, q, rest) | None => None end.
Proof.
  intros He Hy. unfold match_here.
  assert (Hr : option_Forall2 (λ f f', f = let '(cs, q, _) := f' in (cs, q, rest))
    (run r [] prev (y ++ t :: rest) (λ cs q s, Some (cs, q, s)))
    (run r [] prev (y ++ [t]) (λ cs q s, Some (cs, q, s)))).
  { apply run_ends; [done..|]. intros. by constructor. }
  destruct Hr as [f [[cs q] s] ->|]; done.
Qed.

(** A statement's match, if it has one: [y] up to its [t]. *)
Definition stmt (r : regex) (t : byte) (y : list byte) : list (list (list byte)) :=
  match search r false (y ++ [t]) with Some (cs, _, _) => [cs] | None => [] end.

Lemma search_local t r prev y rest :
  ends t r = true → is_word t = false → t ∉ y →
  search r prev (y ++ t :: rest) =
  match search r prev (y ++ [t]) with
  | Some (cs, _, _) => Some (cs, false, rest)
  | None => search r false rest
  end.
Proof.
  intros He Hw Hy. revert prev. induction y as [|c y IH]; intros prev.
  - pose proof (match_here_local t r prev [] rest He Hy) as Hl. cbn [app] in Hl. cbn [app search]. rewrite Hl.
    destruct (match_here r prev [t]) as [[[cs q] s]|] eqn:Hm.
    + apply match_here_sound in Hm as (u & Hu & -> & Hm).
      destruct (mt_ends t _ _ _ _ _ Hm He) as (v & -> & _). unfold after. by rewrite last_snoc, Hw.
    + rewrite Hw. replace (match_here r false []) with (@None found); [done|]. symmetry.
      apply match_here_none. intros u s' cs Hu Hm1. destruct u; [by eapply mt_nonempty|done].
  - pose proof (match_here_local t r prev (c :: y) rest He Hy) as Hl. cbn [app] in Hl.
    apply not_elem_of_cons in Hy as [_ Hy]. cbn [app search]. rewrite Hl.
    destruct (match_here r prev (c :: y ++ [t])) as [[[cs q] s]|] eqn:Hm; [|by apply IH].
    apply match_here_sound in Hm as (u & Hu & -> & Hm).
    destruct (mt_ends t _ _ _ _ _ Hm He) as (v & -> & _). unfold after. by rewrite last_snoc, Hw.
Qed.

Lemma search_shorter t r prev s cs q s' : ends t r = true → search r prev s = Some (cs, q, s') → (length s' < length s)%nat.
Proof.
  intros He (x & u & -> & _ & Hm & _)%search_sound. destruct (mt_ends t _ _ _ _ _ Hm He) as (v & -> & _).
  rewrite !length_app. cbn. lia.
Qed.

Lemma finditer_enough t r n prev s :
  ends t r = true → (length s ≤ n)%nat → finditer_loop n r prev s = finditer_loop (length s) r prev s.
Proof.
  intros He. revert prev s. induction n as [n IH] using lt_wf_ind. intros prev s Hn.
  destruct (search r prev s) as [[[cs q] s']|] eqn:Hs.
  - pose proof (search_shorter t r _ _ _ _ _ He Hs). destruct n as [|n]; [lia|].
    destruct (length s) as [|m] eqn:Hm; [lia|]. cbn [finditer_loop]. rewrite Hs.
    rewrite (IH n), (IH m) by lia. done.
  - destruct n, (length s); cbn [finditer_loop]; by rewrite ?Hs.
Qed.

(** [finditer] goes statement by statement. *)
Lemma finditer_statements t r ys tail :
  ends t r = true → is_word t = false → Forall (λ y, t ∉ y) ys → t ∉ tail →
  finditer r (concat (map (λ y, y ++ [t]) ys) ++ tail) = concat (map (stmt r t) ys).
Proof.
  intros He Hw Hys Ht. unfold finditer.
  assert (Htail : search r false tail = None).
  { destruct (search r false tail) as [[[cs q] s']|] eqn:Hs; [|done]. exfalso.
    apply search_sound in Hs as (x & u & -> & _ & Hm & _). destruct (mt_ends t _ _ _ _ _ Hm He) as (v & -> & _).
    apply Ht. rewrite !elem_of_app, list_elem_of_singleton. auto. }
  induction Hys as [|y ys Hy _ IH]; cbn [map concat app].
  { by destruct (length tail); cbn [finditer_loop]; rewrite ?Htail. }
  set (rest := concat (map (λ y, y ++ [t]) ys) ++ tail) in *.
  rewrite <-(app_assoc y [t]), <-app_assoc. cbn [app]. fold rest.
  rewrite <-(finditer_enough t r (S (length (y ++ t :: rest)))) by (done || lia).
  cbn [finditer_loop]. rewrite (search_local t) by done. unfold stmt at 1.
  destruct (search r false (y ++ [t])) as [[[cs q] s]|]; cbn [app]; rewrite <-IH.
  - rewrite (finditer_enough t); [done..|]. rewrite length_app. cbn. lia.
  - rewrite <-(finditer_enough t r (S (length (y ++ t :: rest)))); [done..|].
    rewrite length_app. cbn. lia.
Qed.

(** *** Going forward *)

(** The text after a greedy repetition. *)
Definition stops (p : byte → bool) (s : list byte) : Prop := match s with c :: _ => p c = false | [] => True end.

(** The matcher goes over [u], if what follows succeeds. *)
Definition takes (r : regex) (caps : list (list byte)) (prev : bool) (u s : list byte) (caps' : list (list byte)) : Prop :=
  ∀ A (k : list (list byte) → bool → list byte → option A) x,
    k caps' (after prev u) s = Some x → run r caps prev (u ++ s) k = Some x.

Lemma takes_cat a b caps prev u v s caps1 caps2 :
  takes a caps prev u (v ++ s) caps1 → takes b caps1 (after prev u) v s caps2 →
  takes (Cat a b) caps prev (u ++ v) s caps2.
Proof. intros Ha Hb A k x Hk. rewrite <-app_assoc. cbn. apply Ha, Hb. by rewrite <-after_app. Qed.

Lemma takes_chr p caps prev c s : p c = true → takes (Chr p) caps prev [c] s caps.
Proof. intros Hc A k x Hk. cbn. by rewrite Hc. Qed.

Lemma takes_lit c caps prev s : takes (lit c) caps prev [c] s caps.
Proof. apply takes_chr. by apply bool_decide_eq_true. Qed.

Lemma takes_lits l caps prev s : takes (lits l) caps prev l s caps.
Proof.
  revert prev. induction l as [|c l IH]; intros prev; [by intros A k x Hk|].
  apply (takes_cat (lit c) (lits l) caps prev [c] l s caps caps); [apply takes_lit|apply IH].
Qed.

Lemma takes_many p caps prev u s :
  Forall (λ c, p c = true) u → stops p s → takes (Many p) caps prev u s caps.
Proof.
  intros Hu Hs A k x Hk. cbn. revert prev Hk. induction Hu as [|c u Hc _ IH]; intros prev Hk; cbn [app run_many].
  - destruct s as [|c s]; cbn [run_many]; [done|]. cbn in Hs. by rewrite Hs.
  - rewrite Hc. rewrite after_cons in Hk. by rewrite (IH _ Hk).
Qed.

Lemma takes_many1 p caps prev u s :
  u ≠ [] → Forall (λ c, p c = true) u → stops p s → takes (many1 p) caps prev u s caps.
Proof.
  intros Hne Hu Hs. destruct Hu as [|c u Hc Hu]; [done|].
  apply (takes_cat (Chr p) (Many p) caps prev [c] u s caps caps); [by apply takes_chr|by apply takes_many].
Qed.

Lemma takes_group a caps prev u s caps' : takes a caps prev u s caps' → takes (Group a) caps prev u s (caps' ++ [u]).
Proof.
  intros Ha A k x Hk. cbn. apply Ha. rewrite length_app, Nat.add_sub. by rewrite take_app_length.
Qed.

Lemma takes_wordb caps prev s : boundary prev s = true → takes WordB caps prev [] s caps.
Proof. intros Hb A k x Hk. cbn. by rewrite Hb. Qed.

Lemma takes_alt_l a b caps prev u s caps' : takes a caps prev u s caps' → takes (Alt a b) caps prev u s caps'.
Proof. intros Ha A k x Hk. cbn. by rewrite (Ha A k x Hk). Qed.

Lemma takes_alt_r a b caps prev u s caps' :
  (∀ v s' cs, u ++ s = v ++ s' → ¬ mt a prev v s' cs) →
  takes b caps prev u s caps' → takes (Alt a b) caps prev u s caps'.
Proof.
  intros Hno Hb A k x Hk. cbn. destruct (run a caps prev (u ++ s) k) eqn:Ha; [|by apply Hb].
  apply run_sound in Ha as (v & s' & cs & Hs & Hm & _). by edestruct Hno.
Qed.

Lemma takes_here r prev u s caps : takes r [] prev u s caps → match_here r prev (u ++ s) = Some (caps, after prev u, s).
Proof. intros Ht. by apply Ht. Qed.

(** *** Looking back *)

Lemma mt_cat_inv a b prev u s cs :
  mt (Cat a b) prev u s cs →
  ∃ v w ca cb, u = v ++ w ∧ cs = ca ++ cb ∧ mt a prev v (w ++ s) ca ∧ mt b (after prev v) w s cb.
Proof. inversion 1; subst. by do 4 eexists. Qed.

Lemma mt_lits_inv l prev u s cs : mt (lits l) prev u s cs → u = l ∧ cs = [].
Proof.
  revert prev u cs. induction l as [|c l IH]; intros prev u cs; cbn [lits foldr]; [by inversion 1|].
  intros (v & w & ca & cb & -> & -> & Hc & Hl)%mt_cat_inv. apply IH in Hl as [-> ->].
  inversion Hc as [|? ? c' ? Hb| | | | | |]; subst. by apply bool_decide_eq_true in Hb as ->.
Qed.

Lemma mt_many_inv p prev u s cs : mt (Many p) prev u s cs → Forall (λ c, p c = true) u ∧ cs = [].
Proof. by inversion 1. Qed.

Lemma mt_many1_inv p prev u s cs : mt (many1 p) prev u s cs → u ≠ [] ∧ Forall (λ c, p c = true) u ∧ cs = [].
Proof.
  intros (v & w & ca & cb & -> & -> & Hc & [Hm ->]%mt_many_inv)%mt_cat_inv.
  inversion Hc; subst. split; [done|]. split; [by constructor|done].
Qed.

Lemma mt_group_inv a prev u s cs : mt (Group a) prev u s cs → ∃ ca, cs = ca ++ [u] ∧ mt a prev u s ca.
Proof. inversion 1; subst. by eexists. Qed.

Lemma mt_lit_inv c prev u s cs : mt (lit c) prev u s cs → u = [c] ∧ cs = [].
Proof.
  inversion 1 as [|? ? c' ? Hb| | | | | |]; subst. by apply bool_decide_eq_true in Hb as ->.
Qed.

Lemma mt_wordb_inv prev u s cs : mt WordB prev u s cs → u = [] ∧ cs = [] ∧ boundary prev s = true.
Proof. by inversion 1. Qed.

Lemma mt_alt_inv a b prev u s cs : mt (Alt a b) prev u s cs → mt a prev u s cs ∨ mt b prev u s cs.
Proof. inversion 1; subst; auto. Qed.
