(* ===== verification/GenText.v ===== *)
(** * The registry generator, from the assembly's text

    The parts of [tools/generate_camkes_stream_registry.py] around
    [Generator]: the patterns that find components, their console interfaces
    and the connections in preprocessed CAmkES text, the imports, the names
    and the literal of the generated C.  The preprocessor and the file system
    are parameters. *)

From S2P Require Import Prelude CString Regex Generator.

(* ------------------------------------------------------------------ *)
(** ** The patterns *)

Definition ident : regex := Cat (Chr id_start) (Many id_char).
Definition spaces0 : regex := Many is_space.
Definition spaces1 : regex := many1 is_space.

Definition COMPONENT_RE : regex :=
  cats [WordB; lits (bs "component"); spaces1; Group ident; spaces1; Group ident; spaces0; lit x3b].
Definition COMPONENT_DEF_RE : regex :=
  cats [WordB; lits (bs "component"); spaces1; Group ident; spaces0; lit x7b].
Definition CAMKES_IMPORT_RE : regex :=
  cats [WordB; lits (bs "import"); spaces1; lit x3c;
        Group (many1 (λ b, negb (bool_decide (b = x3e)))); lit x3e; lit x3b].
Definition CONNECTION_RE : regex :=
  cats [WordB; lits (bs "connection"); spaces1; ident; spaces1; ident; spaces0;
        lit x28; spaces0; lits (bs "from"); spaces1; Group ident; lit x2e; Group ident; spaces0; lit x2c; spaces0;
        lits (bs "to"); spaces1; Group ident; lit x2e; Group ident; spaces0; lit x29; spaces0; lit x3b].
Definition CONSOLE_INTERFACE_RE : regex :=
  cats [WordB; opt (Cat (lits (bs "maybe")) spaces1); Alt (lits (bs "uses")) (lits (bs "provides")); spaces1;
        Group (Alt (lits (bs "PutChar")) (lits (bs "GetChar"))); spaces1; Group ident; spaces0; lit x3b].

(** [r"\b" + re.escape(keyword) + r"\s*\{"]. *)
Definition block_re (keyword : list byte) : regex := cats [WordB; lits keyword; spaces0; lit x7b].

(* ------------------------------------------------------------------ *)
(** ** Blocks *)

(** From inside [depth] braces: up to the one that closes the first, and what
    follows it. *)
Fixpoint braced (depth : nat) (s : list byte) : option (list byte * list byte) :=
  match s with
  | [] => None
  | c :: s' =>
      if bool_decide (c = x7b) then '(u, v) ← braced (S depth) s'; Some (c :: u, v)
      else if bool_decide (c = x7d) then
        match depth with
        | O | S O => Some ([], s')
        | S depth' => '(u, v) ← braced depth' s'; Some (c :: u, v)
        end
      else '(u, v) ← braced depth s'; Some (c :: u, v)
  end.

(** [_extract_block]; [None] is [ValueError]. *)
Definition extract_block (text keyword : list byte) : option (list byte) :=
  '(_, _, rest) ← search (block_re keyword) false text;
  fst <$> braced 1 rest.

(** [_iter_component_definitions], all of it: at most one per character. *)
Fixpoint component_definitions_loop (n : nat) (s : list byte) : option (list (list byte * list byte)) :=
  match n with
  | O => Some []
  | S n' =>
      match search COMPONENT_DEF_RE false s with
      | Some ([name], _, rest) =>
          '(body, rest) ← braced 1 rest;
          l ← component_definitions_loop n' rest;
          Some ((name, body) :: l)
      | _ => Some []
      end
  end.
Definition component_definitions (text : list byte) : option (list (list byte * list byte)) :=
  component_definitions_loop (length text) text.

(** [_composition_text]. *)
Definition composition_text (preprocessed : list byte) : option (list byte) :=
  assembly ← extract_block preprocessed (bs "assembly");
  extract_block assembly (bs "composition").

(* ------------------------------------------------------------------ *)
(** ** Imports *)

(** The last part of a path, as [pathlib] reads it. *)
Fixpoint path_parts (cur : list byte) (l : list byte) : list (list byte) :=
  match l with
  | [] => [cur]
  | c :: l' => if bool_decide (c = x2f) then cur :: path_parts [] l' else path_parts (cur ++ [c]) l'
  end.
Definition path_name (p : list byte) : list byte :=
  default [] (last (filter (λ q, q ≠ [] ∧ q ≠ [x2e]) (path_parts [] p))).

(** [Path(p).suffix]: from the last dot on, unless it is the first or the last
    character of the name. *)
Fixpoint last_dot (l : list byte) : option nat :=
  match l with
  | [] => None
  | c :: l' =>
      match last_dot l' with
      | Some i => Some (S i)
      | None => if bool_decide (c = x2e) then Some O else None
      end
  end.
Definition path_suffix (p : list byte) : list byte :=
  let name := path_name p in
  match last_dot name with
  | Some i => if (0 <? Z.of_nat i) && (Z.of_nat i <? Z.of_nat (length name) - 1) then drop i name else []
  | None => []
  end.

Section Imports.
(** [_resolve_import] with [resolve()]: the file an import names, if it is
    found; [_run_cpp_path]. *)
Context (resolve : list byte → option (list byte)) (run_cpp_path : list byte → list byte).

(** The imports of one text: the files seen, and the texts that are new. *)
Fixpoint collect_imports (names : list (list byte)) (seen : list (list byte))
    : list (list byte) * list (list byte) :=
  match names with
  | [] => (seen, [])
  | name :: names' =>
      if negb (bool_decide (path_suffix name = bs ".camkes")) then collect_imports names' seen
      else
        match resolve name with
        | None => collect_imports names' seen
        | Some path =>
            if bool_decide (path ∈ seen) then collect_imports names' seen
            else
              let '(seen', new) := collect_imports names' (path :: seen) in
              (seen', match run_cpp_path path with [] => new | t => t :: new end)
        end
  end.

Definition import_names (text : list byte) : list (list byte) := concat (finditer CAMKES_IMPORT_RE text).

(** [_collect_preprocessed_camkes]: the texts in the order of the queue;
    [None] is out of fuel. *)
Fixpoint collect_loop (n : nat) (queue : list (list byte)) (seen : list (list byte)) : option (list (list byte)) :=
  match queue with
  | [] => Some []
  | text :: queue' =>
      match n with
      | O => None
      | S n' =>
          let '(seen', new) := collect_imports (import_names text) seen in
          texts ← collect_loop n' (queue' ++ new) seen';
          Some (new ++ texts)
      end
  end.
Definition collect_preprocessed_camkes (n : nat) (root_path root : list byte) : option (list (list byte)) :=
  texts ← collect_loop n [root] [root_path]; Some (root :: texts).
End Imports.

(* ------------------------------------------------------------------ *)
(** ** The registry of an assembly *)

(** A match of [CONSOLE_INTERFACE_RE]. *)
Definition interface_of (caps : list (list byte)) : interface :=
  match caps with
  | [kind; name] => Interface (if bool_decide (kind = bs "PutChar") then PutChar else GetChar) name
  | _ => Interface PutChar []
  end.
Definition console_interfaces (body : list byte) : list interface :=
  interface_of <$> finditer CONSOLE_INTERFACE_RE body.

(** [_component_type_metadata]: the assignments to the dictionary, in order. *)
Fixpoint component_type_metadata (texts : list (list byte)) : option (list (list byte * list interface)) :=
  match texts with
  | [] => Some []
  | text :: texts' =>
      defs ← component_definitions text;
      l ← component_type_metadata texts';
      Some (((λ d, (d.1, console_interfaces d.2)) <$> defs) ++ l)
  end.

(** [types.get(name, {})]: the last assignment, no interfaces without one. *)
Definition type_interfaces (types : list (list byte * list interface)) (name : list byte) : list interface :=
  default [] (snd <$> last (filter (λ e, e.1 = name) types)).

Definition instance_of (caps : list (list byte)) : list byte * list byte :=
  match caps with [component_type; component_name] => (component_type, component_name) | _ => ([], []) end.
Definition connection_of (caps : list (list byte)) : connection :=
  match caps with
  | [from_c; from_i; to_c; to_i] => Connection from_c from_i to_c to_i
  | _ => Connection [] [] [] []
  end.

(** [main] from the preprocessed texts on: the assembly's, and all of them. *)
Definition generate_text (preprocessed : list byte) (texts : list (list byte)) (name source : list byte)
    : option (list stream * list byte) :=
  types ← component_type_metadata texts;
  composition ← composition_text preprocessed;
  generate (type_interfaces types) (instance_of <$> finditer COMPONENT_RE composition)
    (connection_of <$> finditer CONNECTION_RE composition) name source.

(** [main] after [_run_cpp]; [n] bounds the texts of the queue. *)
Definition main (resolve : list byte → option (list byte)) (run_cpp_path : list byte → list byte)
    (n : nat) (camkes preprocessed name source : list byte) : option (list stream * list byte) :=
  texts ← collect_preprocessed_camkes resolve run_cpp_path n camkes preprocessed;
  generate_text preprocessed texts name source.

(* ------------------------------------------------------------------ *)
(** ** The generated C *)

(** [re.sub(r"_+", "_", ...)]. *)
Fixpoint squeeze (l : list byte) : list byte :=
  match l with
  | [] => []
  | c :: l' =>
      if bool_decide (c = x5f) && match l' with d :: _ => bool_decide (d = x5f) | [] => false end
      then squeeze l' else c :: squeeze l'
  end.
Fixpoint strip_underscores (l : list byte) : list byte :=
  match l with c :: l' => if bool_decide (c = x5f) then strip_underscores l' else l | [] => [] end.
Definition is_digit (b : byte) : bool := (48 <=? b2z b) && (b2z b <=? 57).

Definition sanitize (empty name : list byte) : list byte :=
  let token := squeeze (map (λ c, if id_char c then c else x5f) name) in
  let token := rev (strip_underscores (rev (strip_underscores token))) in
  let token := match token with [] => empty | _ => token end in
  match token with c :: _ => if is_digit c then x5f :: token else token | [] => [] end.
Definition sanitize_c_ident (name : list byte) : list byte := sanitize (bs "stream") name.

(** [str.upper] on identifier characters. *)
Definition upper (c : byte) : byte := if (97 <=? b2z c) && (b2z c <=? 122) then z2b (b2z c - 32) else c.
Definition sanitize_macro (name : list byte) : list byte := map upper (sanitize (bs "STREAM") name).

(** The macro of a stream in [console_stream_ids.h]. *)
Definition stream_macro (s : stream) : list byte := bs "VIRTIO_CAMKES_STREAM_" ++ sanitize_macro (st_component s).

(** [_json_escape_for_c]: the document as a C string literal. *)
Definition json_escape_for_c (value : list byte) : list byte := text [CStr value].
