(* ===== verification/GenTextSpec.v ===== *)
(** * The registry generator: assemblies as they are written

    A component definition, an assembly and its composition as data, with the
    spaces between their words, and the text they stand for; the patterns of
    [GenText] find in that text what it was written from. *)

From S2P Require Import Prelude CString Regex Generator GenText.

(* ------------------------------------------------------------------ *)
(** ** Words and spaces *)

Definition spaces (w : list byte) : bool := forallb is_space w.
Definition gap (w : list byte) : bool := negb (bool_decide (w = [])) && spaces w.
Definition identifier (l : list byte) : bool := match l with c :: l' => id_start c && forallb id_char l' | [] => false end.
Definition without (cs l : list byte) : bool := forallb (λ c, bool_decide (c ∉ cs)) l.

(** Does [l] occur in [s]? *)
Fixpoint occurs (l s : list byte) : bool :=
  bool_decide (l `prefix_of` s) || match s with [] => false | _ :: s' => occurs l s' end.

(** The last character is not of a word. *)
Definition closed (l : list byte) : bool := negb (after false l).

(** Text whose braces match, from inside [d] of them. *)
Fixpoint balanced (d : nat) (s : list byte) : bool :=
  match s with
  | [] => bool_decide (d = O)
  | c :: s' =>
      if bool_decide (c = x7b) then balanced (S d) s'
      else if bool_decide (c = x7d) then match d with O => false | S d' => balanced d' s' end
      else balanced d s'
  end.

(* ------------------------------------------------------------------ *)
(** ** An assembly *)

(** A declaration of a component, up to its semicolon. *)
Inductive decl : Type :=
| Console (w0 : list byte) (maybe : option (list byte)) (provides : bool)
    (w1 : list byte) (kind : interface_kind) (w2 name w3 : list byte)
| Decl (y : list byte).

Record cdef : Type := CDef {
  cd_lead : list byte; cd_w1 : list byte; cd_name : list byte; cd_w2 : list byte;
  cd_decls : list decl; cd_tail : list byte
}.

(** A statement of the composition, up to its semicolon. *)
Inductive item : Type :=
| Instance_ (w0 w1 type w2 name w3 : list byte)
| Connect (w0 w1 connector w2 label w3 w4 w5 : list byte) (c : connection) (w6 w7 w8 w9 w10 : list byte)
| Item (y : list byte).

Record assembly : Type := Assembly {
  as_defs : list cdef;
  as_lead : list byte; as_w1 : list byte;          (** [... assembly {] *)
  as_mid : list byte; as_w2 : list byte;           (** [... composition {] *)
  as_items : list item; as_tail : list byte;       (** [... }] *)
  as_rest : list byte;                             (** [... }] *)
  as_after : list byte
}.

(** An imported text. *)
Record library : Type := Library { lib_defs : list cdef; lib_tail : list byte }.

Definition semicolons (ys : list (list byte)) : list byte := concat (map (λ y, y ++ [x3b]) ys).

Definition decl_text (d : decl) : list byte :=
  match d with
  | Console w0 maybe provides w1 kind w2 name w3 =>
      w0 ++ match maybe with Some w => bs "maybe" ++ w | None => [] end ++
      (if provides then bs "provides" else bs "uses") ++ w1 ++ kind_name kind ++ w2 ++ name ++ w3
  | Decl y => y
  end.
Definition cdef_body (d : cdef) : list byte := semicolons (decl_text <$> cd_decls d) ++ cd_tail d.
Definition cdef_text (d : cdef) : list byte :=
  cd_lead d ++ bs "component" ++ cd_w1 d ++ cd_name d ++ cd_w2 d ++ [x7b] ++ cdef_body d ++ [x7d].
Definition defs_text (l : list cdef) : list byte := concat (cdef_text <$> l).

Definition item_text (i : item) : list byte :=
  match i with
  | Instance_ w0 w1 type w2 name w3 => w0 ++ bs "component" ++ w1 ++ type ++ w2 ++ name ++ w3
  | Connect w0 w1 connector w2 label w3 w4 w5 c w6 w7 w8 w9 w10 =>
      w0 ++ bs "connection" ++ w1 ++ connector ++ w2 ++ label ++ w3 ++ [x28] ++ w4 ++
      bs "from" ++ w5 ++ from_component c ++ [x2e] ++ from_interface c ++ w6 ++ [x2c] ++ w7 ++
      bs "to" ++ w8 ++ to_component c ++ [x2e] ++ to_interface c ++ w9 ++ [x29] ++ w10
  | Item y => y
  end.

Definition composition_of (a : assembly) : list byte := semicolons (item_text <$> as_items a) ++ as_tail a.
Definition inner (a : assembly) : list byte :=
  as_mid a ++ bs "composition" ++ as_w2 a ++ [x7b] ++ composition_of a ++ [x7d] ++ as_rest a.
Definition assembly_text (a : assembly) : list byte :=
  defs_text (as_defs a) ++ as_lead a ++ bs "assembly" ++ as_w1 a ++ [x7b] ++ inner a ++ [x7d] ++ as_after a.
Definition library_text (l : library) : list byte := defs_text (lib_defs l) ++ lib_tail l.

(** What it was written from. *)
Definition decl_interfaces (d : decl) : list interface :=
  match d with Console _ _ _ _ kind _ name _ => [Interface kind name] | Decl _ => [] end.
Definition cdef_meta (d : cdef) : list byte * list interface :=
  (cd_name d, concat (decl_interfaces <$> cd_decls d)).
Definition item_instances (i : item) : list (list byte * list byte) :=
  match i with Instance_ _ _ type _ name _ => [(type, name)] | _ => [] end.
Definition item_connections (i : item) : list connection :=
  match i with Connect _ _ _ _ _ _ _ _ c _ _ _ _ _ => [c] | _ => [] end.

(** *** What can be written so *)

Definition decl_wf (d : decl) : bool :=
  match d with
  | Console w0 maybe _ w1 _ w2 name w3 =>
      spaces w0 && match maybe with Some w => gap w | None => true end && gap w1 && gap w2 && identifier name && spaces w3
  | Decl y => without [x3b] y && negb (occurs (bs "PutChar") y) && negb (occurs (bs "GetChar") y)
  end.
Definition cdef_wf (d : cdef) : bool :=
  closed (cd_lead d) && negb (occurs (bs "component") (cd_lead d)) &&
  gap (cd_w1 d) && identifier (cd_name d) && spaces (cd_w2 d) &&
  forallb decl_wf (cd_decls d) && without [x3b] (cd_tail d) && balanced 0 (cdef_body d).

Definition item_wf (i : item) : bool :=
  match i with
  | Instance_ w0 w1 type w2 name w3 =>
      spaces w0 && gap w1 && identifier type && gap w2 && identifier name && spaces w3
  | Connect w0 w1 connector w2 label w3 w4 w5 c w6 w7 w8 w9 w10 =>
      spaces w0 && gap w1 && identifier connector && gap w2 && identifier label && spaces w3 && spaces w4 && gap w5 &&
      identifier (from_component c) && identifier (from_interface c) && spaces w6 && spaces w7 && gap w8 &&
      identifier (to_component c) && identifier (to_interface c) && spaces w9 && spaces w10
  | Item y =>
      without [x3b; x7b; x7d] y && negb (occurs (bs "component") y) && negb (occurs (bs "connection") y)
  end.
Definition assembly_wf (a : assembly) : bool :=
  forallb cdef_wf (as_defs a) && forallb item_wf (as_items a) && without [x3b; x7b; x7d] (as_tail a) &&
  closed (as_lead a) && spaces (as_w1 a) && closed (as_mid a) && spaces (as_w2 a) && balanced 0 (inner a) &&
  negb (occurs (bs "assembly") (defs_text (as_defs a) ++ as_lead a)) &&
  negb (occurs (bs "composition") (as_mid a)) &&
  negb (occurs (bs "component") (as_lead a ++ bs "assembly" ++ as_w1 a ++ [x7b] ++ as_mid a ++ bs "composition" ++ as_w2 a)) &&
  negb (occurs (bs "component") (as_tail a ++ [x7d] ++ as_rest a ++ [x7d] ++ as_after a)).
Definition library_wf (l : library) : bool :=
  forallb cdef_wf (lib_defs l) && negb (occurs (bs "component") (lib_tail l)).

(* ------------------------------------------------------------------ *)
(** ** Characters *)

Lemma each_byte (f g : byte → bool) :
  forallb (λ b, implb (f b) (g b)) all_bytes = true → ∀ b, f b = true → g b = true.
Proof. rewrite forallb_forall. intros Hf b. apply implb_true_iff, Hf, list_elem_of_In, all_bytes_elem. Qed.

Lemma id_char_word b : id_char b = true → is_word b = true.
Proof. by apply each_byte. Qed.
Lemma id_start_char b : id_start b = true → id_char b = true.
Proof. by apply each_byte. Qed.
Lemma space_not_word b : is_space b = true → is_word b = false.
Proof. rewrite <-negb_true_iff. by apply (each_byte is_space (λ b, negb (is_word b))). Qed.
Lemma space_not_id b : is_space b = true → id_char b = false.
Proof. rewrite <-negb_true_iff. by apply (each_byte is_space (λ b, negb (id_char b))). Qed.
Lemma word_not_space b : is_word b = true → is_space b = false.
Proof. rewrite <-negb_true_iff. by apply (each_byte is_word (λ b, negb (is_space b))). Qed.

Lemma spaces_spec w : spaces w = true ↔ Forall (λ c, is_space c = true) w.
Proof. unfold spaces. by rewrite forallb_forall, Forall_forall; setoid_rewrite <-list_elem_of_In. Qed.

Lemma gap_spec w : gap w = true ↔ w ≠ [] ∧ spaces w = true.
Proof. unfold gap. by rewrite andb_true_iff, negb_true_iff, bool_decide_eq_false. Qed.

Lemma identifier_spec l : identifier l = true ↔ ∃ c l', l = c :: l' ∧ id_start c = true ∧ Forall (λ c, id_char c = true) l'.
Proof.
  destruct l as [|c l]; cbn [identifier]; [split; [done|by intros (? & ? & ? & _)]|].
  rewrite andb_true_iff, forallb_forall. setoid_rewrite <-list_elem_of_In. rewrite <-Forall_forall.
  split; [intros []; by eauto|by intros (? & ? & [= <- <-] & ? & ?)].
Qed.

Lemma identifier_chars l : identifier l = true → l ≠ [] ∧ Forall (λ c, id_char c = true) l.
Proof.
  intros (c & l' & -> & Hc & Hl)%identifier_spec. split; [done|]. constructor; [by apply id_start_char|done].
Qed.

Lemma without_spec cs l c : without cs l = true → c ∈ cs → (c ∉ l).
Proof.
  unfold without. rewrite forallb_forall. intros Hw Hc Hl. apply list_elem_of_In, Hw in Hl.
  by apply bool_decide_eq_true in Hl.
Qed.

(** A character that is not a space, or not of a word, is in no such text. *)
Lemma spaces_free c w : spaces w = true → is_space c = false → (c ∉ w).
Proof. rewrite spaces_spec, Forall_forall. intros Hw Hc Hin. apply Hw in Hin. congruence. Qed.
Lemma identifier_free c l : identifier l = true → id_char c = false → (c ∉ l).
Proof. intros [_ Hl]%identifier_chars Hc Hin. rewrite Forall_forall in Hl. apply Hl in Hin. congruence. Qed.

Lemma occurs_spec l s : occurs l s = true ↔ ∃ a b, s = a ++ l ++ b.
Proof.
  induction s as [|c s IH]; cbn [occurs]; rewrite orb_true_iff, bool_decide_eq_true.
  - split; [intros [[x Hx]|]; [by exists [], x|done]|]. intros ([|] & x & Hs); [|done]. left. by exists x.
  - rewrite IH. split.
    + intros [[x Hx]|(a & b & ->)]; [by exists [], x|by exists (c :: a), b].
    + intros ([|c' a] & b & Hs); [left; by exists b|]. injection Hs as <- ->. right. by exists a, b.
Qed.

Lemma occurs_false l s a b : negb (occurs l s) = true → s ≠ a ++ l ++ b.
Proof. rewrite negb_true_iff. intros Ho Hs. by rewrite (proj2 (occurs_spec l s)) in Ho by eauto. Qed.

Lemma occurs_app_l l s1 s2 : negb (occurs l (s1 ++ s2)) = true → negb (occurs l s1) = true.
Proof.
  rewrite !negb_true_iff, <-!not_true_iff_false, !occurs_spec. intros Ho (a & b & ->). apply Ho.
  exists a, (b ++ s2). by rewrite <-!app_assoc.
Qed.

Lemma closed_spaces w : spaces w = true → closed w = true.
Proof.
  rewrite spaces_spec. intros Hw. unfold closed, after. destruct w as [|c w _] using rev_ind; [done|].
  rewrite last_snoc. apply Forall_app in Hw as [_ Hw]. apply Forall_inv in Hw. by rewrite space_not_word.
Qed.

(** *** Braces *)

Lemma braced_balanced d e a s :
  balanced d a = true →
  braced (d + S e) (a ++ s) = ('(u, v) ← braced (S e) s; Some (a ++ u, v)).
Proof.
  revert d. induction a as [|c a IH]; intros d; cbn [balanced app braced].
  - intros ->%bool_decide_eq_true. cbn [Nat.add]. destruct (braced (S e) s) as [[]|]; done.
  - case_bool_decide as Hc; [|case_bool_decide as Hc'].
    + intros Hb. change (S (d + S e)) with (S d + S e)%nat. rewrite (IH _ Hb).
      by destruct (braced (S e) s) as [[]|].
    + destruct d as [|d]; [done|]. intros Hb. cbn [Nat.add]. rewrite (IH _ Hb).
      replace (d + S e)%nat with (S (d + e)) by lia. by destruct (braced (S e) s) as [[]|].
    + intros Hb. rewrite (IH _ Hb). by destruct (braced (S e) s) as [[]|].
Qed.

Lemma braced_block a s : balanced 0 a = true → braced 1 (a ++ [x7d] ++ s) = Some (a, s).
Proof. intros Ha. rewrite (braced_balanced 0 0 a _ Ha : braced 1 _ = _). cbn.
  rewrite bool_decide_eq_false_2, bool_decide_eq_true_2 by done. cbn. by rewrite app_nil_r.
Qed.

Lemma balanced_free s : (x7b ∉ s) → (x7d ∉ s) → balanced 0 s = true.
Proof.
  induction s as [|c s IH]; cbn [balanced]; [done|]. rewrite !not_elem_of_cons. intros [Ho Hs] [Hc Hs'].
  rewrite !bool_decide_eq_false_2 by congruence. auto.
Qed.

(* ------------------------------------------------------------------ *)
(** ** Where a pattern does not match *)

(** The patterns that begin with a word. *)
Definition begins (l : list byte) (r : regex) : regex := Cat WordB (Cat (lits l) r).

Lemma mt_begins l r prev u s cs : mt (begins l r) prev u s cs → ∃ w, u = l ++ w.
Proof.
  intros (v & w & ca & cb & -> & -> & [-> _]%mt_wordb_inv & (v' & x & ca' & cb' & -> & _ & [-> _]%mt_lits_inv & _)%mt_cat_inv)%mt_cat_inv.
  by exists x.
Qed.

(** Two ways to cut a text, the second after the first character [t]. *)
Lemma cut_at {A} (a b l s : list A) t : a ++ t :: b = l ++ s → t ∉ l → ∃ z, a = l ++ z.
Proof.
  revert l. induction a as [|x a IH]; intros [|y l]; cbn; intros Heq Ht; try by eexists.
  - injection Heq as -> _. by destruct Ht; left.
  - injection Heq as -> Heq. apply not_elem_of_cons in Ht as [_ Ht].
    destruct (IH _ Heq Ht) as [z ->]. by exists z.
Qed.

Lemma begins_no_match l r prev x t y :
  (t ∉ l) → negb (occurs l x) = true → match_here (begins l r) prev (x ++ t :: y) = None.
Proof.
  intros Ht Ho. apply match_here_none. intros u s' cs Hu [w ->]%mt_begins. rewrite <-app_assoc in Hu.
  destruct (cut_at _ _ _ _ _ Hu Ht) as [z ->]. by apply (occurs_false l (l ++ z) [] z).
Qed.

(** A word that does not occur is not found before [t]. *)
Lemma search_skip_word l r prev x t y :
  (t ∉ l) → negb (occurs l x) = true →
  search (begins l r) prev (x ++ t :: y) = search (begins l r) (is_word t) y.
Proof.
  intros Ht Ho. rewrite cons_middle, (app_assoc x).
  rewrite search_skip; [unfold after; by rewrite last_snoc|]. intros x1 x2 Hx H2.
  destruct x2 as [|t' x2 _] using rev_ind; [done|]. rewrite app_assoc in Hx. apply app_inj_tail in Hx as [-> <-].
  rewrite <-app_assoc. apply begins_no_match; [done|].
  rewrite negb_true_iff, <-not_true_iff_false, occurs_spec in Ho |- *. intros (a & b & ->). apply Ho.
  exists (x1 ++ a), b. by rewrite <-!app_assoc.
Qed.

Lemma search_skip_closed l r x y :
  forallb is_word l = true → closed x = true → negb (occurs l x) = true →
  search (begins l r) false (x ++ y) = search (begins l r) false y.
Proof.
  intros Hl Hc Ho. destruct x as [|t x _] using rev_ind; [done|]. unfold closed, after in Hc.
  rewrite last_snoc, negb_true_iff in Hc. rewrite <-app_assoc. cbn [app].
  rewrite search_skip_word, Hc; [done| |by eapply occurs_app_l].
  rewrite forallb_forall in Hl. intros Ht%list_elem_of_In%Hl. congruence.
Qed.

Lemma search_no_word l r prev x : l ≠ [] → negb (occurs l x) = true → search (begins l r) prev x = None.
Proof.
  intros Hl Ho. destruct (search (begins l r) prev x) as [[[cs q] s]|] eqn:Hs; [|done].
  apply search_sound in Hs as (a & u & -> & _ & [w ->]%mt_begins & _). exfalso.
  eapply (occurs_false l _ a); [exact Ho|]. by rewrite <-!app_assoc.
Qed.

Lemma search_spaces l r w y :
  match l with c :: _ => is_word c = true | [] => False end → forallb is_word l = true → spaces w = true →
  search (begins l r) false (w ++ y) = search (begins l r) false y.
Proof.
  intros Hl Hw Hs. apply search_skip_closed; [done|by apply closed_spaces|].
  rewrite negb_true_iff, <-not_true_iff_false, occurs_spec. intros (a & b & Hab). destruct l as [|c l]; [done|].
  apply (spaces_free c w Hs); [by apply word_not_space|]. rewrite Hab, elem_of_app. right. left.
Qed.

Section Statement.
Context (t : byte) (r : regex).
Context (Hends : ends t r = true).

Lemma stmt_found y f : search r false (y ++ [t]) = Some f → stmt r t y = [f.1.1].
Proof. unfold stmt. intros ->. by destruct f as [[]]. Qed.

Lemma stmt_none y :
  (∀ x u prev cs, y ++ [t] = x ++ u → ¬ mt r prev u [] cs) → (t ∉ y) → stmt r t y = [].
Proof.
  intros Hno Hy. unfold stmt. destruct (search r false (y ++ [t])) as [[[cs q] s]|] eqn:Hs; [|done].
  apply search_sound in Hs as (x & u & Heq & _ & Hm & _).
  destruct (mt_ends t _ _ _ _ _ Hm Hends) as (v & -> & _).
  rewrite <-app_assoc in Heq. rewrite app_assoc in Heq. cbn [app] in Heq.
  destruct (cut_at (x ++ v) s y [t] t) as [z Hz]; [by rewrite <-Heq|done|].
  assert (s = []) as ->. {
    apply (f_equal length) in Heq, Hz. revert Heq Hz. rewrite !length_app. destruct s; cbn; [done|lia]. }
  exfalso. eapply Hno, Hm. by rewrite Heq, <-app_assoc.
Qed.

Lemma stmt_requires q y : requires q r = true → q ≠ t → (q ∉ y) → (t ∉ y) → stmt r t y = [].
Proof.
  intros Hr Hq Hy. apply stmt_none. intros x u prev cs Heq Hm. apply (mt_requires q) in Hm; [|done].
  assert (Hin : q ∈ y ++ [t]) by (rewrite Heq, elem_of_app; auto).
  rewrite elem_of_app, list_elem_of_singleton in Hin. tauto.
Qed.

(** Nothing from before a character the pattern does not take. *)
Lemma stmt_avoids p q a b :
  avoids p r = true → requires q r = true → q ≠ t → (q ∉ b) → (t ∉ a ++ [p] ++ b) → stmt r t (a ++ [p] ++ b) = [].
Proof.
  intros Hav Hr Hq Hb. apply stmt_none. intros x u prev cs Heq Hm.
  pose proof (mt_avoids _ _ _ _ _ _ Hm Hav) as Hp. apply (mt_requires q) in Hm; [|done].
  apply (f_equal reverse) in Heq. rewrite !reverse_app in Heq. cbn in Heq. rewrite <-!app_assoc in Heq.
  destruct (cut_at (t :: reverse b) (reverse a) (reverse u) (reverse x) p) as [z Hz];
    [done|by rewrite elem_of_reverse|].
  assert (Hin : q ∈ t :: reverse b) by (rewrite Hz, elem_of_app, elem_of_reverse; auto).
  rewrite elem_of_cons, elem_of_reverse in Hin. tauto.
Qed.
End Statement.

Lemma stmt_no_word l r t y :
  l ≠ [] → ends t (begins l r) = true → (t ∉ l) → negb (occurs l y) = true → stmt (begins l r) t y = [].
Proof.
  intros Hl He Ht Ho. unfold stmt. rewrite search_skip_word by done.
  rewrite search_no_word; [done..|]. destruct l as [|c l]; done.
Qed.

(* ------------------------------------------------------------------ *)
(** ** Where a pattern matches *)

Lemma stops_assoc p (a b s : list byte) : stops p (a ++ b ++ s) → stops p ((a ++ b) ++ s).
Proof. by rewrite <-app_assoc. Qed.

Lemma stops_first p c l s : p c = false → stops p ((c :: l) ++ s).
Proof. done. Qed.

Lemma stops_space_identifier l s : identifier l = true → stops is_space (l ++ s).
Proof.
  intros (c & l' & -> & Hc & _)%identifier_spec. by apply stops_first, word_not_space, id_char_word, id_start_char.
Qed.

Lemma stops_id_spaces w s : spaces w = true → stops id_char s → stops id_char (w ++ s).
Proof.
  destruct w as [|c w]; [done|]. intros [Hc _]%andb_prop _. by apply stops_first, space_not_id.
Qed.

Lemma stops_id_gap w s : gap w = true → stops id_char (w ++ s).
Proof.
  intros [Hne Hw]%gap_spec. destruct w as [|c w]; [done|]. by apply stops_first, (space_not_id c), (andb_prop _ _ Hw).
Qed.

Lemma takes_spaces0 caps prev w s : spaces w = true → stops is_space s → takes spaces0 caps prev w s caps.
Proof. intros Hw%spaces_spec. by apply takes_many. Qed.

Lemma takes_spaces1 caps prev w s : gap w = true → stops is_space s → takes spaces1 caps prev w s caps.
Proof. intros [Hne Hw%spaces_spec]%gap_spec. by apply takes_many1. Qed.

Lemma takes_ident caps prev l s : identifier l = true → stops id_char s → takes ident caps prev l s caps.
Proof.
  intros (c & l' & -> & Hc & Hl)%identifier_spec Hs. apply (takes_cat _ _ _ _ [c] l' _ caps).
  - by apply takes_chr.
  - by apply takes_many.
Qed.

Lemma takes_name caps prev l s : identifier l = true → stops id_char s → takes (Group ident) caps prev l s (caps ++ [l]).
Proof. intros. by apply takes_group, takes_ident. Qed.

Lemma takes_begins l r caps prev u s caps' :
  prev = false → match l with c :: _ => is_word c = true | [] => False end →
  takes r caps (after prev l) u s caps' → takes (begins l r) caps prev (l ++ u) s caps'.
Proof.
  intros -> Hl Hr. apply (takes_cat _ _ _ _ [] (l ++ u) _ caps).
  - apply takes_wordb. destruct l as [|c l]; [done|]. unfold boundary. cbn. by rewrite Hl.
  - by apply (takes_cat _ _ _ _ l u _ caps); [apply takes_lits|].
Qed.

(** Goes over a pattern and a text in step. *)
Create HintDb gentext.
#[local] Hint Resolve stops_assoc stops_first stops_space_identifier stops_id_spaces stops_id_gap : gentext.
#[local] Hint Resolve takes_spaces0 takes_spaces1 takes_ident takes_name takes_lit takes_lits : gentext.
#[local] Hint Extern 2 (stops _ _) => exact eq_refl : gentext.
Local Ltac takes := repeat (eapply takes_cat; [solve [auto 6 with gentext]|]); auto 6 with gentext.

Lemma takes_component w1 type w2 name w3 s :
  gap w1 = true → identifier type = true → gap w2 = true → identifier name = true → spaces w3 = true →
  takes COMPONENT_RE [] false (bs "component" ++ w1 ++ type ++ w2 ++ name ++ w3 ++ [x3b]) s [type; name].
Proof. intros. apply takes_begins; [done..|]. takes. Qed.

Lemma takes_component_def w1 name w2 s :
  gap w1 = true → identifier name = true → spaces w2 = true →
  takes COMPONENT_DEF_RE [] false (bs "component" ++ w1 ++ name ++ w2 ++ [x7b]) s [name].
Proof. intros. apply takes_begins; [done..|]. takes. Qed.

Lemma takes_block keyword w s :
  match keyword with c :: _ => is_word c = true | [] => False end → spaces w = true →
  takes (block_re keyword) [] false (keyword ++ w ++ [x7b]) s [].
Proof. intros. apply takes_begins; [done..|]. takes. Qed.

Lemma takes_connection w1 connector w2 label w3 w4 w5 c w6 w7 w8 w9 w10 s :
  item_wf (Connect [] w1 connector w2 label w3 w4 w5 c w6 w7 w8 w9 w10) = true →
  takes CONNECTION_RE [] false (item_text (Connect [] w1 connector w2 label w3 w4 w5 c w6 w7 w8 w9 w10) ++ [x3b]) s
    [from_component c; from_interface c; to_component c; to_interface c].
Proof.
  cbn [item_wf item_text]. rewrite !andb_true_iff. intros. destruct_and!. rewrite <-!app_assoc.
  rewrite app_nil_l. apply takes_begins; [done..|]. takes.
Qed.

Lemma kind_name_inv k : kind_name k = bs "PutChar" ∨ kind_name k = bs "GetChar".
Proof. destruct k; auto. Qed.

Lemma takes_console maybe (provides : bool) w1 kind w2 name w3 s :
  decl_wf (Console [] maybe provides w1 kind w2 name w3) = true →
  takes CONSOLE_INTERFACE_RE [] false (decl_text (Console [] maybe provides w1 kind w2 name w3) ++ [x3b]) s
    [kind_name kind; name].
Proof.
  cbn [decl_wf decl_text]. rewrite !andb_true_iff. intros. destruct_and!. rewrite <-!app_assoc, app_nil_l.
  apply (takes_cat WordB _ [] false [] _ _ []).
  { apply takes_wordb. destruct maybe, provides; done. }
  eapply takes_cat with (caps1 := []).
  { destruct maybe as [w|]; [apply takes_alt_l; destruct provides; takes|].
    apply takes_alt_r; [|by intros A k x].
    intros v s' cs Hv (a & b & ca & cb & -> & _ & [-> _]%mt_lits_inv & _)%mt_cat_inv.
    rewrite app_nil_l, <-app_assoc in Hv. by destruct provides. }
  eapply takes_cat with (caps1 := []).
  { destruct provides; [|apply takes_alt_l, takes_lits]. apply takes_alt_r; [|apply takes_lits].
    by intros v s' cs Hv [-> _]%mt_lits_inv. }
  eapply takes_cat; [apply takes_spaces1; [done|by destruct kind]|].
  eapply takes_cat with (caps1 := [kind_name kind]).
  { apply (takes_group _ _ _ _ _ []). destruct kind; [apply takes_alt_l, takes_lits|].
    apply takes_alt_r; [|apply takes_lits]. by intros v s' cs Hv [-> _]%mt_lits_inv. }
  takes.
Qed.

(* ------------------------------------------------------------------ *)
(** ** Statement by statement *)

Lemma gap_spaces w : gap w = true → spaces w = true.
Proof. by intros [_ ?]%gap_spec. Qed.

(** A character that is in none of the parts of a text. *)
Local Ltac free := rewrite ?not_elem_of_app; split_and!;
  first [ eapply spaces_free; [first [eassumption|apply gap_spaces; eassumption]|reflexivity]
        | eapply identifier_free; [eassumption|reflexivity]
        | apply (bool_decide_unpack _); vm_compute; exact I ].

Lemma decl_no_semicolon d : decl_wf d = true → x3b ∉ decl_text d.
Proof.
  destruct d as [w0 maybe provides w1 kind w2 name w3|y]; cbn [decl_wf decl_text]; rewrite !andb_true_iff; intros; destruct_and!.
  - destruct maybe, provides, kind; free.
  - eapply without_spec; [done|by left].
Qed.

Lemma item_free c i : c ∈ [x3b; x7b; x7d] → item_wf i = true → c ∉ item_text i.
Proof.
  rewrite !elem_of_cons. intros Hc.
  destruct i as [w0 w1 type w2 name w3|w0 w1 connector w2 label w3 w4 w5 cn w6 w7 w8 w9 w10|y];
    cbn [item_wf item_text]; rewrite !andb_true_iff; intros; destruct_and!.
  - destruct Hc as [->|[->|[->|Hc%elem_of_nil]]]; [free..|done].
  - destruct Hc as [->|[->|[->|Hc%elem_of_nil]]]; [free..|done].
  - eapply without_spec; [done|]. by rewrite !elem_of_cons.
Qed.

(** A statement whose match takes all of it. *)
Lemma stmt_takes r t y caps : takes r [] false (y ++ [t]) [] caps → stmt r t y = [caps].
Proof.
  intros Ht. apply takes_here in Ht. rewrite app_nil_r in Ht. by rewrite (stmt_found t r y _ (search_here _ _ _ _ Ht)).
Qed.

(** Spaces before a statement. *)
Lemma stmt_spaces l r t w y :
  match l with c :: _ => is_word c = true | [] => False end → forallb is_word l = true → spaces w = true →
  stmt (begins l r) t (w ++ y) = stmt (begins l r) t y.
Proof. intros. unfold stmt. by rewrite <-app_assoc, search_spaces. Qed.

Lemma console_skip w y : spaces w = true → stmt CONSOLE_INTERFACE_RE x3b (w ++ y) = stmt CONSOLE_INTERFACE_RE x3b y.
Proof.
  intros Hw. unfold stmt. rewrite <-app_assoc, search_skip; [by rewrite (proj1 (negb_true_iff _) (closed_spaces w Hw))|].
  intros x1 x2 -> H2. unfold spaces in Hw. rewrite forallb_app in Hw. destruct x2 as [|c x2]; [done|].
  apply andb_prop in Hw as [_ [Hc _]%andb_prop].
  apply match_here_none. intros u s' cs Hu (? & v & ? & ? & -> & _ & [-> _]%mt_wordb_inv & Hm)%mt_cat_inv.
  apply mt_cat_inv in Hm as (v1 & v2 & ? & ? & -> & _ & H1 & Hm).
  apply mt_cat_inv in Hm as (v3 & v4 & ? & ? & -> & _ & H3 & _).
  assert (∃ l, v3 = bs "uses" ++ l ∨ v3 = bs "provides" ++ l) as [l Hl].
  { apply mt_alt_inv in H3 as [[-> _]%mt_lits_inv|[-> _]%mt_lits_inv]; exists []; auto. }
  assert ((∃ l, v1 = bs "maybe" ++ l) ∨ v1 = []) as [[l1 ->]| ->].
  { apply mt_alt_inv in H1 as [(? & z & ? & ? & -> & _ & [-> _]%mt_lits_inv & _)%mt_cat_inv|H1]; [left; by exists z|].
    right. by inversion H1. }
  - injection Hu as -> _. done.
  - destruct Hl as [-> | ->]; injection Hu as -> _; done.
Qed.

Lemma occurs_snoc l y t a b : y ++ [t] = (a ++ l) ++ b → (t ∉ l) → l ≠ [] → occurs l y = true.
Proof.
  intros Hy Ht Hl. apply occurs_spec. destruct b as [|c b _] using rev_ind.
  - destruct l as [|c l _] using rev_ind; [done|]. rewrite app_nil_r, app_assoc in Hy.
    apply app_inj_tail in Hy as [_ ->]. rewrite elem_of_app, list_elem_of_singleton in Ht. tauto.
  - rewrite app_assoc in Hy. apply app_inj_tail in Hy as [-> _]. exists a, b. by rewrite <-app_assoc.
Qed.

(** A console interface has the name of its kind. *)
Lemma console_none y :
  x3b ∉ y → negb (occurs (bs "PutChar") y) = true → negb (occurs (bs "GetChar") y) = true →
  stmt CONSOLE_INTERFACE_RE x3b y = [].
Proof.
  intros Hy Hp Hg. apply stmt_none; [reflexivity| |done]. intros x u prev cs Hu Hm.
  apply mt_cat_inv in Hm as (? & u1 & ? & ? & -> & _ & [-> _]%mt_wordb_inv & Hm).
  apply mt_cat_inv in Hm as (a1 & u2 & ? & ? & -> & _ & _ & Hm).
  apply mt_cat_inv in Hm as (a2 & u3 & ? & ? & -> & _ & _ & Hm).
  apply mt_cat_inv in Hm as (a3 & u4 & ? & ? & -> & _ & _ & Hm).
  apply mt_cat_inv in Hm as (l & u5 & ? & ? & -> & _ & [? [_ Hl]]%mt_group_inv & _).
  rewrite app_nil_l, !app_assoc in Hu.
  apply mt_alt_inv in Hl as [[-> _]%mt_lits_inv|[-> _]%mt_lits_inv];
    apply occurs_snoc in Hu; [by rewrite Hu in Hp|by apply (bool_decide_unpack _)|done|by rewrite Hu in Hg|by apply (bool_decide_unpack _)|done].
Qed.

Lemma decl_stmt d : decl_wf d = true → interface_of <$> stmt CONSOLE_INTERFACE_RE x3b (decl_text d) = decl_interfaces d.
Proof.
  intros Hd. pose proof (decl_no_semicolon d Hd) as Hs. destruct d as [w0 maybe provides w1 kind w2 name w3|y]; cbn [decl_wf decl_text decl_interfaces] in *.
  - rewrite !andb_true_iff in Hd. destruct_and!. rewrite console_skip by done.
    rewrite (stmt_takes _ _ _ [kind_name kind; name]); [by destruct kind|].
    apply (takes_console maybe provides w1 kind w2 name w3). cbn. by rewrite !andb_true_iff.
  - rewrite !andb_true_iff in Hd. destruct_and!. by rewrite console_none.
Qed.

Lemma stmt_other {A} (f : _ → A) l r t y :
  l ≠ [] → ends t (begins l r) = true → (t ∉ l) → negb (occurs l y) = true → f <$> stmt (begins l r) t y = [].
Proof. intros. by rewrite stmt_no_word. Qed.

Lemma item_instance_stmt i : item_wf i = true → instance_of <$> stmt COMPONENT_RE x3b (item_text i) = item_instances i.
Proof.
  intros Hi. assert (Hs : x3b ∉ item_text i) by (apply item_free; [by left|done]).
  destruct i as [w0 w1 type w2 name w3|w0 w1 connector w2 label w3 w4 w5 cn w6 w7 w8 w9 w10|y];
    cbn [item_wf item_instances] in *; rewrite !andb_true_iff in Hi; destruct_and!.
  - cbn [item_text]. etrans; [apply f_equal; by apply stmt_spaces|].
    rewrite (stmt_takes _ _ _ [type; name]); [done|]. rewrite <-!app_assoc. by apply takes_component.
  - cbn [item_text] in *. rewrite !app_assoc in Hs |- *. rewrite <-(app_assoc _ [x29]) in Hs |- *.
    rewrite (stmt_avoids x3b COMPONENT_RE eq_refl x29 x63); [done..| |done]. by eapply spaces_free.
  - cbn [item_text] in *. apply stmt_other; [done|reflexivity|by apply (bool_decide_unpack _)|done].
Qed.

Lemma item_connection_stmt i : item_wf i = true → connection_of <$> stmt CONNECTION_RE x3b (item_text i) = item_connections i.
Proof.
  intros Hi. assert (Hs : x3b ∉ item_text i) by (apply item_free; [by left|done]).
  destruct i as [w0 w1 type w2 name w3|w0 w1 connector w2 label w3 w4 w5 cn w6 w7 w8 w9 w10|y];
    cbn [item_connections] in *.
  - rewrite (stmt_requires x3b CONNECTION_RE eq_refl x28); [done..| |done]. cbn [item_wf item_text] in *.
    rewrite !andb_true_iff in Hi; destruct_and!. free.
  - etrans; [apply f_equal; apply stmt_spaces; [done..|]; cbn in Hi; by rewrite !andb_true_iff in Hi; destruct_and!|].
    erewrite stmt_takes; [|apply (takes_connection w1 connector w2 label w3 w4 w5 cn w6 w7 w8 w9 w10)]; [by destruct cn|].
    cbn in *. by rewrite !andb_true_iff in *; destruct_and!.
  - cbn [item_wf item_text] in *. rewrite !andb_true_iff in Hi; destruct_and!.
    apply stmt_other; [done|reflexivity|by apply (bool_decide_unpack _)|done].
Qed.

(** [finditer] over statements. *)
Lemma finditer_items {I A} (r : regex) (tx : I → list byte) (f : list (list byte) → A) (g : I → list A) (l : list I) tail :
  ends x3b r = true → Forall (λ i, (x3b ∉ tx i) ∧ f <$> stmt r x3b (tx i) = g i) l → (x3b ∉ tail) →
  f <$> finditer r (semicolons (tx <$> l) ++ tail) = concat (g <$> l).
Proof.
  intros He Hl Ht. unfold semicolons. rewrite (finditer_statements x3b); [|done|done| |done].
  - rewrite <-list_fmap_compose. induction Hl as [|i l [_ Hi] _ IH]; [done|]. cbn. by rewrite fmap_app, Hi, IH.
  - rewrite Forall_fmap. eapply Forall_impl; [exact Hl|]. by intros i [].
Qed.

Lemma forallb_Forall {A} (f : A → bool) l : forallb f l = true ↔ Forall (λ x, f x = true) l.
Proof. by rewrite forallb_forall, Forall_forall; setoid_rewrite <-list_elem_of_In. Qed.

Lemma cdef_interfaces d : cdef_wf d = true → (cd_name d, console_interfaces (cdef_body d)) = cdef_meta d.
Proof.
  unfold cdef_wf, console_interfaces, cdef_meta. rewrite !andb_true_iff. intros; destruct_and!. f_equal.
  apply finditer_items; [reflexivity| |by eapply without_spec; [|left]].
  eapply Forall_impl; [by apply forallb_Forall|]. intros x Hx. split; [by apply decl_no_semicolon|by apply decl_stmt].
Qed.

Lemma composition_items a :
  assembly_wf a = true →
  instance_of <$> finditer COMPONENT_RE (composition_of a) = concat (item_instances <$> as_items a) ∧
  connection_of <$> finditer CONNECTION_RE (composition_of a) = concat (item_connections <$> as_items a).
Proof.
  unfold assembly_wf, composition_of. rewrite !andb_true_iff. intros Ha; destruct_and!.
  assert (Hi : Forall (λ i, item_wf i = true) (as_items a)) by by apply forallb_Forall.
  assert (x3b ∉ as_tail a) by (eapply without_spec; [eassumption|by left]).
  split; (apply finditer_items; [reflexivity| |done]); (eapply Forall_impl; [exact Hi|]); intros i Hok;
    (split; [by apply item_free; [left|]|]); [by apply item_instance_stmt|by apply item_connection_stmt].
Qed.

(* ------------------------------------------------------------------ *)
(** ** Block by block *)

Lemma after_closed x : closed x = true → after false x = false.
Proof. apply negb_true_iff. Qed.

(** A word that begins a match is found behind a text without it. *)
Lemma search_found l r x u s caps :
  forallb is_word l = true → closed x = true → negb (occurs l x) = true →
  takes (begins l r) [] false u s caps →
  search (begins l r) false (x ++ u ++ s) = Some (caps, after false u, s).
Proof. intros Hl Hc Ho Ht. rewrite search_skip_closed by done. by apply search_here, takes_here. Qed.

Lemma block_found keyword x w s body :
  match keyword with c :: _ => is_word c = true | [] => False end → forallb is_word keyword = true →
  spaces w = true → closed x = true → negb (occurs keyword x) = true → balanced 0 body = true →
  extract_block (x ++ keyword ++ w ++ [x7b] ++ body ++ [x7d] ++ s) keyword = Some body.
Proof.
  intros Hk Hw Hs Hc Ho Hb. unfold extract_block.
  replace (x ++ keyword ++ w ++ [x7b] ++ body ++ [x7d] ++ s)
    with (x ++ (keyword ++ w ++ [x7b]) ++ body ++ [x7d] ++ s) by by rewrite <-!app_assoc.
  rewrite (search_found keyword (Cat spaces0 (lit x7b)) x _ _ []); [|done..|by apply takes_block].
  cbn [mbind option_bind]. by rewrite braced_block.
Qed.

Lemma closed_app x y : closed x = true → closed y = true → closed (x ++ y) = true.
Proof. unfold closed. rewrite after_app. by intros ->%negb_true_iff. Qed.

Lemma cdef_closed d : closed (cdef_text d) = true.
Proof. unfold cdef_text, closed, after. by rewrite !app_assoc, last_snoc. Qed.

Lemma defs_closed l : closed (defs_text l) = true.
Proof. induction l as [|d l IH]; [done|]. apply closed_app; [apply cdef_closed|exact IH]. Qed.

Lemma semicolons_free {I} c (tx : I → list byte) (l : list I) :
  c ≠ x3b → Forall (λ i, c ∉ tx i) l → (c ∉ semicolons (tx <$> l)).
Proof.
  intros Hc. induction 1 as [|i l Hi _ IH]; [apply not_elem_of_nil|]. unfold semicolons. cbn.
  rewrite !not_elem_of_app, list_elem_of_singleton. auto.
Qed.

Lemma composition_free a c : assembly_wf a = true → c ∈ [x7b; x7d] → (c ∉ composition_of a).
Proof.
  unfold assembly_wf. rewrite !andb_true_iff. intros Ha Hc; destruct_and!.
  apply not_elem_of_app; split; [|by eapply without_spec; [|right]]. apply semicolons_free.
  - rewrite !elem_of_cons in Hc. by destruct Hc as [->|[->|Hc%elem_of_nil]].
  - eapply Forall_impl; [by apply forallb_Forall|]. intros i Hi. apply item_free; [by right|exact Hi].
Qed.

Lemma composition_found a : assembly_wf a = true → composition_text (assembly_text a) = Some (composition_of a).
Proof.
  intros Ha. assert (Hb : balanced 0 (composition_of a) = true).
  { apply balanced_free; apply (composition_free a); try done; [by left|by right; left]. }
  unfold assembly_wf in Ha. rewrite !andb_true_iff in Ha; destruct_and!. unfold composition_text, assembly_text.
  rewrite (app_assoc (defs_text _)), block_found; try done; [|apply closed_app; [apply defs_closed|done]].
  - cbn [mbind option_bind]. by apply block_found.
Qed.

(** *** Definitions *)

Lemma definition_found d s :
  cdef_wf d = true →
  search COMPONENT_DEF_RE false (cdef_text d ++ s) = Some ([cd_name d], false, cdef_body d ++ [x7d] ++ s).
Proof.
  unfold cdef_wf. rewrite !andb_true_iff. intros; destruct_and!. set (u := bs "component" ++ cd_w1 d ++ cd_name d ++ cd_w2 d ++ [x7b]).
  replace (cdef_text d ++ s) with (cd_lead d ++ u ++ cdef_body d ++ [x7d] ++ s)
    by by unfold cdef_text, u; rewrite <-!app_assoc.
  replace false with (after false u) at 2 by by unfold u, after; rewrite !app_assoc, last_snoc.
  apply (search_found (bs "component")); [done..|]. by apply takes_component_def.
Qed.

Lemma definitions_found ds tail n :
  Forall (λ d, cdef_wf d = true) ds → search COMPONENT_DEF_RE false tail = None → (length ds ≤ n)%nat →
  component_definitions_loop n (defs_text ds ++ tail) = Some ((λ d, (cd_name d, cdef_body d)) <$> ds).
Proof.
  intros Hds Ht. revert n. induction Hds as [|d ds Hd _ IH]; intros n Hn.
  { destruct n; cbn [component_definitions_loop]; [done|]. change (defs_text [] ++ tail) with tail. by rewrite Ht. }
  destruct n as [|n]; [cbn in Hn; lia|]. cbn [component_definitions_loop].
  change (defs_text (d :: ds)) with (cdef_text d ++ defs_text ds).
  rewrite <-app_assoc, definition_found by done. rewrite braced_block.
  - cbn [mbind option_bind]. rewrite IH by (cbn in Hn; lia). done.
  - unfold cdef_wf in Hd. rewrite !andb_true_iff in Hd. tauto.
Qed.

Lemma defs_length ds : (length ds ≤ length (defs_text ds))%nat.
Proof.
  induction ds as [|d ds IH]; [done|]. change (defs_text (d :: ds)) with (cdef_text d ++ defs_text ds).
  unfold cdef_text. rewrite !length_app. cbn. lia.
Qed.

(** No definition begins before a semicolon and ends behind it. *)
Lemma skip_statements x y :
  (x7b ∉ x) → (x = [] ∨ last x = Some x3b) →
  search COMPONENT_DEF_RE false (x ++ y) = search COMPONENT_DEF_RE false y.
Proof.
  intros Hb Hl. rewrite search_skip; [unfold after; by destruct Hl as [-> | ->]|].
  intros x1 x2 -> H2. destruct Hl as [Hl|Hl]; [by apply app_nil in Hl as [_ ->]|].
  destruct x2 as [|c x2 _] using rev_ind; [done|]. rewrite app_assoc, last_snoc in Hl. injection Hl as ->.
  apply match_here_none. intros u s' cs Hu Hm.
  assert (Ha : x3b ∉ u) by by eapply mt_avoids.
  destruct (mt_ends x7b _ _ _ _ _ Hm eq_refl) as (v & -> & _).
  rewrite <-app_assoc in Hu. destruct (cut_at _ _ _ _ _ Hu Ha) as [z ->].
  apply Hb. rewrite !elem_of_app, list_elem_of_singleton. auto.
Qed.

Lemma library_definitions l :
  library_wf l = true →
  component_definitions (library_text l) = Some ((λ d, (cd_name d, cdef_body d)) <$> lib_defs l).
Proof.
  unfold library_wf. rewrite andb_true_iff. intros [Hds Ht]. apply definitions_found.
  - by apply forallb_Forall.
  - by apply search_no_word.
  - unfold library_text. rewrite length_app. pose proof (defs_length (lib_defs l)). lia.
Qed.

Lemma assembly_definitions a :
  assembly_wf a = true →
  component_definitions (assembly_text a) = Some ((λ d, (cd_name d, cdef_body d)) <$> as_defs a).
Proof.
  intros Ha. assert (Hf : x7b ∉ composition_of a) by (apply composition_free; [done|by left]).
  unfold assembly_wf in Ha. rewrite !andb_true_iff in Ha; destruct_and!.
  unfold component_definitions, assembly_text. apply definitions_found; [by apply forallb_Forall| |].
  - set (y := as_tail a ++ [x7d] ++ as_rest a ++ [x7d] ++ as_after a) in *.
    set (x := as_lead a ++ bs "assembly" ++ as_w1 a ++ [x7b] ++ as_mid a ++ bs "composition" ++ as_w2 a) in *.
    replace (as_lead a ++ _) with (x ++ x7b :: semicolons (item_text <$> as_items a) ++ y)
      by by unfold x, y, inner, composition_of; rewrite <-!app_assoc.
    etrans; [apply (search_skip_word (bs "component")); [by apply (bool_decide_unpack _)|done]|].
    etrans; [apply (skip_statements (semicolons (item_text <$> as_items a)) y)|by apply search_no_word].
    + by apply not_elem_of_app in Hf as [].
    + unfold semicolons. destruct (as_items a) as [|i l _] using rev_ind; [by left|right].
      by rewrite fmap_app, map_app, concat_app; cbn; rewrite app_nil_r, app_assoc, last_snoc.
  - rewrite length_app. pose proof (defs_length (as_defs a)). lia.
Qed.

Lemma defs_metadata ds :
  forallb cdef_wf ds = true →
  (λ d : list byte * list byte, (d.1, console_interfaces d.2)) <$> ((λ d, (cd_name d, cdef_body d)) <$> ds) = cdef_meta <$> ds.
Proof.
  intros Hds%forallb_Forall. rewrite <-list_fmap_compose. apply Forall_fmap_ext_1.
  eapply Forall_impl; [exact Hds|]. intros d Hd. by apply cdef_interfaces.
Qed.

Lemma metadata_cons text defs texts l :
  component_definitions text = Some ((λ d, (cd_name d, cdef_body d)) <$> defs) → forallb cdef_wf defs = true →
  component_type_metadata texts = Some l →
  component_type_metadata (text :: texts) = Some ((cdef_meta <$> defs) ++ l).
Proof. intros Ht Hd Hl. cbn. rewrite Ht, Hl. cbn. by rewrite <-defs_metadata. Qed.

Lemma libraries_metadata libs :
  Forall (λ l, library_wf l = true) libs →
  component_type_metadata (library_text <$> libs) = Some (cdef_meta <$> concat (lib_defs <$> libs)).
Proof.
  induction 1 as [|l libs Hl _ IH]; [done|]. change (library_text <$> l :: libs) with (library_text l :: (library_text <$> libs)).
  rewrite (metadata_cons _ (lib_defs l) _ _ (library_definitions l Hl)) by first [exact IH|by apply andb_prop in Hl as []].
  cbn. by rewrite fmap_app.
Qed.

Lemma metadata_found a libs :
  assembly_wf a = true → Forall (λ l, library_wf l = true) libs →
  component_type_metadata (assembly_text a :: (library_text <$> libs)) =
  Some (cdef_meta <$> as_defs a ++ concat (lib_defs <$> libs)).
Proof.
  intros Ha Hl. rewrite fmap_app. apply metadata_cons; [by apply assembly_definitions| |by apply libraries_metadata].
  unfold assembly_wf in Ha. rewrite !andb_true_iff in Ha. tauto.
Qed.

(** The texts of an assembly and of its imports give what they were written
    from. *)
Lemma assembly_parses a libs name source :
  assembly_wf a = true → Forall (λ l, library_wf l = true) libs →
  generate_text (assembly_text a) (assembly_text a :: (library_text <$> libs)) name source =
  generate (type_interfaces (cdef_meta <$> as_defs a ++ concat (lib_defs <$> libs)))
    (concat (item_instances <$> as_items a)) (concat (item_connections <$> as_items a)) name source.
Proof.
  intros Ha Hl. unfold generate_text. rewrite metadata_found, composition_found by done. cbn [mbind option_bind].
  by destruct (composition_items a Ha) as [-> ->].
Qed.
