(* ===== verification/GenC.v ===== *)
(** * The registry generator: the generated C

    The literal of the document reads back as the document, and the names made
    from components are C identifiers. *)

From S2P Require Import Prelude CString Generator RegistryText Regex GenText GenTextSpec.

(** What a C compiler reads for a string literal with the escapes of a quote
    and of a backslash. *)
Fixpoint c_body (s : list byte) : option (list byte) :=
  match s with
  | [] => None
  | c :: s' =>
      if bool_decide (c = x22) then match s' with [] => Some [] | _ => None end
      else if bool_decide (c = x5c) then
        match s' with
        | d :: s'' => if bool_decide (d = x22) || bool_decide (d = x5c) then (d ::.) <$> c_body s'' else None
        | [] => None
        end
      else if (0x20 <=? b2z c) && (b2z c <=? 0x7e) then (c ::.) <$> c_body s' else None
  end.
Definition c_literal (s : list byte) : option (list byte) :=
  match s with c :: s' => if bool_decide (c = x22) then c_body s' else None | [] => None end.

Definition printable (c : byte) : bool := (0x20 <=? b2z c) && (b2z c <=? 0x7e).
Definition ascii (l : list byte) : bool := forallb printable l.
Definition ascii_chunk (k : chunk) : bool := match k with CStr _ => true | CRaw l => ascii l end.
Definition ascii_chunks (cs : list chunk) : bool := forallb ascii_chunk cs.

(* ------------------------------------------------------------------ *)
(** ** The literal *)

Lemma json_char_ascii c : ascii (json_char c) = true.
Proof. by apply (each_byte (λ _, true) (λ c, ascii (json_char c))). Qed.

Lemma text_ascii cs : ascii_chunks cs = true → ascii (text cs) = true.
Proof.
  unfold text, ascii, ascii_chunks. induction cs as [|k cs IH]; [done|]. cbn. intros [Hk Hc]%andb_prop.
  rewrite forallb_app, IH, andb_true_r by done. destruct k as [s|l]; [|exact Hk]. cbn.
  rewrite forallb_app, andb_true_r. induction s as [|c s IHs]; [done|]. cbn.
  by rewrite forallb_app, IHs, (json_char_ascii c : forallb _ _ = _).
Qed.

(** The encoder escapes a printable character only if it has to. *)
Lemma json_char_printable c :
  printable c = true → json_char c = if bool_decide (c = x22) || bool_decide (c = x5c) then [x5c; c] else [c].
Proof.
  intros Hc. eapply bool_decide_eq_true. revert c Hc.
  by apply (each_byte printable (λ c, bool_decide
    (json_char c = if bool_decide (c = x22) || bool_decide (c = x5c) then [x5c; c] else [c]))).
Qed.

Lemma c_body_json l : ascii l = true → c_body (concat (map json_char l) ++ [x22]) = Some l.
Proof.
  induction l as [|c l IH]; [done|]. cbn [ascii forallb]. intros [Hc Hl]%andb_prop. cbn [map concat].
  rewrite <-app_assoc, json_char_printable by done. specialize (IH Hl).
  destruct (bool_decide (c = x22) || bool_decide (c = x5c)) eqn:Hq; cbn [app c_body].
  - rewrite bool_decide_eq_false_2, bool_decide_eq_true_2 by done. by rewrite Hq, IH.
  - apply orb_false_iff in Hq as [-> ->]. unfold printable in Hc. by rewrite Hc, IH.
Qed.

Lemma literal_reads_back doc : ascii doc = true → c_literal (json_escape_for_c doc) = Some doc.
Proof.
  intros Hd. unfold json_escape_for_c, text. cbn. rewrite app_nil_r. rewrite bool_decide_eq_true_2 by done. by apply c_body_json.
Qed.

(** *** The document is ASCII *)

Lemma ascii_chunks_app a b : ascii_chunks (a ++ b) = ascii_chunks a && ascii_chunks b.
Proof. apply forallb_app. Qed.

Lemma ascii_comma_sep vs : Forall (λ v, ascii_chunks v = true) vs → ascii_chunks (comma_sep vs) = true.
Proof.
  destruct 1 as [|v vs Hv Hvs]; [done|]. cbn [comma_sep]. rewrite ascii_chunks_app, Hv. cbn [andb].
  induction Hvs as [|w vs Hw _ IH]; [done|]. cbn [map concat]. by rewrite ascii_chunks_app, IH, andb_true_r.
Qed.

Lemma ascii_jlist {A} (f : A → list chunk) l : (∀ x, ascii_chunks (f x) = true) → ascii_chunks (jlist (map f l)) = true.
Proof.
  intros Hf. unfold jlist. cbn. rewrite ascii_chunks_app, ascii_comma_sep; [done|].
  apply Forall_fmap, Forall_forall. intros x _. apply Hf.
Qed.

Lemma ascii_jdict fields : Forall (λ kv, ascii_chunks kv.2 = true) fields → ascii_chunks (jdict fields) = true.
Proof.
  intros Hf. unfold jdict. cbn [ascii_chunks forallb ascii_chunk]. change (forallb ascii_chunk) with ascii_chunks.
  rewrite ascii_chunks_app, ascii_comma_sep; [done|].
  apply Forall_fmap, Forall_forall. intros kv Hin%sort_keys_elem. rewrite Forall_forall in Hf. exact (Hf kv Hin).
Qed.

Lemma ascii_jstr s : ascii_chunks (jstr s) = true.
Proof. done. Qed.

Lemma ascii_jint z : ascii_chunks (jint z) = true.
Proof.
  destruct (value_jint z) as [Hg _]. unfold good in Hg. cbn in Hg |- *. rewrite andb_true_r in *.
  unfold ascii. rewrite forallb_forall in Hg |- *. intros c Hc%Hg. revert c Hc. by apply (each_byte raw_char printable).
Qed.

(** Goes over the fields of a dictionary. *)
Local Ltac fields := apply ascii_jdict; repeat (apply Forall_cons; split); try apply Forall_nil_2; cbn [snd];
  first [apply ascii_jstr | apply ascii_jint | apply ascii_jlist | idtac].

Lemma registry_ascii name source sts sources sinks : ascii (registry_json name source sts sources sinks) = true.
Proof.
  apply text_ascii. fields.
  - intros s. fields; [intros i; fields|]. exact (ascii_jlist (λ x : unit, []) [] (λ _, eq_refl)).
  - intros m. fields.
  - intros d. fields.
Qed.

Lemma generated_literal types matches conns name source sts doc :
  generate types matches conns name source = Some (sts, doc) → c_literal (json_escape_for_c doc) = Some doc.
Proof.
  unfold generate. intros (sts' & _ & (sources & _ & (sinks & _ & Hg)%bind_Some)%bind_Some)%bind_Some.
  apply (f_equal (option_map snd)) in Hg. cbn [option_map snd] in Hg.
  assert (doc = registry_json name source sts' sources sinks) as -> by congruence.
  apply literal_reads_back, registry_ascii.
Qed.

(* ------------------------------------------------------------------ *)
(** ** The names *)

Lemma squeeze_Forall (P : byte → Prop) l : Forall P l → Forall P (squeeze l).
Proof. induction 1 as [|c l Hc Hl IH]; cbn [squeeze]; [done|]. destruct (_ && _); [done|by constructor]. Qed.

Lemma strip_Forall (P : byte → Prop) l : Forall P l → Forall P (strip_underscores l).
Proof. induction 1 as [|c l Hc Hl IH]; cbn [strip_underscores]; [done|]. case_match; [done|by constructor]. Qed.

(** Whatever the component is called. *)
Lemma sanitize_identifier empty name : identifier empty = true → identifier (sanitize empty name) = true.
Proof.
  intros He. unfold sanitize. set (l := rev _).
  assert (Hl : Forall (λ c, id_char c = true) l).
  { apply Forall_rev, strip_Forall, Forall_rev, strip_Forall, squeeze_Forall, Forall_fmap, Forall_forall.
    intros c _. cbn. by destruct (id_char c) eqn:Hc. }
  assert (Ht : match l with [] => empty | _ => l end ≠ [] ∧ Forall (λ c, id_char c = true) (match l with [] => empty | _ => l end)).
  { destruct l; [by apply identifier_chars|done]. }
  revert Ht. generalize (match l with [] => empty | _ => l end). intros [|c t] [Hne Ht]; [done|].
  apply Forall_cons in Ht as [Hc Ht]. apply identifier_spec. destruct (is_digit c) eqn:Hd.
  - exists x5f, (c :: t). split_and!; [done..|by constructor].
  - exists c, t. split_and!; [done| |done]. unfold id_char in Hc. unfold is_digit in Hd. by rewrite Hd, orb_false_r in Hc.
Qed.

Lemma sanitize_c_ident_identifier name : identifier (sanitize_c_ident name) = true.
Proof. by apply sanitize_identifier. Qed.

Lemma sanitize_macro_identifier name : identifier (sanitize_macro name) = true.
Proof.
  unfold sanitize_macro. assert (Hi : identifier (sanitize (bs "STREAM") name) = true) by by apply sanitize_identifier.
  apply identifier_spec in Hi as (c & l & -> & Hc & Hl). apply identifier_spec. exists (upper c), (map upper l).
  split_and!; [done| |].
  - revert c Hc. by apply (each_byte id_start (λ c, id_start (upper c))).
  - apply Forall_fmap. eapply Forall_impl; [exact Hl|]. by apply (each_byte id_char (λ c, id_char (upper c))).
Qed.

Lemma stream_macro_identifier s : identifier (stream_macro s) = true.
Proof.
  destruct (identifier_chars _ (sanitize_macro_identifier (st_component s))) as [_ Hl]. unfold stream_macro.
  change (bs "VIRTIO_CAMKES_STREAM_") with (x56 :: bs "IRTIO_CAMKES_STREAM_"). cbn [app identifier].
  rewrite forallb_app, (proj2 (forallb_Forall id_char _) Hl). reflexivity.
Qed.

(** Two components whose names differ in case share a macro. *)
Example macros_collide :
  bs "vm" ≠ bs "VM" ∧ sanitize_macro (bs "vm") = sanitize_macro (bs "VM").
Proof. split; [done|reflexivity]. Qed.
