(* ===== verification/GenImports.v ===== *)
(** * The registry generator: the imports of an assembly

    [_collect_preprocessed_camkes] ends, and takes every file the assembly
    imports, directly or not, once; [main] from an assembly and libraries as
    [GenTextSpec] writes them. *)

From S2P Require Import Prelude CString Regex Generator GenText GenTextSpec GenC.

Section Imports.
Context (resolve : list byte → option (list byte)) (run_cpp_path : list byte → list byte).

(** The files that names resolve to, and those that a text imports. *)
Definition resolves (names : list (list byte)) (path : list byte) : Prop :=
  ∃ name, name ∈ names ∧ path_suffix name = bs ".camkes" ∧ resolve name = Some path.
Definition imports (text path : list byte) : Prop := resolves (import_names text) path.

(** The files imported by [texts], or by one of those, but for [seen]. *)
Inductive reached (seen texts : list (list byte)) : list byte → Prop :=
| reached_text t q : t ∈ texts → imports t q → (q ∉ seen) → reached seen texts q
| reached_path p q : reached seen texts p → imports (run_cpp_path p) q → (q ∉ seen) → reached seen texts q.

Definition texts_of (paths : list (list byte)) : list (list byte) := filter (λ t, t ≠ []) (run_cpp_path <$> paths).

Lemma resolves_cons name names q :
  resolves (name :: names) q ↔ (path_suffix name = bs ".camkes" ∧ resolve name = Some q) ∨ resolves names q.
Proof.
  unfold resolves. split.
  - intros (m & [->|Hm]%elem_of_cons & Hs); [by left|right; by exists m].
  - intros [[Hs Hr]|(m & Hm & Hs)]; [exists name|exists m]; rewrite elem_of_cons; auto.
Qed.

Lemma collect_imports_spec names seen seen' new :
  collect_imports resolve run_cpp_path names seen = (seen', new) →
  ∃ paths, seen' = reverse paths ++ seen ∧ new = texts_of paths ∧ NoDup paths ∧
    ∀ q, q ∈ paths ↔ resolves names q ∧ (q ∉ seen).
Proof.
  revert seen seen' new. induction names as [|name names IH]; intros seen seen' new; cbn [collect_imports].
  { intros [= <- <-]. exists []. split_and!; [done..|apply NoDup_nil_2|]. intros q. split; [by intros ?%elem_of_nil|].
    intros [(m & Hm%elem_of_nil & _) _]. done. }
  setoid_rewrite resolves_cons. case_bool_decide as Hs; cbn [negb].
  2: { intros (ps & -> & -> & Hn & Hq)%IH. exists ps. split_and!; [done..|]. intros q. rewrite Hq. tauto. }
  destruct (resolve name) as [path|] eqn:Hr.
  2: { intros (ps & -> & -> & Hn & Hq)%IH. exists ps. split_and!; [done..|]. intros q. rewrite Hq.
       split; [tauto|]. intros [[[_ [=]]|] ?]; tauto. }
  case_bool_decide as Hin.
  { intros (ps & -> & -> & Hn & Hq)%IH. exists ps. split_and!; [done..|]. intros q. rewrite Hq.
    split; [tauto|]. intros [[[_ [= ->]]|] ?]; tauto. }
  destruct (collect_imports resolve run_cpp_path names (path :: seen)) as [seen1 new1] eqn:Hc.
  apply IH in Hc as (ps & -> & -> & Hn & Hq). intros [= <- <-]. exists (path :: ps). split_and!.
  - by rewrite reverse_cons, <-app_assoc.
  - unfold texts_of. rewrite fmap_cons, filter_cons. by destruct (run_cpp_path path).
  - constructor; [|done]. rewrite Hq, elem_of_cons. tauto.
  - intros q. rewrite elem_of_cons, Hq, elem_of_cons. split.
    + intros [->|[Hn1 Hn2]]; [by split; [left|]|tauto].
    + intros [[[_ [= ->]]|Hn1] Hn2]; [by left|]. destruct (decide (q = path)); tauto.
Qed.

Lemma imports_nil q : ¬ imports [] q.
Proof. intros (name & Hn%elem_of_nil & _). done. Qed.

Lemma texts_of_elem paths t : t ∈ texts_of paths ↔ t ≠ [] ∧ ∃ p, t = run_cpp_path p ∧ p ∈ paths.
Proof. unfold texts_of. by rewrite list_elem_of_filter, list_elem_of_fmap. Qed.

Lemma texts_of_app a b : texts_of (a ++ b) = texts_of a ++ texts_of b.
Proof. unfold texts_of. by rewrite fmap_app, filter_app. Qed.

Lemma reached_unseen seen texts q : reached seen texts q → q ∉ seen.
Proof. by destruct 1. Qed.

(** One text of the queue, and what is left. *)
Lemma reached_step seen text queue ps q :
  (∀ q, q ∈ ps ↔ resolves (import_names text) q ∧ (q ∉ seen)) →
  reached seen (text :: queue) q ↔ q ∈ ps ∨ reached (reverse ps ++ seen) (queue ++ texts_of ps) q.
Proof.
  intros Hps. assert (Hseen : ∀ q, (q ∉ reverse ps ++ seen) ↔ (q ∉ ps) ∧ (q ∉ seen)).
  { intros x. rewrite not_elem_of_app, elem_of_reverse. done. }
  split.
  - induction 1 as [t q [->|Ht]%elem_of_cons Hi Hq|p q _ IH Hi Hq].
    + left. by apply Hps.
    + destruct (decide (q ∈ ps)); [by left|right]. eapply reached_text; [|exact Hi|by apply Hseen]. rewrite elem_of_app. auto.
    + destruct (decide (q ∈ ps)); [by left|right]. destruct IH as [Hp|Hp].
      * eapply reached_text; [|exact Hi|by apply Hseen]. rewrite elem_of_app, texts_of_elem. right.
        split; [|by exists p]. intros He. rewrite He in Hi. by apply imports_nil in Hi.
      * eapply reached_path; [exact Hp|exact Hi|by apply Hseen].
  - assert (Hin : ∀ q, q ∈ ps → reached seen (text :: queue) q).
    { intros x [Hr Hx]%Hps. eapply reached_text; [by left|exact Hr|exact Hx]. }
    intros [Hq|Hq]; [by apply Hin|]. induction Hq as [t q Ht Hi [_ Hq]%Hseen|p q _ IH Hi [_ Hq]%Hseen].
    + apply elem_of_app in Ht as [Ht|(_ & p & -> & Hp)%texts_of_elem].
      * eapply reached_text; [by right|exact Hi|exact Hq].
      * eapply reached_path; [by apply Hin|exact Hi|exact Hq].
    + by eapply reached_path.
Qed.

Context (files : list (list byte)).
Context (Hfiles : ∀ name path, resolve name = Some path → path ∈ files).

(** The files that are left. *)
Definition unseen (seen : list (list byte)) : list (list byte) := filter (λ p, p ∉ seen) files.

Lemma unseen_step ps seen :
  NoDup ps → (∀ q, q ∈ ps → q ∈ files ∧ (q ∉ seen)) →
  (length ps + length (unseen (reverse ps ++ seen)) ≤ length (unseen seen))%nat.
Proof.
  intros Hn Hps. rewrite <-length_app. apply submseteq_length.
  rewrite <-(filter_app_complement (λ p, p ∈ ps) (unseen seen)). apply submseteq_app.
  - apply NoDup_submseteq; [done|]. intros q Hq. unfold unseen. rewrite !list_elem_of_filter. by destruct (Hps q Hq).
  - unfold unseen. rewrite list_filter_filter. erewrite list_filter_iff; [reflexivity|].
    intros q. rewrite not_elem_of_app, elem_of_reverse. done.
Qed.

(** The loop over the queue ends, with every file reached, once. *)
Lemma collect_loop_spec n queue seen :
  (length queue + length (unseen seen) ≤ n)%nat →
  ∃ paths, collect_loop resolve run_cpp_path n queue seen = Some (texts_of paths) ∧ NoDup paths ∧
    ∀ q, q ∈ paths ↔ reached seen queue q.
Proof.
  revert queue seen. induction n as [|n IH]; intros [|text queue] seen Hn; cbn [collect_loop];
    try (exists []; split_and!; [done|apply NoDup_nil_2|]; intros q; split; [by intros ?%elem_of_nil|];
         induction 1 as [t q Ht%elem_of_nil|p q _ IHq _ _]; [done|by apply elem_of_nil in IHq]).
  { cbn in Hn. lia. }
  destruct (collect_imports resolve run_cpp_path (import_names text) seen) as [seen' new] eqn:Hc.
  apply collect_imports_spec in Hc as (ps & -> & -> & Hnd & Hps).
  assert (Hlen : (length ps + length (unseen (reverse ps ++ seen)) ≤ length (unseen seen))%nat).
  { apply unseen_step; [done|]. intros q [(name & _ & _ & Hr) Hq]%Hps. split; [by eapply Hfiles|done]. }
  assert (Hnew : (length (texts_of ps) ≤ length ps)%nat).
  { unfold texts_of. etrans; [apply length_filter|]. by rewrite length_fmap. }
  destruct (IH (queue ++ texts_of ps) (reverse ps ++ seen)) as (paths & -> & Hnd' & Hpaths).
  { rewrite length_app. cbn in Hn. lia. }
  exists (ps ++ paths). cbn [mbind option_bind]. split_and!.
  - by rewrite texts_of_app.
  - apply NoDup_app. split_and!; [done| |done]. intros q Hq Hr%Hpaths%reached_unseen.
    apply Hr, elem_of_app. left. by apply elem_of_reverse.
  - intros q. rewrite elem_of_app, Hpaths. symmetry. by apply reached_step.
Qed.

(** [main] takes the assembly and the libraries it imports. *)
Lemma collect_spec n camkes preprocessed :
  (S (length files) ≤ n)%nat →
  ∃ paths, collect_preprocessed_camkes resolve run_cpp_path n camkes preprocessed = Some (preprocessed :: texts_of paths) ∧
    NoDup paths ∧ (∀ q, q ∈ paths ↔ reached [camkes] [preprocessed] q).
Proof.
  intros Hn. unfold collect_preprocessed_camkes.
  destruct (collect_loop_spec n [preprocessed] [camkes]) as (paths & -> & Hp); [|by exists paths].
  unfold unseen. pose proof (length_filter (λ p, p ∉ [camkes]) files). cbn. lia.
Qed.
End Imports.

(* ------------------------------------------------------------------ *)
(** ** From the files to the registry *)

Lemma cdef_text_nonempty d : cdef_text d ≠ [].
Proof. unfold cdef_text. by destruct (cd_lead d). Qed.

(** An empty text has no definitions. *)
Lemma empty_libraries libs :
  concat (lib_defs <$> filter (λ l, library_text l ≠ []) libs) = concat (lib_defs <$> libs).
Proof.
  induction libs as [|l libs IH]; [done|]. rewrite filter_cons, fmap_cons. cbn [concat]. rewrite <-IH.
  case_decide as Hl; [done|]. destruct (lib_defs l) as [|d ds] eqn:Hd; [done|].
  unfold library_text in Hl. rewrite Hd in Hl. change (defs_text (d :: ds)) with (cdef_text d ++ defs_text ds) in Hl.
  pose proof (cdef_text_nonempty d). by destruct (cdef_text d).
Qed.

(** C7: the generator reads an assembly and the files it imports.  Given an
    assembly written with any spacing (component definitions, then the
    [assembly] block with its composition of instances, connections and other
    statements), and imports that resolve into a finite set of files each of
    which preprocesses to component definitions, [main] ends with one turn per
    file; it takes every file reached by [.camkes] imports, directly or not,
    once, and assigns the registry from exactly the console interfaces,
    instances and connections that were written.  In the C it writes, the
    literal of the document reads back as the document, and every stream's
    macro is an identifier. *)
Theorem generator_reads_assembly resolve run_cpp_path files (lib : list byte → library) a camkes name source n :
  (∀ import path, resolve import = Some path → path ∈ files) →
  (∀ path, path ∈ files → run_cpp_path path = library_text (lib path) ∧ library_wf (lib path) = true) →
  assembly_wf a = true → (S (length files) ≤ n)%nat →
  ∃ paths, NoDup paths ∧ (∀ q, q ∈ paths ↔ reached resolve run_cpp_path [camkes] [assembly_text a] q) ∧
    main resolve run_cpp_path n camkes (assembly_text a) name source =
    generate (type_interfaces (cdef_meta <$> as_defs a ++ concat (lib_defs <$> (lib <$> paths))))
      (concat (item_instances <$> as_items a)) (concat (item_connections <$> as_items a)) name source ∧
    ∀ sts doc, main resolve run_cpp_path n camkes (assembly_text a) name source = Some (sts, doc) →
      c_literal (json_escape_for_c doc) = Some doc ∧ Forall (λ s, identifier (stream_macro s) = true) sts.
Proof.
  intros Hr Hf Ha Hn.
  destruct (collect_spec resolve run_cpp_path files Hr n camkes (assembly_text a) Hn) as (paths & Hc & Hnd & Hp).
  enough (Hm : main resolve run_cpp_path n camkes (assembly_text a) name source =
    generate (type_interfaces (cdef_meta <$> as_defs a ++ concat (lib_defs <$> (lib <$> paths))))
      (concat (item_instances <$> as_items a)) (concat (item_connections <$> as_items a)) name source).
  { exists paths. split_and!; [done..|]. rewrite Hm. intros sts doc Hg. split; [by eapply generated_literal|].
    apply Forall_forall. intros s _. apply stream_macro_identifier. }
  unfold main. rewrite Hc. cbn [mbind option_bind].
  assert (Hfiles : Forall (λ p, p ∈ files) paths).
  { apply Forall_forall. intros p [t q _ (m & _ & _ & Hm) _|p' q _ (m & _ & _ & Hm) _]%Hp; by eapply Hr. }
  assert (Ht : texts_of run_cpp_path paths = library_text <$> filter (λ l, library_text l ≠ []) (lib <$> paths)).
  { unfold texts_of. clear Hc Hnd Hp. induction Hfiles as [|p ps Hin _ IH]; [done|].
    rewrite !fmap_cons, !filter_cons. destruct (Hf p Hin) as [-> _]. case_decide; [|exact IH]. by rewrite fmap_cons, IH. }
  rewrite Ht, assembly_parses, empty_libraries; [done|done|].
  apply Forall_forall. intros l [_ (p & -> & Hin)%list_elem_of_fmap]%list_elem_of_filter.
  rewrite Forall_forall in Hfiles. by apply Hf, Hfiles.
Qed.

(* ------------------------------------------------------------------ *)
(** ** An assembly with the components of the repository *)

Local Abbreviation nl l := (x0a :: bs l).
Definition console (put : bool) (name : list byte) : decl :=
  Console (nl "    ") None true (bs " ") (if put then PutChar else GetChar) (bs " ") name [].

Definition guest_sink : library :=
  Library [CDef (bs "import <PutChar.idl4>;" ++ nl "import <Batch.idl4>;" ++ nl "") (bs " ") (bs "GuestSink") (bs " ")
             [console true (bs "guest_putchar"); Decl (nl "    uses Batch mux_batch")] (nl "")] (nl "").
Definition mux : library :=
  Library [CDef (bs "import <GetChar.idl4>;" ++ nl "import <serial.camkes>;" ++ nl "") (bs " ") (bs "Mux") (bs " ")
             [Decl (nl "    provides Batch mux_batch"); console false (bs "vm0_getchar"); console false (bs "vm1_getchar");
              Decl (nl "    maybe uses Batch uplink_batch")]
             (nl "    composition {" ++ nl "    }" ++ nl "    configuration {" ++ nl "    }" ++ nl "")] (nl "").

Definition demo_connect (label : list byte) (c : connection) : item :=
  Connect (nl "        ") (bs " ") (bs "seL4RPCCall") (bs " ") label [] [] (bs " ") c [] (bs " ") (bs " ") [] [].
Definition demo_assembly : assembly :=
  Assembly
    [CDef (bs "import <GuestSink.camkes>;" ++ nl "import <Mux.camkes>;" ++ nl "") (bs " ") (bs "VM") (bs " ")
       [Console (nl "    ") (Some (bs " ")) false (bs " ") PutChar (bs " ") (bs "putchar") [];
        Console (nl "    ") None false (bs " ") GetChar (bs " ") (bs "getchar") [];
        Decl (nl "    control")] (nl "")]
    (nl "") (bs " ") (nl "    ") (bs " ")
    [Instance_ (nl "        ") (bs " ") (bs "VM") (bs " ") (bs "vm0") [];
     Instance_ (nl "        ") (bs " ") (bs "GuestSink") (bs " ") (bs "sink0") [];
     Instance_ (nl "        ") (bs " ") (bs "Mux") (bs " ") (bs "mux") [];
     Instance_ (nl "        ") (bs " ") (bs "Timer") (bs " ") (bs "timer") [];
     demo_connect (bs "out0") (Connection (bs "sink0") (bs "mux_batch") (bs "mux") (bs "mux_batch"));
     demo_connect (bs "in0") (Connection (bs "vm0") (bs "getchar") (bs "mux") (bs "vm0_getchar"))]
    (nl "    ") (nl "    configuration {" ++ nl "        vm0.id = 0;" ++ nl "    }" ++ nl "") (nl "").

Definition demo_resolve (import : list byte) : option (list byte) :=
  if bool_decide (import = bs "GuestSink.camkes") then Some (bs "/sel4/GuestSink.camkes")
  else if bool_decide (import = bs "Mux.camkes") then Some (bs "/sel4/Mux.camkes") else None.
Definition demo_library (path : list byte) : library :=
  if bool_decide (path = bs "/sel4/GuestSink.camkes") then guest_sink else mux.

Example demo_text : assembly_text demo_assembly = bs "import <GuestSink.camkes>;
import <Mux.camkes>;
component VM {
    maybe uses PutChar putchar;
    uses GetChar getchar;
    control;
}
assembly {
    composition {
        component VM vm0;
        component GuestSink sink0;
        component Mux mux;
        component Timer timer;
        connection seL4RPCCall out0(from sink0.mux_batch, to mux.mux_batch);
        connection seL4RPCCall in0(from vm0.getchar, to mux.vm0_getchar);
    }
    configuration {
        vm0.id = 0;
    }
}
".
Proof. vm_compute. reflexivity. Qed.

(** The ids and the directions of its components. *)
Example demo_streams :
  (λ r : list stream * list byte, (λ s, (st_component s, st_id s, st_direction s)) <$> r.1) <$>
    main demo_resolve (λ p, library_text (demo_library p)) 3 (bs "/vm.camkes") (assembly_text demo_assembly) (bs "demo") (bs "vm.camkes") =
  Some [(bs "vm0", 1, bs "bidirectional"); (bs "sink0", 2, bs "output"); (bs "mux", 3, bs "input"); (bs "timer", -1, bs "none")].
Proof. vm_compute. reflexivity. Qed.

Lemma generator_reads_assembly_witness :
  assembly_wf demo_assembly = true ∧
  ∃ paths, NoDup paths ∧
    (∀ q, q ∈ paths ↔ reached demo_resolve (λ p, library_text (demo_library p)) [bs "/vm.camkes"] [assembly_text demo_assembly] q) ∧
    main demo_resolve (λ p, library_text (demo_library p)) 3 (bs "/vm.camkes") (assembly_text demo_assembly) (bs "demo") (bs "vm.camkes") =
    generate (type_interfaces (cdef_meta <$> as_defs demo_assembly ++ concat (lib_defs <$> (demo_library <$> paths))))
      [(bs "VM", bs "vm0"); (bs "GuestSink", bs "sink0"); (bs "Mux", bs "mux"); (bs "Timer", bs "timer")]
      [Connection (bs "sink0") (bs "mux_batch") (bs "mux") (bs "mux_batch");
       Connection (bs "vm0") (bs "getchar") (bs "mux") (bs "vm0_getchar")] (bs "demo") (bs "vm.camkes") ∧
    ∀ sts doc, main demo_resolve (λ p, library_text (demo_library p)) 3 (bs "/vm.camkes") (assembly_text demo_assembly) (bs "demo") (bs "vm.camkes") = Some (sts, doc) →
      c_literal (json_escape_for_c doc) = Some doc ∧ Forall (λ s, identifier (stream_macro s) = true) sts.
Proof.
  split; [vm_compute; reflexivity|].
  apply (generator_reads_assembly demo_resolve _ [bs "/sel4/GuestSink.camkes"; bs "/sel4/Mux.camkes"] demo_library demo_assembly).
  - intros import path. unfold demo_resolve. case_bool_decide; [|case_bool_decide; [|done]]; intros [= <-].
    + by left.
    + by right; left.
  - intros path [->|[->|Hp%elem_of_nil]%elem_of_cons]%elem_of_cons; [..|done]; (split; [reflexivity|vm_compute; reflexivity]).
  - vm_compute. reflexivity.
  - vm_compute. lia.
Defined.
