(* ===== verification/HostState.v ===== *)
(** * The host multiplexer's state and its system calls

    The globals of [host/tcu_com.c] as one record, and the system calls it
    makes as requests to an environment.  The environment answers every
    request from the history of the calls made so far; the history is kept
    in the state, newest call first, and is what the theorems talk about. *)

From S2P Require Import Prelude.

(* ------------------------------------------------------------------ *)
(** ** System calls *)

(** What [open] is asked for at each place the program opens a file. *)
Inductive open_mode : Type := OpenTty | OpenLog | OpenRawLog | OpenSlave | OpenLockRead | OpenLockCreate.

Inductive sysreq : Type :=
| RqWrite (fd : Z) (data : list byte)
| RqRead (fd : Z) (count : Z)
| RqPollIn (fd : Z) (timeout : Z)
| RqPollOut (fd : Z) (timeout : Z)
| RqDrain (fd : Z)
| RqClose (fd : Z)
| RqOpen (path : list byte) (mode : open_mode)
| RqOpenpt
| RqGrantpt (fd : Z)
| RqUnlockpt (fd : Z)
| RqPtsname (fd : Z) (size : Z)
| RqRawMode (fd : Z)
| RqAttrInit
| RqAttrStack (size : Z)
| RqAttrDestroy
| RqThread (pty_idx : Z)
| RqMalloc (size : Z)
| RqStdout (data : list byte)
| RqTime
| RqOpendir (path : list byte)
| RqClosedir
| RqStat (path : list byte)
| RqUnlink (path : list byte)
| RqKill (pid : Z)
| RqGetpid
| RqSignal
| RqSleep (usec : Z)
| RqFlock (fd : Z)
| RqGetAttr (fd : Z)
| RqSetSpeed (output : bool) (speed : Z)
| RqSetAttr (fd : Z).

(** The answer: return value, [errno], [revents] or similar, bytes, numbers. *)
Record sysres : Type := SysRes {
  res : Z;
  err : Z;
  revents : Z;
  res_bytes : list byte;
  res_nums : list Z
}.

Definition history : Type := list (sysreq * sysres).
Definition env : Type := history → sysreq → sysres.

(** Linux values of the names the source uses. *)
Definition ENOENT : Z := 2.
Definition EINTR : Z := 4.
Definition ESRCH : Z := 3.
Definition EIO : Z := 5.
Definition EAGAIN : Z := 11.
Definition EWOULDBLOCK : Z := 11.
Definition ENOMEM : Z := 12.
Definition EACCES : Z := 13.
Definition EINVAL : Z := 22.
Definition POLLIN : Z := 1.
Definition POLLERR : Z := 8.
Definition POLLHUP : Z := 16.
Definition POLLNVAL : Z := 32.

(* ------------------------------------------------------------------ *)
(** ** Data *)

(** [struct tag]; a null [name] is [None]. *)
Record tag : Type := Tag { tag_name : option (list byte); tag_value : byte }.

(** [struct thread_data], less its mutex. *)
Record thread_data : Type := ThreadData {
  td_fd : Z;
  td_log_fd : Z;
  td_id : Z;
  td_device_name : list byte;
  td_last_ch : byte
}.

Definition tag_zero : tag := Tag None x00.
Definition thread_data_zero : thread_data := ThreadData 0 0 0 [] x00.

Definition VIRTIOSO_OUTER_RAW : Z := 0.
Definition VIRTIOSO_OUTER_NVIDIA_TCU : Z := 1.
Definition VIRTIOSO_MAX_PTY_COUNT : Z := 257.

Definition RAW_PTY : list byte := bs "RAW".
Definition RAW_CCPLEX_PTY : list byte := bs "raw_ccplex".
Definition AUTOPILOT_CONTROL_PTY : list byte := bs "autopilot_control".
Definition PHYSICAL_UART_DEFAULT_PTY : list byte := bs "physical_uart_default".

Definition chip_tags : list tag := [
  Tag (Some (bs "CCPLEX")) xe1;
  Tag (Some (bs "BPMP")) xe2;
  Tag (Some (bs "OOBHUB")) xe3;
  Tag (Some (bs "SatMC")) xe4;
  Tag (Some (bs "RAS")) xe5;
  Tag (Some (bs "CCPLEX-ROOT")) xe6;
  Tag (Some (bs "TZ")) xe7;
  Tag (Some (bs "CCPLEX-REALM")) xe8;
  Tag (Some (bs "MSEQ")) xea;
  Tag (Some (bs "PCORE")) xeb;
  Tag (Some (bs "C2C")) xec;
  Tag (Some (bs "DBG2")) xed;
  Tag (Some (bs "RSVD15")) xef;
  Tag (Some (bs "RSVD16")) xf0;
  Tag (Some (bs "CCPLEX-ALT")) xe9 ].

(** The globals [main] sets before it starts the threads. *)
Record config : Type := Config {
  poll_output_timeout : Z;
  enable_write_raw_pty : bool;
  virtioso_mode_enabled : bool;
  virtioso_outer_mode : Z;
  virtioso_outer_tag_idx : Z;
  raw_ccplex_pty_idx : Z;
  autopilot_control_pty_idx : Z;
  virtioso_default_pty_idx : Z;
  raw_pty_idx : Z;
  pty_capacity : Z;
  disable_patch : bool;
  log_timestamp_enabled : bool;
  save_output_path : option (list byte);
  tty_device : list byte;
  int_baudrate : Z;
  disable_uucp_lock : bool
}.

(** The globals the threads change, and the history of system calls. *)
Record host : Type := Host {
  trace : history;
  cfg : config;
  tags : list tag;
  num_proc : Z;
  default_tag_idx : Z;
  pty_max_count : Z;
  pty_data : list thread_data;
  virtioso_stream_input_enabled : list bool;
  virtioso_registry_json : option (list byte);
  virtioso_pending_ctrl_type : byte;
  virtioso_downlink_ack_count : Z;
  tty_fd : Z;
  tty_log_fd : Z;
  filelock : list byte;
  uucp_locked : bool
}.

(** Computations of the host program. *)
Definition HM (A : Type) : Type := M host A.

(** Assignments to the globals. *)
Definition set_trace (v : history) (h : host) : host :=
  Host v (cfg h) (tags h) (num_proc h) (default_tag_idx h) (pty_max_count h) (pty_data h) (virtioso_stream_input_enabled h) (virtioso_registry_json h) (virtioso_pending_ctrl_type h) (virtioso_downlink_ack_count h) (tty_fd h) (tty_log_fd h) (filelock h) (uucp_locked h).
Definition set_cfg (v : config) (h : host) : host :=
  Host (trace h) v (tags h) (num_proc h) (default_tag_idx h) (pty_max_count h) (pty_data h) (virtioso_stream_input_enabled h) (virtioso_registry_json h) (virtioso_pending_ctrl_type h) (virtioso_downlink_ack_count h) (tty_fd h) (tty_log_fd h) (filelock h) (uucp_locked h).
Definition set_tags (v : list tag) (h : host) : host :=
  Host (trace h) (cfg h) v (num_proc h) (default_tag_idx h) (pty_max_count h) (pty_data h) (virtioso_stream_input_enabled h) (virtioso_registry_json h) (virtioso_pending_ctrl_type h) (virtioso_downlink_ack_count h) (tty_fd h) (tty_log_fd h) (filelock h) (uucp_locked h).
Definition set_num_proc (v : Z) (h : host) : host :=
  Host (trace h) (cfg h) (tags h) v (default_tag_idx h) (pty_max_count h) (pty_data h) (virtioso_stream_input_enabled h) (virtioso_registry_json h) (virtioso_pending_ctrl_type h) (virtioso_downlink_ack_count h) (tty_fd h) (tty_log_fd h) (filelock h) (uucp_locked h).
Definition set_default_tag_idx (v : Z) (h : host) : host :=
  Host (trace h) (cfg h) (tags h) (num_proc h) v (pty_max_count h) (pty_data h) (virtioso_stream_input_enabled h) (virtioso_registry_json h) (virtioso_pending_ctrl_type h) (virtioso_downlink_ack_count h) (tty_fd h) (tty_log_fd h) (filelock h) (uucp_locked h).
Definition set_pty_max_count (v : Z) (h : host) : host :=
  Host (trace h) (cfg h) (tags h) (num_proc h) (default_tag_idx h) v (pty_data h) (virtioso_stream_input_enabled h) (virtioso_registry_json h) (virtioso_pending_ctrl_type h) (virtioso_downlink_ack_count h) (tty_fd h) (tty_log_fd h) (filelock h) (uucp_locked h).
Definition set_pty_data (v : list thread_data) (h : host) : host :=
  Host (trace h) (cfg h) (tags h) (num_proc h) (default_tag_idx h) (pty_max_count h) v (virtioso_stream_input_enabled h) (virtioso_registry_json h) (virtioso_pending_ctrl_type h) (virtioso_downlink_ack_count h) (tty_fd h) (tty_log_fd h) (filelock h) (uucp_locked h).
Definition set_input_enabled (v : list bool) (h : host) : host :=
  Host (trace h) (cfg h) (tags h) (num_proc h) (default_tag_idx h) (pty_max_count h) (pty_data h) v (virtioso_registry_json h) (virtioso_pending_ctrl_type h) (virtioso_downlink_ack_count h) (tty_fd h) (tty_log_fd h) (filelock h) (uucp_locked h).
Definition set_registry_json (v : option (list byte)) (h : host) : host :=
  Host (trace h) (cfg h) (tags h) (num_proc h) (default_tag_idx h) (pty_max_count h) (pty_data h) (virtioso_stream_input_enabled h) v (virtioso_pending_ctrl_type h) (virtioso_downlink_ack_count h) (tty_fd h) (tty_log_fd h) (filelock h) (uucp_locked h).
Definition set_pending_ctrl_type (v : byte) (h : host) : host :=
  Host (trace h) (cfg h) (tags h) (num_proc h) (default_tag_idx h) (pty_max_count h) (pty_data h) (virtioso_stream_input_enabled h) (virtioso_registry_json h) v (virtioso_downlink_ack_count h) (tty_fd h) (tty_log_fd h) (filelock h) (uucp_locked h).
Definition set_downlink_ack_count (v : Z) (h : host) : host :=
  Host (trace h) (cfg h) (tags h) (num_proc h) (default_tag_idx h) (pty_max_count h) (pty_data h) (virtioso_stream_input_enabled h) (virtioso_registry_json h) (virtioso_pending_ctrl_type h) v (tty_fd h) (tty_log_fd h) (filelock h) (uucp_locked h).
Definition set_tty_fd (v : Z) (h : host) : host :=
  Host (trace h) (cfg h) (tags h) (num_proc h) (default_tag_idx h) (pty_max_count h) (pty_data h) (virtioso_stream_input_enabled h) (virtioso_registry_json h) (virtioso_pending_ctrl_type h) (virtioso_downlink_ack_count h) v (tty_log_fd h) (filelock h) (uucp_locked h).
Definition set_tty_log_fd (v : Z) (h : host) : host :=
  Host (trace h) (cfg h) (tags h) (num_proc h) (default_tag_idx h) (pty_max_count h) (pty_data h) (virtioso_stream_input_enabled h) (virtioso_registry_json h) (virtioso_pending_ctrl_type h) (virtioso_downlink_ack_count h) (tty_fd h) v (filelock h) (uucp_locked h).

Definition set_filelock (v : list byte) (h : host) : host :=
  Host (trace h) (cfg h) (tags h) (num_proc h) (default_tag_idx h) (pty_max_count h) (pty_data h) (virtioso_stream_input_enabled h) (virtioso_registry_json h) (virtioso_pending_ctrl_type h) (virtioso_downlink_ack_count h) (tty_fd h) (tty_log_fd h) v (uucp_locked h).
Definition set_uucp_locked (v : bool) (h : host) : host :=
  Host (trace h) (cfg h) (tags h) (num_proc h) (default_tag_idx h) (pty_max_count h) (pty_data h) (virtioso_stream_input_enabled h) (virtioso_registry_json h) (virtioso_pending_ctrl_type h) (virtioso_downlink_ack_count h) (tty_fd h) (tty_log_fd h) (filelock h) v.

(* ------------------------------------------------------------------ *)
(** ** Calls *)

Section Calls.
Context (E : env).

(** Make a system call: ask the environment, record request and answer. *)
Definition sys (rq : sysreq) : HM sysres := λ h,
  let r := E (trace h) rq in Done r (set_trace ((rq, r) :: trace h) h).

(** [malloc], [calloc], [realloc]: is the result non-null? *)
Definition alloc (size : Z) : HM bool :=
  r <- sys (RqMalloc size) ;;
  ret (negb (res r =? 0)).

(** [fprintf], [fputs], [fputc] to [stdout]. *)
Definition print (data : list byte) : HM unit :=
  sys (RqStdout data) ;;; ret tt.

End Calls.

(* ------------------------------------------------------------------ *)
(** ** What a history shows *)

(** The requests of a history, oldest first. *)
Definition requests (tr : history) : list sysreq := rev (map fst tr).

(** The bytes a descriptor accepted, oldest first: of each [write] as many
    as the call returned. *)
Fixpoint accepted (fd : Z) (tr : history) : list byte :=
  match tr with
  | [] => []
  | (RqWrite fd' d, r) :: tr' =>
      accepted fd tr' ++ (if fd' =? fd then take (Z.to_nat (res r)) d else [])
  | _ :: tr' => accepted fd tr'
  end.

(** The bytes offered to a descriptor, oldest first, accepted or not. *)
Fixpoint offered (fd : Z) (tr : history) : list byte :=
  match tr with
  | [] => []
  | (RqWrite fd' d, _) :: tr' =>
      offered fd tr' ++ (if fd' =? fd then d else [])
  | _ :: tr' => offered fd tr'
  end.

(** The reads that returned bytes, oldest first: descriptor and bytes. *)
Fixpoint inputs (tr : history) : list (Z * list byte) :=
  match tr with
  | [] => []
  | (RqRead fd _, r) :: tr' =>
      inputs tr' ++ (if 0 <? res r then [(fd, take (Z.to_nat (res r)) (res_bytes r))] else [])
  | _ :: tr' => inputs tr'
  end.

(** [malloc] and [calloc] succeed. *)
Definition alloc_ok (E : env) : Prop := ∀ tr n, res (E tr (RqMalloc n)) ≠ 0.

(** [tr'] is [tr] with more calls made after it. *)
Definition extends (tr tr' : history) : Prop := ∃ new, tr' = new ++ tr.

(* ------------------------------------------------------------------ *)
(** ** Lemmas *)

Lemma requests_cons rq r tr : requests ((rq, r) :: tr) = requests tr ++ [rq].
Proof. done. Qed.

Lemma requests_app a b : requests (a ++ b) = requests b ++ requests a.
Proof. unfold requests. by rewrite map_app, rev_app_distr. Qed.

Lemma accepted_app fd a b : accepted fd (a ++ b) = accepted fd b ++ accepted fd a.
Proof.
  induction a as [|[rq r] a IH]; simpl; [by rewrite app_nil_r|].
  destruct rq; auto. by rewrite IH, app_assoc.
Qed.

Lemma offered_app fd a b : offered fd (a ++ b) = offered fd b ++ offered fd a.
Proof.
  induction a as [|[rq r] a IH]; simpl; [by rewrite app_nil_r|].
  destruct rq; auto. by rewrite IH, app_assoc.
Qed.

Lemma inputs_app a b : inputs (a ++ b) = inputs b ++ inputs a.
Proof.
  induction a as [|[rq r] a IH]; simpl; [by rewrite app_nil_r|].
  destruct rq; auto. by rewrite IH, app_assoc.
Qed.

#[global] Instance extends_preorder : PreOrder extends.
Proof.
  split; [by exists []|]. intros x y z [a ->] [b ->]. exists (b ++ a). by rewrite app_assoc.
Qed.

Lemma wp_sys ok E rq Q h :
  (∀ r, r = E (trace h) rq → Q r (set_trace ((rq, r) :: trace h) h)) →
  wp ok (sys E rq) Q h.
Proof. intros HQ. by apply HQ. Qed.

Lemma wp_alloc ok E n Q h :
  (∀ r, r = E (trace h) (RqMalloc n) →
     Q (negb (res r =? 0)) (set_trace ((RqMalloc n, r) :: trace h) h)) →
  wp ok (alloc E n) Q h.
Proof. intros HQ. by apply HQ. Qed.

Lemma wp_print ok E d Q h :
  (∀ r, Q tt (set_trace ((RqStdout d, r) :: trace h) h)) → wp ok (print E d) Q h.
Proof. intros HQ. apply HQ. Qed.
#[export] Hint Resolve wp_sys wp_alloc wp_print : c_wp.

(** One structural step of a proof about the host program. *)
Ltac hw_step :=
  lazymatch goal with
  | |- wp _ (sys _ _) _ _ => apply wp_sys; intros ? ?
  | |- wp _ (alloc _ _) _ _ => apply wp_alloc; intros ? ?
  | |- wp _ (print _ _) _ _ => apply wp_print; intros ?
  | _ => wp_step
  end; cbv beta.
Ltac hw_steps := repeat hw_step.

(* ------------------------------------------------------------------ *)
(** ** Invariants through computations

    [preserves I m]: [m] keeps the invariant [I] of the state.  An invariant
    is [call_blind] for the calls [ok] when they do not disturb it; then
    [preserve] goes through the structure of the code. *)

Definition preserves {A} (I : host → Prop) (m : HM A) : Prop :=
  ∀ h, I h → wp partial m (λ _ h', I h') h.

Class call_blind (E : env) (ok : sysreq → bool) (I : host → Prop) : Prop :=
  blind_call : ∀ h rq, ok rq = true → I h → I (set_trace ((rq, E (trace h) rq) :: trace h) h).

Lemma wp_preserves {A} ok I (m : HM A) Q h :
  preserves I m → I h → wp ok m Q h → wp ok m (λ a h', Q a h' ∧ I h') h.
Proof. intros Hm Hh. specialize (Hm h Hh). unfold wp in *. by destruct (m h). Qed.

Section Preserves.
Context (I : host → Prop).

Lemma preserves_bind {A B} (m : HM A) (k : A → HM B) :
  preserves I m → (∀ a, preserves I (k a)) → preserves I (bind m k).
Proof. intros Hm Hk h Hh. apply wp_bind. eapply wp_mono; [by apply Hm|]. intros a h1. apply Hk. Qed.

Lemma preserves_ret {A} (a : A) : preserves I (ret a).
Proof. by intros h Hh. Qed.

Lemma preserves_get : preserves I get.
Proof. by intros h Hh. Qed.

Lemma preserves_halt {A} w : preserves I (halt (A := A) w).
Proof. by intros h Hh. Qed.

Lemma preserves_assert b : preserves I (assert_c b).
Proof. destruct b; [apply preserves_ret|apply preserves_halt]. Qed.

Lemma preserves_arr_get {A} (l : list A) i : preserves I (arr_get l i).
Proof. intros h Hh. unfold arr_get. destruct (_ <? _); [done|]. by destruct (_ !! _). Qed.

Lemma preserves_arr_set {A} (l : list A) i v : preserves I (arr_set l i v).
Proof. intros h Hh. unfold arr_set. by destruct (_ || _). Qed.

Lemma preserves_modify f : (∀ h, I h → I (f h)) → preserves I (modify f).
Proof. intros Hf h Hh. by apply Hf. Qed.

Lemma preserves_sys E ok rq : call_blind E ok I → ok rq = true → preserves I (sys E rq).
Proof. intros Hb Hc h Hh. by apply Hb. Qed.

Lemma preserves_alloc E ok n : call_blind E ok I → ok (RqMalloc n) = true → preserves I (alloc E n).
Proof. intros Hb Hc. apply preserves_bind; [by eapply preserves_sys|intros; apply preserves_ret]. Qed.

Lemma preserves_print E ok d : call_blind E ok I → ok (RqStdout d) = true → preserves I (print E d).
Proof. intros Hb Hc. apply preserves_bind; [by eapply preserves_sys|intros; apply preserves_ret]. Qed.
End Preserves.

Create HintDb preserves.
#[export] Hint Resolve preserves_ret preserves_get preserves_halt preserves_assert preserves_arr_get
  preserves_arr_set : preserves.

(** Through the structure of a computation. *)
Ltac preserve :=
  repeat first
    [ progress cbv beta zeta
    | solve [eauto with preserves]
    | apply preserves_bind; [|intros ?]
    | eapply preserves_sys; [eassumption|done]
    | eapply preserves_alloc; [eassumption|done]
    | eapply preserves_print; [eassumption|done]
    | apply preserves_modify; done
    | case_match ].

(** The calls that are not reads, writes, closes. *)
Definition not_read (rq : sysreq) : bool := match rq with RqRead _ _ => false | _ => true end.
Definition not_write (rq : sysreq) : bool := match rq with RqWrite _ _ => false | _ => true end.
Definition not_close (rq : sysreq) : bool := match rq with RqClose _ => false | _ => true end.

Lemma inputs_blind E x : call_blind E not_read (λ h, inputs (trace h) = x).
Proof. intros h rq Hc Hi. by destruct rq. Qed.

Lemma offered_blind E f : call_blind E not_write (λ h, ∀ fd, offered fd (trace h) = f fd).
Proof. intros h rq Hc Hi fd. rewrite <-(Hi fd). by destruct rq. Qed.
