(* ===== verification/HostIo.v ===== *)
(** * Output primitives of the host multiplexer

    [should_retry_io], [putbuf_or_exit], [putch_or_exit] and [xstrndup] of
    [host/tcu_com.c].  The retry loops take fuel; the lemmas on
    [retry_io] in [HostIoInv.v] say when it suffices. *)

From S2P Require Import Prelude HostState.

(** [should_retry_io]: reads [errno] as the call left it. *)
Definition should_retry_io (r : sysres) : bool :=
  (res r =? -1) && ((err r =? EINTR) || (err r =? EAGAIN) || (err r =? EWOULDBLOCK)).

Section HostIo.
Context (E : env) (fuel : nat).

(** [do { ret = call; } while (should_retry_io(ret));] *)
Fixpoint retry_io (n : nat) (rq : sysreq) : HM sysres :=
  match n with
  | O => halt OutOfFuel
  | S n' =>
      r <- sys E rq ;;
      if should_retry_io r then retry_io n' rq else ret r
  end.

(** The [poll] both writers start with. *)
Definition poll_output (fd : Z) : HM sysres :=
  h <- get ;;
  retry_io fuel (RqPollOut fd (poll_output_timeout (cfg h))).

Definition putbuf_or_exit (fd : Z) (buf : list byte) : HM Z :=
  p <- poll_output fd ;;
  if res p =? 0 then ret (-1) (* timed out *)
  else
    assert_c (res p =? 1) ;;;
    assert_c (Z.land (revents p) POLLNVAL =? 0) ;;;
    r <- retry_io fuel (RqWrite fd buf) ;;
    if res r <? 0 then ret (res r)
    else if negb (res r =? Z.of_nat (length buf)) then ret (res r)
    else
      d <- sys E (RqDrain fd) ;;
      if res d <? 0 then ret (-1) else ret 0.

Definition putch_or_exit (fd : Z) (ch : byte) : HM Z :=
  p <- poll_output fd ;;
  if res p =? 0 then ret (-1) (* timed out *)
  else
    assert_c (res p =? 1) ;;;
    assert_c (Z.land (revents p) POLLNVAL =? 0) ;;;
    r <- retry_io fuel (RqWrite fd [ch]) ;;
    if res r <=? 0 then ret (-1) else ret 0.

(** [xstrndup(src, len)] of [len] readable bytes; null when [malloc] fails. *)
Definition xstrndup (src : list byte) : HM (option (list byte)) :=
  ok <- alloc E (Z.of_nat (length src) + 1) ;;
  ret (if ok then Some src else None).

End HostIo.
