(* ===== verification/Flush.v ===== *)
(** * Delivering one byte to a pseudoterminal

    [get_timestamp], [flush_stream] and [patch2flush_stream] of
    [host/tcu_com.c]: the log file, its optional timestamps, the write to the
    PTY that may fail softly, and the line-ending patch. *)

From S2P Require Import Prelude CString HostState HostIo.

(* ------------------------------------------------------------------ *)
(** ** Timestamps *)

(** [strftime] with ["[%Y-%m-%d %H:%M:%S.%%06u] "]: the text before [%06u]. *)
Definition two (n : Z) : list byte := pad_left x30 2 (fmt_u n).
Definition date_text (year mon day hour min sec : Z) : list byte :=
  bs "[" ++ fmt_u year ++ bs "-" ++ two mon ++ bs "-" ++ two day ++ bs " " ++
  two hour ++ bs ":" ++ two min ++ bs ":" ++ two sec ++ bs ".".

(** The sizes of the two buffers. *)
Definition TS_FMT_SIZE : Z := 28.
Definition TS_SIZE : Z := 30.

Section Flush.
Context (E : env).

(** [get_timestamp(buf, maxsize)]: the text left in [buf]; none for 0. *)
Definition get_timestamp (maxsize : Z) : HM (list byte) :=
  t <- sys E RqTime ;;
  match res_nums t with
  | [year; mon; day; hour; min; sec; usec] =>
      if res t =? 0 then
        let date := date_text year mon day hour min sec in
        (* strftime needs room for the date, "%06u] " and the NUL *)
        if TS_FMT_SIZE <? Z.of_nat (length date) + 6 + 1 then ret []
        else
          let text := date ++ pad_left x30 6 (fmt_u usec) ++ bs "] " in
          let len := Z.of_nat (length text) in
          if (0 <? len) && (len <? maxsize) then ret text else ret []
      else ret []
  | _ => ret []
  end.

(** [pty_data[pty_idx].last_ch = ch]. *)
Definition set_last_ch (pty_idx : Z) (ch : byte) : HM unit :=
  h <- get ;;
  p <- arr_get (pty_data h) pty_idx ;;
  l <- arr_set (pty_data h) pty_idx
         (ThreadData (td_fd p) (td_log_fd p) (td_id p) (td_device_name p) ch) ;;
  modify (set_pty_data l).

(** The timestamp part of [flush_stream]: 0, or the error code -2. *)
Definition flush_timestamp (pty_idx : Z) (ch : byte) : HM Z :=
  h <- get ;;
  p <- arr_get (pty_data h) pty_idx ;;
  e <- (if bool_decide (td_last_ch p = x0a) || bool_decide (td_last_ch p = x00) then
          timestamp <- get_timestamp TS_SIZE ;;
          let len_ts := Z.of_nat (length timestamp) in
          if (0 <? len_ts) && (len_ts <? TS_SIZE) then
            r <- sys E (RqWrite (td_log_fd p) timestamp) ;;
            ret (if res r <? 0 then -2 else 0)
          else ret 0
        else ret 0) ;;
  if e <? 0 then ret e
  else set_last_ch pty_idx ch ;;; ret 0.

(** The log file part of [flush_stream]: 0, -2 or -3. *)
Definition flush_log (pty_idx : Z) (ch : byte) : HM Z :=
  h <- get ;;
  p <- arr_get (pty_data h) pty_idx ;;
  if 0 <=? td_log_fd p then
    e <- (if log_timestamp_enabled (cfg h) then flush_timestamp pty_idx ch else ret 0) ;;
    if e <? 0 then ret e
    else
      r <- sys E (RqWrite (td_log_fd p) [ch]) ;;
      ret (if res r <? 0 then -3 else 0)
  else ret 0.

Definition flush_stream (fd pty_idx : Z) (ch : byte) : HM Z :=
  h <- get ;;
  e <- (if pty_idx <? pty_max_count h then flush_log pty_idx ch else ret 0) ;;
  if e <? 0 then ret e
  else
    r <- sys E (RqWrite fd [ch]) ;;
    if (res r <? 0) &&
       ((err r =? EAGAIN) || (err r =? EWOULDBLOCK) || (err r =? EIO)) then ret 0
    else if res r <? 0 then ret (-1)
    else ret 0.

(** [patch2flush_stream]: the code and the two flags it updates. *)
Definition patch2flush_stream (fd pty_idx : Z) (ch : byte) (seen_n seen_r : bool)
    : HM (Z * bool * bool) :=
  h <- get ;;
  if disable_patch (cfg h) then
    r <- flush_stream fd pty_idx ch ;; ret (r, seen_n, seen_r)
  else
    let* (seen_n, seen_r) :=
      if bool_decide (ch = x0a) then ret (true, seen_r)
      else if bool_decide (ch = x0d) then ret (seen_n, true)
      else
        let* (seen_n, seen_r) :=
          if seen_r then flush_stream fd pty_idx x0a ;;; ret (false, false)
          else ret (seen_n, seen_r) in
        if seen_n then flush_stream fd pty_idx x0d ;;; ret (false, false)
        else ret (seen_n, seen_r) in
    ret_val <- flush_stream fd pty_idx ch ;;
    if ret_val <? 0 then ret (ret_val, seen_n, seen_r)
    else if seen_r && seen_n then ret (0, false, false)
    else ret (0, seen_n, seen_r).

End Flush.

(* ------------------------------------------------------------------ *)
(** ** Specification of the line-ending patch

    What the patch sends for each byte, as a pure function of the flags. *)

Definition patch_step (seen_n seen_r : bool) (ch : byte) : list byte * bool * bool :=
  if bool_decide (ch = x0a) then
    if seen_r then ([ch], false, false) else ([ch], true, false)
  else if bool_decide (ch = x0d) then
    if seen_n then ([ch], false, false) else ([ch], false, true)
  else
    ((if seen_r then [x0a] else if seen_n then [x0d] else []) ++ [ch], false, false).

Fixpoint patch_all (seen_n seen_r : bool) (l : list byte) : list byte :=
  match l with
  | [] => []
  | ch :: l' =>
      let '(out, n, r) := patch_step seen_n seen_r ch in out ++ patch_all n r l'
  end.

(* ------------------------------------------------------------------ *)
(** ** What delivering a byte changes *)

(** A PTY's record without [last_ch], which only timestamps use. *)
Definition ident (p : thread_data) : Z * Z * Z * list byte :=
  (td_fd p, td_log_fd p, td_id p, td_device_name p).

(** [h'] is [h] after system calls and [last_ch] updates only. *)
Record stable (h h' : host) : Prop := Stable {
  st_trace : extends (trace h) (trace h');
  st_cfg : cfg h' = cfg h;
  st_tags : tags h' = tags h;
  st_num_proc : num_proc h' = num_proc h;
  st_default : default_tag_idx h' = default_tag_idx h;
  st_max : pty_max_count h' = pty_max_count h;
  st_pty : ident <$> pty_data h' = ident <$> pty_data h;
  st_input : virtioso_stream_input_enabled h' = virtioso_stream_input_enabled h;
  st_registry : virtioso_registry_json h' = virtioso_registry_json h;
  st_pending : virtioso_pending_ctrl_type h' = virtioso_pending_ctrl_type h;
  st_ack : virtioso_downlink_ack_count h' = virtioso_downlink_ack_count h;
  st_tty : tty_fd h' = tty_fd h;
  st_tty_log : tty_log_fd h' = tty_log_fd h
}.

(** The environment only fails softly on this host's PTYs, and not on its
    log files: what [flush_stream] relies on to return 0. *)
Definition soft_result (r : sysres) : Prop :=
  res r < 0 → err r = EAGAIN ∨ err r = EWOULDBLOCK ∨ err r = EIO.

Definition tolerates (E : env) (h : host) : Prop :=
  ∀ p, p ∈ pty_data h →
    (∀ tr d, soft_result (E tr (RqWrite (td_fd p) d))) ∧
    (0 ≤ td_log_fd p → ∀ tr d, 0 ≤ res (E tr (RqWrite (td_log_fd p) d))).

(** A descriptor of one of the log files. *)
Definition is_log (h : host) (fd : Z) : Prop :=
  ∃ p, p ∈ pty_data h ∧ 0 ≤ td_log_fd p ∧ td_log_fd p = fd.

(** From [h] to [h'] exactly [l] was offered to [fd], and nothing to any
    other descriptor but log files. *)
Definition delivers (h h' : host) (fd : Z) (l : list byte) : Prop :=
  ∀ fd', ¬ is_log h fd' →
    offered fd' (trace h') = offered fd' (trace h) ++ (if fd' =? fd then l else []).

(** The index is in range when [flush_stream] looks it up. *)
Definition pty_ok (h : host) (i : Z) : Prop :=
  i < pty_max_count h → 0 ≤ i < Z.of_nat (length (pty_data h)).

(** No bytes are offered to a PTY between two states. *)
Definition quiet (h h' : host) : Prop := ∀ fd, delivers h h' fd [].

(** What the log part guarantees about its code and its effects. *)
Definition log_post (E : env) (h : host) (z : Z) (h' : host) : Prop :=
  stable h h' ∧ quiet h h' ∧ -3 ≤ z ≤ 0 ∧ (tolerates E h → z = 0).

(** One byte to one PTY: the call always finishes, changes nothing but the
    history and [last_ch], and under a tolerant environment returns 0 having
    offered exactly the byte to the descriptor. *)
Definition flush_post (E : env) (h : host) (fd : Z) (l : list byte) (z : Z) (h' : host) : Prop :=
  stable h h' ∧ -3 ≤ z ≤ 0 ∧
  (tolerates E h → (∃ p, p ∈ pty_data h ∧ td_fd p = fd) → z = 0 ∧ delivers h h' fd l).

(** What [patch2flush_stream] sends for a byte, by configuration. *)
Definition patch_out (h : host) (seen_n seen_r : bool) (ch : byte)
    : list byte * bool * bool :=
  if disable_patch (cfg h) then ([ch], seen_n, seen_r) else patch_step seen_n seen_r ch.

(** The same guarantee for [patch2flush_stream]. *)
Definition patch_post (E : env) (h : host) (fd : Z) (sn sr : bool) (ch : byte)
    (a : Z * bool * bool) (h' : host) : Prop :=
  let '(z, n', r') := a in
  stable h h' ∧ -3 ≤ z ≤ 0 ∧
  (tolerates E h → (∃ p, p ∈ pty_data h ∧ td_fd p = fd) →
   z = 0 ∧ delivers h h' fd (patch_out h sn sr ch).1.1 ∧
   n' = (patch_out h sn sr ch).1.2 ∧ r' = (patch_out h sn sr ch).2).

(* ------------------------------------------------------------------ *)
(** ** Lemmas *)

#[global] Instance stable_preorder : PreOrder stable.
Proof.
  split; [intros h; by constructor|].
  intros h1 h2 h3 [] []. constructor; try congruence. by etrans.
Qed.

Lemma stable_sys h rq r : stable h (set_trace ((rq, r) :: trace h) h).
Proof. constructor; try done. by exists [(rq, r)]. Qed.

Lemma stable_sys_r h h' rq r :
  stable h h' → stable h (set_trace ((rq, r) :: trace h') h').
Proof. intros Hs. etrans; [exact Hs|apply stable_sys]. Qed.
#[export] Hint Resolve stable_sys stable_sys_r : c_wp.
#[export] Hint Extern 1 (stable ?h ?h) => reflexivity : c_wp.

Lemma stable_length h h' : stable h h' → length (pty_data h') = length (pty_data h).
Proof. intros Hs. by rewrite <-(length_fmap ident), (st_pty _ _ Hs), length_fmap. Qed.

Lemma stable_lookup h h' i p :
  stable h h' → pty_data h !! i = Some p →
  ∃ p', pty_data h' !! i = Some p' ∧ ident p' = ident p.
Proof.
  intros Hs Hp. pose proof (st_pty _ _ Hs) as Hm.
  apply (f_equal (.!! i)) in Hm. rewrite !list_lookup_fmap, Hp in Hm.
  destruct (pty_data h' !! i) as [p'|]; [|done].
  exists p'. split; [done|]. cbn in Hm. congruence.
Qed.

Lemma stable_elem h h' p' :
  stable h h' → p' ∈ pty_data h' → ∃ p, p ∈ pty_data h ∧ ident p = ident p'.
Proof.
  intros Hs Hp. apply (list_elem_of_fmap_2 ident) in Hp.
  rewrite (st_pty _ _ Hs) in Hp. apply list_elem_of_fmap in Hp as [p [? ?]]. eauto.
Qed.

Lemma stable_sym_elem h h' p :
  stable h h' → p ∈ pty_data h → ∃ p', p' ∈ pty_data h' ∧ ident p' = ident p.
Proof.
  intros Hs Hp. apply (list_elem_of_fmap_2 ident) in Hp.
  rewrite <-(st_pty _ _ Hs) in Hp. apply list_elem_of_fmap in Hp as [p' [? ?]]. eauto.
Qed.

Lemma stable_is_log h h' fd : stable h h' → is_log h fd ↔ is_log h' fd.
Proof.
  intros Hs. split; intros [p (Hp & ? & ?)].
  - destruct (stable_sym_elem _ _ _ Hs Hp) as [p' [? Hid]].
    exists p'. unfold ident in Hid. injection Hid as ? Hl ? ?. rewrite Hl. auto.
  - destruct (stable_elem _ _ _ Hs Hp) as [p' [? Hid]].
    exists p'. unfold ident in Hid. injection Hid as ? Hl ? ?. rewrite Hl. auto.
Qed.

Lemma stable_tolerates E h h' : stable h h' → tolerates E h → tolerates E h'.
Proof.
  intros Hs Ht p' Hp'. destruct (stable_elem _ _ _ Hs Hp') as [p [Hp Hid]].
  destruct (Ht p Hp) as [Hw Hl]. unfold ident in Hid. injection Hid as Hf Hlf ? ?.
  by rewrite <-Hf, <-Hlf.
Qed.

Lemma delivers_nil h h' fd :
  trace h' = trace h → delivers h h' fd [].
Proof. intros Ht fd' _. rewrite Ht. by case_match; rewrite app_nil_r. Qed.

Lemma delivers_trans h1 h2 h3 fd l1 l2 :
  stable h1 h2 → delivers h1 h2 fd l1 → delivers h2 h3 fd l2 →
  delivers h1 h3 fd (l1 ++ l2).
Proof.
  intros Hs H1 H2 fd' Hfd. rewrite H2 by (by rewrite <-(stable_is_log h1 h2)).
  rewrite H1, <-app_assoc by done. by destruct (fd' =? fd).
Qed.

(** *** Safety: whatever the environment answers *)

Section Safety.
Context (E : env).

Lemma stable_pty_ok h h' i : stable h h' → pty_ok h i → pty_ok h' i.
Proof.
  intros Hs. unfold pty_ok. by rewrite (st_max _ _ Hs), (stable_length _ _ Hs).
Qed.

Lemma quiet_trans h1 h2 h3 :
  stable h1 h2 → quiet h1 h2 → quiet h2 h3 → quiet h1 h3.
Proof. intros Hs H1 H2 fd. by apply (delivers_trans h1 h2 h3 fd [] []). Qed.

Lemma quiet_refl h h' : trace h' = trace h → quiet h h'.
Proof. intros Ht fd. by apply delivers_nil. Qed.

Lemma quiet_write_log h fd d r :
  is_log h fd → quiet h (set_trace ((RqWrite fd d, r) :: trace h) h).
Proof.
  intros Hl fd' fd'' Hn. cbn. destruct (fd =? fd'') eqn:?; z_bool; [by subst|].
  by destruct (fd'' =? fd').
Qed.

Lemma delivers_write h fd d r :
  delivers h (set_trace ((RqWrite fd d, r) :: trace h) h) fd d.
Proof. intros fd' _. cbn. by rewrite (Z.eqb_sym fd' fd). Qed.

Lemma wp_get_timestamp ok n h :
  wp ok (get_timestamp E n) (λ _ h', stable h h' ∧ quiet h h') h.
Proof.
  unfold get_timestamp. wp_step. apply wp_sys. intros r _.
  wp_steps; (split; [auto with c_wp|]); intros ? ? _; cbn;
    by case_match; rewrite app_nil_r.
Qed.

Lemma wp_set_last_ch ok i ch h :
  0 ≤ i < Z.of_nat (length (pty_data h)) →
  wp ok (set_last_ch i ch) (λ _ h', stable h h' ∧ quiet h h') h.
Proof.
  intros Hi. unfold set_last_ch. do 2 (wp_step; cbv beta).
  wp_step. apply wp_arr_get; [done|]. intros p Hp. wp_step.
  apply wp_arr_set; [done|]. wp_step. split; [|by apply quiet_refl].
  constructor; try done. cbn. rewrite list_fmap_insert. cbn.
  apply list_insert_id. rewrite list_lookup_fmap, Hp. by destruct p.
Qed.

#[local] Ltac post := unfold log_post; split_and!;
  try lia; try done; auto using quiet_refl with c_wp.

Lemma log_write_post h h1 p d z :
  stable h h1 → quiet h h1 → p ∈ pty_data h → 0 ≤ td_log_fd p →
  -3 ≤ z ≤ 0 →
  let r := E (trace h1) (RqWrite (td_log_fd p) d) in
  log_post E h (if res r <? 0 then z else 0)
    (set_trace ((RqWrite (td_log_fd p) d, r) :: trace h1) h1).
Proof.
  intros Hs Hq Hp Hfd Hz r. split_and!.
  - auto with c_wp.
  - eapply quiet_trans; [exact Hs|done|]. apply quiet_write_log.
    apply (stable_is_log h); [done|]. by exists p.
  - destruct (res r <? 0); lia.
  - destruct (res r <? 0); lia.
  - intros Ht. destruct (Ht p Hp) as [_ Hl]. specialize (Hl Hfd (trace h1) d).
    destruct (res r <? 0) eqn:?; z_bool; [subst r; lia|done].
Qed.

Lemma elem_at {A} (l : list A) i a : l !! i = Some a → a ∈ l.
Proof. intros. apply list_elem_of_lookup. eauto. Qed.

Lemma wp_flush_timestamp ok i ch h p :
  0 ≤ i → pty_data h !! Z.to_nat i = Some p → 0 ≤ td_log_fd p →
  wp ok (flush_timestamp E i ch) (log_post E h) h.
Proof.
  intros Hi Hp Hfd. pose proof (lookup_lt_Some _ _ _ Hp).
  unfold flush_timestamp. do 3 wp_step. apply wp_arr_get; [lia|].
  intros p' Hp'. simplify_eq. wp_step.
  apply (wp_mono _ _ (log_post E h)).
  - wp_step; [|wp_step; post].
    wp_step. eapply wp_mono; [apply wp_get_timestamp|]. intros ts h1 [Hs1 Hq1].
    wp_steps.
    + apply wp_sys. intros r ->. wp_step.
      apply log_write_post; eauto using elem_at with lia.
    + post.
  - intros z h1 (Hs & Hq & Hz & Ht). wp_step; wp_step; [post|].
    eapply wp_mono; [apply wp_set_last_ch; rewrite (stable_length _ _ Hs); lia|].
    intros _ h2 [Hs2 Hq2]. wp_step. post; [by etrans|by eapply quiet_trans].
Qed.

Lemma wp_flush_log ok i ch h :
  0 ≤ i < Z.of_nat (length (pty_data h)) →
  wp ok (flush_log E i ch) (log_post E h) h.
Proof.
  intros Hi. unfold flush_log. do 3 wp_step. apply wp_arr_get; [done|].
  intros p Hp. wp_step; z_bool.
  2: { wp_step. post. }
  wp_step. apply (wp_mono _ _ (log_post E h)).
  - wp_step.
    + eapply wp_flush_timestamp; [lia|done|done].
    + wp_step. post.
  - intros z h1 (Hs & Hq & Hz & Ht). wp_step; wp_step; [post|].
    apply wp_sys. intros r ->. wp_step. apply log_write_post; eauto using elem_at with lia.
Qed.

Lemma wp_flush_stream ok fd i ch h :
  pty_ok h i → wp ok (flush_stream E fd i ch) (flush_post E h fd [ch]) h.
Proof.
  intros Hok. unfold flush_stream. do 3 wp_step.
  apply (wp_mono _ _ (log_post E h)).
  - wp_step; z_bool; [by apply wp_flush_log, Hok|].
    wp_step. post.
  - intros z h1 (Hs & Hq & Hz & Ht). wp_step; wp_step.
    { z_bool. split; [done|split; [lia|]]. intros Hto _. specialize (Ht Hto). lia. }
    apply wp_sys. intros r Hr.
    assert (delivers h (set_trace ((RqWrite fd [ch], r) :: trace h1) h1) fd [ch])
      by (eapply (delivers_trans h h1 _ fd [] [ch]); [done|apply Hq|apply delivers_write]).
    assert (stable h (set_trace ((RqWrite fd [ch], r) :: trace h1) h1))
      by auto with c_wp.
    wp_steps; (split; [done|split; [lia|]]); intros Hto [p [Hp <-]]; [done| |done].
    exfalso. destruct (Hto p Hp) as [Hsoft _]. specialize (Hsoft (trace h1) [ch]).
    rewrite <-Hr in Hsoft. z_bool. unfold soft_result in Hsoft.
    cbn [andb] in *. z_bool. destruct (Hsoft ltac:(done)) as [?|[?|?]]; congruence.
Qed.

(** Sequencing two deliveries to the same descriptor. *)
Lemma flush_post_seq h fd l1 l2 z1 z2 h1 h2 :
  flush_post E h fd l1 z1 h1 → flush_post E h1 fd l2 z2 h2 →
  flush_post E h fd (l1 ++ l2) z2 h2.
Proof.
  intros (Hs1 & Hz1 & H1) (Hs2 & Hz2 & H2).
  split; [by etrans|split; [done|]]. intros Ht Hfd.
  destruct (H1 Ht Hfd) as [-> Hd1]. destruct H2 as [-> Hd2].
  - by eapply stable_tolerates.
  - destruct Hfd as [p [Hp Hfd]]. destruct (stable_sym_elem _ _ _ Hs1 Hp) as [p' [? Hid]].
    exists p'. split; [done|]. unfold ident in Hid. congruence.
  - split; [done|]. by eapply delivers_trans.
Qed.

Lemma patch2flush_reads_nothing fd i ch n c x :
  preserves (λ h, inputs (trace h) = x) (patch2flush_stream E fd i ch n c).
Proof.
  pose proof (inputs_blind E x) as Hb. set (I := λ h, _) in *.
  assert (Hl : ∀ c, preserves I (set_last_ch i c)) by (intros b; unfold set_last_ch; preserve).
  assert (Ht : ∀ n, preserves I (get_timestamp E n)) by (intros b; unfold get_timestamp; preserve).
  assert (Hs : ∀ c, preserves I (flush_timestamp E i c)) by (intros b; unfold flush_timestamp; preserve).
  assert (Hg : ∀ c, preserves I (flush_log E i c)) by (intros b; unfold flush_log; preserve).
  assert (Hf : ∀ c, preserves I (flush_stream E fd i c)) by (intros b; unfold flush_stream; preserve).
  unfold patch2flush_stream. preserve.
Qed.

Lemma wp_patch2flush_stream ok fd i ch sn sr h :
  pty_ok h i →
  wp ok (patch2flush_stream E fd i ch sn sr) (patch_post E h fd sn sr ch) h.
Proof.
  intros Hok. unfold patch2flush_stream. do 2 wp_step. 
  assert (Hfl : ∀ c h1 l, stable h h1 → (∃ z, flush_post E h fd l z h1) ∨ (l = [] ∧ h1 = h) →
    wp ok (flush_stream E fd i c) (flush_post E h fd (l ++ [c])) h1).
  { intros c h1 l Hs Hp. eapply wp_mono; [apply wp_flush_stream; by eapply stable_pty_ok|].
    intros z h2 Hz. destruct Hp as [[z1 Hz1]|[-> ->]]; [by eapply flush_post_seq|done]. }
  unfold patch_post, patch_out. destruct (disable_patch (cfg h)).
  { wp_step. eapply wp_mono; [by apply (Hfl ch h []); auto with c_wp|].
    intros z h1 (Hs & Hz & Hp). wp_step. split; [done|split; [done|]].
    intros Ht Hfd. by destruct (Hp Ht Hfd). }
  wp_step.
  apply (wp_mono _ _ (λ a h1, stable h h1 ∧
    ∃ l, ((∃ z, flush_post E h fd l z h1) ∨ (l = [] ∧ h1 = h)) ∧
         patch_step sn sr ch = (l ++ [ch], a.1 && negb a.2, a.2 && negb a.1))).
  - unfold patch_step.
    destruct (bool_decide (ch = x0a)), (bool_decide (ch = x0d)); try (wp_step; split;
      [done|exists []; split; [by right|by destruct sn, sr]]).
    wp_step. apply (wp_mono _ _ (λ a h1, stable h h1 ∧
      ∃ l, ((∃ z, flush_post E h fd l z h1) ∨ (l = [] ∧ h1 = h)) ∧
      if sr then l = [x0a] ∧ a = (false, false) else l = [] ∧ a = (sn, sr))).
    + destruct sr; [|wp_step; split; [done|]; exists []; auto].
      wp_step. eapply wp_mono; [by apply (Hfl _ h []); auto with c_wp|].
      intros z h1 Hp. wp_step. split; [apply Hp|]. exists [x0a]. eauto.
    + intros [sn' sr'] h1 (Hs & l & Hl & Heq). cbv beta iota.
      destruct sn'; [|wp_step; split; [done|]; exists l; split; [done|];
        destruct sr; destruct Heq; by simplify_eq/=].
      destruct sr; destruct Heq as [-> ?]; simplify_eq.
      wp_step. eapply wp_mono; [by apply (Hfl _ h1 []); auto|].
      intros z h2 Hp. wp_step. split; [apply Hp|]. exists [x0d]. eauto.
  - intros [sn' sr'] h1 (Hs & l & Hl & Hstep). wp_step.
    eapply wp_mono; [by apply (Hfl _ _ l)|]. intros z h2 (Hs2 & Hz & Hp).
    rewrite Hstep. cbn [fst snd] in *.
    wp_steps; (split; [done|split; [lia|]]); intros Ht Hfd;
      destruct (Hp Ht Hfd) as [-> ?]; [done|..]; split; try done;
      (split; [done|]); by destruct sn', sr'.
Qed.

End Safety.
