(* ===== verification/Registry.v ===== *)
(** * The stream table of the host multiplexer

    The [tags] array and what changes it: [init_virtioso_tags],
    [append_virtioso_stream], [apply_virtioso_registry_json] and
    [apply_virtioso_stream_connected] of [host/tcu_com.c], with
    [create_pty_at_index] and the session records they print. *)

From S2P Require Import Prelude CString Json HostState HostIo Flush.

Definition THREAD_STACK_SIZE : Z := 128 * 1024.
Definition SAVEFILE_SIZE : nat := 1024.
Definition DEVICE_NAME_SIZE : Z := 128.

(* ------------------------------------------------------------------ *)
(** ** Lookups *)

(** [for_each_tags]: the first index below [num_proc] with the value. *)
Fixpoint find_tag_value (l : list tag) (v : byte) (i : Z) : Z :=
  match l with
  | [] => -1
  | t :: l' => if bool_decide (tag_value t = v) then i else find_tag_value l' v (i + 1)
  end.

(** The first [num_proc] entries of [tags]. *)
Definition active_tags (h : host) : list tag := take (Z.to_nat (num_proc h)) (tags h).

Definition find_virtioso_pty_idx_by_stream_id (stream_id : byte) : HM Z :=
  h <- get ;;
  if Z.of_nat (length (tags h)) <? num_proc h then halt Undefined
  else ret (find_tag_value (active_tags h) stream_id 0).

(** [find_chip_tag_idx_by_name]. *)
Fixpoint find_tag_name (l : list tag) (name : list byte) (i : Z) : Z :=
  match l with
  | [] => -1
  | t :: l' => if bool_decide (tag_name t = Some name) then i
               else find_tag_name l' name (i + 1)
  end.
Definition find_chip_tag_idx_by_name (name : list byte) : Z :=
  let name := if bool_decide (name = bs "PSC") then bs "CCPLEX" else name in
  find_tag_name chip_tags name 0.

(* ------------------------------------------------------------------ *)
(** ** Records printed for the user of the program *)

Definition virtioso_session_kind (name : list byte) : list byte :=
  if bool_decide (name = AUTOPILOT_CONTROL_PTY) || bool_decide (name = RAW_CCPLEX_PTY) ||
     bool_decide (name = PHYSICAL_UART_DEFAULT_PTY)
  then bs "virtioso_mux_builtin" else bs "camkes_component_stream".

(** A key between quotes, with a colon after it, as the records print it. *)
Definition json_key (k : string) : list byte := quoted k ++ bs ":".

(** The log path in the session record: [snprintf("%s/%s.txt")]. *)
Definition session_savefile (path name : list byte) : list byte :=
  snprintf SAVEFILE_SIZE (path ++ bs "/" ++ name ++ bs ".txt").

(** The log path [create_pty_at_index] opens: [snprintf] then [strncat]. *)
Definition savefile (path name : list byte) : list byte :=
  let s := snprintf SAVEFILE_SIZE (path ++ bs "/" ++ name) in
  s ++ take (SAVEFILE_SIZE - length s - 1) (bs ".txt").

Definition session_record (h : host) (dev : list byte) (value : byte) (name : list byte)
    : list byte :=
  bs "{" ++ json_key "event" ++ quoted "session_open" ++ bs "," ++
  json_key "name" ++ write_json_string name ++ bs "," ++
  json_key "kind" ++ write_json_string (virtioso_session_kind name) ++ bs "," ++
  json_key "stream_id" ++ fmt_u (b2z value) ++ bs "," ++
  json_key "pty_path" ++ write_json_string dev ++
  match save_output_path (cfg h) with
  | Some path => bs "," ++ json_key "log_path" ++
                 write_json_string (session_savefile path name)
  | None => []
  end ++
  bs "}" ++ [x0a].

Section Registry.
Context (E : env).

Definition emit_pty_session_record (pty_idx : Z) (name : list byte) : HM unit :=
  h <- get ;;
  pty <- arr_get (pty_data h) pty_idx ;;
  if negb (virtioso_mode_enabled (cfg h)) then
    print E (td_device_name pty ++ [x09] ++ name ++ [x0a])
  else
    t <- arr_get (tags h) pty_idx ;;
    print E (session_record h (td_device_name pty) (tag_value t) name).

Definition emit_virtioso_registry_record : HM unit :=
  h <- get ;;
  match virtioso_registry_json h with
  | None => ret tt
  | Some json =>
      print E (bs "{" ++ json_key "event" ++ quoted "stream_registry" ++ bs "," ++
               json_key "registry_json" ++ write_json_string (cstr json) ++
               bs "}" ++ [x0a])
  end.

(* ------------------------------------------------------------------ *)
(** ** Pseudoterminals *)

Definition create_thread_with_stack (pty_idx : Z) : HM Z :=
  a <- sys E RqAttrInit ;;
  if negb (res a =? 0) then ret (res a)
  else
    s <- sys E (RqAttrStack THREAD_STACK_SIZE) ;;
    if negb (res s =? 0) then sys E RqAttrDestroy ;;; ret (res s)
    else
      t <- sys E (RqThread pty_idx) ;;
      sys E RqAttrDestroy ;;;
      ret (if negb (res t =? 0) then res t else 0).

Definition create_pty_at_index (pty_idx : Z) (name : list byte) (start_thread : bool)
    : HM Z :=
  h <- get ;;
  if (pty_idx <? 0) || (pty_capacity (cfg h) <=? pty_idx) then ret (-1)
  else
  pt <- sys E RqOpenpt ;;
  let fd := res pt in
  if fd <? 0 then ret (-1)
  else
  g <- sys E (RqGrantpt fd) ;;
  if negb (res g =? 0) then sys E (RqClose fd) ;;; ret (-1)
  else
  u <- sys E (RqUnlockpt fd) ;;
  if negb (res u =? 0) then sys E (RqClose fd) ;;; ret (-1)
  else
  log_fd <- match save_output_path (cfg h) with
            | Some path => r <- sys E (RqOpen (savefile path name) OpenLog) ;; ret (res r)
            | None => ret (-1)
            end ;;
  n <- sys E (RqPtsname fd DEVICE_NAME_SIZE) ;;
  h <- get ;;
  old <- arr_get (pty_data h) pty_idx ;;
  let device_name :=
    if res n =? 0 then cstr (take (Z.to_nat DEVICE_NAME_SIZE - 1) (res_bytes n))
    else td_device_name old in
  l <- arr_set (pty_data h) pty_idx (ThreadData fd log_fd pty_idx device_name x00) ;;
  modify (set_pty_data l) ;;;
  slave <- sys E (RqOpen device_name OpenSlave) ;;
  if res slave <? 0 then ret (-1)
  else
  sys E (RqRawMode (res slave)) ;;;
  sys E (RqClose (res slave)) ;;;
  emit_pty_session_record pty_idx name ;;;
  if start_thread then
    t <- create_thread_with_stack pty_idx ;;
    ret (if negb (t =? 0) then -1 else 0)
  else ret 0.

(* ------------------------------------------------------------------ *)
(** ** The stream table *)

Definition init_virtioso_tags : HM Z :=
  ok <- alloc E (VIRTIOSO_MAX_PTY_COUNT * 16) ;;
  if negb ok then modify (set_tags []) ;;; ret (-1)
  else
  modify (set_tags
    ([Tag (Some RAW_CCPLEX_PTY) x00; Tag (Some AUTOPILOT_CONTROL_PTY) x00;
      Tag (Some PHYSICAL_UART_DEFAULT_PTY) x00] ++
     replicate (Z.to_nat VIRTIOSO_MAX_PTY_COUNT - 3) tag_zero)) ;;;
  h <- get ;;
  l <- arr_set (virtioso_stream_input_enabled h) 0 true ;;
  l <- arr_set l 1 true ;;
  l <- arr_set l 2 true ;;
  modify (set_input_enabled l) ;;;
  modify (set_num_proc 3) ;;;
  modify (set_default_tag_idx 0) ;;;
  let c := cfg h in
  modify (set_cfg (Config (poll_output_timeout c) (enable_write_raw_pty c)
    (virtioso_mode_enabled c) (virtioso_outer_mode c) (virtioso_outer_tag_idx c)
    0 1 2 0 (pty_capacity c) (disable_patch c) (log_timestamp_enabled c)
    (save_output_path c) (tty_device c) (int_baudrate c) (disable_uucp_lock c))) ;;;
  ret 0.

(** The duplicate check of [append_virtioso_stream], from index [i] on. *)
Fixpoint duplicate_stream (n : nat) (stream_tags : list tag) (i : Z)
    (stream_id : Z) (name : list byte) : HM bool :=
  match n with
  | O => ret false
  | S n' =>
      t <- arr_get stream_tags i ;;
      if bool_decide (tag_value t = z2b stream_id) then ret true
      else
        match tag_name t with
        | None => halt Undefined (* strcmp on a null pointer *)
        | Some other =>
            if bool_decide (other = name) then ret true
            else duplicate_stream n' stream_tags (i + 1) stream_id name
        end
  end.

(** [append_virtioso_stream(&stream_tags, &count, &capacity, stream_id, name)]:
    the code and the three variables it may change. *)
Definition append_virtioso_stream (stream_tags : list tag) (count capacity : Z)
    (stream_id : Z) (name : list byte) : HM (Z * list tag * Z * Z) :=
  if stream_id <? 0 then ret (0, stream_tags, count, capacity)
  else if (stream_id <=? 0) || (0xff <? stream_id) ||
          (stream_id =? 0xfe) || (stream_id =? 0xfd)
  then ret (-1, stream_tags, count, capacity)
  else
  dup <- duplicate_stream (Z.to_nat count) stream_tags 0 stream_id name ;;
  if dup then ret (-1, stream_tags, count, capacity)
  else if (count =? capacity) && (VIRTIOSO_MAX_PTY_COUNT <=? capacity)
  then ret (-1, stream_tags, count, capacity)
  else
  let* (ok, stream_tags, capacity) :=
    if count =? capacity then
      let next := if negb (capacity =? 0) then capacity * 2 else 8 in
      let next := if VIRTIOSO_MAX_PTY_COUNT <? next then VIRTIOSO_MAX_PTY_COUNT else next in
      ok <- alloc E (16 * next) ;;
      ret (if ok then
             (true, stream_tags ++
                replicate (Z.to_nat next - length stream_tags) tag_zero, next)
           else (false, stream_tags, capacity))
    else ret (true, stream_tags, capacity) in
  if negb ok then ret (-1, stream_tags, count, capacity)
  else
  l <- arr_set stream_tags count (Tag (Some name) (z2b stream_id)) ;;
  ret (0, l, count + 1, capacity).

(** [while (pos < streams_end && *pos != '{') pos++]. *)
Fixpoint skip_to_object (n : nat) (s : list byte) (pos streams_end : nat) : nat :=
  match n with
  | O => pos
  | S n' =>
      if ((pos <? streams_end)%nat && negb (bool_decide (char_at s pos = x7b)))
      then skip_to_object n' s (S pos) streams_end else pos
  end.

(** What the body of the loop reads from one object, before it allocates. *)
Record stream_object : Type := StreamObject {
  so_end : nat;
  so_stream_id : Z;
  so_name : list byte;
  so_direction : option (list byte)
}.

Definition scan_stream_object (s : list byte) (object_start : nat) : option stream_object :=
  match json_find_matching s object_start x7b x7d with
  | None => None
  | Some object_end =>
      let component_pos := json_find_key_before s object_start object_end (quoted "component") in
      let stream_id_pos := json_find_key_before s object_start object_end (quoted "stream_id") in
      match component_pos, stream_id_pos with
      | Some cp, Some sp =>
          match json_int_value_after s sp (quoted "stream_id"),
                json_string_value_after s cp (quoted "component") with
          | Some stream_id, Some name =>
              let direction :=
                match json_find_key_before s object_start object_end (quoted "direction") with
                | Some dp => json_string_value_after s dp (quoted "direction")
                | None => None
                end in
              Some (StreamObject object_end stream_id name direction)
          | _, _ => None
          end
      | _, _ => None
      end
  end.

Definition is_input_direction (direction : list byte) : bool :=
  bool_decide (direction = bs "input") || bool_decide (direction = bs "bidirectional").

(** The loop over the stream objects: whether it failed, and [stream_count].
    The local [stream_tags] is the global array [tags]. *)
Fixpoint registry_loop (fuel : nat) (s : list byte) (pos streams_end : nat)
    (stream_count : Z) : HM (bool * Z) :=
  match fuel with
  | O => halt OutOfFuel
  | S fuel' =>
      if negb (pos <? streams_end)%nat then ret (false, stream_count)
      else
      let pos := skip_to_object (length s) s pos streams_end in
      if (streams_end <=? pos)%nat then ret (false, stream_count)
      else
      match scan_stream_object s pos with
      | None => ret (true, stream_count)
      | Some o =>
          name <- xstrndup E (so_name o) ;;
          match name with
          | None => ret (true, stream_count)
          | Some name =>
              direction <- match so_direction o with
                           | Some d => xstrndup E d
                           | None => ret None
                           end ;;
              let input_enabled :=
                match direction with Some d => is_input_direction d | None => false end in
              h <- get ;;
              let* (e, stream_tags, count', _) :=
                append_virtioso_stream (tags h) stream_count VIRTIOSO_MAX_PTY_COUNT
                  (so_stream_id o) name in
              modify (set_tags stream_tags) ;;;
              if negb (e =? 0) then ret (true, stream_count)
              else
              (if stream_count <? count' then
                 h <- get ;;
                 l <- arr_set (virtioso_stream_input_enabled h) stream_count input_enabled ;;
                 modify (set_input_enabled l)
               else ret tt) ;;;
              registry_loop fuel' s (S (so_end o)) streams_end count'
          end
      end
  end.

(** [free] and clear [tags[i]] for [builtin_count <= i < stream_count]. *)
Fixpoint clear_tags (n : nat) (i : Z) : HM unit :=
  match n with
  | O => ret tt
  | S n' =>
      h <- get ;;
      l <- arr_set (tags h) i tag_zero ;;
      modify (set_tags l) ;;;
      clear_tags n' (i + 1)
  end.

Definition registry_fail (builtin_count stream_count : Z) : HM Z :=
  clear_tags (Z.to_nat (stream_count - builtin_count)) builtin_count ;;;
  modify (set_num_proc builtin_count) ;;;
  modify (set_pty_max_count builtin_count) ;;;
  ret (-1).

(** The loop that opens the new PTYs: did every one succeed? *)
Fixpoint create_ptys (n : nat) (i : Z) : HM bool :=
  match n with
  | O => ret true
  | S n' =>
      h <- get ;;
      t <- arr_get (tags h) i ;;
      input <- arr_get (virtioso_stream_input_enabled h) i ;;
      match tag_name t with
      | None => halt Undefined
      | Some name =>
          r <- create_pty_at_index i name input ;;
          if negb (r =? 0) then ret false
          else modify (set_pty_max_count (i + 1)) ;;; create_ptys n' (i + 1)
      end
  end.

Definition apply_virtioso_registry_json (json : option (list byte)) : HM Z :=
  match json with
  | None => ret (-1)
  | Some buf =>
      let s := cstr buf in
      h <- get ;;
      let builtin_count := num_proc h in
      match json_find_array_after s 0 (quoted "streams") with
      | None => ret (-1)
      | Some (streams_start, streams_end) =>
          let* (failed, stream_count) :=
            registry_loop (S (length s)) s (S streams_start) streams_end (num_proc h) in
          if failed || (stream_count =? builtin_count)
          then registry_fail builtin_count stream_count
          else
            modify (set_num_proc stream_count) ;;;
            modify (set_default_tag_idx 0) ;;;
            ok <- create_ptys (Z.to_nat (stream_count - builtin_count)) builtin_count ;;
            if ok then ret 0 else registry_fail builtin_count stream_count
      end
  end.

(** [apply_virtioso_stream_connected(stream_id, name, name_len)]; [name] is
    the [name_len] bytes the pointer refers to. *)
Definition apply_virtioso_stream_connected (stream_id : byte) (name : list byte) : HM unit :=
  idx <- find_virtioso_pty_idx_by_stream_id stream_id ;;
  if 0 <=? idx then ret tt (* already registered *)
  else
  h <- get ;;
  if pty_capacity (cfg h) <=? num_proc h then ret tt
  else
  let name_buf := cstr (take 255 name) in
  dup <- xstrndup E name_buf ;;
  match dup with
  | None => ret tt
  | Some name_dup =>
      let pty_idx := num_proc h in
      l <- arr_set (tags h) pty_idx (Tag (Some name_dup) stream_id) ;;
      modify (set_tags l) ;;;
      i <- arr_set (virtioso_stream_input_enabled h) pty_idx false ;;
      modify (set_input_enabled i) ;;;
      modify (set_num_proc (pty_idx + 1)) ;;;
      modify (set_pty_max_count (pty_idx + 1)) ;;;
      r <- create_pty_at_index pty_idx name_buf false ;;
      if negb (r =? 0) then
        h <- get ;;
        l <- arr_set (tags h) pty_idx tag_zero ;;
        modify (set_tags l) ;;;
        modify (set_num_proc pty_idx) ;;;
        modify (set_pty_max_count pty_idx)
      else ret tt
  end.

End Registry.
