(* ===== verification/RegistryScan.v ===== *)
(** * The host's scanner on the generator's document

    Every stream object the generator prints is scanned to its component,
    its direction and its stream id, and the objects are found one after the
    other. *)

From S2P Require Import Prelude CString Generator Json RegistryText HostState HostIo Flush Registry.

(** Appends associated to the right. *)
Ltac app_norm := repeat first [rewrite <-app_assoc | progress cbn [app]].

(** The words that are keys of the scanner: a component, an interface or a
    name equal to one of them would be taken for the key. *)
Definition scanner_keys : list (list byte) := [bs "streams"; bs "stream_id"; bs "direction"].

Definition word_ok (s : list byte) : bool := plain s && bool_decide (s ∉ scanner_keys).

Definition interface_ok (i : interface) : bool := word_ok (if_name i).

Definition stream_ok (s : stream) : bool :=
  word_ok (st_component s) && plain (st_type s) && plain (st_id_source s) &&
  word_ok (st_direction s) && forallb interface_ok (st_interfaces s) &&
  (-1 <=? st_id s) && (st_id s <=? 0xff).

(** The chunks of a stream object, around what the scanner looks for. *)
Definition object_head : list chunk :=
  [CRaw (bs "{"); CStr (bs "aliases"); CRaw (bs ": "); CRaw (bs "["); CRaw (bs "]");
   CRaw (bs ", ")].
Definition object_component (s : stream) : list chunk :=
  [CStr (bs "component"); CRaw (bs ": "); CStr (st_component s); CRaw (bs ", ")].
Definition object_direction (s : stream) : list chunk :=
  [CStr (bs "direction"); CRaw (bs ": "); CStr (st_direction s); CRaw (bs ", ")].
Definition object_interfaces (s : stream) : list chunk :=
  [CStr (bs "interfaces"); CRaw (bs ": ")] ++
  jlist (map interface_json (st_interfaces s)) ++ [CRaw (bs ", ")].
Definition object_id (s : stream) : list chunk :=
  [CStr (bs "stream_id"); CRaw (bs ": "); CRaw (fmt_d (st_id s)); CRaw (bs ", ")].
Definition object_tail (s : stream) : list chunk :=
  [CStr (bs "stream_id_source"); CRaw (bs ": "); CStr (st_id_source s); CRaw (bs ", ");
   CStr (bs "type"); CRaw (bs ": "); CStr (st_type s); CRaw (bs "}")].

(* ------------------------------------------------------------------ *)
(** ** Lemmas: one key *)

Lemma word_ok_spec s : word_ok s = true → plain s = true ∧ s ∉ scanner_keys.
Proof. unfold word_ok. intros Hs. z_bool. by split. Qed.

Lemma word_ok_ne s k : word_ok s = true → k ∈ scanner_keys → CStr k ≠ CStr s.
Proof. intros [_ Hs]%word_ok_spec Hk [= ->]. done. Qed.

Lemma key_found s pos a cs key r :
  s = a ++ text cs ++ x22 :: key ++ [x22] ++ r → pos = length a →
  good cs = true → key_ok key = true → CStr key ∉ cs →
  strstr s pos (x22 :: key ++ [x22]) = Some (pos + length (text cs))%nat.
Proof. intros -> -> Hg Hk Hn. rewrite strstr_app. by apply strstr_key. Qed.

(** After a key: the colon, and the value behind one space. *)
Lemma after_key s pos a key r :
  s = a ++ x22 :: key ++ [x22] ++ x3a :: r → pos = length a → key_ok key = true →
  strstr s pos (x22 :: key ++ [x22]) = Some pos ∧
  skip_space s (pos + length (x22 :: key ++ [x22])) = length (a ++ x22 :: key ++ [x22]) ∧
  char_at s (length (a ++ x22 :: key ++ [x22])) = x3a.
Proof.
  intros -> -> Hk. split_and!.
  - rewrite (key_found _ _ a [] key (x3a :: r)); [by rewrite Nat.add_0_r|done..|].
    apply not_elem_of_nil.
  - rewrite <-length_app.
    replace (a ++ x22 :: key ++ [x22] ++ x3a :: r)
      with ((a ++ x22 :: key ++ [x22]) ++ [] ++ x3a :: r)
      by (cbn; rewrite <-!app_assoc; cbn; by rewrite <-app_assoc).
    rewrite skip_space_app by done. cbn. lia.
  - replace (a ++ x22 :: key ++ [x22] ++ x3a :: r)
      with ((a ++ x22 :: key ++ [x22]) ++ x3a :: r)
      by (cbn; rewrite <-!app_assoc; cbn; by rewrite <-app_assoc).
    apply char_at_head.
Qed.

Lemma string_end_found v r pos :
  plain v = true → string_end (v ++ x22 :: r) pos = Some (pos + length v)%nat.
Proof.
  revert pos. induction v as [|c v IH]; intros pos Hv; cbn in *.
  - by rewrite Nat.add_0_r.
  - apply andb_prop in Hv as [Hc Hv]. apply plain_no_quote in Hc as (? & ? & _).
    rewrite !bool_decide_eq_false_2 by done. rewrite IH by done. f_equal. lia.
Qed.

Lemma string_value_found s pos a key v r :
  s = a ++ x22 :: key ++ [x22] ++ bs ": " ++ x22 :: v ++ x22 :: r → pos = length a →
  key_ok key = true → plain v = true →
  json_string_value_after s pos (x22 :: key ++ [x22]) = Some v.
Proof.
  intros Hs Hp Hk Hv. destruct (after_key s pos a key (x20 :: x22 :: v ++ x22 :: r)) as (H1 & H2 & H3);
    [done..|]. unfold json_string_value_after. rewrite H1, H2, H3. cbn [negb].
  set (b := a ++ x22 :: key ++ [x22]) in *.
  assert (Hs2 : s = (b ++ [x3a]) ++ [x20] ++ x22 :: v ++ x22 :: r).
  { rewrite Hs. subst b. change (bs ": ") with [x3a; x20].
    rewrite <-!app_assoc. cbn. by rewrite <-app_assoc. }
  replace (S (length b)) with (length (b ++ [x3a])) by (rewrite length_app; cbn; lia).
  rewrite Hs2, skip_space_app by done. set (c := b ++ [x3a]).
  replace (length c + length [x20])%nat with (length (c ++ [x20])) by (by rewrite length_app).
  rewrite app_assoc, char_at_head. cbn [negb bool_decide decide].
  set (d := c ++ [x20]).
  replace (S (length d)) with (length (d ++ [x22])) by (rewrite length_app; cbn; lia).
  replace (d ++ x22 :: v ++ x22 :: r) with ((d ++ [x22]) ++ v ++ x22 :: r) by (by rewrite <-app_assoc).
  rewrite drop_app_length, string_end_found by done.
  rewrite bool_decide_eq_true_2 by done. cbn [negb].
  f_equal. rewrite take_app_length'; [done|lia].
Qed.

Lemma int_value_found s pos a key z r :
  s = a ++ x22 :: key ++ [x22] ++ bs ": " ++ fmt_d z ++ r → pos = length a →
  key_ok key = true → -1 ≤ z ≤ 0xff → isdigit (default x00 (head r)) = false →
  json_int_value_after s pos (x22 :: key ++ [x22]) = Some z.
Proof.
  intros Hs Hp Hk Hz Hr. destruct (after_key s pos a key (x20 :: fmt_d z ++ r)) as (H1 & H2 & H3);
    [done..|]. unfold json_int_value_after. rewrite H1, H2, H3. cbn [negb].
  set (b := a ++ x22 :: key ++ [x22]) in *.
  assert (Hs2 : s = (b ++ [x3a]) ++ [x20] ++ fmt_d z ++ r).
  { rewrite Hs. subst b. change (bs ": ") with [x3a; x20].
    rewrite <-!app_assoc. cbn. by rewrite <-app_assoc. }
  replace (S (length b)) with (length (b ++ [x3a])) by (rewrite length_app; cbn; lia).
  rewrite bool_decide_eq_true_2 by done. cbn [negb].
  rewrite Hs2, strtol_fmt_d by (done || unfold LONG_MIN, LONG_MAX; lia).
  cbn [strtol_value strtol_erange strtol_found negb orb].
  by rewrite (proj2 (Z.ltb_ge _ _)), (proj2 (Z.ltb_ge _ _)) by lia.
Qed.

(* ------------------------------------------------------------------ *)
(** ** Lemmas: one stream object *)

Lemma stream_json_chunks s :
  stream_json s = object_head ++ object_component s ++ object_direction s ++
    object_interfaces s ++ object_id s ++ object_tail s.
Proof.
  unfold stream_json, object_interfaces.
  generalize (map interface_json (st_interfaces s)). intros l.
  unfold jdict, jlist. cbn. rewrite <-!app_assoc. reflexivity.
Qed.

Lemma value_interface i : interface_ok i = true → value (interface_json i).
Proof.
  intros [Hp _]%word_ok_spec. unfold interface_json, jdict.
  apply (value_wrap x7b x7d); [by right|]. cbn [sort_keys foldr].
  apply value_comma_sep. destruct i as [[] n]; cbn in *;
    repeat (apply Forall_cons; split; [apply value_field; [done|by apply value_jstr]|]);
    by apply Forall_nil.
Qed.

Lemma value_interfaces l :
  forallb interface_ok l = true → value (jlist (map interface_json l)).
Proof.
  intros Hl. apply value_jlist, Forall_forall. intros v Hv.
  apply list_elem_of_In, in_map_iff in Hv as (i & <- & Hin).
  rewrite forallb_forall in Hl. by apply value_interface, Hl.
Qed.

Lemma in_comma_sep s vs :
  CStr s ∈ comma_sep vs → ∃ v, v ∈ vs ∧ CStr s ∈ v.
Proof.
  destruct vs as [|v vs]; [by intros ?%not_elem_of_nil|]. cbn [comma_sep].
  intros [Hin|Hin]%elem_of_app; [exists v; split; [left|done]|].
  induction vs as [|w vs IH]; cbn in Hin; [by apply not_elem_of_nil in Hin|].
  apply elem_of_cons in Hin as [?|[Hin|Hin]%elem_of_app]; [done| |].
  - exists w. split; [right; left|done].
  - destruct (IH Hin) as (u & Hu & ?). exists u. split; [|done].
    apply elem_of_cons in Hu as [->|Hu]; [left|by do 2 right].
Qed.

(** A literal among the chunks of a bracketed list. *)
Lemma in_jlist s vs : CStr s ∈ jlist vs → ∃ v, v ∈ vs ∧ CStr s ∈ v.
Proof.
  unfold jlist. intros [?|[Hin|Hin]%elem_of_app]%elem_of_cons; [done| |].
  - by apply in_comma_sep.
  - by apply list_elem_of_singleton in Hin.
Qed.

Lemma interfaces_avoid k l :
  forallb interface_ok l = true → k ∈ scanner_keys → CStr k ∉ jlist (map interface_json l).
Proof.
  intros Hl Hk Hin. apply in_jlist in Hin as (v & Hv & Hin).
  apply list_elem_of_In, in_map_iff in Hv as (i & <- & Hi).
  rewrite forallb_forall in Hl. apply Hl in Hi. pose proof (word_ok_ne _ _ Hi Hk) as Hne.
  apply list_elem_of_In in Hin. unfold scanner_keys in Hk.
  rewrite !elem_of_cons, elem_of_nil in Hk.
  destruct i as [kd n]. cbn in Hin, Hne.
  destruct Hk as [->|[->|[->|[]]]], kd; cbn in Hin, Hne;
    repeat destruct Hin as [Hin|Hin]; try done; congruence.
Qed.

Record stream_words (s : stream) : Prop := StreamWords {
  sw_component : word_ok (st_component s) = true;
  sw_type : plain (st_type s) = true;
  sw_source : plain (st_id_source s) = true;
  sw_direction : word_ok (st_direction s) = true;
  sw_interfaces : forallb interface_ok (st_interfaces s) = true;
  sw_id : -1 ≤ st_id s ≤ 0xff
}.

Lemma stream_ok_words s : stream_ok s = true → stream_words s.
Proof. unfold stream_ok. intros Hs. z_bool. by constructor. Qed.

(** The object without its brackets is a value. *)
Lemma value_stream s :
  stream_ok s = true →
  ∃ body, stream_json s = CRaw [x7b] :: body ++ [CRaw [x7d]] ∧ value body.
Proof.
  intros [[Hc _]%word_ok_spec Ht Hso [Hd _]%word_ok_spec Hi _]%stream_ok_words.
  unfold stream_json, jdict. eexists. split; [reflexivity|].
  apply value_comma_sep. cbn [sort_keys foldr].
  pose proof (value_interfaces _ Hi) as Hv.
  assert (Hn : value (jlist [])) by by apply value_jlist, Forall_nil.
  repeat (apply Forall_cons; split; [apply value_field; [done|cbn [snd]; auto using value_jstr, value_jint]|]).
  by apply Forall_nil.
Qed.

Lemma values_ok sts : forallb stream_ok sts = true → Forall value (map stream_json sts).
Proof.
  intros Hok. apply Forall_forall. intros v Hv.
  apply list_elem_of_In, in_map_iff in Hv as (st & <- & Hin).
  rewrite forallb_forall in Hok. destruct (value_stream st (Hok _ Hin)) as (body & -> & Hb).
  apply value_wrap; [by right|done].
Qed.

Lemma good_component s : word_ok (st_component s) = true → good (object_component s) = true.
Proof. intros [Hc _]%word_ok_spec. cbn. by rewrite Hc. Qed.
Lemma good_direction s : word_ok (st_direction s) = true → good (object_direction s) = true.
Proof. intros [Hc _]%word_ok_spec. cbn. by rewrite Hc. Qed.
Lemma good_interfaces s :
  forallb interface_ok (st_interfaces s) = true → good (object_interfaces s) = true.
Proof.
  intros Hi. unfold object_interfaces. rewrite !good_app.
  destruct (value_interfaces _ Hi) as [-> _]. done.
Qed.

(** A key of an object is found, and lies inside it. *)
Lemma object_key s pos a st cs key cs' rest stop :
  s = a ++ text (stream_json st) ++ rest → pos = length a →
  stream_json st = cs ++ CStr key :: cs' →
  good cs = true → key_ok key = true → CStr key ∉ cs → plain key = true →
  (length a + length (text cs) < stop)%nat →
  json_find_key_before s pos stop (x22 :: key ++ [x22]) = Some (length (a ++ text cs)) ∧
  s = (a ++ text cs) ++ x22 :: key ++ [x22] ++ text cs' ++ rest.
Proof.
  intros Hs -> Hj Hg Hk Hn Hp Hstop.
  assert (Hs' : s = a ++ text cs ++ x22 :: key ++ [x22] ++ (text cs' ++ rest)).
  { rewrite Hs, Hj, text_app, text_cons, plain_text by done.
    by app_norm. }
  unfold json_find_key_before.
  rewrite (key_found s _ a cs key (text cs' ++ rest)) by done.
  rewrite length_app. rewrite (proj2 (Nat.leb_gt _ _)) by lia. split; [done|].
  by rewrite <-app_assoc.
Qed.

Lemma not_in_app {A} (x : A) l k : x ∉ l → x ∉ k → x ∉ l ++ k.
Proof. rewrite elem_of_app. tauto. Qed.

(** Where an object ends. *)
Lemma object_end s pos a st rest :
  s = a ++ text (stream_json st) ++ rest → pos = length a → stream_ok st = true →
  json_find_matching s pos x7b x7d = Some (length a + length (text (stream_json st)) - 1)%nat ∧
  (0 < length (text (stream_json st)))%nat.
Proof.
  intros Hs -> Hok. destruct (value_stream st Hok) as (body & Hj & _ & Hsk).
  assert (Ht : text (stream_json st) = x7b :: text body ++ [x7d])
    by (by rewrite Hj, text_cons, text_app).
  rewrite Hs, Ht. cbn [app]. rewrite <-app_assoc. cbn [app].
  rewrite (matching_found x7b x7d a body rest) by (done || by right).
  cbn. rewrite length_app. cbn. split; [f_equal|]; lia.
Qed.

(** A field of an object is found as its key and read back. *)
Section Field.
Context (s a rest : list byte) (pos stop : nat) (st : stream) (cs cs' : list chunk).
Context (key : list byte).
Hypothesis (Hs : s = a ++ text (stream_json st) ++ rest) (Hpos : pos = length a).
Hypothesis (Hstop : stop = (length a + length (text (stream_json st)) - 1)%nat).
Hypothesis (Hg : good cs = true) (Hn : CStr key ∉ cs).
Hypothesis (Hk : key_ok key = true) (Hp : plain key = true).

Lemma string_field v :
  stream_json st = cs ++ CStr key :: CRaw (bs ": ") :: CStr v :: cs' → plain v = true →
  ∃ p, json_find_key_before s pos stop (x22 :: key ++ [x22]) = Some p ∧
       json_string_value_after s p (x22 :: key ++ [x22]) = Some v.
Proof using Hs Hpos Hstop Hg Hn Hk Hp.
  intros Hj Hv.
  destruct (object_key s pos a st cs key (CRaw (bs ": ") :: CStr v :: cs') rest stop)
    as [Hf He]; try done.
  { rewrite Hstop, Hj, text_app, length_app, !text_cons, !length_app, plain_text by done.
    cbn. rewrite length_app. cbn. lia. }
  exists (length (a ++ text cs)). split; [done|].
  eapply (string_value_found _ _ (a ++ text cs) key v (text cs' ++ rest)); [|done..].
  rewrite He, !text_cons, plain_text by done. by app_norm.
Qed.

Lemma int_field z :
  stream_json st = cs ++ CStr key :: CRaw (bs ": ") :: CRaw (fmt_d z) :: cs' →
  -1 ≤ z ≤ 0xff → isdigit (default x00 (head (text cs' ++ rest))) = false →
  ∃ p, json_find_key_before s pos stop (x22 :: key ++ [x22]) = Some p ∧
       json_int_value_after s p (x22 :: key ++ [x22]) = Some z.
Proof using Hs Hpos Hstop Hg Hn Hk Hp.
  intros Hj Hz Hd.
  destruct (object_key s pos a st cs key (CRaw (bs ": ") :: CRaw (fmt_d z) :: cs') rest stop)
    as [Hf He]; try done.
  { rewrite Hstop, Hj, text_app, length_app, !text_cons, !length_app, plain_text by done.
    cbn. rewrite length_app. cbn. lia. }
  exists (length (a ++ text cs)). split; [done|].
  eapply (int_value_found _ _ (a ++ text cs) key z (text cs' ++ rest)); [|done..].
  rewrite He, !text_cons. by app_norm.
Qed.
End Field.

Lemma avoid_component k st :
  k ∈ scanner_keys → word_ok (st_component st) = true → CStr k ∉ object_component st.
Proof.
  intros Hk Hc. pose proof (word_ok_ne _ _ Hc Hk). unfold object_component.
  rewrite !elem_of_cons, elem_of_nil. intros [[= ->]|[?|[?|[?|[]]]]]; try done.
  unfold scanner_keys in Hk. rewrite !elem_of_cons, elem_of_nil in Hk.
  by destruct Hk as [?|[?|[?|[]]]].
Qed.

Lemma avoid_direction st :
  word_ok (st_direction st) = true → CStr (bs "stream_id") ∉ object_direction st.
Proof.
  intros Hc. pose proof (word_ok_ne _ (bs "stream_id") Hc) as Hne.
  unfold object_direction. rewrite !elem_of_cons, elem_of_nil.
  intros [?|[?|[?|[?|[]]]]]; try done. apply Hne; [|done]. by right; left.
Qed.

Lemma avoid_interfaces st :
  forallb interface_ok (st_interfaces st) = true → CStr (bs "stream_id") ∉ object_interfaces st.
Proof.
  intros Hi. unfold object_interfaces. apply not_in_app.
  - rewrite !elem_of_cons, elem_of_nil. by intros [?|[?|[]]].
  - apply not_in_app; [apply interfaces_avoid; [done|by right; left]|].
    by intros ?%list_elem_of_singleton.
Qed.

Lemma scan_printed s pos a st rest :
  s = a ++ text (stream_json st) ++ rest → pos = length a → stream_ok st = true →
  scan_stream_object s pos =
  Some (StreamObject (length a + length (text (stream_json st)) - 1) (st_id st)
          (st_component st) (Some (st_direction st))).
Proof.
  intros Hs Hp Hok. destruct (object_end s pos a st rest Hs Hp Hok) as [He _].
  pose proof (stream_ok_words _ Hok) as [Hc Ht Hso Hd Hi Hid].
  pose proof (stream_json_chunks st) as Hj.
  unfold scan_stream_object. rewrite He. change (quoted ?k) with (x22 :: bs k ++ [x22]).
  set (stop := (_ - 1)%nat). cbv zeta.
  destruct (string_field s a rest pos stop st object_head
    (CRaw (bs ", ") :: object_direction st ++ object_interfaces st ++ object_id st ++ object_tail st)
    (bs "component") Hs Hp eq_refl) with (v := st_component st) as (p1 & -> & ->); try done.
  { unfold object_head. rewrite !elem_of_cons, elem_of_nil. intuition done. }
  { by apply word_ok_spec. }
  destruct (int_field s a rest pos stop st
    (object_head ++ object_component st ++ object_direction st ++ object_interfaces st)
    (CRaw (bs ", ") :: object_tail st) (bs "stream_id") Hs Hp eq_refl)
    with (z := st_id st) as (p2 & -> & ->); try done.
  { by rewrite !good_app, good_component, good_direction, good_interfaces. }
  { apply not_in_app; [|apply not_in_app; [apply avoid_component; [by right; left|done]|]].
    2: { apply not_in_app; [by apply avoid_direction|by apply avoid_interfaces]. }
    unfold object_head. rewrite !elem_of_cons, elem_of_nil. intuition done. }
  destruct (string_field s a rest pos stop st (object_head ++ object_component st)
    (CRaw (bs ", ") :: object_interfaces st ++ object_id st ++ object_tail st)
    (bs "direction") Hs Hp eq_refl) with (v := st_direction st) as (p3 & -> & ->); try done.
  { by rewrite good_app, good_component. }
  { apply not_in_app; [|apply avoid_component; [by do 2 right; left|done]].
    unfold object_head. rewrite !elem_of_cons, elem_of_nil. intuition done. }
  by apply word_ok_spec.
Qed.
