(* ===== verification/RegistryInv.v ===== *)
(** * The stream table's invariant

    A table is well formed when its arrays have their allocated sizes, the
    names in use are set and every stream id routes to one index.  Every
    operation of [Registry.v] keeps it, always finishes, and leaves the
    channels that existed before untouched, for any registry text and any
    answers of the environment. *)

From S2P Require Import Prelude CString Json HostState HostIo Flush Registry.

(* ------------------------------------------------------------------ *)
(** ** Invariants of the stream table *)

Definition NPTY : nat := 257.

(** Arrays have their allocated sizes; the first [n] names are set. *)
Record shape (h : host) (n : Z) : Prop := Shape {
  sh_tags : length (tags h) = NPTY;
  sh_pty : length (pty_data h) = NPTY;
  sh_input : length (virtioso_stream_input_enabled h) = NPTY;
  sh_cap : pty_capacity (cfg h) = VIRTIOSO_MAX_PTY_COUNT;
  sh_n : 3 ≤ n ≤ VIRTIOSO_MAX_PTY_COUNT;
  sh_names : ∀ i t, Z.of_nat i < n → tags h !! i = Some t → is_Some (tag_name t)
}.

(** Stream ids route to one index; 0 is the id of the three built-ins only. *)
Record table_ok (l : list tag) (n : Z) : Prop := TableOk {
  tb_builtin : ∀ i t, Z.of_nat i < n → l !! i = Some t →
    (tag_value t = x00 ↔ (i < 3)%nat);
  tb_unique : ∀ i j t u, Z.of_nat i < n → Z.of_nat j < n →
    l !! i = Some t → l !! j = Some u → tag_value t = tag_value u →
    tag_value t ≠ x00 → i = j
}.

(** The indices [init_virtioso_tags] sets. *)
Definition cfg_ok (c : config) : Prop :=
  raw_ccplex_pty_idx c = 0 ∧ autopilot_control_pty_idx c = 1 ∧
  virtioso_default_pty_idx c = 2 ∧ raw_pty_idx c = 0.

(** The state between two bytes in Virtioso mode. *)
Record wf (h : host) : Prop := Wf {
  wf_shape : shape h (num_proc h);
  wf_table : table_ok (tags h) (num_proc h);
  wf_max : pty_max_count h = num_proc h;
  wf_cfg : cfg_ok (cfg h)
}.

(** [h'] is [h] after opening the PTY [i], or failing to. *)
Record opens (i : nat) (h h' : host) : Prop := Opens {
  op_trace : extends (trace h) (trace h');
  op_cfg : cfg h' = cfg h;
  op_tags : tags h' = tags h;
  op_num : num_proc h' = num_proc h;
  op_default : default_tag_idx h' = default_tag_idx h;
  op_max : pty_max_count h' = pty_max_count h;
  op_length : length (pty_data h') = length (pty_data h);
  op_others : ∀ j, j ≠ i → pty_data h' !! j = pty_data h !! j;
  op_input : virtioso_stream_input_enabled h' = virtioso_stream_input_enabled h;
  op_registry : virtioso_registry_json h' = virtioso_registry_json h;
  op_pending : virtioso_pending_ctrl_type h' = virtioso_pending_ctrl_type h;
  op_ack : virtioso_downlink_ack_count h' = virtioso_downlink_ack_count h;
  op_tty : tty_fd h' = tty_fd h;
  op_tty_log : tty_log_fd h' = tty_log_fd h
}.

(** [h'] is [h] after table changes that keep the first [b] channels. *)
Record keeps (b : Z) (h h' : host) : Prop := Keeps {
  kp_trace : extends (trace h) (trace h');
  kp_cfg : cfg h' = cfg h;
  kp_tags : ∀ j, Z.of_nat j < b → tags h' !! j = tags h !! j;
  kp_pty : ∀ j, Z.of_nat j < b → pty_data h' !! j = pty_data h !! j;
  kp_input : ∀ j, Z.of_nat j < b →
    virtioso_stream_input_enabled h' !! j = virtioso_stream_input_enabled h !! j;
  kp_registry : virtioso_registry_json h' = virtioso_registry_json h;
  kp_pending : virtioso_pending_ctrl_type h' = virtioso_pending_ctrl_type h;
  kp_ack : virtioso_downlink_ack_count h' = virtioso_downlink_ack_count h;
  kp_tty : tty_fd h' = tty_fd h;
  kp_tty_log : tty_log_fd h' = tty_log_fd h
}.

(** The table [append_virtioso_stream] makes of a table of 257 entries. *)
Definition append_spec (l : list tag) (count : Z) (stream_id : Z) (name : list byte)
    : Z * list tag * Z :=
  if stream_id <? 0 then (0, l, count)
  else if (stream_id <=? 0) || (0xff <? stream_id) ||
          (stream_id =? 0xfe) || (stream_id =? 0xfd) then (-1, l, count)
  else if existsb (λ t, bool_decide (tag_value t = z2b stream_id) ||
                        bool_decide (tag_name t = Some name))
            (take (Z.to_nat count) l) then (-1, l, count)
  else if count =? VIRTIOSO_MAX_PTY_COUNT then (-1, l, count)
  else (0, <[Z.to_nat count := Tag (Some name) (z2b stream_id)]> l, count + 1).

(* ------------------------------------------------------------------ *)
(** ** Lemmas: lookups *)

Lemma find_tag_value_bound l v i :
  0 ≤ i → find_tag_value l v i = -1 ∨ i ≤ find_tag_value l v i < i + Z.of_nat (length l).
Proof.
  revert i. induction l as [|t l IH]; intros i Hi; cbn; [by left|].
  case_bool_decide; [lia|]. destruct (IH (i + 1)); lia.
Qed.

Lemma find_tag_value_none l v i :
  0 ≤ i → find_tag_value l v i = -1 ↔ ∀ t, t ∈ l → tag_value t ≠ v.
Proof.
  intros Hi. revert i Hi. induction l as [|t l IH]; intros i Hi; cbn.
  { split; [|done]. intros _ t Ht. by apply not_elem_of_nil in Ht. }
  case_bool_decide as Hv.
  - split; [lia|]. intros Hl. by destruct (Hl t); [left|].
  - rewrite IH by lia. split; intros Hl u Hu.
    + apply elem_of_cons in Hu as [->|]; auto.
    + apply Hl. by right.
Qed.

Lemma find_tag_value_some l v i k t :
  l !! k = Some t → tag_value t = v →
  (∀ j u, (j < k)%nat → l !! j = Some u → tag_value u ≠ v) →
  find_tag_value l v i = i + Z.of_nat k.
Proof.
  revert i k. induction l as [|u l IH]; intros i k Hk Ht Hmin; [done|].
  cbn. destruct k as [|k].
  - cbn in Hk. simplify_eq. rewrite bool_decide_eq_true_2 by done. lia.
  - rewrite bool_decide_eq_false_2 by (apply (Hmin 0%nat); [lia|done]).
    rewrite (IH _ k) by (done || (intros j w Hj; apply (Hmin (S j)); lia)). lia.
Qed.

Lemma find_tag_value_found l v i :
  0 ≤ i → 0 ≤ find_tag_value l v i →
  ∃ t, l !! Z.to_nat (find_tag_value l v i - i) = Some t ∧ tag_value t = v.
Proof.
  revert i. induction l as [|t l IH]; intros i Hi Hf; cbn in *; [lia|].
  case_bool_decide as Hv.
  - exists t. rewrite Z.sub_diag. done.
  - destruct (IH (i + 1) ltac:(lia) Hf) as [u [Hu ?]]. exists u. split; [|done].
    pose proof (find_tag_value_bound l v (i + 1)).
    replace (Z.to_nat (find_tag_value l v (i + 1) - i))
      with (S (Z.to_nat (find_tag_value l v (i + 1) - (i + 1)))) by lia. done.
Qed.

Lemma find_idx_run h sid :
  shape h (num_proc h) →
  find_virtioso_pty_idx_by_stream_id sid h =
  Done (find_tag_value (active_tags h) sid 0) h.
Proof.
  intros []. unfold find_virtioso_pty_idx_by_stream_id. unfold bind, get.
  rewrite (proj2 (Z.ltb_ge _ _)) by (unfold NPTY, VIRTIOSO_MAX_PTY_COUNT in *; lia).
  done.
Qed.

Lemma active_lookup h i t :
  active_tags h !! i = Some t ↔ (Z.of_nat i < num_proc h ∧ tags h !! i = Some t).
Proof. unfold active_tags. rewrite lookup_take_Some. split; intros [? ?]; split; (done || lia). Qed.

Lemma active_length h :
  shape h (num_proc h) → Z.of_nat (length (active_tags h)) = num_proc h.
Proof.
  intros []. unfold active_tags. rewrite length_take.
  unfold NPTY, VIRTIOSO_MAX_PTY_COUNT in *. lia.
Qed.

(** A registered stream id is found at its index. *)
Lemma find_registered h i t :
  wf h → (3 ≤ i)%nat → Z.of_nat i < num_proc h → tags h !! i = Some t →
  find_tag_value (active_tags h) (tag_value t) 0 = Z.of_nat i.
Proof.
  intros [Hs [Hb Hu] _ _] Hi Hn Ht. apply (find_tag_value_some _ _ 0 i t); [|done|].
  - by apply active_lookup.
  - intros j u Hj Hju Heq. apply active_lookup in Hju as [? Hju].
    assert (tag_value t ≠ x00) by (rewrite (Hb i t) by done; lia).
    assert (i = j) by (apply (Hu i j t u); done || lia). lia.
Qed.

(* ------------------------------------------------------------------ *)
(** ** Lemmas: opening a PTY *)

(** The log path reported in the session record is the file opened. *)
Lemma savefile_session path name : savefile path name = session_savefile path name.
Proof.
  unfold savefile, session_savefile, snprintf.
  set (l := path ++ bs "/" ++ name).
  replace (path ++ bs "/" ++ name ++ bs ".txt") with (l ++ bs ".txt")
    by (subst l; by rewrite <-!app_assoc).
  rewrite take_app. f_equal. rewrite length_take. f_equal. unfold SAVEFILE_SIZE. lia.
Qed.

#[global] Instance opens_preorder i : PreOrder (opens i).
Proof.
  split; [intros h; by constructor|].
  intros h1 h2 h3 [] []. constructor; try congruence; [by etrans|].
  intros j Hj. rewrite op_others1, op_others0 by done. done.
Qed.

Lemma opens_sys i h rq r : opens i h (set_trace ((rq, r) :: trace h) h).
Proof. constructor; try done. by exists [(rq, r)]. Qed.

Lemma opens_sys_r i h h' rq r :
  opens i h h' → opens i h (set_trace ((rq, r) :: trace h') h').
Proof. intros Ho. etrans; [exact Ho|apply opens_sys]. Qed.

Lemma opens_set_pty i h h' p :
  opens i h h' → opens i h (set_pty_data (<[i := p]> (pty_data h')) h').
Proof.
  intros Ho. etrans; [exact Ho|]. constructor; try done; cbn.
  - by rewrite length_insert.
  - intros j Hj. by rewrite list_lookup_insert_ne.
Qed.
#[export] Hint Resolve opens_sys opens_sys_r opens_set_pty : c_wp.
#[export] Hint Extern 1 (opens ?i ?h ?h) => reflexivity : c_wp.

Lemma opens_shape i h h' n : opens i h h' → shape h n → shape h' n.
Proof.
  intros [] []. constructor; try congruence. intros j t Hj. rewrite op_tags0. eauto.
Qed.

Section RegistrySafety.
Context (E : env).

Lemma wp_emit_session ok i name h :
  0 ≤ i < Z.of_nat NPTY → length (pty_data h) = NPTY → length (tags h) = NPTY →
  wp ok (emit_pty_session_record E i name) (λ _ h', opens (Z.to_nat i) h h') h.
Proof.
  intros Hi Hp Ht. unfold emit_pty_session_record. do 3 hw_step.
  apply wp_arr_get; [by rewrite Hp|]. intros p _. hw_step.
  - hw_step. auto with c_wp.
  - hw_step. apply wp_arr_get; [by rewrite Ht|]. intros t _. hw_step. auto with c_wp.
Qed.

Lemma wp_create_thread ok i h :
  wp ok (create_thread_with_stack E i) (λ _ h', opens (Z.to_nat i) h h') h.
Proof. unfold create_thread_with_stack. hw_steps; auto 10 with c_wp. Qed.

Lemma wp_create_pty ok i name b h n :
  shape h n → 0 ≤ i →
  wp ok (create_pty_at_index E i name b)
    (λ z h', opens (Z.to_nat i) h h' ∧ (z = 0 ∨ z = -1) ∧
       (z = 0 → i < VIRTIOSO_MAX_PTY_COUNT ∧
          ∃ p, pty_data h' !! Z.to_nat i = Some p ∧ 0 ≤ td_fd p ∧ td_id p = i)) h.
Proof.
  intros Hsh Hi. pose proof (sh_pty _ _ Hsh) as Hp. pose proof (sh_tags _ _ Hsh) as Ht.
  unfold create_pty_at_index. do 3 hw_step.
  { hw_step. split_and!; auto with c_wp lia. }
  z_bool. rewrite (sh_cap _ _ Hsh) in *.
  assert (Hi' : 0 ≤ i < Z.of_nat NPTY) by (unfold NPTY, VIRTIOSO_MAX_PTY_COUNT in *; lia).
  do 3 hw_step; [hw_step; split_and!; auto with c_wp lia|].
  do 3 hw_step; [do 3 hw_step; split_and!; auto 10 with c_wp lia|].
  do 3 hw_step; [do 3 hw_step; split_and!; auto 10 with c_wp lia|].
  hw_step.
  eapply (wp_mono _ _ (λ _ h', opens (Z.to_nat i) h h' ∧ pty_data h' = pty_data h)).
  { hw_steps; split; auto 10 with c_wp. }
  intros log_fd h1 [Ho1 Hp1]. do 5 hw_step. apply wp_arr_get; [cbn; by rewrite Hp1, Hp|].
  intros old _. hw_step. apply wp_arr_set; [cbn; by rewrite Hp1, Hp|]. do 4 hw_step.
  set (p := ThreadData _ _ _ _ _). set (h2 := set_trace _ _).
  assert (Ho2 : opens (Z.to_nat i) h h2) by (subst h2; auto with c_wp).
  assert (Hpi : pty_data h2 !! Z.to_nat i = Some p).
  { cbn. rewrite Hp1. apply list_lookup_insert_eq. rewrite Hp. lia. }
  hw_step; [hw_step; split_and!; auto with lia|]. do 5 hw_step.
  eapply (wp_mono _ _ (λ _ h', opens (Z.to_nat i) h h' ∧ pty_data h' !! Z.to_nat i = Some p)).
  { match goal with |- wp _ _ _ ?h3 => assert (opens (Z.to_nat i) h h3) by auto 10 with c_wp;
      assert (pty_data h3 !! Z.to_nat i = Some p) by done end.
    unfold emit_pty_session_record. do 3 hw_step.
    apply wp_arr_get; [cbn; by rewrite length_insert, Hp1, Hp|]. intros ? ?.
    hw_step; [hw_step; split; auto with c_wp|].
    hw_step. apply wp_arr_get; [cbn; by rewrite (op_tags _ _ _ Ho1), Ht|]. intros ? ?.
    hw_step. split; auto with c_wp. }
  intros _ h3 [Ho3 Hp3].
  hw_step; [|hw_step; split_and!; [done|by left|]; intros _; (split; [z_bool; lia|exists p]);
    split_and!; [done|cbn; by z_bool|done]].
  unfold create_thread_with_stack.
  hw_steps; (split; [auto 10 with c_wp|split; [repeat case_match; auto|]]);
    intros _; (split; [z_bool; lia|exists p; split_and!; [done|cbn; by z_bool|done]]).
Qed.

(** *** [append_virtioso_stream] *)

Lemma duplicate_run l n i id name h :
  0 ≤ i → (Z.to_nat i + n ≤ length l)%nat →
  (∀ j t, (j < Z.to_nat i + n)%nat → l !! j = Some t → is_Some (tag_name t)) →
  duplicate_stream n l i id name h =
  Done (existsb (λ t, bool_decide (tag_value t = z2b id) ||
                      bool_decide (tag_name t = Some name))
          (take n (drop (Z.to_nat i) l))) h.
Proof.
  revert i. induction n as [|n IH]; intros i Hi Hn Hnames; [done|].
  destruct (lookup_lt_is_Some_2 l (Z.to_nat i)) as [t Ht]; [lia|].
  cbn [duplicate_stream]. rewrite (run_bind _ _ _ t h) by (apply arr_get_run; (lia || done)).
  rewrite (drop_S _ t) by done. cbn [take existsb].
  destruct (Hnames (Z.to_nat i) t) as [other Ho]; [lia|done|]. rewrite Ho.
  case_bool_decide; [done|]. cbn [orb].
  replace (bool_decide (Some other = Some name)) with (bool_decide (other = name))
    by (apply bool_decide_ext; naive_solver).
  case_bool_decide; [done|]. rewrite IH; [|lia..|].
  - by replace (Z.to_nat (i + 1)) with (S (Z.to_nat i)) by lia.
  - intros j u Hj. apply Hnames. lia.
Qed.

Lemma append_run h n id name :
  shape h n →
  append_virtioso_stream E (tags h) n VIRTIOSO_MAX_PTY_COUNT id name h =
  let '(e, l, n') := append_spec (tags h) n id name in
  Done (e, l, n', VIRTIOSO_MAX_PTY_COUNT) h.
Proof.
  intros Hsh. pose proof (sh_tags _ _ Hsh). pose proof (sh_n _ _ Hsh).
  unfold append_virtioso_stream, append_spec.
  destruct (id <? 0); [done|]. destruct (_ || _); [done|].
  erewrite run_bind; [|apply duplicate_run; [lia|..]].
  2, 3: unfold NPTY, VIRTIOSO_MAX_PTY_COUNT in *; try lia.
  2: { intros j t Hj. apply (sh_names _ _ Hsh). lia. }
  cbn [drop]. rewrite drop_0. destruct (existsb _ _); [done|].
  destruct (n =? VIRTIOSO_MAX_PTY_COUNT) eqn:Hn; [done|]. z_bool. cbn [andb].
  unfold bind, ret. cbn [negb].
  rewrite arr_set_run by (unfold NPTY, VIRTIOSO_MAX_PTY_COUNT in *; lia). done.
Qed.

(** Adding an entry with a fresh, non-zero id keeps the table well formed. *)
Lemma table_ok_insert l n v name :
  table_ok l n → 3 ≤ n < Z.of_nat (length l) → v ≠ x00 →
  (∀ t, t ∈ take (Z.to_nat n) l → tag_value t ≠ v) →
  table_ok (<[Z.to_nat n := Tag name v]> l) (n + 1).
Proof.
  intros [Hb Hu] Hn Hv Hnew.
  assert (Hnew' : ∀ j t, Z.of_nat j < n → l !! j = Some t → tag_value t ≠ v).
  { intros j t Hj Hl. apply Hnew, list_elem_of_lookup. exists j.
    apply lookup_take_Some. split; [done|lia]. }
  assert (Hlk : ∀ j t, Z.of_nat j < n + 1 → <[Z.to_nat n := Tag name v]> l !! j = Some t →
    (j = Z.to_nat n ∧ tag_value t = v) ∨ (Z.of_nat j < n ∧ l !! j = Some t)).
  { intros j t Hj Hl. destruct (decide (j = Z.to_nat n)) as [->|].
    - rewrite list_lookup_insert_eq in Hl by lia. simplify_eq. by left.
    - rewrite list_lookup_insert_ne in Hl by done. right. split; [lia|done]. }
  constructor.
  - intros j t Hj Hl. destruct (Hlk j t Hj Hl) as [[-> ->]|[? ?]]; [|eauto].
    split; [done|lia].
  - intros i j t u Hi Hj Ht Hw Heq Hne.
    destruct (Hlk i t Hi Ht) as [[-> Hti]|[? ?]], (Hlk j u Hj Hw) as [[-> Huj]|[? ?]];
      [done|exfalso; eapply (Hnew' j u); congruence
      |exfalso; eapply (Hnew' i t); congruence|eauto].
Qed.

Lemma shape_insert h h' n v name :
  shape h n → n < VIRTIOSO_MAX_PTY_COUNT →
  tags h' = <[Z.to_nat n := Tag (Some name) v]> (tags h) →
  length (pty_data h') = NPTY → length (virtioso_stream_input_enabled h') = NPTY →
  cfg h' = cfg h → shape h' (n + 1).
Proof.
  intros [] Hn Ht Hp Hin Hc. constructor; rewrite ?Ht, ?Hc, ?length_insert; try done; [lia|].
  intros j t Hj Hl. destruct (decide (j = Z.to_nat n)) as [->|].
  - rewrite list_lookup_insert_eq in Hl by (unfold NPTY, VIRTIOSO_MAX_PTY_COUNT in *; lia).
    by simplify_eq.
  - rewrite list_lookup_insert_ne in Hl by done. apply (sh_names0 j); [lia|done].
Qed.

(** The two outcomes of an append: nothing changes, or one fresh entry. *)
Lemma append_spec_cases h n id name e l n' :
  shape h n → append_spec (tags h) n id name = (e, l, n') →
  (l = tags h ∧ n' = n) ∨
  (e = 0 ∧ n < VIRTIOSO_MAX_PTY_COUNT ∧ n' = n + 1 ∧ z2b id ≠ x00 ∧
   l = <[Z.to_nat n := Tag (Some name) (z2b id)]> (tags h) ∧
   ∀ t, t ∈ take (Z.to_nat n) (tags h) → tag_value t ≠ z2b id).
Proof.
  intros Hsh Ha. pose proof (sh_n _ _ Hsh). unfold append_spec in Ha.
  repeat (case_match; simplify_eq; [by left|]). right. z_bool. split_and!; try done; [lia|..].
  - intros Heq. apply (f_equal b2z) in Heq. rewrite b2z_z2b_small in Heq by lia.
    cbn in Heq. lia.
  - intros t Ht Heq. match goal with Hx : existsb _ _ = false |- _ =>
      apply not_true_iff_false in Hx; apply Hx end.
    apply existsb_exists. exists t. split; [by apply list_elem_of_In|].
    by rewrite bool_decide_eq_true_2.
Qed.

Lemma append_spec_ok h n id name e l n' :
  shape h n → table_ok (tags h) n → append_spec (tags h) n id name = (e, l, n') →
  shape (set_tags l h) n' ∧ table_ok l n' ∧ n ≤ n' ≤ n + 1 ∧ (e ≠ 0 → n' = n) ∧
  (∀ j, Z.of_nat j < n → l !! j = tags h !! j).
Proof.
  intros Hsh Htb Ha. pose proof Hsh as [].
  destruct (append_spec_cases _ _ _ _ _ _ _ Hsh Ha)
    as [[-> ->]|(-> & Hn & -> & Hid & -> & Hnew)].
  - split_and!; done || lia.
  - split_and!; try done; try lia.
    + by eapply shape_insert.
    + apply table_ok_insert; try done. unfold NPTY, VIRTIOSO_MAX_PTY_COUNT in *. lia.
    + intros j Hj. apply list_lookup_insert_ne. lia.
Qed.

(** *** The registry loop and its failure path *)

#[export] Instance keeps_preorder b : PreOrder (keeps b).
Proof.
  split; [intros h; by constructor|].
  intros h1 h2 h3 [] []. constructor; try congruence; [by etrans|..]; intros j Hj.
  - by rewrite kp_tags1, kp_tags0.
  - by rewrite kp_pty1, kp_pty0.
  - by rewrite kp_input1, kp_input0.
Qed.

Lemma keeps_opens b i h h' : b ≤ Z.of_nat i → opens i h h' → keeps b h h'.
Proof.
  intros Hi []. constructor; try congruence.
  intros j Hj. apply op_others0. lia.
Qed.

Lemma keeps_shape b h h' n :
  keeps b h h' → shape h n → length (tags h') = NPTY → length (pty_data h') = NPTY →
  length (virtioso_stream_input_enabled h') = NPTY → 3 ≤ b ≤ n → shape h' b.
Proof.
  intros [] [] Ht Hp Hin Hb. constructor; try done; [congruence|lia|].
  intros j t Hj Hl. rewrite kp_tags0 in Hl by done. apply (sh_names0 j); [lia|done].
Qed.

Lemma table_ok_prefix l l' n b :
  table_ok l n → b ≤ n → (∀ j, Z.of_nat j < b → l' !! j = l !! j) → table_ok l' b.
Proof.
  intros [Hb Hu] Hn Hl. constructor.
  - intros i t Hi Ht. rewrite Hl in Ht by done. apply Hb; [lia|done].
  - intros i j t u Hi Hj Ht Hv. rewrite Hl in Ht, Hv by done. apply Hu; (done || lia).
Qed.

(** The loop's invariant: a well-formed table of [n] entries, of which the
    first [b] are those of [h0]. *)
Record loop_inv (b : Z) (h0 : host) (n : Z) (h : host) : Prop := LoopInv {
  li_keeps : keeps b h0 h;
  li_shape : shape h n;
  li_table : table_ok (tags h) n;
  li_num : num_proc h = num_proc h0;
  li_max : pty_max_count h = pty_max_count h0;
  li_pty : pty_data h = pty_data h0
}.

Lemma loop_inv_sys b h0 n h rq r :
  loop_inv b h0 n h → loop_inv b h0 n (set_trace ((rq, r) :: trace h) h).
Proof.
  intros [Hk [] Ht Hn Hm Hp]. constructor; try done.
  etrans; [exact Hk|]. constructor; try done. by exists [(rq, r)].
Qed.

Lemma loop_inv_append b h0 n h id name e l n' :
  b ≤ n → loop_inv b h0 n h → append_spec (tags h) n id name = (e, l, n') →
  loop_inv b h0 n' (set_tags l h) ∧ n ≤ n' ≤ n + 1 ∧ (e ≠ 0 → n' = n).
Proof.
  intros Hb [Hk Hs Ht Hn Hm Hp] Ha.
  destruct (append_spec_ok _ _ _ _ _ _ _ Hs Ht Ha) as (Hs' & Ht' & Hn' & He & Hpre).
  split; [|done]. constructor; try done.
  etrans; [exact Hk|]. constructor; try done. intros j Hj. apply Hpre. lia.
Qed.

Lemma loop_inv_input b h0 n h i v :
  b ≤ Z.of_nat i → loop_inv b h0 n h →
  loop_inv b h0 n (set_input_enabled (<[i := v]> (virtioso_stream_input_enabled h)) h).
Proof.
  intros Hi [Hk [] Ht Hn Hm Hp]. constructor; try done.
  - etrans; [exact Hk|]. constructor; try done. intros j Hj. cbn.
    apply list_lookup_insert_ne. lia.
  - constructor; try done. cbn. by rewrite length_insert.
Qed.

Lemma skip_to_object_ge n s pos e : (pos ≤ skip_to_object n s pos e)%nat.
Proof.
  revert pos. induction n as [|n IH]; intros pos; cbn; [lia|].
  case_match; [|lia]. specialize (IH (S pos)). lia.
Qed.

Lemma scan_object_end s pos o : scan_stream_object s pos = Some o → (pos ≤ so_end o)%nat.
Proof.
  unfold scan_stream_object. intros Ho. repeat case_match; simplify_eq; cbn.
  all: match goal with Hx : json_find_matching _ _ _ _ = Some _ |- _ =>
    apply json_find_matching_bounds in Hx; lia end.
Qed.

Lemma wp_registry_loop ok fuel s pos e b n h0 h :
  (e - pos < fuel)%nat → 0 ≤ b ≤ n → loop_inv b h0 n h →
  wp ok (registry_loop E fuel s pos e n)
    (λ a h', n ≤ a.2 ∧ loop_inv b h0 a.2 h') h.
Proof.
  revert pos n h. induction fuel as [|fuel IH]; intros pos n h Hf Hb Hinv; [lia|].
  cbn [registry_loop]. hw_step; [by hw_step|]. cbv zeta.
  pose proof (skip_to_object_ge (length s) s pos e).
  set (pos' := skip_to_object _ _ _ _) in *.
  hw_step; [by hw_step|]. z_bool.
  hw_step; [|by hw_step]. apply scan_object_end in Heqo.
  unfold xstrndup. do 4 hw_step.
  apply (loop_inv_sys _ _ _ _ (RqMalloc (Z.of_nat (length (so_name s0)) + 1)) r) in Hinv.
  set (h1 := set_trace _ _) in *. clearbody h1. hw_step; [|by hw_step]. hw_step.
  eapply (wp_mono _ _ (λ _ h', loop_inv b h0 n h')).
  { hw_steps; by try apply loop_inv_sys. }
  intros dir h2 Hinv2. cbv zeta. do 3 hw_step.
  pose proof (append_run h2 n (so_stream_id s0) l (li_shape _ _ _ _ Hinv2)) as Hrun.
  destruct (append_spec (tags h2) n (so_stream_id s0) l) as [[c l'] n'] eqn:Ha.
  destruct (loop_inv_append _ _ _ _ _ _ _ _ _ (proj2 Hb) Hinv2 Ha) as (Hinv3 & Hn' & Hc).
  unfold wp at 1. rewrite Hrun. cbv beta iota. do 3 hw_step; z_bool.
  { hw_step. cbn. rewrite <-(Hc ltac:(done)). split; [lia|done]. }
  hw_step. eapply (wp_mono _ _ (λ _ h', loop_inv b h0 n' h')).
  { hw_step; [|by hw_step]. do 3 hw_step. pose proof (li_shape _ _ _ _ Hinv3) as [].
    apply wp_arr_set; [unfold NPTY, VIRTIOSO_MAX_PTY_COUNT in *; z_bool; lia|].
    hw_step. apply loop_inv_input; [lia|done]. }
  intros _ h3 Hinv4. eapply wp_mono; [apply IH; [lia|lia|done]|].
  intros a h4 [? ?]. split; [lia|done].
Qed.

(** Array sizes that every table change keeps. *)
Definition sized (h : host) : Prop :=
  length (tags h) = NPTY ∧ length (pty_data h) = NPTY ∧
  length (virtioso_stream_input_enabled h) = NPTY.

Lemma shape_sized h n : shape h n → sized h.
Proof. by intros []. Qed.

Lemma wp_clear_tags ok n i b h :
  b ≤ i → 0 ≤ i → i + Z.of_nat n ≤ Z.of_nat NPTY → sized h →
  wp ok (clear_tags n i) (λ _ h', keeps b h h' ∧ sized h') h.
Proof.
  revert i h. induction n as [|n IH]; intros i h Hb Hi Hn Hs; cbn [clear_tags].
  { by wp_step. }
  do 3 wp_step. pose proof Hs as (Ht & Hp & Hin).
  apply wp_arr_set; [rewrite Ht; lia|]. do 2 wp_step.
  eapply wp_mono; [apply IH; [lia..|]|].
  - split_and!; cbn; [by rewrite length_insert|done..].
  - intros _ h' [Hk Hs']. split; [|done]. etrans; [|exact Hk].
    constructor; try done; cbn. intros j Hj. apply list_lookup_insert_ne. lia.
Qed.

(** Setting both counters back restores the well-formed state. *)
Lemma wf_counters h h' b :
  wf h → b = num_proc h → keeps b h h' → sized h' →
  wf (set_pty_max_count b (set_num_proc b h')).
Proof.
  intros [Hs Ht Hm Hc] -> Hk (H1 & H2 & H3).
  pose proof (sh_n _ _ Hs). constructor; try done; cbn.
  - eapply (keeps_shape _ h); [|exact Hs|done..|lia].
    etrans; [exact Hk|]. by constructor.
  - eapply table_ok_prefix; [exact Ht|lia|]. apply Hk.
  - by rewrite (kp_cfg _ _ _ Hk).
Qed.

(** What both table updates promise to the demultiplexer. *)
Definition apply_post (h : host) (z : Z) (h' : host) : Prop :=
  wf h' ∧ keeps (num_proc h) h h' ∧
  ((z = 0 ∧ num_proc h < num_proc h') ∨ (z = -1 ∧ num_proc h' = num_proc h)).

Lemma keeps_counters b h h' n m :
  keeps b h h' → keeps b h (set_pty_max_count n (set_num_proc m h')).
Proof. intros Hk. etrans; [exact Hk|]. by constructor. Qed.

Lemma wp_registry_fail ok h h' n :
  wf h → num_proc h ≤ n ≤ Z.of_nat NPTY → keeps (num_proc h) h h' → sized h' →
  wp ok (registry_fail (num_proc h) n) (apply_post h) h'.
Proof.
  intros Hwf Hn Hk Hs. pose proof (sh_n _ _ (wf_shape _ Hwf)). unfold registry_fail.
  wp_step. eapply wp_mono.
  { apply (wp_clear_tags _ _ _ (num_proc h)); (done || lia). }
  intros _ h2 [Hk2 Hs2]. wp_steps. assert (keeps (num_proc h) h h2) by (by etrans).
  split_and!; [by eapply wf_counters|by apply keeps_counters|by right].
Qed.

(** Opening the PTYs of the new table entries. *)
Lemma wp_create_ptys ok n i b h0 h m :
  b ≤ i → 0 ≤ i → i + Z.of_nat n ≤ m → shape h m → keeps b h0 h →
  pty_max_count h = i →
  wp ok (create_ptys E n i)
    (λ r h', keeps b h0 h' ∧ shape h' m ∧ tags h' = tags h ∧ num_proc h' = num_proc h ∧
       (r = true → pty_max_count h' = i + Z.of_nat n)) h.
Proof.
  revert i h. induction n as [|n IH]; intros i h Hb Hi Hn Hs Hk Hm; cbn [create_ptys].
  { wp_step. split_and!; (done || lia). }
  pose proof (sh_n _ _ Hs). pose proof (shape_sized _ _ Hs) as (Ht & Hp & Hin).
  unfold NPTY, VIRTIOSO_MAX_PTY_COUNT in *.
  do 3 wp_step. apply wp_arr_get; [lia|]. intros t Htag. wp_step.
  apply wp_arr_get; [lia|]. intros inp _.
  destruct (sh_names _ _ Hs (Z.to_nat i) t) as [name Hname]; [lia|done|].
  rewrite Hname. wp_step. eapply wp_mono; [apply (wp_create_pty _ _ _ _ _ m); [done|lia]|].
  intros z h1 (Ho & Hz & _).
  assert (Hk1 : keeps b h0 h1) by (etrans; [exact Hk|eapply keeps_opens; [|done]; lia]).
  pose proof (opens_shape _ _ _ _ Ho Hs) as Hs1.
  wp_step; z_bool.
  - wp_step. split_and!; try done; by destruct Ho.
  - do 2 wp_step. eapply wp_mono.
    { apply IH; [lia..| | |done].
      - destruct Hs1. by constructor.
      - etrans; [exact Hk1|]. by constructor. }
    intros r h2 (? & ? & Ht2 & Hn2 & Hr). cbn in *. destruct Ho.
    split_and!; try done; [congruence..|]. intros ->. rewrite Hr by done. lia.
Qed.

(** Applying a registry never stops and keeps the table well formed,
    whatever the registry says and whatever the environment answers. *)
Lemma wp_apply_registry ok json h :
  wf h → wp ok (apply_virtioso_registry_json E json) (apply_post h) h.
Proof.
  intros Hwf. pose proof Hwf as [Hs Ht Hm Hc]. pose proof (sh_n _ _ Hs).
  assert (Hrefl : apply_post h (-1) h) by (split_and!; [done|done|by right]).
  unfold apply_virtioso_registry_json. wp_step; [|by wp_step].
  do 2 wp_step. cbv zeta. wp_step; [|by wp_step]. destruct p as [ss se].
  apply json_find_array_bounds in Heqo0. wp_step.
  eapply wp_mono; [apply (wp_registry_loop _ _ _ _ _ (num_proc h) _ h); [lia|lia|by constructor]|].
  intros [failed count] h1 [Hle [Hk Hs1 Ht1 Hn1 Hm1 Hp1]]. cbn [snd] in *.
  pose proof (sh_n _ _ Hs1). unfold VIRTIOSO_MAX_PTY_COUNT in *.
  wp_step; [apply wp_registry_fail; [done|unfold NPTY; lia|done|by eapply shape_sized]|].
  z_bool. do 5 wp_step.
  eapply wp_mono; [apply (wp_create_ptys _ _ _ (num_proc h) h _ count); [lia..| | |]|].
  - by destruct Hs1.
  - etrans; [exact Hk|]. by constructor.
  - cbn. lia.
  - intros r h2 (Hk2 & Hs2 & Ht2 & Hn2 & Hr). cbn in Ht2, Hn2.
    wp_step; [|apply wp_registry_fail; [done|unfold NPTY; lia|done|by eapply shape_sized]].
    wp_step. split_and!; [|done|left; lia]. constructor; rewrite ?Hn2, ?Ht2; try done.
    + rewrite Hr by done. lia.
    + by rewrite (kp_cfg _ _ _ Hk2).
Qed.

(** The entry a new stream gets. *)
Definition connected_entry (h : host) (sid : byte) (name : list byte) (h' : host) : Prop :=
  tags h' !! Z.to_nat (num_proc h) = Some (Tag (Some (cstr (take 255 name))) sid) ∧
  virtioso_stream_input_enabled h' !! Z.to_nat (num_proc h) = Some false ∧
  ∃ p, pty_data h' !! Z.to_nat (num_proc h) = Some p ∧ 0 ≤ td_fd p ∧ td_id p = num_proc h.

(** What announcing a stream promises. *)
Definition connected_post (h : host) (sid : byte) (name : list byte) (h' : host) : Prop :=
  wf h' ∧ keeps (num_proc h) h h' ∧
  (num_proc h' = num_proc h ∨
   num_proc h' = num_proc h + 1 ∧ connected_entry h sid name h').

Lemma connected_post_refl h sid name h' :
  wf h → num_proc h' = num_proc h → keeps (num_proc h) h h' → sized h' →
  pty_max_count h' = num_proc h → connected_post h sid name h'.
Proof.
  intros Hwf Hn Hk Hs Hm. split_and!; [|done|by left].
  pose proof (wf_counters h h' _ Hwf eq_refl Hk Hs) as [H1 H2 H3 H4].
  constructor; try done; [by rewrite Hn; destruct H1|by rewrite Hn|congruence].
Qed.

(** The last step: opening the PTY, or undoing the table entry. *)
Lemma wp_connected_open ok sid name h h2 :
  wf h → keeps (num_proc h) h h2 → shape h2 (num_proc h + 1) →
  table_ok (tags h2) (num_proc h + 1) →
  num_proc h2 = num_proc h + 1 ∧ pty_max_count h2 = num_proc h + 1 →
  tags h2 !! Z.to_nat (num_proc h) = Some (Tag (Some (cstr (take 255 name))) sid) →
  virtioso_stream_input_enabled h2 !! Z.to_nat (num_proc h) = Some false →
  wp ok (r <- create_pty_at_index E (num_proc h) (cstr (take 255 name)) false ;;
         if negb (r =? 0) then
           h0 <- get ;;
           l <- arr_set (tags h0) (num_proc h) tag_zero ;;
           modify (set_tags l) ;;;
           modify (set_num_proc (num_proc h)) ;;;
           modify (set_pty_max_count (num_proc h))
         else ret tt) (λ _ h', connected_post h sid name h') h2.
Proof.
  intros Hwf Hk2 Hs2 Ht2 [Hn2 Hm2] Htag Hinp. pose proof (sh_n _ _ (wf_shape _ Hwf)).
  wp_step. eapply wp_mono; [apply (wp_create_pty _ _ _ _ _ _ Hs2); lia|].
  intros z h3 (Ho & Hz & Hfd).
  assert (Hk3 : keeps (num_proc h) h h3)
    by (etrans; [exact Hk2|eapply keeps_opens; [|done]; lia]).
  pose proof (opens_shape _ _ _ _ Ho Hs2) as Hs3.
  pose proof (sh_n _ _ Hs3). pose proof (shape_sized _ _ Hs3) as (? & ? & ?).
  hw_step.
  - do 3 hw_step. apply wp_arr_set; [unfold NPTY, VIRTIOSO_MAX_PTY_COUNT in *; lia|].
    hw_steps. apply connected_post_refl; try done.
    + etrans; [exact Hk3|]. constructor; try done. intros j Hj. cbn.
      apply list_lookup_insert_ne. lia.
    + split_and!; cbn; [by rewrite length_insert|done..].
  - hw_step. pose proof Ho as []. z_bool. split_and!; [|done|].
    2: { right. split; [lia|]. unfold connected_entry. rewrite op_tags0, op_input0.
         split_and!; [done..|]. by apply Hfd. }
    constructor; rewrite ?op_num0, ?op_tags0, ?Hn2, ?op_max0; try done.
    rewrite (kp_cfg _ _ _ Hk3). apply Hwf.
Qed.

Lemma wp_apply_connected ok sid name h :
  wf h → wp ok (apply_virtioso_stream_connected E sid name) (λ _ h', connected_post h sid name h') h.
Proof.
  intros Hwf. pose proof Hwf as [Hs Ht Hm Hc]. pose proof (sh_n _ _ Hs).
  pose proof (shape_sized _ _ Hs) as (Hlt & Hlp & Hli).
  assert (Hrefl : connected_post h sid name h) by (split_and!; [done|done|by left]).
  unfold apply_virtioso_stream_connected. wp_step.
  unfold wp at 1. rewrite find_idx_run by done. cbv beta iota.
  wp_step; [by wp_step|]. do 2 wp_step. wp_step; [by wp_step|]. z_bool. cbv zeta.
  rewrite (sh_cap _ _ Hs) in *.
  assert (Hnew : ∀ t, t ∈ active_tags h → tag_value t ≠ sid).
  { apply (find_tag_value_none _ _ 0); [lia|].
    destruct (find_tag_value_bound (active_tags h) sid 0); lia. }
  unfold xstrndup. do 4 hw_step.
  set (h1 := set_trace _ _).
  hw_step.
  2: { hw_step. apply connected_post_refl; try done. constructor; try done.
       by eexists [_]. }
  hw_step. apply wp_arr_set; [cbn; unfold NPTY, VIRTIOSO_MAX_PTY_COUNT in *; lia|].
  do 3 hw_step.
  apply wp_arr_set; [cbn; unfold NPTY, VIRTIOSO_MAX_PTY_COUNT in *; lia|]. do 6 hw_step.
  set (h2 := set_pty_max_count _ _).
  assert (Hk2 : keeps (num_proc h) h h2).
  { constructor; cbn; try done; [by eexists [_]|..]; intros j Hj;
      apply list_lookup_insert_ne; lia. }
  assert (Hs2 : shape h2 (num_proc h + 1))
    by (eapply shape_insert; cbn; rewrite ?length_insert; done).
  assert (Ht2 : table_ok (tags h2) (num_proc h + 1)).
  { apply table_ok_insert; try done; [unfold NPTY, VIRTIOSO_MAX_PTY_COUNT in *; lia|].
    intros ->. destruct (lookup_lt_is_Some_2 (tags h) 0) as [t Ht0]; [rewrite Hlt; cbv; lia|].
    apply (Hnew t); [|apply (tb_builtin _ _ Ht 0%nat); (done || lia)].
    apply list_elem_of_lookup. exists 0%nat. apply active_lookup. split; [lia|done]. }
  assert (Hn2 : num_proc h2 = num_proc h + 1 ∧ pty_max_count h2 = num_proc h + 1) by done.
  assert (Htag2 : tags h2 !! Z.to_nat (num_proc h) = Some (Tag (Some (cstr (take 255 name))) sid)).
  { destruct (negb (res r =? 0)); simplify_eq. apply list_lookup_insert_eq.
    unfold NPTY, VIRTIOSO_MAX_PTY_COUNT in *. cbn. lia. }
  assert (Hinp2 : virtioso_stream_input_enabled h2 !! Z.to_nat (num_proc h) = Some false).
  { apply list_lookup_insert_eq. unfold NPTY, VIRTIOSO_MAX_PTY_COUNT in *. cbn. lia. }
  clearbody h2 h1. by apply wp_connected_open.
Qed.

End RegistrySafety.
