(* ===== verification/RegistryParse.v ===== *)
(** * The generator's streams in the host's table

    The loop over the stream objects appends one entry for each stream with
    an id, in the order of the document. *)

From S2P Require Import Prelude CString Generator Json RegistryText HostState HostIo Flush Registry RegistryScan RegistryInv.

(** The streams with an id, and what each becomes in the table. *)
Definition routed (sts : list stream) : list stream := filter (λ s, 0 ≤ st_id s) sts.
Definition stream_tag (s : stream) : tag := Tag (Some (st_component s)) (z2b (st_id s)).
Definition stream_input (s : stream) : bool := is_input_direction (st_direction s).

(** A stream the table [T] takes: a usable id, id and name not in it. *)
Definition usable_id (z : Z) : Prop := 1 ≤ z ≤ 0xff ∧ z ≠ 0xfd ∧ z ≠ 0xfe.
Definition new_in (T : list tag) (s : stream) : Prop :=
  ∀ t, t ∈ T → tag_value t ≠ z2b (st_id s) ∧ tag_name t ≠ Some (st_component s).

Fixpoint addable (T : list tag) (l : list stream) : Prop :=
  match l with
  | [] => True
  | s :: l' => usable_id (st_id s) ∧ new_in T s ∧ addable (T ++ [stream_tag s]) l'
  end.

(** The text after the first object of the list. *)
Definition more_objects (sts : list stream) : list byte :=
  concat (map (λ s, bs ", " ++ text (stream_json s)) sts).

(** The environment lets every PTY be opened and every thread be started. *)
Record ptys_open (E : env) : Prop := PtysOpen {
  po_openpt : ∀ tr, 0 ≤ res (E tr RqOpenpt);
  po_grantpt : ∀ tr fd, res (E tr (RqGrantpt fd)) = 0;
  po_unlockpt : ∀ tr fd, res (E tr (RqUnlockpt fd)) = 0;
  po_slave : ∀ tr path, 0 ≤ res (E tr (RqOpen path OpenSlave));
  po_attr : ∀ tr, res (E tr RqAttrInit) = 0;
  po_stack : ∀ tr n, res (E tr (RqAttrStack n)) = 0;
  po_thread : ∀ tr i, res (E tr (RqThread i)) = 0
}.

(* ------------------------------------------------------------------ *)
(** ** Lemmas: the loop *)

Lemma skip_to_brace n s a g r stop :
  s = a ++ g ++ x7b :: r → x7b ∉ g → (length g ≤ n)%nat →
  skip_to_object n s (length a) stop = (Nat.min (length (a ++ g)) (Nat.max stop (length a)))%nat.
Proof.
  revert a g. induction n as [|n IH]; intros a g Hs Hg Hn; cbn [skip_to_object].
  { destruct g; [|cbn in *; lia]. rewrite app_nil_r. lia. }
  destruct (length a <? stop)%nat eqn:Hst; z_bool; [|rewrite length_app; cbn; lia].
  destruct g as [|c g].
  - assert (Hca : char_at s (length a) = x7b) by (rewrite Hs; apply char_at_head).
    rewrite Hca, bool_decide_eq_true_2 by done. rewrite app_nil_r. cbn. lia.
  - apply not_elem_of_cons in Hg as [Hc Hg].
    assert (Hca : char_at s (length a) = c) by (rewrite Hs; apply char_at_head).
    rewrite Hca, bool_decide_eq_false_2 by done. cbn [negb andb].
    replace (S (length a)) with (length (a ++ [c])) by (rewrite length_app; cbn; lia).
    rewrite (IH (a ++ [c]) g) by first [done | rewrite Hs; by app_norm | cbn in *; lia].
    rewrite <-app_assoc. rewrite !length_app. cbn. lia.
Qed.

Lemma stream_json_brace st : stream_ok st = true → ∃ r, text (stream_json st) = x7b :: r.
Proof.
  intros Hok. destruct (value_stream st Hok) as (body & -> & _). by eexists.
Qed.

Section Parse.
Context (E : env).

Lemma wp_xstrndup_ok ok src (Q : option (list byte) → host → Prop) h :
  alloc_ok E →
  (∀ r, Q (Some src) (set_trace ((RqMalloc (Z.of_nat (length src) + 1), r) :: trace h) h)) →
  wp ok (xstrndup E src) Q h.
Proof.
  intros Ha HQ. unfold wp, xstrndup, alloc, sys, bind, ret.
  rewrite (proj2 (Z.eqb_neq _ 0)) by apply Ha. apply HQ.
Qed.

(** Appending a stream the table takes. *)
Lemma append_new h n s :
  shape h n → usable_id (st_id s) → new_in (take (Z.to_nat n) (tags h)) s →
  n < VIRTIOSO_MAX_PTY_COUNT →
  append_spec (tags h) n (st_id s) (st_component s) =
  (0, <[Z.to_nat n := stream_tag s]> (tags h), n + 1).
Proof.
  intros Hs [Hid [Hfd Hfe]] Hnew Hn. unfold append_spec.
  rewrite (proj2 (Z.ltb_ge _ 0)), (proj2 (Z.leb_gt _ 0)), (proj2 (Z.ltb_ge 0xff _)),
    (proj2 (Z.eqb_neq _ 0xfe)), (proj2 (Z.eqb_neq _ 0xfd)) by lia. cbn [orb].
  replace (existsb _ _) with false.
  { by rewrite (proj2 (Z.eqb_neq _ _)) by lia. }
  symmetry. apply not_true_iff_false. rewrite existsb_exists. intros (t & Ht & Hb).
  apply list_elem_of_In, Hnew in Ht as [Hv Hnm].
  by rewrite !bool_decide_eq_false_2 in Hb.
Qed.

(** The table and the input flags after appending [l]. *)
Record grown (b : Z) (h0 : host) (n : Z) (h : host) (l : list stream) (n' : Z) (h' : host)
    : Prop := Grown {
  gr_inv : loop_inv b h0 n' h';
  gr_count : n' = n + Z.of_nat (length l);
  gr_tags : take (Z.to_nat n') (tags h') = take (Z.to_nat n) (tags h) ++ (stream_tag <$> l);
  gr_input : take (Z.to_nat n') (virtioso_stream_input_enabled h') =
             take (Z.to_nat n) (virtioso_stream_input_enabled h) ++ (stream_input <$> l)
}.

Lemma grown_trans b h0 n h l n1 h1 l1 n2 h2 :
  grown b h0 n h l n1 h1 → grown b h0 n1 h1 l1 n2 h2 → grown b h0 n h (l ++ l1) n2 h2.
Proof.
  intros [] []. constructor; [done|rewrite length_app; lia|..];
    rewrite fmap_app, app_assoc; congruence.
Qed.

Lemma take_insert_snoc {A} (l : list A) n x :
  (n < length l)%nat → take (S n) (<[n := x]> l) = take n l ++ [x].
Proof.
  intros Hn. rewrite (take_S_r _ _ x) by by apply list_lookup_insert_eq.
  by rewrite take_insert_ge by lia.
Qed.

(** One object of the list, after a gap [g]. *)
Lemma wp_loop_object ok fuel s a g st r stop b h0 n h Q :
  alloc_ok E → s = a ++ g ++ text (stream_json st) ++ r → x7b ∉ g →
  (length (a ++ g ++ text (stream_json st)) ≤ stop)%nat → stream_ok st = true →
  0 ≤ b ≤ n → loop_inv b h0 n h →
  (0 ≤ st_id st → usable_id (st_id st) ∧ new_in (take (Z.to_nat n) (tags h)) st ∧
                  n < VIRTIOSO_MAX_PTY_COUNT) →
  (∀ n' h', grown b h0 n h (routed [st]) n' h' →
     wp ok (registry_loop E fuel s (length (a ++ g ++ text (stream_json st))) stop n') Q h') →
  wp ok (registry_loop E (S fuel) s (length a) stop n) Q h.
Proof.
  intros Ha Hs Hg Hstop Hok Hb Hinv Hadd HQ.
  destruct (stream_json_brace st Hok) as [o Ho].
  assert (Hlen : (length (a ++ g) < stop)%nat).
  { rewrite Ho, app_assoc, length_app in Hstop. cbn in Hstop. lia. }
  cbn [registry_loop]. cbv zeta.
  rewrite (proj2 (Nat.ltb_lt _ _)) by (rewrite length_app in Hlen; lia). cbn [negb].
  rewrite (skip_to_brace _ s a g (o ++ r)); [|by rewrite Hs, Ho|done
    |rewrite Hs, !length_app; lia].
  replace (Nat.min _ _) with (length (a ++ g)) by (rewrite length_app in *; lia).
  rewrite (proj2 (Nat.leb_gt _ _)) by done.
  rewrite (scan_printed s _ (a ++ g) st r); [|by rewrite Hs; app_norm|done|done].
  cbn [so_name so_direction so_stream_id so_end].
  apply wp_bind, wp_xstrndup_ok; [done|]. intros r1. cbv beta iota.
  apply (loop_inv_sys _ _ _ _ (RqMalloc (Z.of_nat (length (st_component st)) + 1)) r1) in Hinv.
  apply wp_bind, wp_xstrndup_ok; [done|]. intros r2. cbv beta iota zeta.
  apply (loop_inv_sys _ _ _ _ (RqMalloc (Z.of_nat (length (st_direction st)) + 1)) r2) in Hinv.
  apply wp_bind, wp_get. fold (stream_input st).
  set (h1 := set_trace _ (set_trace _ h)) in *.
  pose proof (append_run E h1 n (st_id st) (st_component st) (li_shape _ _ _ _ Hinv)) as Hrun.
  destruct (append_spec (tags h1) n (st_id st) (st_component st)) as [[e l'] n'] eqn:Hap.
  destruct (loop_inv_append _ _ _ _ _ _ _ _ _ (proj2 Hb) Hinv Hap) as (Hinv2 & _ & _).
  eapply wp_bind_run; [exact Hrun|]. cbv beta iota. apply wp_bind, wp_modify.
  replace (S (length (a ++ g) + length (text (stream_json st)) - 1))
    with (length (a ++ g ++ text (stream_json st)))
    by (rewrite Ho, app_assoc, (length_app (a ++ g)); cbn; lia).
  destruct (decide (0 <= st_id st)) as [Hid|Hid].
  - destruct (Hadd Hid) as (Hu & Hnew & Hn).
    rewrite append_new in Hap by (apply Hinv || done). injection Hap as <- <- <-.
    rewrite (proj2 (Z.ltb_lt n (n + 1))) by lia. cbn [negb Z.eqb].
    pose proof (li_shape _ _ _ _ Hinv) as [Hlt _ Hli _ Hn3 _].
    unfold VIRTIOSO_MAX_PTY_COUNT, NPTY in *.
    apply wp_bind, wp_bind, wp_get, wp_bind, wp_arr_set; [cbn in *; lia|]. apply wp_modify.
    apply HQ. unfold routed. rewrite filter_cons_True by done. cbn [filter list_filter].
    replace (Z.to_nat (n + 1)) with (S (Z.to_nat n)) by lia.
    constructor; [apply loop_inv_input; [lia|done]|done|..];
      replace (Z.to_nat (n + 1)) with (S (Z.to_nat n)) by lia;
      apply take_insert_snoc; cbn in *; lia.
  - unfold append_spec in Hap. rewrite (proj2 (Z.ltb_lt _ 0)) in Hap by lia.
    injection Hap as <- <- <-. rewrite Z.ltb_irrefl. cbn [negb Z.eqb].
    apply wp_bind, wp_ret, HQ. unfold routed. rewrite filter_cons_False by done.
    constructor; [done|cbn; lia|cbn; by rewrite app_nil_r..].
Qed.

Lemma routed_cons st sts : routed (st :: sts) = routed [st] ++ routed sts.
Proof. unfold routed. by rewrite <-filter_app. Qed.

Lemma addable_cons T st sts :
  addable T (routed (st :: sts)) →
  (0 ≤ st_id st → usable_id (st_id st) ∧ new_in T st) ∧
  addable (T ++ (stream_tag <$> routed [st])) (routed sts).
Proof.
  unfold routed. rewrite !filter_cons. destruct (decide _); cbn.
  - by intros (? & ? & ?).
  - rewrite app_nil_r. by intros ?.
Qed.

(** An object of the list and what follows it. *)
Lemma wp_loop_cons ok fuel s a g st sts rest stop b h0 n h :
  alloc_ok E → s = a ++ g ++ text (stream_json st) ++ rest → x7b ∉ g →
  (length (a ++ g ++ text (stream_json st)) ≤ stop)%nat → stream_ok st = true →
  0 ≤ b ≤ n → loop_inv b h0 n h →
  addable (take (Z.to_nat n) (tags h)) (routed (st :: sts)) →
  n + Z.of_nat (length (routed (st :: sts))) ≤ VIRTIOSO_MAX_PTY_COUNT →
  (∀ n1 h1, n ≤ n1 → loop_inv b h0 n1 h1 →
     addable (take (Z.to_nat n1) (tags h1)) (routed sts) →
     n1 + Z.of_nat (length (routed sts)) ≤ VIRTIOSO_MAX_PTY_COUNT →
     wp ok (registry_loop E fuel s (length (a ++ g ++ text (stream_json st))) stop n1)
       (λ p h', p.1 = false ∧ grown b h0 n1 h1 (routed sts) p.2 h') h1) →
  wp ok (registry_loop E (S fuel) s (length a) stop n)
    (λ p h', p.1 = false ∧ grown b h0 n h (routed (st :: sts)) p.2 h') h.
Proof.
  intros Ha Hs Hg Hstop Hok Hb Hinv [Hnew Hadd]%addable_cons Hn HQ.
  rewrite routed_cons in Hn. rewrite routed_cons. rewrite length_app in Hn.
  eapply wp_loop_object; [done|exact Hs|done..|exact Hb|exact Hinv| |].
  { intros Hid. destruct (Hnew Hid). split_and!; [done..|].
    assert (length (routed [st]) = 1%nat) by (unfold routed; by rewrite filter_cons_True).
    unfold VIRTIOSO_MAX_PTY_COUNT in *. lia. }
  intros n1 h1 Hgr. pose proof Hgr as [Hinv1 Hn1 Htags1 _].
  eapply wp_mono; [apply HQ; [lia|done|by rewrite Htags1|lia]|].
  intros p h2 [Hp Hg2]. split; [done|]. by eapply grown_trans.
Qed.

(** The objects after the first. *)
Lemma wp_loop_more ok sts : ∀ fuel s a rest stop b h0 n h,
  alloc_ok E → s = a ++ more_objects sts ++ rest → stop = length (a ++ more_objects sts) →
  forallb stream_ok sts = true → (length sts < fuel)%nat → 0 ≤ b ≤ n → loop_inv b h0 n h →
  addable (take (Z.to_nat n) (tags h)) (routed sts) →
  n + Z.of_nat (length (routed sts)) ≤ VIRTIOSO_MAX_PTY_COUNT →
  wp ok (registry_loop E fuel s (length a) stop n)
    (λ p h', p.1 = false ∧ grown b h0 n h (routed sts) p.2 h') h.
Proof.
  induction sts as [|st sts IH]; intros [|fuel] s a rest stop b h0 n h
    Ha Hs Hstop Hok Hfuel Hb Hinv Hadd Hn; try (cbn in Hfuel; lia).
  { cbn in Hstop. rewrite app_nil_r in Hstop. cbn [registry_loop].
    rewrite Hstop, Nat.ltb_irrefl. cbn [negb]. apply wp_ret. split; [done|].
    constructor; [done|cbn; lia|cbn; by rewrite app_nil_r..]. }
  cbn [forallb] in Hok. apply andb_prop in Hok as [Hst Hok].
  change (more_objects (st :: sts)) with
    ((bs ", " ++ text (stream_json st)) ++ more_objects sts) in Hs, Hstop.
  eapply (wp_loop_cons ok fuel s a (bs ", ") st sts (more_objects sts ++ rest));
    [done|by rewrite Hs; app_norm| |rewrite Hstop, !length_app; lia|done|exact Hb
    |exact Hinv|exact Hadd|exact Hn|].
  { cbn. rewrite !elem_of_cons, elem_of_nil. by intros [?|[?|[]]]. }
  intros n1 h1 Hle Hinv1 Hadd1 Hn1. apply (IH fuel s _ rest); try done.
  - rewrite Hs. by app_norm.
  - rewrite Hstop. f_equal. by app_norm.
  - cbn in Hfuel. lia.
  - lia.
Qed.

Lemma objects_text st sts :
  text (comma_sep (map stream_json (st :: sts))) =
  text (stream_json st) ++ more_objects sts.
Proof.
  cbn [map comma_sep]. rewrite text_app. f_equal.
  induction sts as [|u sts IH]; [done|].
  cbn [map concat]. rewrite text_app, text_cons, IH. unfold more_objects. cbn [map concat].
  by app_norm.
Qed.

Lemma objects_length sts : (length sts ≤ length (text (comma_sep (map stream_json sts))))%nat.
Proof.
  assert (Ho : ∀ s, (1 ≤ length (text (stream_json s)))%nat).
  { intros s. unfold stream_json, jdict. rewrite text_cons, length_app.
    change (length (chunk_text (CRaw (bs "{")))) with 1%nat. lia. }
  destruct sts as [|s sts]; [cbn; lia|]. rewrite objects_text, length_app. cbn [length].
  pose proof (Ho s). enough (length sts ≤ length (more_objects sts))%nat by lia.
  clear H. induction sts as [|u sts IH]; [cbn; lia|].
  unfold more_objects in *. cbn [map concat]. rewrite !length_app. pose proof (Ho u). cbn [length]. lia.
Qed.

(** The loop over the whole printed list. *)
Lemma wp_loop_printed ok sts : ∀ fuel s a rest stop b h0 n h,
  alloc_ok E → s = a ++ text (comma_sep (map stream_json sts)) ++ rest →
  stop = length (a ++ text (comma_sep (map stream_json sts))) →
  forallb stream_ok sts = true → (length sts < fuel)%nat → 0 ≤ b ≤ n → loop_inv b h0 n h →
  addable (take (Z.to_nat n) (tags h)) (routed sts) →
  n + Z.of_nat (length (routed sts)) ≤ VIRTIOSO_MAX_PTY_COUNT →
  wp ok (registry_loop E fuel s (length a) stop n)
    (λ p h', p.1 = false ∧ grown b h0 n h (routed sts) p.2 h') h.
Proof.
  intros [|fuel] s a rest stop b h0 n h Ha Hs Hstop Hok Hfuel Hb Hinv Hadd Hn; [lia|].
  destruct sts as [|st sts].
  { by apply (wp_loop_more ok []) with (rest := rest). }
  cbn [forallb] in Hok. apply andb_prop in Hok as [Hst Hok]. rewrite objects_text in Hs, Hstop.
  eapply (wp_loop_cons ok fuel s a [] st sts (more_objects sts ++ rest));
    [done|by rewrite Hs; app_norm|apply not_elem_of_nil|rewrite Hstop, !length_app; cbn; lia
    |done|exact Hb|exact Hinv|exact Hadd|exact Hn|].
  intros n1 h1 Hle Hinv1 Hadd1 Hn1.
  apply (wp_loop_more ok sts) with (rest := rest); try done.
  - rewrite Hs. by app_norm.
  - rewrite Hstop. f_equal. by app_norm.
  - cbn in Hfuel. lia.
  - lia.
Qed.

(* ------------------------------------------------------------------ *)
(** ** Lemmas: opening the PTYs *)

Lemma thread_starts ok i h :
  ptys_open E → wp ok (create_thread_with_stack E i) (λ z _, z = 0) h.
Proof.
  intros Hp. unfold create_thread_with_stack.
  apply wp_bind, wp_sys. intros r Hr. pose proof (po_attr E Hp (trace h)) as Hv.
  rewrite Hr, Hv. cbn [negb Z.eqb].
  apply wp_bind, wp_sys. intros r1 Hr1. rewrite Hr1, po_stack by done. cbn [negb Z.eqb].
  apply wp_bind, wp_sys. intros r2 Hr2. apply wp_bind, wp_sys. intros r3 _. apply wp_ret.
  rewrite Hr2, po_thread by done. done.
Qed.

Lemma pty_opens ok i name b h n :
  shape h n → 0 ≤ i < VIRTIOSO_MAX_PTY_COUNT → ptys_open E →
  wp ok (create_pty_at_index E i name b) (λ z _, z = 0) h.
Proof.
  intros Hsh Hi Hp. unfold create_pty_at_index. pose proof (sh_pty _ _ Hsh).
  assert (0 ≤ i < Z.of_nat NPTY) by (unfold NPTY, VIRTIOSO_MAX_PTY_COUNT in *; lia).
  apply wp_bind, wp_get. rewrite (sh_cap _ _ Hsh).
  rewrite (proj2 (Z.ltb_ge i 0)), (proj2 (Z.leb_gt _ i)) by lia. cbn [orb].
  apply wp_bind, wp_sys. intros r Hr. cbv zeta.
  rewrite (proj2 (Z.ltb_ge (res r) 0)) by (rewrite Hr; by apply po_openpt).
  apply wp_bind, wp_sys. intros r1 Hr1. rewrite Hr1, po_grantpt by done. cbn [negb Z.eqb].
  apply wp_bind, wp_sys. intros r2 Hr2. rewrite Hr2, po_unlockpt by done. cbn [negb Z.eqb].
  set (h1 := set_trace _ _). assert (Hl1 : length (pty_data h1) = NPTY) by done.
  assert (Ht1 : length (tags h1) = NPTY) by apply Hsh. clearbody h1.
  apply wp_bind. eapply (wp_mono _ _ (λ _ h', pty_data h' = pty_data h1 ∧ tags h' = tags h1)).
  { hw_steps; done. }
  intros log_fd h2 [Hl2 Ht2]. do 4 hw_step. cbv zeta.
  hw_step. apply wp_arr_get; [cbn; by rewrite Hl2, Hl1|]. intros old _.
  hw_step. apply wp_arr_set; [cbn; by rewrite Hl2, Hl1|].
  hw_step. hw_step. hw_step. apply wp_sys. intros r4 Hr4.
  rewrite (proj2 (Z.ltb_ge (res r4) 0)) by (rewrite Hr4; by apply po_slave).
  do 5 hw_step. eapply (wp_mono _ _ (λ _ _, True)).
  { unfold emit_pty_session_record. do 3 hw_step.
    apply wp_arr_get; [cbn; by rewrite length_insert, Hl2, Hl1|]. intros ? _.
    hw_step; [by hw_step|]. hw_step. apply wp_arr_get; [cbn; by rewrite Ht2, Ht1|].
    intros ? _. by hw_step. }
  intros _ h3 _. hw_step; [|by hw_step]. hw_step.
  eapply wp_mono; [by apply thread_starts|]. intros z h4 ->. by apply wp_ret.
Qed.
End Parse.

(* ------------------------------------------------------------------ *)
(** ** Lemmas: applying a printed document *)

Section Apply.
Context (E : env).

Lemma wp_create_ptys_ok ok n i h m :
  0 ≤ i → i + Z.of_nat n ≤ m → shape h m → ptys_open E →
  wp ok (create_ptys E n i)
    (λ r h', r = true ∧
       virtioso_stream_input_enabled h' = virtioso_stream_input_enabled h) h.
Proof.
  revert i h. induction n as [|n IH]; intros i h Hi Hn Hs Hp; cbn [create_ptys].
  { by apply wp_ret. }
  pose proof (sh_n _ _ Hs). pose proof (shape_sized _ _ Hs) as (Ht & _ & Hin).
  unfold NPTY, VIRTIOSO_MAX_PTY_COUNT in *.
  do 3 wp_step. apply wp_arr_get; [lia|]. intros t Htag. wp_step.
  apply wp_arr_get; [lia|]. intros inp _.
  destruct (sh_names _ _ Hs (Z.to_nat i) t) as [name Hname]; [lia|done|].
  rewrite Hname. wp_step. eapply wp_mono.
  { apply wp_conj; [apply (wp_create_pty E _ _ _ _ _ m); [done|lia]|].
    apply (pty_opens E _ _ _ _ _ m); [done|unfold VIRTIOSO_MAX_PTY_COUNT; lia|done]. }
  intros z h1 [(Ho & _ & _) ->]. cbn [negb Z.eqb].
  pose proof (opens_shape _ _ _ _ Ho Hs) as Hs1. do 2 wp_step.
  eapply wp_mono; [apply IH; [lia..| |done]|].
  { destruct Hs1. by constructor. }
  intros r h2 [Hr Hi2]. cbn in Hi2. split; [done|]. rewrite Hi2. by destruct Ho.
Qed.

(** The array of a document whose first literal [streams] is the key. *)
Lemma array_found s pre l post :
  good pre = true → CStr (bs "streams") ∉ pre → value l →
  s = text pre ++ (x22 :: bs "streams" ++ [x22]) ++ bs ": [" ++ text l ++ x5d :: post →
  json_find_array_after s 0 (quoted "streams") =
  Some (length (text pre) + 11, length (text pre) + 12 + length (text l))%nat.
Proof.
  intros Hg Hn [_ Hl] Hs. change (bs ": [") with [x3a; x20; x5b] in Hs.
  set (k := x22 :: bs "streams" ++ [x22]) in *.
  set (r := x20 :: x5b :: text l ++ x5d :: post).
  assert (Hs1 : s = text pre ++ x22 :: bs "streams" ++ [x22] ++ x3a :: r).
  { rewrite Hs. subst k r. by app_norm. }
  destruct (after_key s _ (text pre) _ r Hs1 eq_refl eq_refl) as (_ & H2 & H3).
  unfold json_find_array_after. change (quoted "streams") with k. unfold k at 1.
  rewrite (key_found s 0 [] pre (bs "streams") (x3a :: r)); [|by rewrite Hs1|done..].
  cbn [Nat.add]. subst k. rewrite H2, H3, bool_decide_eq_true_2 by done. cbn [negb].
  set (b := text pre ++ _).
  assert (Hs2 : s = (b ++ [x3a]) ++ [x20] ++ x5b :: text l ++ x5d :: post).
  { rewrite Hs1. subst b r. by app_norm. }
  assert (Hb : length b = (length (text pre) + 9)%nat)
    by (subst b; rewrite length_app; done).
  replace (S (length b)) with (length (b ++ [x3a])) by (rewrite length_app; cbn; lia).
  assert (Hsk : skip_space s (length (b ++ [x3a])) = length ((b ++ [x3a]) ++ [x20])).
  { rewrite Hs2, skip_space_app by done. by rewrite (length_app (b ++ _)). }
  rewrite Hsk. rewrite app_assoc in Hs2. set (c := (b ++ [x3a]) ++ [x20]) in *.
  assert (Hc : length c = (length (text pre) + 11)%nat)
    by (subst c; rewrite !length_app, Hb; cbn; lia).
  assert (Hch : char_at s (length c) = x5b) by (rewrite Hs2; apply char_at_head).
  rewrite Hch, bool_decide_eq_true_2 by done. cbn [negb].
  rewrite Hs2, (matching_found x5b x5d c l post) by (done || by left).
  rewrite Hc. do 2 f_equal. lia.
Qed.

(** Applying a document that lists streams the table takes. *)
Lemma wp_apply_printed pre sts post s h :
  alloc_ok E → ptys_open E → wf h →
  good pre = true → CStr (bs "streams") ∉ pre → forallb stream_ok sts = true → x00 ∉ s →
  s = text pre ++ (x22 :: bs "streams" ++ [x22]) ++ bs ": [" ++
      text (comma_sep (map stream_json sts)) ++ x5d :: post →
  addable (active_tags h) (routed sts) →
  num_proc h + Z.of_nat (length (routed sts)) ≤ VIRTIOSO_MAX_PTY_COUNT →
  routed sts ≠ [] →
  wp total (apply_virtioso_registry_json E (Some s))
    (λ z h', z = 0 ∧ num_proc h' = num_proc h + Z.of_nat (length (routed sts)) ∧
       active_tags h' = active_tags h ++ (stream_tag <$> routed sts) ∧
       take (Z.to_nat (num_proc h')) (virtioso_stream_input_enabled h') =
       take (Z.to_nat (num_proc h)) (virtioso_stream_input_enabled h) ++
         (stream_input <$> routed sts)) h.
Proof.
  intros Ha Hpo Hwf Hg Hn Hok Hnul Hs Hadd Hmax Hne.
  pose proof Hwf as [Hsh Htb Hm Hc]. pose proof (sh_n _ _ Hsh).
  assert (Hval : value (comma_sep (map stream_json sts))) by by apply value_comma_sep, values_ok.
  unfold apply_virtioso_registry_json. apply wp_bind, wp_get. rewrite (cstr_id s Hnul).
  rewrite (array_found s pre (comma_sep (map stream_json sts)) post) by done.
  set (a := text pre ++ (x22 :: bs "streams" ++ [x22]) ++ bs ": [").
  set (l := text (comma_sep (map stream_json sts))) in *.
  assert (Hla : length a = (length (text pre) + 12)%nat)
    by (subst a; rewrite !length_app; done).
  assert (Hs2 : s = a ++ l ++ x5d :: post) by (rewrite Hs; subst a; by app_norm).
  apply wp_bind. eapply wp_mono.
  { replace (S (length (text pre) + 11)) with (length a) by lia.
    apply (wp_loop_printed E total sts _ s a (x5d :: post) _ (num_proc h) h); try done.
    - rewrite length_app. subst l. lia.
    - pose proof (objects_length sts). rewrite Hs2, !length_app. fold l in H0. lia.
    - lia. }
  intros [f n] h1 [Hf Hgr]. cbn in Hf. subst f. cbn [snd] in Hgr.
  destruct Hgr as [[Hk Hs1 Ht1 Hn1 Hm1 Hp1] Hcount Htags Hinput].
  assert (0 < length (routed sts))%nat by (destruct (routed sts); [done|cbn; lia]).
  rewrite (proj2 (Z.eqb_neq n _)) by lia. cbn [orb].
  apply wp_bind, wp_modify, wp_bind, wp_modify, wp_bind.
  set (h2 := set_default_tag_idx _ _).
  assert (Hs2' : shape h2 n) by (by destruct Hs1).
  assert (Hk2 : keeps (num_proc h) h h2) by (etrans; [exact Hk|by constructor]).
  eapply wp_mono.
  { apply wp_conj; [apply (wp_create_ptys E total _ (num_proc h) (num_proc h) h h2 n); try done;
        cbn; lia|].
      apply (wp_create_ptys_ok _ _ _ _ n); (done || lia). }
  intros r h3 [(_ & _ & Ht3 & Hn3 & _) [-> Hi3]]. apply wp_ret.
  cbn in Ht3, Hn3, Hi3. split_and!; [done|by rewrite Hn3| |].
  - unfold active_tags. by rewrite Hn3, Ht3.
  - by rewrite Hn3, Hi3.
Qed.
End Apply.
