(* ===== verification/Tty.v ===== *)
(** * The UART device

    [open_tty_device], [reopen_tty_device], the UUCP lock file and the baud
    rates of [host/tcu_com.c].  Messages on [stderr] are not modelled; the
    terminal attributes are opaque: getting them, setting the speeds and
    applying them are calls that may fail. *)

From S2P Require Import Prelude Proto CString HostState HostIo.

Definition MAX_PATH : Z := 256.
Definition UUCP_DIR : list byte := bs "/var/lock".
Definition LOCK_RETRIES : nat := 240.

(** The [B...] constants of [termios.h], on Linux. *)
Definition speeds : list (Z * Z) := [
  (0, 0); (50, 1); (75, 2); (110, 3); (134, 4); (150, 5); (200, 6); (300, 7); (600, 8);
  (1200, 9); (1800, 10); (2400, 11); (4800, 12); (9600, 13); (19200, 14); (38400, 15);
  (57600, 4097); (115200, 4098); (230400, 4099) ].

(** [speed_t] is unsigned: the default is its largest value. *)
Definition get_baudrate (baudrate : Z) : Z :=
  match List.find (λ s, s.1 =? baudrate) speeds with
  | Some s => s.2
  | None => u32 (-1)
  end.

Definition invalid_baudrate (baudrate : Z) : bool := s32 (get_baudrate baudrate) =? -1.

(** The little-endian [int] a lock file may hold. *)
Definition int_of (l : list byte) : Z :=
  s32 (foldr (λ b v, b2z b + 256 * v) 0 l).

(** Each slash replaced by an underscore. *)
Definition underscore (b : byte) : byte := if bool_decide (b = x2f) then x5f else b.

Section Tty.
Context (E : env) (fuel : nat).

(** The lock file, when this process holds it, is removed. *)
Definition uucp_unlock_tty_device : HM unit :=
  h <- get ;;
  if negb (bool_decide (filelock h = [])) && uucp_locked h then
    sys E (RqUnlink (filelock h)) ;;;
    modify (set_uucp_locked false)
  else ret tt.

Definition handle_sigint : HM unit := uucp_unlock_tty_device ;;; halt (Exited 0).

(** [strncpy] leaves a name of 255 bytes or more without its terminator. *)
Definition uucp_set_filelock_name : HM Z :=
  h <- get ;;
  match tty_device (cfg h) with
  | [] => halt Undefined
  | _ :: rest =>
      let name := match strstr rest 0 [x2f] with
                  | Some i => drop (i + 1) rest
                  | None => tty_device (cfg h)
                  end in
      if MAX_PATH - 1 <=? Z.of_nat (length name) then halt Undefined
      else
      let text := UUCP_DIR ++ bs "/LCK.." ++ map underscore name in
      modify (set_filelock (snprintf (Z.to_nat MAX_PATH) text)) ;;;
      ret (if MAX_PATH <=? Z.of_nat (length text) then -1 else 0)
  end.

Definition uucp_check_is_locked : HM bool :=
  h <- get ;;
  f <- sys E (RqOpen (filelock h) OpenLockRead) ;;
  if res f <? 0 then ret false
  else
    r <- sys E (RqRead (res f) (MAX_PATH - 1)) ;;
    let buf := take (Z.to_nat (res r)) (res_bytes r) in
    sys E (RqClose (res f)) ;;;
    let pid := if res r =? 4 then int_of buf else s32 (strtol_value (strtol (cstr buf) 0)) in
    stale <- (if 0 <? pid then
                k <- sys E (RqKill pid) ;; ret ((res k <? 0) && (err k =? ESRCH))
              else ret false) ;;
    if negb stale then ret true
    else
      print E (bs "Removing stale lock: " ++ filelock h ++ [x0a]) ;;;
      sys E (RqSleep 1000000) ;;;
      sys E (RqUnlink (filelock h)) ;;;
      ret false.

Definition uucp_lock_tty_device : HM Z :=
  h <- get ;;
  f <- sys E (RqOpen (filelock h) OpenLockCreate) ;;
  if res f <? 0 then ret (-1)
  else
    p <- sys E RqGetpid ;;
    let buf := pad_left x20 10 (fmt_d (res p)) ++ [x0a] in
    if MAX_PATH <=? Z.of_nat (length buf) then sys E (RqClose (res f)) ;;; ret (-1)
    else
      w <- sys E (RqWrite (res f) buf) ;;
      sys E (RqClose (res f)) ;;;
      if res w <? 0 then ret (-2)
      else sys E RqSignal ;;; modify (set_uucp_locked true) ;;; ret 0.

(** [while ((fd = open(...)) < 0) { if (--retries < 0) break; usleep(...); }]:
    the descriptor and the retries left. *)
Fixpoint open_retry (path : list byte) (retries : nat) : HM (Z * Z) :=
  f <- sys E (RqOpen path OpenTty) ;;
  if 0 <=? res f then ret (res f, Z.of_nat retries)
  else
    match retries with
    | O => ret (res f, -1)
    | S n => sys E (RqSleep 50000) ;;; open_retry path n
    end.

(** The [fcntl] loop, [retries] being shared with the loop that opens the
    device again: whether the lock was taken, and the descriptor. *)
Fixpoint lock_retry (path : list byte) (n : nat) (fd retries : Z) : HM (bool * Z) :=
  match n with
  | O => halt OutOfFuel
  | S n' =>
      l <- sys E (RqFlock fd) ;;
      if res l =? 0 then ret (true, fd)
      else
        let* (fd, retries) :=
          (if negb (err l =? EACCES) && negb (err l =? EAGAIN) && negb (err l =? EINTR) then
             sys E (RqClose fd) ;;; open_retry path (Z.to_nat retries)
           else ret (fd, retries)) in
        if fd <? 0 then ret (false, fd)
        else if retries - 1 <? 0 then ret (false, fd)
        else sys E (RqSleep 50000) ;;; lock_retry path n' fd (retries - 1)
  end.

(** [err:] *)
Definition tty_err (fd : Z) : HM Z :=
  (if 0 <=? fd then sys E (RqClose fd) ;;; ret tt else ret tt) ;;; ret (-1).

(** The device's settings: did they all apply? *)
Definition tty_setup (fd baudrate : Z) : HM bool :=
  sys E (RqGetAttr fd) ;;;
  i <- sys E (RqSetSpeed false baudrate) ;;
  if negb (res i =? 0) then ret false
  else
  o <- sys E (RqSetSpeed true baudrate) ;;
  if negb (res o =? 0) then ret false
  else
  s <- sys E (RqSetAttr fd) ;;
  ret (negb (res s <? 0)).

(** The reset sequence of the TCU link. *)
Definition tty_reset (fd : Z) : HM unit :=
  putch_or_exit E fuel fd x00 ;;;
  putch_or_exit E fuel fd UART_PROTO_ESC_START ;;;
  putch_or_exit E fuel fd UART_PROTO_ESC_RESET ;;;
  ret tt.

(** The UUCP lock, when its directory exists: [true] to go on. *)
Definition uucp_acquire : HM bool :=
  h <- get ;;
  if disable_uucp_lock (cfg h) then ret true
  else
  s <- sys E (RqStat UUCP_DIR) ;;
  if negb (res s =? 0) || uucp_locked h then ret true
  else
  e <- uucp_set_filelock_name ;;
  if negb (e =? 0) then ret false
  else
  locked <- uucp_check_is_locked ;;
  if locked then ret false
  else
  e <- uucp_lock_tty_device ;;
  ret (e =? 0).

Definition open_tty_device : HM Z :=
  got <- uucp_acquire ;;
  if negb got then tty_err (-1)
  else
  h <- get ;;
  let path := tty_device (cfg h) in
  let* (fd, _) := open_retry path LOCK_RETRIES in
  if fd <? 0 then tty_err fd
  else if invalid_baudrate (int_baudrate (cfg h)) then tty_err fd
  else
  let baudrate := get_baudrate (int_baudrate (cfg h)) in
  let* (locked, fd) := lock_retry path (S LOCK_RETRIES) fd (Z.of_nat LOCK_RETRIES) in
  if negb locked then tty_err fd
  else
  ok <- tty_setup fd baudrate ;;
  if negb ok then tty_err fd
  else tty_reset fd ;;; ret fd.

Definition reopen_tty_device (old_fd : Z) : HM Z :=
  (if 0 <=? old_fd then sys E (RqClose old_fd) ;;; ret tt else ret tt) ;;;
  open_tty_device.

End Tty.
