(* ===== verification/Startup.v ===== *)
(** * Starting the host multiplexer

    [main] of [host/tcu_com.c] up to the threads: option parsing, the stream
    table, the arrays, the UART device, the log files, the PTYs. *)

From S2P Require Import Prelude Proto CString HostState HostIo Flush Registry Tty.
From Stdlib Require Import Ascii.

Definition DEFAULT_BAUDRATE : Z := 115200.
Definition DEFAULT_POLL_OUTPUT_TIMEOUT : Z := 300.
Definition DEFAULT_TTY_DEVICE : list byte := bs "/dev/ttyUSB3".

(** The globals and locals of [main] that option parsing sets. *)
Record options : Type := Options {
  opt_poll_timeout : Z;
  opt_write_raw : bool;
  opt_virtioso : bool;
  opt_outer_mode : Z;
  opt_tag_name : option (list byte);
  opt_patch : bool;
  opt_timestamp : bool;
  opt_save : option (list byte);
  opt_device : list byte;
  opt_rate : Z;
  opt_no_lock : bool;
  opt_raw_log : option (list byte)
}.

Definition default_options : options :=
  Options DEFAULT_POLL_OUTPUT_TIMEOUT false false VIRTIOSO_OUTER_RAW None false false None
    DEFAULT_TTY_DEVICE DEFAULT_BAUDRATE false None.

(** [atoi] *)
Definition atoi (s : list byte) : Z := s32 (strtol_value (strtol s 0)).

(** The directory of [-s]: a copy without its last slash.  An empty argument
    makes the program index before the buffer. *)
Definition save_path (arg : list byte) : option (list byte) :=
  match last arg with
  | None => None
  | Some c => Some (if bool_decide (c = x2f) then removelast arg else arg)
  end.

(** One turn of the [getopt] loop: the options so far, the option character
    and its argument; the new options, the exit code of [main], or an
    undefined behaviour. *)
Definition main_option (o : options) (opt : ascii) (arg : list byte) : outcome unit options :=
  match opt with
  | "d"%char => Done (Options (opt_poll_timeout o) (opt_write_raw o) (opt_virtioso o) (opt_outer_mode o) (opt_tag_name o) (opt_patch o) (opt_timestamp o) (opt_save o) arg (opt_rate o) (opt_no_lock o) (opt_raw_log o)) tt
  | "r"%char => Done (Options (opt_poll_timeout o) (opt_write_raw o) (opt_virtioso o) (opt_outer_mode o) (opt_tag_name o) (opt_patch o) (opt_timestamp o) (opt_save o) (opt_device o) (atoi arg) (opt_no_lock o) (opt_raw_log o)) tt
  | "s"%char =>
      if MAX_PATH <? Z.of_nat (length arg) + 1 then Stop (Exited (-1)) tt
      else match save_path arg with
           | None => Stop Undefined tt
           | Some p => Done (Options (opt_poll_timeout o) (opt_write_raw o) (opt_virtioso o) (opt_outer_mode o) (opt_tag_name o) (opt_patch o) (opt_timestamp o) (Some p) (opt_device o) (opt_rate o) (opt_no_lock o) (opt_raw_log o)) tt
           end
  | "l"%char => Done (Options (opt_poll_timeout o) (opt_write_raw o) (opt_virtioso o) (opt_outer_mode o) (opt_tag_name o) (opt_patch o) (opt_timestamp o) (opt_save o) (opt_device o) (opt_rate o) (opt_no_lock o) (Some arg)) tt
  | "h"%char => Stop (Exited 0) tt
  | "i"%char => Done (Options (opt_poll_timeout o) (opt_write_raw o) (opt_virtioso o) (opt_outer_mode o) (opt_tag_name o) true (opt_timestamp o) (opt_save o) (opt_device o) (opt_rate o) (opt_no_lock o) (opt_raw_log o)) tt
  | "t"%char => Done (Options (opt_poll_timeout o) (opt_write_raw o) (opt_virtioso o) (opt_outer_mode o) (opt_tag_name o) (opt_patch o) true (opt_save o) (opt_device o) (opt_rate o) (opt_no_lock o) (opt_raw_log o)) tt
  | "w"%char => Done (Options (opt_poll_timeout o) true (opt_virtioso o) (opt_outer_mode o) (opt_tag_name o) (opt_patch o) (opt_timestamp o) (opt_save o) (opt_device o) (opt_rate o) (opt_no_lock o) (opt_raw_log o)) tt
  | "L"%char => Done (Options (opt_poll_timeout o) (opt_write_raw o) (opt_virtioso o) (opt_outer_mode o) (opt_tag_name o) (opt_patch o) (opt_timestamp o) (opt_save o) (opt_device o) (opt_rate o) true (opt_raw_log o)) tt
  | "p"%char => Done (Options (atoi arg) (opt_write_raw o) (opt_virtioso o) (opt_outer_mode o) (opt_tag_name o) (opt_patch o) (opt_timestamp o) (opt_save o) (opt_device o) (opt_rate o) (opt_no_lock o) (opt_raw_log o)) tt
  | "A"%char => Done (Options (opt_poll_timeout o) (opt_write_raw o) true (opt_outer_mode o) (opt_tag_name o) (opt_patch o) (opt_timestamp o) (opt_save o) (opt_device o) (opt_rate o) (opt_no_lock o) (opt_raw_log o)) tt
  | "O"%char =>
      if bool_decide (arg = bs "raw") then Done (Options (opt_poll_timeout o) (opt_write_raw o) (opt_virtioso o) VIRTIOSO_OUTER_RAW (opt_tag_name o) (opt_patch o) (opt_timestamp o) (opt_save o) (opt_device o) (opt_rate o) (opt_no_lock o) (opt_raw_log o)) tt
      else if bool_decide (arg = bs "nvidia-tcu") then
        Done (Options (opt_poll_timeout o) (opt_write_raw o) (opt_virtioso o) VIRTIOSO_OUTER_NVIDIA_TCU (opt_tag_name o) (opt_patch o) (opt_timestamp o) (opt_save o) (opt_device o) (opt_rate o) (opt_no_lock o) (opt_raw_log o)) tt
      else Stop (Exited (-1)) tt
  | "C"%char => Done (Options (opt_poll_timeout o) (opt_write_raw o) (opt_virtioso o) (opt_outer_mode o) (Some arg) (opt_patch o) (opt_timestamp o) (opt_save o) (opt_device o) (opt_rate o) (opt_no_lock o) (opt_raw_log o)) tt
  | _ => Stop (Exited (-1)) tt
  end.

(** The [getopt] loop over what [getopt] returns. *)
Fixpoint main_options (o : options) (l : list (ascii * list byte)) : outcome unit options :=
  match l with
  | [] => Done o tt
  | (c, arg) :: l' =>
      match main_option o c arg with
      | Done o' _ => main_options o' l'
      | Stop w u => Stop w u
      end
  end.

(** The globals when option parsing ends. *)
Definition host_boot (o : options) : host :=
  Host []
    (Config (opt_poll_timeout o) (opt_write_raw o) (opt_virtioso o) (opt_outer_mode o)
       (-1) (-1) (-1) (-1) 0 0 (negb (opt_patch o)) (opt_timestamp o) (opt_save o)
       (opt_device o) (opt_rate o) (opt_no_lock o))
    [] 0 0 0 [] (replicate (Z.to_nat VIRTIOSO_MAX_PTY_COUNT) false) None x00 0 0 0 [] false.

Definition set_outer_tag (i : Z) (c : config) : config :=
  Config (poll_output_timeout c) (enable_write_raw_pty c) (virtioso_mode_enabled c)
    (virtioso_outer_mode c) i (raw_ccplex_pty_idx c) (autopilot_control_pty_idx c)
    (virtioso_default_pty_idx c) (raw_pty_idx c) (pty_capacity c) (disable_patch c)
    (log_timestamp_enabled c) (save_output_path c) (tty_device c) (int_baudrate c)
    (disable_uucp_lock c).

Definition set_raw_pty (i : Z) (c : config) : config :=
  Config (poll_output_timeout c) (enable_write_raw_pty c) (virtioso_mode_enabled c)
    (virtioso_outer_mode c) (virtioso_outer_tag_idx c) (raw_ccplex_pty_idx c)
    (autopilot_control_pty_idx c) (virtioso_default_pty_idx c) i (pty_capacity c)
    (disable_patch c) (log_timestamp_enabled c) (save_output_path c) (tty_device c)
    (int_baudrate c) (disable_uucp_lock c).

Definition set_capacity (n : Z) (c : config) : config :=
  Config (poll_output_timeout c) (enable_write_raw_pty c) (virtioso_mode_enabled c)
    (virtioso_outer_mode c) (virtioso_outer_tag_idx c) (raw_ccplex_pty_idx c)
    (autopilot_control_pty_idx c) (virtioso_default_pty_idx c) (raw_pty_idx c) n
    (disable_patch c) (log_timestamp_enabled c) (save_output_path c) (tty_device c)
    (int_baudrate c) (disable_uucp_lock c).

(** The threads that were started, by the index they serve (-1: the UART),
    oldest first. *)
Fixpoint spawned (tr : history) : list Z :=
  match tr with
  | [] => []
  | (RqThread i, r) :: tr' => spawned tr' ++ (if res r =? 0 then [i] else [])
  | _ :: tr' => spawned tr'
  end.

Section Startup.
Context (E : env) (fuel : nat).

(** The choice of the tag table: 0, or -1 for [goto err]. *)
Definition main_tags (tag_name : option (list byte)) : HM Z :=
  h <- get ;;
  if virtioso_mode_enabled (cfg h) then
    e <- init_virtioso_tags E ;;
    if negb (e =? 0) then ret (-1)
    else if virtioso_outer_mode (cfg h) =? VIRTIOSO_OUTER_NVIDIA_TCU then
      let idx := find_chip_tag_idx_by_name (default (bs "CCPLEX") tag_name) in
      h <- get ;;
      modify (set_cfg (set_outer_tag idx (cfg h))) ;;;
      ret (if idx <? 0 then -1 else 0)
    else ret 0
  else
    modify (set_tags chip_tags) ;;;
    modify (set_num_proc (Z.of_nat (length chip_tags))) ;;;
    modify (set_default_tag_idx (Z.of_nat (length chip_tags) - 1)) ;;;
    ret 0.

(** [pty_max_count], [raw_pty_idx] and [pty_capacity]. *)
Definition main_counts : HM unit :=
  h <- get ;;
  if virtioso_mode_enabled (cfg h) then
    modify (set_pty_max_count (num_proc h)) ;;;
    modify (set_cfg (set_capacity VIRTIOSO_MAX_PTY_COUNT (cfg h)))
  else
    modify (set_pty_max_count (num_proc h + 1)) ;;;
    modify (set_cfg (set_capacity (num_proc h + 1) (set_raw_pty (num_proc h) (cfg h)))).

(** The two [calloc]s. *)
Definition main_arrays : HM Z :=
  h <- get ;;
  t <- alloc E (pty_capacity (cfg h) * 8) ;;
  p <- alloc E (pty_capacity (cfg h) * 200) ;;
  if negb t || negb p then ret (-1)
  else
    modify (set_pty_data (replicate (Z.to_nat (pty_capacity (cfg h))) thread_data_zero)) ;;;
    ret 0.

(** The name of the PTY of index [i]. *)
Definition pty_name (i : Z) : HM (list byte) :=
  h <- get ;;
  if virtioso_mode_enabled (cfg h) || negb (i =? raw_pty_idx (cfg h)) then
    t <- arr_get (tags h) i ;;
    match tag_name t with Some n => ret n | None => halt AssertFail end
  else ret RAW_PTY.

(** [for_each_pty] creating the PTYs, from index [i] on. *)
Fixpoint main_create (n : nat) (i : Z) : HM Z :=
  match n with
  | O => ret 0
  | S n' =>
      name <- pty_name i ;;
      e <- create_pty_at_index E i name false ;;
      if negb (e =? 0) then ret (-1) else main_create n' (i + 1)
  end.

(** [for_each_pty] starting the input threads, from index [i] on. *)
Fixpoint main_threads (n : nat) (i : Z) : HM Z :=
  match n with
  | O => ret 0
  | S n' =>
      e <- create_thread_with_stack E i ;;
      if negb (e =? 0) then ret (-1) else main_threads n' (i + 1)
  end.

(** Up to opening the UART. *)
Definition main_setup (tag_name : option (list byte)) : HM Z :=
  e <- main_tags tag_name ;;
  if negb (e =? 0) then ret (-1)
  else
  main_counts ;;;
  main_arrays.

(** [tty_data.fd = open_tty_device()] *)
Definition main_open_tty : HM Z :=
  fd <- open_tty_device E fuel ;;
  modify (set_tty_fd fd) ;;;
  ret (if fd <? 0 then -1 else 0).

(** The directory of [-s] exists. *)
Definition main_save_dir : HM Z :=
  h <- get ;;
  match save_output_path (cfg h) with
  | None => ret 0
  | Some path =>
      dir <- sys E (RqOpendir path) ;;
      if res dir =? 0 then ret (-1) else sys E RqClosedir ;;; ret 0
  end.

(** The raw log: failing to open it is reported only. *)
Definition main_raw_log (raw_log : option (list byte)) : HM unit :=
  match raw_log with
  | Some path =>
      f <- sys E (RqOpen path OpenRawLog) ;;
      modify (set_tty_log_fd (res f))
  | None => modify (set_tty_log_fd (-1))
  end.

(** The threads: the UART's, then one for each PTY. *)
Definition main_start_threads : HM Z :=
  e <- create_thread_with_stack E (-1) ;;
  if negb (e =? 0) then ret (-1)
  else
  h <- get ;;
  main_threads (Z.to_nat (pty_max_count h)) 0.

(** With the UART open: the logs, the PTYs, the threads. *)
Definition main_launch (o : options) : HM Z :=
  e <- main_save_dir ;;
  if negb (e =? 0) then ret (-1)
  else
  main_raw_log (opt_raw_log o) ;;;
  h <- get ;;
  e <- main_create (Z.to_nat (pty_max_count h)) 0 ;;
  if negb (e =? 0) then ret (-1)
  else main_start_threads.

(** The start-up sequence of [main], with the options it parsed: 0, or -1 for
    [goto err]. *)
Definition main_start (o : options) : HM Z :=
  e <- main_setup (opt_tag_name o) ;;
  if negb (e =? 0) then ret (-1)
  else
  e <- main_open_tty ;;
  if negb (e =? 0) then ret (-1)
  else main_launch o.

End Startup.

(* ------------------------------------------------------------------ *)
(** ** A concrete environment

    Every call succeeds: descriptors are fresh, writes are complete, and there
    is no lock file. *)

Fixpoint opened (tr : history) : Z :=
  match tr with
  | [] => 7
  | (RqOpenpt, _) :: tr' | (RqOpen _ _, _) :: tr' => opened tr' + 1
  | _ :: tr' => opened tr'
  end.

Definition good_env : env := λ tr rq,
  match rq with
  | RqWrite _ d => SysRes (Z.of_nat (length d)) 0 0 [] []
  | RqPollIn _ _ => SysRes 1 0 POLLIN [] []
  | RqPollOut _ _ => SysRes 1 0 0 [] []
  | RqOpen _ OpenLockRead => SysRes (-1) ENOENT 0 [] []
  | RqOpenpt | RqOpen _ _ => SysRes (opened tr) 0 0 [] []
  | RqPtsname fd _ => SysRes 0 0 0 (bs "/dev/pts/" ++ fmt_d fd) []
  | RqMalloc _ | RqOpendir _ => SysRes 1 0 0 [] []
  | RqTime => SysRes 0 0 0 [] [2026; 5; 13; 10; 20; 30; 123456]
  | _ => SysRes 0 0 0 [] []
  end.

Definition run {A} (m : HM A) (h : host) : host :=
  match m h with Done _ h' => h' | Stop _ h' => h' end.

(** The options of [-A -w] and more. *)
Definition demo_options (l : list (ascii * list byte)) : options :=
  match main_options default_options (("A"%char, []) :: ("w"%char, []) :: l) with
  | Done o _ => o
  | Stop _ _ => default_options
  end.

(** The host started with [-A], raw and inside the NVIDIA TCU layer. *)
Definition demo_host : host :=
  run (main_start good_env 1 (demo_options [])) (host_boot (demo_options [])).

Definition demo_host_tcu : host :=
  let o := demo_options [("O"%char, bs "nvidia-tcu")] in
  run (main_start good_env 1 o) (host_boot o).
