(* ===== verification/Demux.v ===== *)
(** * The host demultiplexer

    [feed_virtioso_byte] and [feed_nvidia_outer_or_virtioso_raw] of
    [host/tcu_com.c]: the byte state machines of the VCMux layer and of the
    NVIDIA TCU layer around it.  The locals of [tty_input_handler] whose
    addresses they receive are the record [rx]. *)

From S2P Require Import Prelude Proto CString HostState HostIo Flush Registry.

Definition VIRTIOSO_CONTROL_IDLE : Z := 0.
Definition VIRTIOSO_CONTROL_CMD : Z := 1.
Definition VIRTIOSO_CONTROL_REGISTRY_LEN_HI : Z := 5.
Definition VIRTIOSO_CONTROL_REGISTRY_LEN_LO : Z := 6.
Definition VIRTIOSO_CONTROL_REGISTRY_JSON : Z := 7.
Definition VIRTIOSO_CONTROL_ANNOUNCE_LEN_HI : Z := 8.
Definition VIRTIOSO_CONTROL_ANNOUNCE_LEN_LO : Z := 9.
Definition VIRTIOSO_CONTROL_ANNOUNCE_PAYLOAD : Z := 10.

Record rx : Type := Rx {
  in_escape : bool;
  cur_rx_stream : Z;
  control_state : Z;
  control_registry_len : Z;
  control_registry_pos : Z;
  control_registry_json : option (list byte);
  seen_n : list bool;
  seen_r : list bool;
  outer_in_escape : bool;
  cur_outer_tag : Z
}.

(** Assignments to the locals. *)
Definition set_in_escape (v : bool) (r : rx) : rx :=
  Rx v (cur_rx_stream r) (control_state r) (control_registry_len r) (control_registry_pos r) (control_registry_json r) (seen_n r) (seen_r r) (outer_in_escape r) (cur_outer_tag r).
Definition set_cur_rx_stream (v : Z) (r : rx) : rx :=
  Rx (in_escape r) v (control_state r) (control_registry_len r) (control_registry_pos r) (control_registry_json r) (seen_n r) (seen_r r) (outer_in_escape r) (cur_outer_tag r).
Definition set_control_state (v : Z) (r : rx) : rx :=
  Rx (in_escape r) (cur_rx_stream r) v (control_registry_len r) (control_registry_pos r) (control_registry_json r) (seen_n r) (seen_r r) (outer_in_escape r) (cur_outer_tag r).
Definition set_control_registry_len (v : Z) (r : rx) : rx :=
  Rx (in_escape r) (cur_rx_stream r) (control_state r) v (control_registry_pos r) (control_registry_json r) (seen_n r) (seen_r r) (outer_in_escape r) (cur_outer_tag r).
Definition set_control_registry_pos (v : Z) (r : rx) : rx :=
  Rx (in_escape r) (cur_rx_stream r) (control_state r) (control_registry_len r) v (control_registry_json r) (seen_n r) (seen_r r) (outer_in_escape r) (cur_outer_tag r).
Definition set_control_registry_json (v : option (list byte)) (r : rx) : rx :=
  Rx (in_escape r) (cur_rx_stream r) (control_state r) (control_registry_len r) (control_registry_pos r) v (seen_n r) (seen_r r) (outer_in_escape r) (cur_outer_tag r).
Definition set_seen_n (v : list bool) (r : rx) : rx :=
  Rx (in_escape r) (cur_rx_stream r) (control_state r) (control_registry_len r) (control_registry_pos r) (control_registry_json r) v (seen_r r) (outer_in_escape r) (cur_outer_tag r).
Definition set_seen_r (v : list bool) (r : rx) : rx :=
  Rx (in_escape r) (cur_rx_stream r) (control_state r) (control_registry_len r) (control_registry_pos r) (control_registry_json r) (seen_n r) v (outer_in_escape r) (cur_outer_tag r).
Definition set_outer_in_escape (v : bool) (r : rx) : rx :=
  Rx (in_escape r) (cur_rx_stream r) (control_state r) (control_registry_len r) (control_registry_pos r) (control_registry_json r) (seen_n r) (seen_r r) v (cur_outer_tag r).
Definition set_cur_outer_tag (v : Z) (r : rx) : rx :=
  Rx (in_escape r) (cur_rx_stream r) (control_state r) (control_registry_len r) (control_registry_pos r) (control_registry_json r) (seen_n r) (seen_r r) (outer_in_escape r) v.

(** The locals as [tty_input_handler] initialises them. *)
Definition rx_init : rx :=
  Rx false (-1) VIRTIOSO_CONTROL_IDLE 0 0 None
     (replicate (Z.to_nat VIRTIOSO_MAX_PTY_COUNT) false)
     (replicate (Z.to_nat VIRTIOSO_MAX_PTY_COUNT) false) false (-1).

Section Demux.
Context (E : env).

Definition virtioso_note_downlink_ack : HM unit :=
  modify (λ h, set_downlink_ack_count (u32 (virtioso_downlink_ack_count h + 1)) h).

(** [patch2flush_stream(pty_data[i].fd, i, ch, &seen_n[i], &seen_r[i])]. *)
Definition deliver (i : Z) (ch : byte) (r : rx) : HM (Z * rx) :=
  h <- get ;;
  p <- arr_get (pty_data h) i ;;
  n <- arr_get (seen_n r) i ;;
  c <- arr_get (seen_r r) i ;;
  let* (z, n', c') := patch2flush_stream E (td_fd p) i ch n c in
  ln <- arr_set (seen_n r) i n' ;;
  lc <- arr_set (seen_r r) i c' ;;
  ret (z, set_seen_n ln (set_seen_r lc r)).

(** The two [..._LEN_LO] cases; [next] is the state that reads the body. *)
Definition control_len_lo (ch : byte) (next : Z) (r : rx) : HM (Z * rx) :=
  let len := Z.lor (control_registry_len r) (b2z ch) in
  let r := set_control_registry_json None
             (set_control_registry_pos 0 (set_control_registry_len len r)) in
  if len =? 0 then ret (0, set_control_state VIRTIOSO_CONTROL_IDLE r)
  else
  ok <- alloc E (len + 1) ;;
  if negb ok then ret (0, set_control_state VIRTIOSO_CONTROL_IDLE r)
  else ret (0, set_control_state next
                 (set_control_registry_json (Some (replicate (Z.to_nat (len + 1)) x00)) r)).

(** Storing one body byte and advancing the position. *)
Definition control_store (ch : byte) (r : rx) : HM rx :=
  json <- match control_registry_json r with
          | Some buf =>
              if control_registry_pos r <? control_registry_len r then
                buf <- arr_set buf (control_registry_pos r) ch ;; ret (Some buf)
              else ret (Some buf)
          | None => ret None
          end ;;
  ret (set_control_registry_pos (u32 (control_registry_pos r + 1))
         (set_control_registry_json json r)).

(** A complete STREAM_REGISTRY record: only the first is applied. *)
Definition control_registry_done (r : rx) : HM (Z * rx) :=
  h <- get ;;
  match virtioso_registry_json h with
  | None =>
      modify (set_registry_json (control_registry_json r)) ;;;
      emit_virtioso_registry_record E ;;;
      z <- apply_virtioso_registry_json E (control_registry_json r) ;;
      let r := set_control_registry_json None r in
      if negb (z =? 0) then ret (-1, r)
      else ret (0, set_control_state VIRTIOSO_CONTROL_IDLE r)
  | Some _ =>
      ret (0, set_control_state VIRTIOSO_CONTROL_IDLE (set_control_registry_json None r))
  end.

(** A complete CONNECTED or DISCONNECTED record. *)
Definition control_announce_done (r : rx) : HM (Z * rx) :=
  h <- get ;;
  match control_registry_json r with
  | Some buf =>
      if bool_decide (virtioso_pending_ctrl_type h = VCMUX_PROTO_CONTROL_STREAM_CONNECTED)
         && (1 <=? control_registry_len r)
      then
        sid <- arr_get buf 0 ;;
        apply_virtioso_stream_connected E sid
          (take (Z.to_nat (control_registry_len r - 1)) (drop 1 buf))
      else ret tt
  | None => ret tt
  end ;;;
  ret (0, set_control_state VIRTIOSO_CONTROL_IDLE (set_control_registry_json None r)).

(** [switch ( *control_state )]. *)
Definition feed_control (ch : byte) (r : rx) : HM (Z * rx) :=
  let st := control_state r in
  if st =? VIRTIOSO_CONTROL_CMD then
    if bool_decide (ch = VCMUX_PROTO_CONTROL_STREAM_REGISTRY) then
      ret (0, set_control_state VIRTIOSO_CONTROL_REGISTRY_LEN_HI
                (set_control_registry_pos 0 (set_control_registry_len 0 r)))
    else if bool_decide (ch = VCMUX_PROTO_CONTROL_DOWNLINK_ACK) then
      virtioso_note_downlink_ack ;;;
      ret (0, set_control_state VIRTIOSO_CONTROL_IDLE r)
    else if bool_decide (ch = VCMUX_PROTO_CONTROL_STREAM_CONNECTED) ||
            bool_decide (ch = VCMUX_PROTO_CONTROL_STREAM_DISCONNECTED) then
      modify (set_pending_ctrl_type ch) ;;;
      ret (0, set_control_state VIRTIOSO_CONTROL_ANNOUNCE_LEN_HI
                (set_control_registry_pos 0 (set_control_registry_len 0 r)))
    else ret (0, set_control_state VIRTIOSO_CONTROL_IDLE r)
  else if st =? VIRTIOSO_CONTROL_REGISTRY_LEN_HI then
    ret (0, set_control_state VIRTIOSO_CONTROL_REGISTRY_LEN_LO
              (set_control_registry_len (Z.shiftl (b2z ch) 8) r))
  else if st =? VIRTIOSO_CONTROL_REGISTRY_LEN_LO then
    control_len_lo ch VIRTIOSO_CONTROL_REGISTRY_JSON r
  else if st =? VIRTIOSO_CONTROL_REGISTRY_JSON then
    r <- control_store ch r ;;
    if control_registry_len r <=? control_registry_pos r
    then control_registry_done r else ret (0, r)
  else if st =? VIRTIOSO_CONTROL_ANNOUNCE_LEN_HI then
    ret (0, set_control_state VIRTIOSO_CONTROL_ANNOUNCE_LEN_LO
              (set_control_registry_len (Z.shiftl (b2z ch) 8) r))
  else if st =? VIRTIOSO_CONTROL_ANNOUNCE_LEN_LO then
    control_len_lo ch VIRTIOSO_CONTROL_ANNOUNCE_PAYLOAD r
  else if st =? VIRTIOSO_CONTROL_ANNOUNCE_PAYLOAD then
    r <- control_store ch r ;;
    if control_registry_len r <=? control_registry_pos r
    then control_announce_done r else ret (0, r)
  else ret (0, set_control_state VIRTIOSO_CONTROL_IDLE r).

(** A byte outside control records and escape sequences. *)
Definition feed_plain (ch : byte) (r : rx) : HM (Z * rx) :=
  if bool_decide (ch = VCMUX_PROTO_ESC_START) then ret (0, set_in_escape true r)
  else if cur_rx_stream r <? 0 then
    h <- get ;;
    let d := virtioso_default_pty_idx (cfg h) in
    if (0 <=? d) && (d <? pty_max_count h) then deliver d ch r else ret (0, r)
  else deliver (cur_rx_stream r) ch r.

Definition feed_virtioso_byte (ch : byte) (r : rx) : HM (Z * rx) :=
  if negb (control_state r =? VIRTIOSO_CONTROL_IDLE) then feed_control ch r
  else if in_escape r then
    let r := set_in_escape false r in
    if bool_decide (ch = VCMUX_PROTO_ESC_DEFAULT) then ret (0, set_cur_rx_stream (-1) r)
    else if bool_decide (ch = VCMUX_PROTO_ESC_ESC) then
      if 0 <=? cur_rx_stream r then deliver (cur_rx_stream r) ch r else ret (0, r)
    else if bool_decide (ch = VCMUX_PROTO_ESC_CONTROL) then
      ret (0, set_control_state VIRTIOSO_CONTROL_CMD r)
    else
      stream_idx <- find_virtioso_pty_idx_by_stream_id ch ;;
      ret (0, set_cur_rx_stream (if 0 <=? stream_idx then stream_idx else -1) r)
  else feed_plain ch r.

(** The copy of a byte to the raw CCPLEX PTY: [Some] locals to go on with. *)
Definition mirror_raw (ch : byte) (r : rx) : HM (option rx) :=
  h <- get ;;
  let d := raw_ccplex_pty_idx (cfg h) in
  if (0 <=? d) && (d <? pty_max_count h) then
    let* (z, r') := deliver d ch r in
    ret (if negb (z =? 0) then None else Some r')
  else ret (Some r).

Definition feed_nvidia_outer_or_virtioso_raw (ch : byte) (r : rx) : HM (Z * rx) :=
  h <- get ;;
  if virtioso_outer_mode (cfg h) =? VIRTIOSO_OUTER_RAW then
    m <- mirror_raw ch r ;;
    match m with
    | None => ret (-1, r)
    | Some r => feed_virtioso_byte ch r
    end
  else if outer_in_escape r then
    let r := set_outer_in_escape false r in
    if bool_decide (ch = UART_PROTO_ESC_ESC) then
      if cur_outer_tag r =? virtioso_outer_tag_idx (cfg h)
      then feed_virtioso_byte UART_PROTO_ESC_START r else ret (0, r)
    else if bool_decide (ch = UART_PROTO_ESC_RESET) then
      ret (0, set_cur_outer_tag (-1) (set_cur_rx_stream (-1) (set_in_escape false r)))
    else
      let tag_idx := find_tag_value chip_tags ch 0 in
      ret (0, if 0 <=? tag_idx then set_cur_outer_tag tag_idx r else r)
  else if bool_decide (ch = UART_PROTO_ESC_START) then ret (0, set_outer_in_escape true r)
  else if cur_outer_tag r =? virtioso_outer_tag_idx (cfg h) then
    m <- mirror_raw ch r ;;
    match m with
    | None => ret (-1, r)
    | Some r => feed_virtioso_byte ch r
    end
  else ret (0, r).

(** A feeder on every byte of a buffer, in order, up to the first error:
    the loop of [tty_input_handler]. *)
Fixpoint feed_all (feed : byte → rx → HM (Z * rx)) (l : list byte) (r : rx) : HM (Z * rx) :=
  match l with
  | [] => ret (0, r)
  | ch :: l' =>
      let* (z, r') := feed ch r in
      if z <? 0 then ret (z, r') else feed_all feed l' r'
  end.

End Demux.
