(* ===== verification/DemuxSpec.v ===== *)
(** * The host demultiplexer refines the token semantics

    [tok_step] says what a demultiplexer does with each token of a VCMux
    stream.  [feed_wire] shows that feeding the bytes of a token to
    [feed_virtioso_byte] is that step, for every host state and every
    environment whose allocations succeed. *)

From S2P Require Import Prelude Proto CString HostState HostIo Flush Registry Demux.

(* ------------------------------------------------------------------ *)
(** ** Token semantics *)

(** Between tokens the demultiplexer holds no partial escape or record. *)
Definition synced (r : rx) : Prop :=
  in_escape r = false ∧ control_state r = VIRTIOSO_CONTROL_IDLE.

(** The locals once a record's body has been received. *)
Definition with_body (next : Z) (body : list byte) (r : rx) : rx :=
  set_control_state next
    (set_control_registry_len (Z.of_nat (length body))
      (set_control_registry_pos (Z.of_nat (length body))
        (set_control_registry_json (Some (body ++ [x00])) r))).

Section Tokens.
Context (E : env).

(** A payload byte for the current stream.  Without one, plain bytes go to
    the default PTY, and an escaped 0xfe is dropped. *)
Definition tok_byte (b : byte) (r : rx) : HM (Z * rx) :=
  if 0 <=? cur_rx_stream r then deliver E (cur_rx_stream r) b r
  else if bool_decide (b = VCMUX_PROTO_ESC_START) then ret (0, r)
  else
    h <- get ;;
    let d := virtioso_default_pty_idx (cfg h) in
    if (0 <=? d) && (d <? pty_max_count h) then deliver E d b r else ret (0, r).

(** Storage for a record's body. *)
Definition tok_body (body : list byte) (next : Z) (r : rx) : HM rx :=
  alloc E (Z.of_nat (length body) + 1) ;;; ret (with_body next body r).

Definition tok_step (t : token) (r : rx) : HM (Z * rx) :=
  match t with
  | TByte b => tok_byte b r
  | TSelect s =>
      i <- find_virtioso_pty_idx_by_stream_id s ;;
      ret (0, set_cur_rx_stream (if 0 <=? i then i else -1) r)
  | TDefault => ret (0, set_cur_rx_stream (-1) r)
  | TAck => virtioso_note_downlink_ack ;;; ret (0, r)
  | TRegistry json =>
      r <- tok_body json VIRTIOSO_CONTROL_REGISTRY_JSON r ;;
      control_registry_done E r
  | TConnected body =>
      modify (set_pending_ctrl_type VCMUX_PROTO_CONTROL_STREAM_CONNECTED) ;;;
      r <- tok_body body VIRTIOSO_CONTROL_ANNOUNCE_PAYLOAD r ;;
      control_announce_done E r
  | TDisconnected body =>
      modify (set_pending_ctrl_type VCMUX_PROTO_CONTROL_STREAM_DISCONNECTED) ;;;
      r <- tok_body body VIRTIOSO_CONTROL_ANNOUNCE_PAYLOAD r ;;
      control_announce_done E r
  end.

Fixpoint tok_all (ts : list token) (r : rx) : HM (Z * rx) :=
  match ts with
  | [] => ret (0, r)
  | t :: ts' =>
      let* (z, r') := tok_step t r in
      if z <? 0 then ret (z, r') else tok_all ts' r'
  end.

End Tokens.

(* ------------------------------------------------------------------ *)
(** ** Lemmas: sequences of bytes *)

Section Feeding.
Context (E : env).

Lemma feed_all_app f l1 l2 r h :
  feed_all f (l1 ++ l2) r h =
  (let* (z, r') := feed_all f l1 r in
   if z <? 0 then ret (z, r') else feed_all f l2 r') h.
Proof.
  revert r h. induction l1 as [|c l1 IH]; intros r h; [done|].
  cbn [app feed_all]. rewrite bind_assoc. apply bind_ext. intros [z r'] h' _.
  destruct (z <? 0) eqn:Hz; [unfold bind, ret; by rewrite Hz|apply IH].
Qed.

Lemma feed_all_cons f c l r h z r' h' :
  f c r h = Done (z, r') h' → 0 ≤ z → feed_all f (c :: l) r h = feed_all f l r' h'.
Proof.
  intros Hf Hz. cbn [feed_all]. rewrite (run_bind _ _ _ _ _ Hf).
  by rewrite (proj2 (Z.ltb_ge z 0)).
Qed.

(** The first byte's step, then the rest. *)
Lemma feed_all_step f c l r h :
  feed_all f (c :: l) r h =
  (let* (z, r') := f c r in if z <? 0 then ret (z, r') else feed_all f l r') h.
Proof. done. Qed.

Lemma set_in_escape_twice r : in_escape r = false →
  set_in_escape false (set_in_escape true r) = r.
Proof. destruct r; cbn. by intros ->. Qed.

(** What [synced] means for the first tests of the feeder. *)
Lemma feed_synced_esc r h :
  synced r → feed_virtioso_byte E xfe r h = Done (0, set_in_escape true r) h.
Proof. intros [He Hc]. unfold feed_virtioso_byte, feed_plain. by rewrite Hc, He. Qed.

Lemma feed_escaped c r h :
  synced r →
  feed_virtioso_byte E c (set_in_escape true r) h =
  (if bool_decide (c = VCMUX_PROTO_ESC_DEFAULT) then ret (0, set_cur_rx_stream (-1) r)
   else if bool_decide (c = VCMUX_PROTO_ESC_ESC) then
     if 0 <=? cur_rx_stream r then deliver E (cur_rx_stream r) c r else ret (0, r)
   else if bool_decide (c = VCMUX_PROTO_ESC_CONTROL) then
     ret (0, set_control_state VIRTIOSO_CONTROL_CMD r)
   else
     stream_idx <- find_virtioso_pty_idx_by_stream_id c ;;
     ret (0, set_cur_rx_stream (if 0 <=? stream_idx then stream_idx else -1) r)) h.
Proof.
  intros [He Hc]. unfold feed_virtioso_byte, feed_plain. cbn [control_state set_in_escape in_escape].
  rewrite Hc. cbn [negb]. by rewrite set_in_escape_twice.
Qed.

(** An escape byte and the byte after it, from a synchronised state. *)
Lemma feed_all_escape c l r h :
  synced r →
  feed_all (feed_virtioso_byte E) (xfe :: c :: l) r h =
  (let* (z, r') := feed_virtioso_byte E c (set_in_escape true r) in
   if z <? 0 then ret (z, r') else feed_all (feed_virtioso_byte E) l r') h.
Proof. intros Hs. by rewrite (feed_all_cons _ _ _ _ _ _ _ _ (feed_synced_esc r h Hs)). Qed.

(** *** Control records *)

(** Storing a body: the buffer holds what was read, then zeros. *)
Lemma control_store_run pre c k r h :
  control_registry_json r = Some (pre ++ replicate (S k) x00) →
  control_registry_pos r = Z.of_nat (length pre) →
  control_registry_pos r < control_registry_len r <= 0xffff →
  control_store c r h =
  Done (set_control_registry_pos (Z.of_nat (length pre) + 1)
          (set_control_registry_json (Some ((pre ++ [c]) ++ replicate k x00)) r)) h.
Proof.
  intros Hj Hp Hl. unfold control_store. rewrite Hj.
  rewrite (proj2 (Z.ltb_lt _ _)) by lia. unfold bind.
  rewrite arr_set_run by (rewrite length_app, length_replicate; lia).
  cbn [ret]. unfold ret. rewrite Hp, Nat2Z.id. cbn [replicate].
  rewrite insert_app_r_alt, Nat.sub_diag by lia. cbn [list_insert].
  unfold u32. rewrite Z.mod_small by lia. by rewrite <-app_assoc.
Qed.

(** A state in the middle of a record's body. *)
Definition in_body (next : Z) (pre : list byte) (todo : nat) (r : rx) : rx :=
  set_control_state next
    (set_control_registry_len (Z.of_nat (length pre + todo))
      (set_control_registry_pos (Z.of_nat (length pre))
        (set_control_registry_json (Some (pre ++ replicate (S todo) x00)) r))).

Lemma in_body_done next body r : in_body next body 0 r = with_body next body r.
Proof. unfold in_body, with_body. by rewrite Nat.add_0_r. Qed.

(** The completion of a record, by the state that reads its body. *)
Definition body_done (next : Z) (r : rx) : HM (Z * rx) :=
  if next =? VIRTIOSO_CONTROL_REGISTRY_JSON then control_registry_done E r
  else control_announce_done E r.

Lemma feed_body_byte next pre c k r h :
  next = VIRTIOSO_CONTROL_REGISTRY_JSON ∨ next = VIRTIOSO_CONTROL_ANNOUNCE_PAYLOAD →
  (length pre + S k ≤ Z.to_nat 0xffff)%nat →
  feed_virtioso_byte E c (in_body next pre (S k) r) h =
  (if decide (k = 0%nat) then body_done next (with_body next (pre ++ [c]) r)
   else ret (0, in_body next (pre ++ [c]) k r)) h.
Proof.
  intros Hnext Hlen.
  assert (Hst : control_store c (in_body next pre (S k) r) h =
                Done (in_body next (pre ++ [c]) k r) h).
  { rewrite (control_store_run pre c (S k)); cbn; [|done|done|lia].
    unfold in_body. rewrite length_app. cbn [length].
    replace (length pre + 1 + k)%nat with (length pre + S k)%nat by lia.
    by replace (Z.of_nat (length pre + 1)) with (Z.of_nat (length pre) + 1) by lia. }
  unfold feed_virtioso_byte, feed_plain, feed_control.
  assert (Hpos : (control_registry_len (in_body next (pre ++ [c]) k r) <=?
                  control_registry_pos (in_body next (pre ++ [c]) k r)) = bool_decide (k = 0%nat)).
  { cbn. case_bool_decide; [apply Z.leb_le|apply Z.leb_gt]; lia. }
  destruct Hnext as [-> | ->]; cbn; unfold bind; rewrite Hst, Hpos.
  all: case_bool_decide as Hk; destruct (decide (k = 0%nat)); try done; subst k;
    by rewrite in_body_done.
Qed.

Lemma feed_body next pre body rest r h :
  next = VIRTIOSO_CONTROL_REGISTRY_JSON ∨ next = VIRTIOSO_CONTROL_ANNOUNCE_PAYLOAD →
  (length (pre ++ body) ≤ Z.to_nat 0xffff)%nat → body ≠ [] →
  feed_all (feed_virtioso_byte E) (body ++ rest) (in_body next pre (length body) r) h =
  (let* (z, r') := body_done next (with_body next (pre ++ body) r) in
   if z <? 0 then ret (z, r') else feed_all (feed_virtioso_byte E) rest r') h.
Proof.
  intros Hnext. revert pre h. induction body as [|c body IH]; intros pre h Hlen Hne; [done|].
  rewrite length_app in Hlen. cbn [length app] in *. rewrite feed_all_step.
  unfold bind at 1. rewrite feed_body_byte by (done || lia).
  destruct (decide (length body = 0%nat)) as [Hz|Hz].
  - apply nil_length_inv in Hz as ->. done.
  - unfold ret. cbn [Z.ltb]. change (0 <? 0) with false. cbv iota.
    rewrite IH; [by rewrite <-app_assoc| |by destruct body].
    rewrite !length_app. cbn. lia.
Qed.

(** The header of a record, up to the state that reads the body. *)
Lemma control_len_lo_run hi lo (body : list byte) next r h :
  alloc_ok E → 0 < Z.of_nat (length body) →
  Z.lor (Z.shiftl (b2z hi) 8) (b2z lo) = Z.of_nat (length body) →
  control_registry_len r = Z.shiftl (b2z hi) 8 →
  control_len_lo E lo next r h =
  (alloc E (Z.of_nat (length body) + 1) ;;; ret (0, in_body next [] (length body) r)) h.
Proof.
  intros Hok Hpos Hlen Hr. unfold control_len_lo. cbv zeta. rewrite Hr, Hlen.
  rewrite (proj2 (Z.eqb_neq _ _)) by lia.
  unfold bind at 1 2, alloc, sys, bind, ret.
  rewrite (proj2 (Z.eqb_neq _ _)) by apply Hok. cbn [negb].
  unfold in_body. cbn [length app].
  replace (Z.to_nat (Z.of_nat (length body) + 1)) with (S (length body)) by lia. done.
Qed.

Lemma in_body_idem next pre n r r' :
  in_escape r' = in_escape r → cur_rx_stream r' = cur_rx_stream r →
  seen_n r' = seen_n r → seen_r r' = seen_r r →
  outer_in_escape r' = outer_in_escape r → cur_outer_tag r' = cur_outer_tag r →
  in_body next pre n r' = in_body next pre n r.
Proof. destruct r, r'; cbn. unfold in_body; cbn. by intros -> -> -> -> -> ->. Qed.

(** The first three bytes of a record. *)
Lemma feed_record_ctrl next ctrl rest r h :
  synced r →
  (next = VIRTIOSO_CONTROL_REGISTRY_JSON ∧ ctrl = VCMUX_PROTO_CONTROL_STREAM_REGISTRY ∨
   next = VIRTIOSO_CONTROL_ANNOUNCE_PAYLOAD ∧
     (ctrl = VCMUX_PROTO_CONTROL_STREAM_CONNECTED ∨
      ctrl = VCMUX_PROTO_CONTROL_STREAM_DISCONNECTED)) →
  feed_all (feed_virtioso_byte E) (xfe :: xfd :: ctrl :: rest) r h =
  ((if next =? VIRTIOSO_CONTROL_REGISTRY_JSON then ret tt
    else modify (set_pending_ctrl_type ctrl)) ;;;
   feed_all (feed_virtioso_byte E) rest
     (set_control_state (next - 2) (set_control_registry_pos 0
        (set_control_registry_len 0 (set_control_state VIRTIOSO_CONTROL_CMD r))))) h.
Proof.
  intros Hs Hn. rewrite feed_all_escape by done.
  rewrite (run_bind _ _ _ (0, set_control_state VIRTIOSO_CONTROL_CMD r) h)
    by (by rewrite feed_escaped). cbv iota beta. change (0 <? 0) with false. cbv iota.
  rewrite feed_all_step. 
  destruct Hn as [[-> ->]|[-> [-> | ->]]]; done.
Qed.

Lemma feed_record next ctrl body rest r h :
  alloc_ok E → synced r → body_ok body = true →
  (next = VIRTIOSO_CONTROL_REGISTRY_JSON ∧ ctrl = VCMUX_PROTO_CONTROL_STREAM_REGISTRY ∨
   next = VIRTIOSO_CONTROL_ANNOUNCE_PAYLOAD ∧
     (ctrl = VCMUX_PROTO_CONTROL_STREAM_CONNECTED ∨
      ctrl = VCMUX_PROTO_CONTROL_STREAM_DISCONNECTED)) →
  feed_all (feed_virtioso_byte E) (control_record ctrl body ++ rest) r h =
  ((if next =? VIRTIOSO_CONTROL_REGISTRY_JSON then ret tt
    else modify (set_pending_ctrl_type ctrl)) ;;;
   r1 <- tok_body E body next r ;;
   let* (z, r') := body_done next r1 in
   if z <? 0 then ret (z, r') else feed_all (feed_virtioso_byte E) rest r') h.
Proof.
  intros Hok Hs Hb Hn. unfold body_ok in Hb. z_bool.
  pose proof (control_length body ltac:(done)) as Hlen. cbv zeta in Hlen.
  unfold control_record. cbv zeta.
  set (hi := z2b (Z.land (Z.shiftr _ 8) _)) in *. set (lo := z2b (Z.land (Z.of_nat (length body)) 0xff)) in *.
  cbn [app]. rewrite (feed_record_ctrl next) by done.
  apply bind_ext. intros _ h' _.
  set (r0 := set_control_state (next - 2) _).
  set (r1 := set_control_state (next - 1) (set_control_registry_len (Z.shiftl (b2z hi) 8) r0)).
  rewrite (feed_all_cons _ _ _ _ _ 0 r1 h')
    by (done || (destruct Hn as [[-> ->]|[-> ?]]; done)).
  set (q := RqMalloc (Z.of_nat (length body) + 1)).
  set (h2 := set_trace ((q, E (trace h') q) :: trace h') h').
  rewrite (feed_all_cons _ _ _ _ _ 0 (in_body next [] (length body) r) h2); [|..|done].
  - rewrite (run_bind _ _ _ (with_body next body r) h2) by done.
    assert (next = VIRTIOSO_CONTROL_REGISTRY_JSON ∨ next = VIRTIOSO_CONTROL_ANNOUNCE_PAYLOAD)
      by (destruct Hn as [[? _]|[? _]]; auto).
    by rewrite (feed_body next [] body rest) by (done || (cbn; lia) || (destruct body; done)).
  - rewrite <-(in_body_idem next [] (length body) r r1) by done.
    transitivity (control_len_lo E lo next r1 h');
      [destruct Hn as [[-> ->]|[-> ?]]; done|].
    by rewrite (control_len_lo_run hi lo body) by done.
Qed.

(** *** One token, then the rest *)

Lemma feed_token t rest r h :
  alloc_ok E → synced r → token_ok t = true →
  feed_all (feed_virtioso_byte E) (wire t ++ rest) r h =
  (let* (z, r') := tok_step E t r in
   if z <? 0 then ret (z, r') else feed_all (feed_virtioso_byte E) rest r') h.
Proof.
  intros Hok Hs Ht. pose proof Hs as [He Hc].
  destruct t as [b|s| |json| |body|body]; cbn [wire tok_step token_ok] in *.
  - unfold esc_byte, tok_byte. case_bool_decide as Hb.
    + subst b. cbn [app]. rewrite feed_all_escape by done.
      unfold bind. rewrite feed_escaped by done. done.
    + cbn [app]. rewrite feed_all_step. unfold bind at 1 2.
      unfold feed_virtioso_byte, feed_plain. rewrite Hc, He. cbn [negb].
      rewrite bool_decide_eq_false_2 by done.
      destruct (cur_rx_stream r <? 0) eqn:Hcur; z_bool.
      * rewrite (proj2 (Z.leb_gt 0 _)) by lia. done.
      * rewrite (proj2 (Z.leb_le 0 _)) by lia. done.
  - cbn [app]. rewrite feed_all_escape by done. apply selectable_spec in Ht as (? & ? & ?).
    unfold bind at 1. rewrite feed_escaped by done.
    rewrite !bool_decide_eq_false_2 by done. done.
  - cbn [app]. rewrite feed_all_escape by done. unfold bind at 1. by rewrite feed_escaped.
  - rewrite (feed_record VIRTIOSO_CONTROL_REGISTRY_JSON) by auto.
    change (VIRTIOSO_CONTROL_REGISTRY_JSON =? _) with true. cbv iota.
    rewrite bind_ret_l, bind_assoc. done.
  - cbn [app]. rewrite feed_all_escape by done.
    rewrite (run_bind _ _ _ (0, set_control_state VIRTIOSO_CONTROL_CMD r) h)
      by (by rewrite feed_escaped). cbv iota beta. change (0 <? 0) with false. cbv iota.
    rewrite feed_all_step. unfold feed_virtioso_byte, feed_plain. cbn. unfold bind, modify, ret.
    replace (set_control_state VIRTIOSO_CONTROL_IDLE (set_control_state VIRTIOSO_CONTROL_CMD r))
      with r by (destruct r; cbn in *; by subst). done.
  - rewrite (feed_record VIRTIOSO_CONTROL_ANNOUNCE_PAYLOAD) by auto.
    rewrite bind_assoc. apply bind_ext. intros _ h' _. by rewrite bind_assoc.
  - rewrite (feed_record VIRTIOSO_CONTROL_ANNOUNCE_PAYLOAD) by auto.
    rewrite bind_assoc. apply bind_ext. intros _ h' _. by rewrite bind_assoc.
Qed.

Lemma deliver_fields i b r h :
  wp partial (deliver E i b r) (λ a _, synced r → synced a.2) h.
Proof.
  unfold deliver. by wp_skip.
Qed.

Lemma tok_step_synced t r h :
  synced r → wp partial (tok_step E t r) (λ a _, 0 ≤ a.1 → synced a.2) h.
Proof.
  intros Hs. pose proof Hs as [He Hc].
  assert (Hreg : ∀ r1 h1, in_escape r1 = false →
    wp partial (control_registry_done E r1) (λ a _, 0 ≤ a.1 → synced a.2) h1).
  { intros r1 h1 Hr1. unfold control_registry_done. wp_skip; cbn; intros; done || lia. }
  assert (Hann : ∀ r1 h1, in_escape r1 = false →
    wp partial (control_announce_done E r1) (λ a _, 0 ≤ a.1 → synced a.2) h1).
  { intros r1 h1 Hr1. unfold control_announce_done. by wp_skip. }
  destruct t as [b|s| |json| |body|body]; cbn [tok_step].
  - unfold tok_byte. wp_step.
    { eapply wp_mono; [apply deliver_fields|]. auto. }
    wp_step; [by wp_step|]. do 2 wp_step. wp_step; [|by wp_step].
    eapply wp_mono; [apply deliver_fields|]. auto.
  - wp_step. eapply wp_mono; [apply wp_any|intros]. by wp_step.
  - by wp_step.
  - unfold tok_body. do 2 wp_step. eapply wp_mono; [apply wp_any|intros]. wp_step. by apply Hreg.
  - by wp_steps.
  - unfold tok_body. do 4 wp_step. eapply wp_mono; [apply wp_any|intros]. wp_step. by apply Hann.
  - unfold tok_body. do 4 wp_step. eapply wp_mono; [apply wp_any|intros]. wp_step. by apply Hann.
Qed.

(** The refinement: feeding the encoding of a token sequence is running the
    token semantics on it. *)
Lemma feed_tokens ts rest r h :
  alloc_ok E → synced r → forallb token_ok ts = true →
  feed_all (feed_virtioso_byte E) (wires ts ++ rest) r h =
  (let* (z, r') := tok_all E ts r in
   if z <? 0 then ret (z, r') else feed_all (feed_virtioso_byte E) rest r') h.
Proof.
  intros Hok Hs Hts. revert r h Hs. induction ts as [|t ts IH]; intros r h Hs; [done|].
  cbn [forallb] in Hts. apply andb_prop in Hts as [Ht Hts].
  rewrite wires_cons, <-app_assoc, feed_token by done. cbn [tok_all].
  rewrite bind_assoc. apply bind_ext. intros [z r'] h' Hstep.
  destruct (z <? 0) eqn:Hz; z_bool; [|].
  - unfold bind, ret. by rewrite (proj2 (Z.ltb_lt z 0)).
  - apply IH; [done|]. pose proof (tok_step_synced t r h Hs) as Hw.
    unfold wp in Hw. rewrite Hstep in Hw. by apply Hw.
Qed.

End Feeding.
