(* ===== verification/DemuxInv.v ===== *)
(** * Safety of the host demultiplexer

    Whatever bytes arrive and whatever the environment answers, both
    feeders finish, stay inside every array, keep the stream table well
    formed and keep their own locals consistent. *)

From S2P Require Import Prelude Proto CString HostState HostIo Flush Registry RegistryInv Demux.

(** The locals between two bytes, for the table of [h]. *)
Record rx_ok (h : host) (r : rx) : Prop := RxOk {
  ro_cur : -1 ≤ cur_rx_stream r < num_proc h;
  ro_seen_n : length (seen_n r) = NPTY;
  ro_seen_r : length (seen_r r) = NPTY;
  ro_lo : control_state r = VIRTIOSO_CONTROL_REGISTRY_LEN_LO ∨
          control_state r = VIRTIOSO_CONTROL_ANNOUNCE_LEN_LO →
    ∃ hi, control_registry_len r = Z.shiftl (b2z hi) 8;
  ro_body : control_state r = VIRTIOSO_CONTROL_REGISTRY_JSON ∨
            control_state r = VIRTIOSO_CONTROL_ANNOUNCE_PAYLOAD →
    ∃ buf, control_registry_json r = Some buf ∧
      Z.of_nat (length buf) = control_registry_len r + 1 ∧
      0 ≤ control_registry_pos r < control_registry_len r ∧
      control_registry_len r ≤ 0xffff
}.

(** Only the line-ending flags differ, and their arrays keep their size. *)
Definition same_but_seen (r r' : rx) : Prop :=
  ∃ ln lc, r' = set_seen_n ln (set_seen_r lc r) ∧
    length ln = length (seen_n r) ∧ length lc = length (seen_r r).

(** What [deliver] does to the PTY of index [i]. *)
Definition deliver_post (E : env) (h : host) (i : Z) (b : byte) (r : rx)
    (a : Z * rx) (h' : host) : Prop :=
  stable h h' ∧ -3 ≤ a.1 ≤ 0 ∧ same_but_seen r a.2 ∧
  inputs (trace h') = inputs (trace h) ∧
  ∀ p n c, pty_data h !! Z.to_nat i = Some p →
    seen_n r !! Z.to_nat i = Some n → seen_r r !! Z.to_nat i = Some c →
    tolerates E h →
    a.1 = 0 ∧ delivers h h' (td_fd p) (patch_out h n c b).1.1 ∧
    a.2 = set_seen_n (<[Z.to_nat i := (patch_out h n c b).1.2]> (seen_n r))
            (set_seen_r (<[Z.to_nat i := (patch_out h n c b).2]> (seen_r r)) r).

(** The states that expect nothing of the record's fields. *)
Definition fresh_state (st : Z) : bool :=
  negb (existsb (Z.eqb st)
    [VIRTIOSO_CONTROL_REGISTRY_LEN_LO; VIRTIOSO_CONTROL_ANNOUNCE_LEN_LO;
     VIRTIOSO_CONTROL_REGISTRY_JSON; VIRTIOSO_CONTROL_ANNOUNCE_PAYLOAD]).

(** What a step of a feeder promises. *)
Definition feed_post (h : host) (a : Z * rx) (h' : host) : Prop :=
  wf h' ∧ a.1 ≤ 0 ∧ (a.1 = 0 → rx_ok h' a.2) ∧ num_proc h ≤ num_proc h'.

(* ------------------------------------------------------------------ *)
(** ** Lemmas *)

Lemma stable_shape h h' n : stable h h' → shape h n → shape h' n.
Proof.
  intros Hs []. pose proof (stable_length _ _ Hs). destruct Hs.
  constructor; try congruence. by rewrite st_tags.
Qed.

Lemma stable_wf h h' : stable h h' → wf h → wf h'.
Proof.
  intros Hs [H1 H2 H3 H4]. pose proof (stable_shape _ _ _ Hs H1). destruct Hs.
  constructor; congruence.
Qed.

Lemma rx_ok_more h h' r : num_proc h ≤ num_proc h' → rx_ok h r → rx_ok h' r.
Proof. intros Hn []. constructor; try done. lia. Qed.

Lemma same_but_seen_ok h r r' : same_but_seen r r' → rx_ok h r → rx_ok h r'.
Proof. intros (ln & lc & -> & Hn & Hr) []. constructor; cbn; (done || congruence). Qed.

(** Changing the routing fields outside a record. *)
Lemma rx_ok_route h r r' :
  rx_ok h r → -1 ≤ cur_rx_stream r' < num_proc h →
  seen_n r' = seen_n r → seen_r r' = seen_r r →
  fresh_state (control_state r') = true →
  rx_ok h r'.
Proof.
  intros [] Hc Hn Hr Hst. constructor; try done; try congruence;
    (intros [Heq|Heq]; rewrite Heq in Hst; discriminate).
Qed.

(** Leaving a record, or not having started one. *)
Lemma feed_post_route h h' r r' :
  wf h' → num_proc h ≤ num_proc h' → rx_ok h r →
  -1 ≤ cur_rx_stream r' < num_proc h →
  seen_n r' = seen_n r → seen_r r' = seen_r r →
  fresh_state (control_state r') = true →
  feed_post h (0, r') h'.
Proof.
  intros. split_and!; try done. intros _. eapply rx_ok_more; [done|].
  by eapply rx_ok_route.
Qed.

Section Safety.
Context (E : env).

(** In either mode: the index is inside the arrays. *)
Lemma wp_deliver_at ok i b r h :
  0 ≤ i < Z.of_nat (length (pty_data h)) → i < Z.of_nat NPTY →
  length (seen_n r) = NPTY → length (seen_r r) = NPTY →
  wp ok (deliver E i b r) (deliver_post E h i b r) h.
Proof.
  intros Hi Hb Hln Hlr.
  unfold deliver. do 3 wp_step. apply wp_arr_get; [done|]. intros p Hp.
  wp_step. apply wp_arr_get; [rewrite Hln; lia|]. intros n Hn.
  wp_step. apply wp_arr_get; [rewrite Hlr; lia|]. intros c Hc. wp_step.
  eapply wp_mono.
  { apply wp_preserves; [apply patch2flush_reads_nothing|reflexivity|].
    apply wp_patch2flush_stream; intros _; lia. }
  intros [[z n'] c'] h1 ((Hst & Hz & Hpost) & Hin).
  wp_step. apply wp_arr_set; [rewrite Hln; lia|]. wp_step. apply wp_arr_set; [rewrite Hlr; lia|].
  wp_step. split; [done|]. split; [done|]. split.
  - eexists _, _. split; [done|]. by rewrite !length_insert.
  - split; [done|]. intros p' n0 c0 Hp' Hn' Hc' Ht. simplify_eq. cbn [fst snd].
    destruct Hpost as (-> & ? & -> & ->); [done|eauto using elem_at|]. done.
Qed.

Lemma wp_deliver ok i b r h :
  wf h → 0 ≤ i < num_proc h → length (seen_n r) = NPTY → length (seen_r r) = NPTY →
  wp ok (deliver E i b r) (deliver_post E h i b r) h.
Proof.
  intros Hwf Hi Hln Hlr. pose proof (wf_shape _ Hwf) as Hs.
  pose proof (sh_pty _ _ Hs) as Hlp. pose proof (sh_n _ _ Hs).
  unfold VIRTIOSO_MAX_PTY_COUNT in *.
  apply wp_deliver_at; rewrite ?Hlp; unfold NPTY; (done || lia).
Qed.

Lemma deliver_feed_post h i b r a h' :
  wf h → rx_ok h r → deliver_post E h i b r a h' → feed_post h a h'.
Proof.
  intros Hwf Hr (Hst & Hz & Hseen & _). pose proof (st_num_proc _ _ Hst) as Hn.
  split_and!; [by eapply stable_wf|lia| |lia].
  intros _. apply (rx_ok_more h); [lia|]. by apply (same_but_seen_ok h r).
Qed.

Lemma feed_post_same h r : wf h → rx_ok h r → feed_post h (0, r) h.
Proof. done. Qed.

(** *** Control records *)

Lemma be16_bound hi lo : 0 ≤ Z.lor (Z.shiftl (b2z hi) 8) (b2z lo) ≤ 0xffff.
Proof. rewrite be16_join. pose proof (b2z_range hi). pose proof (b2z_range lo). lia. Qed.

Lemma wf_same h h' :
  wf h → cfg h' = cfg h → tags h' = tags h → num_proc h' = num_proc h →
  pty_max_count h' = pty_max_count h → pty_data h' = pty_data h →
  virtioso_stream_input_enabled h' = virtioso_stream_input_enabled h → wf h'.
Proof.
  intros [[] Ht Hm Hc] H1 H2 H3 H4 H5 H6.
  constructor; [constructor| |..]; rewrite ?H1, ?H2, ?H3, ?H4, ?H5, ?H6; done.
Qed.

Lemma wf_trace h t : wf h → wf (set_trace t h).
Proof. intros. by apply (wf_same h). Qed.

Lemma wp_control_len_lo ok ch next r h :
  wf h → rx_ok h r → (∃ hi, control_registry_len r = Z.shiftl (b2z hi) 8) →
  next = VIRTIOSO_CONTROL_REGISTRY_JSON ∨ next = VIRTIOSO_CONTROL_ANNOUNCE_PAYLOAD →
  wp ok (control_len_lo E ch next r) (feed_post h) h.
Proof.
  intros Hwf Hr [hi Hhi] Hnext. unfold control_len_lo. cbv zeta. rewrite Hhi.
  pose proof (be16_bound hi ch) as Hb. set (len := Z.lor _ _) in *.
  hw_step; [hw_step; eapply feed_post_route; try done; apply Hr|].
  z_bool. do 2 hw_step. hw_step; hw_step.
  - eapply feed_post_route; try done; [by apply wf_trace|apply Hr].
  - split_and!; [by apply wf_trace|done| |done]. intros _. destruct Hr.
    constructor; try done; cbn; [destruct Hnext as [-> | ->]; intros [?|?]; discriminate|].
    intros _. eexists. split; [done|]. rewrite length_replicate. lia.
Qed.

(** A body byte goes inside the buffer. *)
Lemma wp_control_store ok ch r h :
  rx_ok h r →
  control_state r = VIRTIOSO_CONTROL_REGISTRY_JSON ∨
  control_state r = VIRTIOSO_CONTROL_ANNOUNCE_PAYLOAD →
  wp ok (control_store ch r)
    (λ r' h', h' = h ∧ ∃ buf,
       r' = set_control_registry_pos (control_registry_pos r + 1)
              (set_control_registry_json (Some buf) r) ∧
       Z.of_nat (length buf) = control_registry_len r + 1 ∧
       0 ≤ control_registry_pos r < control_registry_len r ∧
       control_registry_len r ≤ 0xffff) h.
Proof.
  intros Hr Hst. destruct (ro_body _ _ Hr Hst) as (buf & Hbuf & Hlen & Hpos & Hmax).
  unfold control_store. rewrite Hbuf, (proj2 (Z.ltb_lt _ _)) by lia.
  do 2 wp_step. apply wp_arr_set; [lia|]. wp_steps. split; [done|].
  eexists. unfold u32. rewrite Z.mod_small by lia. split; [done|].
  rewrite length_insert. lia.
Qed.

Lemma wf_set_registry v h : wf h → wf (set_registry_json v h).
Proof. intros. by apply (wf_same h). Qed.

Lemma wf_set_pending v h : wf h → wf (set_pending_ctrl_type v h).
Proof. intros. by apply (wf_same h). Qed.

Lemma wf_set_ack v h : wf h → wf (set_downlink_ack_count v h).
Proof. intros. by apply (wf_same h). Qed.

Lemma wp_emit_registry ok h :
  wp ok (emit_virtioso_registry_record E)
    (λ _ h', stable h h') h.
Proof. unfold emit_virtioso_registry_record. hw_steps; auto with c_wp. Qed.

Lemma wp_control_registry_done ok r h :
  wf h → rx_ok h (set_control_state VIRTIOSO_CONTROL_IDLE r) →
  wp ok (control_registry_done E r) (feed_post h) h.
Proof.
  intros Hwf Hr. unfold control_registry_done. do 2 wp_step. wp_step.
  { wp_step. eapply feed_post_route; try done; apply Hr. }
  do 3 wp_step. eapply wp_mono; [apply wp_emit_registry|]. intros [] h1 Hs1. cbv beta in Hs1.
  assert (Hn1 : num_proc h1 = num_proc h) by (by rewrite (st_num_proc _ _ Hs1)).
  assert (Hwf1 : wf h1) by (eapply stable_wf; [done|by apply wf_set_registry]).
  wp_step. eapply wp_mono; [by apply wp_apply_registry|].
  intros z h2 (Hwf2 & Hk & Hz). wp_step; z_bool.
  - wp_step. cbn in Hn1. split_and!; [done|cbn; lia|cbn; lia|cbn; lia].
  - wp_step. eapply feed_post_route; try done; [|apply Hr].
    rewrite Hn1 in *. lia.
Qed.

Lemma wp_control_announce_done ok r h :
  wf h → rx_ok h (set_control_state VIRTIOSO_CONTROL_IDLE r) →
  (∀ buf, control_registry_json r = Some buf → buf ≠ []) →
  wp ok (control_announce_done E r) (feed_post h) h.
Proof.
  intros Hwf Hr Hbuf. unfold control_announce_done. do 3 wp_step.
  eapply (wp_mono _ _ (λ _ h', wf h' ∧ num_proc h ≤ num_proc h')).
  - wp_step; [|by wp_step]. wp_step; [|by wp_step]. wp_step.
    apply wp_arr_get; [specialize (Hbuf l ltac:(done)); destruct l; [done|cbn; lia]|].
    intros sid _. eapply wp_mono; [by apply wp_apply_connected|].
    intros _ h' (? & _ & [?|[? _]]); (split; [done|lia]).
  - intros _ h' [Hwf' Hn]. wp_step. eapply feed_post_route; try done; apply Hr.
Qed.

Lemma feed_post_state h r st :
  wf h → rx_ok h r → fresh_state st = true →
  feed_post h (0, set_control_state st r) h.
Proof.
  intros Hwf Hr Hst. eapply feed_post_route; try done. apply Hr.
Qed.

(** The locals after storing a byte, while the record is incomplete. *)
Lemma rx_ok_store h r buf :
  rx_ok h r → control_registry_pos r + 1 < control_registry_len r →
  control_state r = VIRTIOSO_CONTROL_REGISTRY_JSON ∨
  control_state r = VIRTIOSO_CONTROL_ANNOUNCE_PAYLOAD →
  Z.of_nat (length buf) = control_registry_len r + 1 →
  rx_ok h (set_control_registry_pos (control_registry_pos r + 1)
             (set_control_registry_json (Some buf) r)).
Proof.
  intros Hr Hpos Hst Hbuf. destruct (ro_body _ _ Hr Hst) as (? & ? & ? & ? & ?).
  destruct Hr. constructor; try done. cbn. intros _. eexists. split; [done|]. lia.
Qed.

#[local] Ltac route Hr :=
  wp_step; eapply feed_post_route; [| |exact Hr|..]; try done; try (cbn; lia);
  auto using wf_set_ack, wf_set_pending.

Lemma wp_feed_control ok ch r h :
  wf h → rx_ok h r → wp ok (feed_control E ch r) (feed_post h) h.
Proof.
  intros Hwf Hr. pose proof (ro_cur _ _ Hr). unfold feed_control. cbv zeta.
  wp_step.
  { unfold virtioso_note_downlink_ack.
    wp_step; [route Hr|]. wp_step; [do 2 wp_step; route Hr|].
    wp_step; [do 2 wp_step; route Hr|route Hr]. }
  assert (Hhi : ∀ st, st = VIRTIOSO_CONTROL_REGISTRY_LEN_LO ∨ st = VIRTIOSO_CONTROL_ANNOUNCE_LEN_LO →
    feed_post h (0, set_control_state st
      (set_control_registry_len (Z.shiftl (b2z ch) 8) r)) h).
  { intros st Hst. split_and!; try done. intros _. destruct Hr. constructor; try done; cbn.
    - intros _. by eexists.
    - destruct Hst as [-> | ->]; intros [?|?]; discriminate. }
  assert (Hst : ∀ (done_ : rx → HM (Z * rx)),
    (∀ r' buf, control_registry_json r' = Some buf → buf ≠ [] →
       rx_ok h (set_control_state VIRTIOSO_CONTROL_IDLE r') → wp ok (done_ r') (feed_post h) h) →
    control_state r = VIRTIOSO_CONTROL_REGISTRY_JSON ∨
    control_state r = VIRTIOSO_CONTROL_ANNOUNCE_PAYLOAD →
    wp ok (r <- control_store ch r ;;
           if control_registry_len r <=? control_registry_pos r
           then done_ r else ret (0, r)) (feed_post h) h).
  { intros done_ Hdone Hs. wp_step. eapply wp_mono; [by apply wp_control_store|].
    intros r' h' (-> & buf & -> & Hb & Hp & Hm).
    wp_step; z_bool; cbn [control_registry_len control_registry_pos set_control_registry_pos
      set_control_registry_json] in *.
    - eapply Hdone; [done|by destruct buf; cbn in *; [lia|]|].
      eapply rx_ok_route; try done.
    - wp_step. split_and!; try done. intros _. by apply rx_ok_store. }
  wp_step; [wp_step; apply Hhi; by left|].
  wp_step; [z_bool; apply wp_control_len_lo; try done; [apply (ro_lo _ _ Hr)|]; by left|].
  wp_step; [z_bool; apply Hst; [|by left]; intros; by apply wp_control_registry_done|].
  wp_step; [wp_step; apply Hhi; by right|].
  wp_step; [z_bool; apply wp_control_len_lo; try done; [apply (ro_lo _ _ Hr)|]; by right|].
  wp_step; [z_bool; apply Hst; [|by right]|route Hr].
  intros r' buf Hb Hne Hr'. apply wp_control_announce_done; [done..|]. intros. congruence.
Qed.

Lemma wp_feed_virtioso ok ch r h :
  wf h → rx_ok h r → wp ok (feed_virtioso_byte E ch r) (feed_post h) h.
Proof.
  intros Hwf Hr. pose proof (ro_cur _ _ Hr) as Hcur. unfold feed_virtioso_byte, feed_plain.
  assert (Hdel : ∀ i c r', 0 ≤ i < num_proc h → rx_ok h r' →
    wp ok (deliver E i c r') (feed_post h) h).
  { intros i c r' Hi Hr'. eapply wp_mono; [apply wp_deliver; (done || apply Hr')|].
    intros a h'. by apply deliver_feed_post. }
  wp_step; [by apply wp_feed_control|]. z_bool.
  assert (Hf : fresh_state (control_state r) = true) by (by rewrite Heqb).
  wp_step.
  - cbv zeta. assert (Hr0 : rx_ok h (set_in_escape false r)) by (by destruct Hr).
    wp_step; [route Hr|]. wp_step; [wp_step; [apply Hdel; [z_bool; cbn in *; lia|done]|by wp_step]|].
    wp_step; [route Hr|]. wp_step. unfold wp at 1.
    rewrite find_idx_run by apply Hwf. cbv beta iota.
    pose proof (find_tag_value_bound (active_tags h) ch 0 ltac:(lia)).
    pose proof (active_length _ (wf_shape _ Hwf)).
    wp_step. eapply feed_post_route; [| |exact Hr|..]; try done. cbn. case_match; z_bool; lia.
  - wp_step; [route Hr|]. wp_step; [|apply Hdel; [z_bool; lia|done]].
    do 2 wp_step. cbv zeta. wp_step; [|by wp_step].
    apply Hdel; [|done]. z_bool. rewrite (wf_max _ Hwf) in *. lia.
Qed.

(** *** The outer layer and whole buffers *)

Lemma wp_mirror_raw ok ch r h :
  wf h → rx_ok h r →
  wp ok (mirror_raw E ch r)
    (λ o h', wf h' ∧ stable h h' ∧ ∀ r', o = Some r' → rx_ok h' r') h.
Proof.
  intros Hwf Hr. unfold mirror_raw. do 3 wp_step.
  - wp_step. z_bool. rewrite (wf_max _ Hwf) in *.
    eapply wp_mono; [apply wp_deliver; [done|lia|apply Hr|apply Hr]|].
    intros [z r'] h' Hp. pose proof Hp as (Hst & _). wp_step.
    destruct (deliver_feed_post _ _ _ _ _ _ Hwf Hr Hp) as (Hwf' & Hz & Hok & _).
    split_and!; [done..|]. cbn in *. intros r'' ?. case_match; simplify_eq; z_bool. auto.
  - wp_step. split_and!; [done..|]. by intros ? [= <-].
Qed.

Lemma wp_mirror_feed ok ch r h :
  wf h → rx_ok h r →
  wp ok (m <- mirror_raw E ch r ;;
         match m with
         | None => ret (-1, r)
         | Some r => feed_virtioso_byte E ch r
         end) (feed_post h) h.
Proof.
  intros Hwf Hr. wp_step. eapply wp_mono; [by apply wp_mirror_raw|].
  intros [r'|] h' (Hwf' & Hst & Hok).
  - eapply wp_mono; [apply wp_feed_virtioso; [done|by apply Hok]|].
    intros a h2 (? & ? & ? & ?). pose proof (st_num_proc _ _ Hst). split_and!; (done || lia).
  - wp_step. pose proof (st_num_proc _ _ Hst). split_and!; [done|cbn; lia..].
Qed.

Lemma wp_feed_outer ok ch r h :
  wf h → rx_ok h r →
  wp ok (feed_nvidia_outer_or_virtioso_raw E ch r) (feed_post h) h.
Proof.
  intros Hwf Hr. pose proof (ro_cur _ _ Hr). unfold feed_nvidia_outer_or_virtioso_raw.
  assert (Hout : ∀ v, rx_ok h (set_outer_in_escape v r)) by (intros; by destruct Hr).
  assert (Htag : ∀ v, rx_ok h (set_cur_outer_tag v (set_outer_in_escape false r)))
    by (intros; by destruct Hr).
  do 3 wp_step; [by apply wp_mirror_feed|].
  wp_step.
  - cbv zeta. wp_step; [wp_step; [by apply wp_feed_virtioso|wp_step; apply feed_post_same; auto]|].
    wp_step; wp_step; (split_and!; try done; intros _).
    + destruct Hr. constructor; try done. cbn. lia.
    + cbn. case_match; auto.
  - wp_step; [wp_step; apply feed_post_same; auto|].
    wp_step; [by apply wp_mirror_feed|by wp_step].
Qed.

Lemma wp_feed_all ok feed l r h :
  (∀ c r h, wf h → rx_ok h r → wp ok (feed c r) (feed_post h) h) →
  wf h → rx_ok h r →
  wp ok (feed_all feed l r)
    (λ a h', wf h' ∧ a.1 ≤ 0 ∧ (a.1 = 0 → rx_ok h' a.2)) h.
Proof.
  intros Hfeed. revert r h. induction l as [|c l IH]; intros r h Hwf Hr; cbn [feed_all].
  { by wp_step. }
  wp_step. eapply wp_mono; [by apply Hfeed|]. intros [z r'] h' (Hwf' & Hz & Hok & _).
  cbn in *. wp_step; z_bool; [wp_step; split_and!; [done|cbn; lia|cbn; lia]|].
  apply IH; [done|]. apply Hok. lia.
Qed.

End Safety.

(** An invariant that does not mind allocations and the variables of a
    record, and that what a record causes keeps, goes through its handling. *)
Definition is_malloc (rq : sysreq) : bool := match rq with RqMalloc _ => true | _ => false end.

Lemma preserves_feed_control E I :
  call_blind E is_malloc I → (∀ h v, I h → I (set_registry_json v h)) →
  (∀ h v, I h → I (set_pending_ctrl_type v h)) → (∀ h v, I h → I (set_downlink_ack_count v h)) →
  preserves I (emit_virtioso_registry_record E) → (∀ json, preserves I (apply_virtioso_registry_json E json)) →
  (∀ sid name, preserves I (apply_virtioso_stream_connected E sid name)) →
  ∀ b r, preserves I (feed_control E b r).
Proof.
  intros Hb Hreg Hpend Hack He Hr Hc b r.
  assert (Hl : ∀ n r, preserves I (control_len_lo E b n r)) by (intros; unfold control_len_lo; preserve).
  assert (Hs : ∀ r, preserves I (control_store b r)) by (intros; unfold control_store; preserve).
  assert (Hm : ∀ v, preserves I (modify (set_registry_json v))) by (intros; apply preserves_modify; auto).
  assert (Hp : preserves I (modify (set_pending_ctrl_type b))) by (apply preserves_modify; auto).
  assert (Hd : ∀ r, preserves I (control_registry_done E r)) by (intros; unfold control_registry_done; preserve).
  assert (Ha : ∀ r, preserves I (control_announce_done E r)) by (intros; unfold control_announce_done; preserve).
  assert (Hn : preserves I virtioso_note_downlink_ack) by (apply preserves_modify; auto).
  unfold feed_control. preserve.
Qed.

(** An invariant that a byte's delivery and a record's handling keep goes
    through the demultiplexer. *)
Lemma preserves_feed E I :
  (∀ i b r, preserves I (deliver E i b r)) → (∀ b r, preserves I (feed_control E b r)) →
  ∀ b r, preserves I (feed_nvidia_outer_or_virtioso_raw E b r).
Proof.
  intros Hdel Hctl.
  assert (Hv : ∀ b r, preserves I (feed_virtioso_byte E b r)).
  { intros b r. unfold feed_virtioso_byte, feed_plain, find_virtioso_pty_idx_by_stream_id. preserve. }
  assert (Hm : ∀ b r, preserves I (mirror_raw E b r)) by (intros b r; unfold mirror_raw; preserve).
  intros b r. unfold feed_nvidia_outer_or_virtioso_raw. preserve.
Qed.
