(* ===== verification/HostIoInv.v ===== *)
(** * The output primitives: retries, short writes, bounds

    [putbuf_or_exit] writes its buffer or reports that it did not, except
    that it does not report a write the device cut short: it returns how much
    was taken, which is not negative.  The retry loops end with the first
    answer that is not a retry. *)

From S2P Require Import Prelude HostState HostIo.

(** [h'] is [h] with more calls made, none of which read anything. *)
Record called (h h' : host) : Prop := Called {
  ca_state : h' = set_trace (trace h') h;
  ca_trace : extends (trace h) (trace h');
  ca_inputs : inputs (trace h') = inputs (trace h)
}.

(** The reads of a history from one descriptor. *)
Definition reads (fd : Z) (tr : history) : list (list byte) :=
  (filter (λ e, e.1 = fd) (inputs tr)).*2.

(** A descriptor whose writes are never cut. *)
Definition no_short (E : env) (fd : Z) : Prop :=
  ∀ tr d, res (E tr (RqWrite fd d)) < 0 ∨ res (E tr (RqWrite fd d)) = Z.of_nat (length d).

(** What a device may take of the buffer [p]: all of it, or the first so many
    bytes, where it answers a write of [p] with that smaller number. *)
Definition taken (E : env) (fd : Z) (c p : list byte) : Prop :=
  c = p ∨
  ∃ tr, let n := res (E tr (RqWrite fd p)) in
    0 ≤ n < Z.of_nat (length p) ∧ c = take (Z.to_nat n) p.

(** The stops of a writer: a failed assertion, or an endless retry. *)
Definition io_stop (w : stop) : Prop := w = AssertFail ∨ w = OutOfFuel.

(** Polls for output answer, and neither they nor writes are interrupted. *)
Record output_answers (E : env) : Prop := OutputAnswers {
  oa_poll : ∀ tr fd t, let p := E tr (RqPollOut fd t) in
    should_retry_io p = false ∧
    (res p = 0 ∨ res p = 1 ∧ Z.land (revents p) POLLNVAL = 0);
  oa_write : ∀ tr fd d, should_retry_io (E tr (RqWrite fd d)) = false
}.

(** A descriptor that is always ready, and takes and drains everything. *)
Record prompt (E : env) (fd : Z) : Prop := Prompt {
  pr_poll : ∀ tr t, res (E tr (RqPollOut fd t)) = 1 ∧
                    Z.land (revents (E tr (RqPollOut fd t))) POLLNVAL = 0;
  pr_write : ∀ tr d, res (E tr (RqWrite fd d)) = Z.of_nat (length d);
  pr_drain : ∀ tr, 0 ≤ res (E tr (RqDrain fd))
}.

(** From [h] to [h'] the descriptor accepted [l], and no other anything. *)
Definition accepts_on (h h' : host) (fd : Z) (l : list byte) : Prop :=
  called h h' ∧
  ∀ fd', accepted fd' (trace h') = accepted fd' (trace h) ++ (if fd' =? fd then l else []).

(** The calls of a retry loop: [rs] are the answers it tried again on. *)
Definition retried (E : env) (rq : sysreq) (rs : list sysres) (r : sysres) (h h' : host) : Prop :=
  Forall (λ r, should_retry_io r = true) rs ∧ should_retry_io r = false ∧
  r = E (map (pair rq) rs ++ trace h) rq ∧
  h' = set_trace ((rq, r) :: map (pair rq) rs ++ trace h) h.

(* ------------------------------------------------------------------ *)
(** ** Lemmas *)

#[global] Instance called_preorder : PreOrder called.
Proof.
  split.
  - intros h. split; [by destruct h|done..].
  - intros h1 h2 h3 [H1 ??] [H2 ??]. split; [|by etrans|congruence]. rewrite H2, H1. by destruct h1.
Qed.

Lemma called_sys h rq r : not_read rq = true → called h (set_trace ((rq, r) :: trace h) h).
Proof.
  intros Hrq. split; [done|by exists [(rq, r)]|]. by destruct rq.
Qed.

Lemma called_cfg h h' : called h h' → cfg h' = cfg h.
Proof. intros [-> _ _]. done. Qed.

Lemma called_fields h h' :
  called h h' → tags h' = tags h ∧ tty_fd h' = tty_fd h ∧ pty_max_count h' = pty_max_count h ∧
  pty_data h' = pty_data h ∧ cfg h' = cfg h.
Proof. by intros [-> _ _]. Qed.

Lemma accepts_nil h h' fd : called h h' → (∀ fd', accepted fd' (trace h') = accepted fd' (trace h)) →
  accepts_on h h' fd [].
Proof. intros Hc Ha. split; [done|]. intros fd'. rewrite Ha. by case_match; rewrite app_nil_r. Qed.

Lemma accepts_trans h1 h2 h3 fd a b :
  accepts_on h1 h2 fd a → accepts_on h2 h3 fd b → accepts_on h1 h3 fd (a ++ b).
Proof.
  intros [Hc1 H1] [Hc2 H2]. split; [by etrans|]. intros fd'. rewrite H2, H1, <-app_assoc.
  by destruct (fd' =? fd).
Qed.

Lemma accepts_then h1 h2 h3 fd a :
  accepts_on h1 h2 fd a → accepts_on h2 h3 fd [] → accepts_on h1 h3 fd a.
Proof.
  intros H1 H2. pose proof (accepts_trans _ _ _ _ _ _ H1 H2) as H3. by rewrite app_nil_r in H3.
Qed.

(** A call that is not a write, and one that is. *)
Lemma accepts_other h rq r fd :
  (∀ fd d, rq ≠ RqWrite fd d) → not_read rq = true → accepts_on h (set_trace ((rq, r) :: trace h) h) fd [].
Proof.
  intros Hrq Hrd. apply accepts_nil; [by apply called_sys|]. intros fd'. cbn.
  destruct rq; try done. by destruct (Hrq fd0 data).
Qed.

Lemma accepts_write h fd d r :
  accepts_on h (set_trace ((RqWrite fd d, r) :: trace h) h) fd (take (Z.to_nat (res r)) d).
Proof. split; [by apply called_sys|]. intros fd'. cbn. by rewrite (Z.eqb_sym fd' fd). Qed.

(** Retried writes accept nothing. *)
Lemma retried_accepts E rq rs r h h' fd :
  retried E rq rs r h h' → not_read rq = true →
  ∃ h1, accepts_on h h1 fd [] ∧ h' = set_trace ((rq, r) :: trace h1) h1.
Proof.
  intros (Hrs & _ & _ & ->) Hrd. exists (set_trace (map (pair rq) rs ++ trace h) h).
  split; [|by destruct h]. apply accepts_nil.
  { split; [by destruct h|by exists (map (pair rq) rs)|]. cbn. rewrite inputs_app.
    replace (inputs (map (pair rq) rs)) with (@nil (Z * list byte)); [by rewrite app_nil_r|].
    clear Hrs. induction rs as [|q rs IH]; [done|]. cbn.
    by destruct rq. }
  intros fd'. cbn. induction Hrs as [|q rs Hq _ IH]; [done|]. cbn. rewrite IH.
  destruct rq; try done. unfold should_retry_io in Hq. apply andb_prop in Hq as [Hq _]. z_bool.
  rewrite Hq. cbn. case_match; by rewrite ?take_0, app_nil_r.
Qed.

Lemma taken_prefix E fd c p : taken E fd c p → c `prefix_of` p.
Proof. intros [->|(tr & _ & ->)]; [done|]. apply prefix_take. Qed.

Lemma taken_whole E fd c p : no_short E fd → taken E fd c p → c = p.
Proof. intros Hns [->|(tr & Hn & _)]; [done|]. destruct (Hns tr p); lia. Qed.

Lemma pieces_whole E fd cs ps : no_short E fd → Forall2 (taken E fd) cs ps → cs = ps.
Proof. intros Hns H. induction H as [|c p cs ps Hc _ ->]; [done|]. by rewrite (taken_whole E fd c p). Qed.

Section Io.
Context (E : env) (fuel : nat).

Lemma wp_retry_io (ok : stop → Prop) n rq h :
  ok OutOfFuel →
  wp ok (retry_io E n rq) (λ r h', ∃ rs, retried E rq rs r h h') h.
Proof.
  intros Hok. revert h. induction n as [|n IH]; intros h; cbn [retry_io]; [by wp_step|].
  do 2 hw_step. hw_step.
  - eapply wp_mono; [apply IH|]. intros q h' (rs & Hrs & Hq & Hr & ->).
    exists (rs ++ [r]). split_and!; [|done|..].
    + rewrite Forall_app. split; [done|by constructor].
    + by rewrite map_app, <-app_assoc.
    + rewrite map_app, <-app_assoc. by destruct h.
  - hw_step. exists []. done.
Qed.

(** The first answer that is not a retry ends the loop. *)
Lemma retry_io_first n rq h :
  should_retry_io (E (trace h) rq) = false →
  retry_io E (S n) rq h = Done (E (trace h) rq) (set_trace ((rq, E (trace h) rq) :: trace h) h).
Proof. intros Hr. cbn [retry_io]. unfold bind, sys. by rewrite Hr. Qed.

(** More fuel changes nothing once the loop has ended. *)
Lemma retry_io_mono n m rq h r h' :
  retry_io E n rq h = Done r h' → (n ≤ m)%nat → retry_io E m rq h = Done r h'.
Proof.
  revert m h. induction n as [|n IH]; intros m h Hr Hm; [done|].
  destruct m as [|m]; [lia|]. cbn [retry_io] in *. unfold bind, sys in *.
  destruct (should_retry_io _); [|done]. apply IH; [done|lia].
Qed.

Lemma wp_poll_output ok fd h :
  ok OutOfFuel → wp ok (poll_output E fuel fd) (λ _ h', accepts_on h h' fd []) h.
Proof.
  intros Hok. unfold poll_output. do 2 wp_step.
  eapply wp_mono; [by apply wp_retry_io|]. intros r h' (rs & Hr).
  destruct (retried_accepts _ _ _ _ _ _ fd Hr ltac:(done)) as (h1 & Ha & ->).
  apply (accepts_trans _ _ _ _ [] [] Ha). by apply accepts_other.
Qed.

(** What the code returned says about the buffer: a negative code that
    nothing or, when draining failed, everything was taken; any other that
    the device took it, whole as far as it does not write less than asked. *)
Definition putbuf_post (fd : Z) (buf : list byte) (h : host) (z : Z) (h' : host) : Prop :=
  ∃ l, accepts_on h h' fd l ∧
    (0 ≤ z ∧ taken E fd l buf ∧ (no_short E fd → z = 0) ∨ z < 0 ∧ (l = [] ∨ l = buf)).

Lemma wp_putbuf (ok : stop → Prop) fd buf h :
  ok OutOfFuel → ok AssertFail →
  wp ok (putbuf_or_exit E fuel fd buf) (putbuf_post fd buf h) h.
Proof.
  intros Hf Ha. unfold putbuf_or_exit. wp_step.
  eapply wp_mono; [by apply wp_poll_output|]. intros p h1 H1. cbv beta in H1.
  wp_step; z_bool; [wp_step; exists []; split; [done|]; right; split; [lia|by left]|].
  wp_step. apply wp_assert; [done|]. intros _. wp_step. apply wp_assert; [done|]. intros _.
  wp_step. eapply wp_mono; [by apply wp_retry_io|]. intros r h2 (rs & Hr).
  pose proof Hr as (_ & _ & Hres & _).
  destruct (retried_accepts _ _ _ _ _ _ fd Hr ltac:(done)) as (h2' & Ha2 & ->).
  assert (Hacc : accepts_on h (set_trace ((RqWrite fd buf, r) :: trace h2') h2') fd
    (take (Z.to_nat (res r)) buf)).
  { apply (accepts_trans h h1 _ fd []); [exact H1|].
    apply (accepts_trans h1 h2' _ fd []); [exact Ha2|]. apply accepts_write. }
  assert (Hns : no_short E fd → res r < 0 ∨ res r = Z.of_nat (length buf))
    by (intros Hns; rewrite Hres; apply Hns).
  wp_step; z_bool.
  { wp_step. exists []. replace (Z.to_nat (res r)) with 0%nat in Hacc by lia.
    split; [by rewrite take_0 in Hacc|]. right. auto. }
  wp_step; z_bool.
  { wp_step. eexists. split; [exact Hacc|]. left. split; [lia|]. split.
    - destruct (decide (Z.of_nat (length buf) ≤ res r)); [left; apply take_ge; lia|].
      right. eexists. cbv zeta. rewrite <-Hres. split; [lia|done].
    - intros H0. destruct (Hns H0); lia. }
  rewrite take_ge in Hacc by lia.
  assert (Hall : ∀ d, accepts_on h (set_trace ((RqDrain fd, d) :: (RqWrite fd buf, r) :: trace h2')
    (set_trace ((RqWrite fd buf, r) :: trace h2') h2')) fd buf).
  { intros d. eapply accepts_then; [exact Hacc|].
    by apply (accepts_other (set_trace ((RqWrite fd buf, r) :: trace h2') h2')). }
  do 2 hw_step. hw_step; z_bool; hw_step; exists buf; (split; [by apply Hall|]).
  - right. split; [lia|by right].
  - left. by repeat split; [|left].
Qed.

(** Where output is answered the call returns. *)
Lemma wp_putbuf_answers (ok : stop → Prop) fd buf h :
  output_answers E → (0 < fuel)%nat → wp ok (putbuf_or_exit E fuel fd buf) (λ _ _, True) h.
Proof.
  intros [Hp Hw] Hf. unfold putbuf_or_exit, poll_output. destruct fuel as [|f]; [lia|].
  do 3 wp_step. unfold wp at 1.
  destruct (Hp (trace h) fd (poll_output_timeout (cfg h))) as (Hr & Hres).
  rewrite retry_io_first by done. destruct Hres as [Hres | [Hres Hnv]]; rewrite Hres.
  - change (0 =? 0) with true. cbv iota. by wp_step.
  - rewrite Hnv. change (1 =? 0) with false. change (1 =? 1) with true.
    change (0 =? 0) with true. cbv iota. cbn [assert_c]. do 5 wp_step. unfold wp at 1.
    rewrite retry_io_first by apply Hw. hw_steps; done.
Qed.

(** On a prompt descriptor the call succeeds at once. *)
Lemma wp_putbuf_prompt ok fd buf h :
  prompt E fd → (0 < fuel)%nat →
  wp ok (putbuf_or_exit E fuel fd buf) (λ z h', z = 0 ∧ accepts_on h h' fd buf) h.
Proof.
  intros [Hp Hw Hd] Hf. unfold putbuf_or_exit, poll_output. destruct fuel as [|f]; [lia|].
  do 3 wp_step. unfold wp at 1. specialize (Hp (trace h) (poll_output_timeout (cfg h))) as [Hp1 Hp2].
  rewrite retry_io_first by (unfold should_retry_io; by rewrite Hp1). rewrite Hp1, Hp2.
  cbn [Z.eqb]. change (1 =? 0) with false. change (1 =? 1) with true. cbn [assert_c].
  do 4 wp_step. set (h1 := set_trace _ _). wp_step. unfold wp at 1.
  specialize (Hw (trace h1) buf).
  rewrite retry_io_first by (unfold should_retry_io; rewrite (proj2 (Z.eqb_neq _ _)) by lia; done).
  rewrite Hw, (proj2 (Z.ltb_ge _ 0)), Z.eqb_refl by lia. cbn [negb].
  do 2 hw_step. subst r. rewrite (proj2 (Z.ltb_ge _ 0)) by apply Hd. wp_step.
  split; [done|]. set (h2 := set_trace _ h1). set (q := E (trace h1) (RqWrite fd buf)) in *.
  apply (accepts_trans h h1 _ fd [] buf); [by apply accepts_other|].
  apply (accepts_then h1 h2); [|by apply accepts_other].
  pose proof (accepts_write h1 fd buf q) as Hacc. rewrite Hw, Nat2Z.id, take_ge in Hacc by done.
  exact Hacc.
Qed.

Lemma putbuf_called fd buf h z h' : putbuf_post fd buf h z h' → called h h'.
Proof. by intros (l & [] & _). Qed.

End Io.
