(* ===== verification/Par.v ===== *)
(** * Threads that share the host

    The host's threads share its globals without a lock but for the write
    lock.  A thread is a tree of its actions, so that other threads can act
    between any two of them; the machine interleaves the trees of a pool.
    [obeys] is the rule for a thread that others rely on: what it may do with
    and without the lock; [par_sound] puts the threads together. *)

From S2P Require Import Prelude HostState HostIoInv.
From stdpp Require Import relations.
#[local] Open Scope Z_scope.
#[local] Open Scope list_scope.

(** Actions: reading the globals, a system call, the write lock. *)
Inductive proc (A : Type) : Type :=
| Ret (a : A)
| Halt (w : stop)
| Look (k : host → proc A)
| Call (rq : sysreq) (k : sysres → proc A)
| Lock (k : proc A)
| Unlock (k : proc A).
Arguments Ret {A} a.
Arguments Halt {A} w.
Arguments Look {A} k.
Arguments Call {A} rq k.
Arguments Lock {A} k.
Arguments Unlock {A} k.

#[global] Instance proc_bind : MBind proc := λ A B f,
  fix go (p : proc A) : proc B :=
    match p with
    | Ret a => f a
    | Halt w => Halt w
    | Look k => Look (λ h, go (k h))
    | Call rq k => Call rq (λ r, go (k r))
    | Lock k => Lock (go k)
    | Unlock k => Unlock (go k)
    end.

Definition look : proc host := Look Ret.
Definition call (rq : sysreq) : proc sysres := Call rq Ret.
Definition call_alloc (size : Z) : proc bool := r ← call (RqMalloc size); Ret (negb (res r =? 0)).
Definition check (b : bool) : proc unit := if b then Ret tt else Halt AssertFail.

(** A computation without calls, on the globals as they are. *)
Definition glance {A} (m : HM A) : proc A :=
  Look (λ h, match m h with Done a _ => Ret a | Stop w _ => Halt w end).

(** The thread by itself. *)
Fixpoint alone {A} (E : env) (p : proc A) : HM A :=
  match p with
  | Ret a => ret a
  | Halt w => halt w
  | Look k => λ h, alone E (k h) h
  | Call rq k => r <- sys E rq ;; alone E (k r)
  | Lock k => alone E k
  | Unlock k => alone E k
  end.

(** The pool: who holds the lock, the globals, what each thread has to do. *)
Record par : Type := Par {
  pr_owner : option nat;
  pr_host : host;
  pr_procs : list (proc unit)
}.

(** The next action of thread [k], if it has one it can do: [pthread_mutex_lock]
    waits, and unlocking another's lock is not something the code does. *)
Definition advance (E : env) (k : nat) (s : par) : option par :=
  let upd o h p := Some (Par o h (<[k := p]> (pr_procs s))) in
  match pr_procs s !! k with
  | Some (Look c) => upd (pr_owner s) (pr_host s) (c (pr_host s))
  | Some (Call rq c) =>
      let h := pr_host s in
      let r := E (trace h) rq in
      upd (pr_owner s) (set_trace ((rq, r) :: trace h) h) (c r)
  | Some (Lock c) =>
      match pr_owner s with None => upd (Some k) (pr_host s) c | Some _ => None end
  | Some (Unlock c) =>
      if bool_decide (pr_owner s = Some k) then upd None (pr_host s) c else None
  | _ => None
  end.

(** A step of the pool, or of a thread outside it. *)
Inductive pstep (E : env) (other : host → host → Prop) : par → par → Prop :=
| pstep_thread k s s' : advance E k s = Some s' → pstep E other s s'
| pstep_other o h h' ps : other h h' → pstep E other (Par o h ps) (Par o h' ps).

(** Has the thread returned or stopped? *)
Definition final {A} (p : proc A) : bool :=
  match p with Ret _ | Halt _ => true | _ => false end.

(** Threads of a schedule, skipping those that cannot act. *)
Fixpoint schedule (E : env) (ks : list nat) (s : par) : par :=
  match ks with
  | [] => s
  | k :: ks' => schedule E ks' (default s (advance E k s))
  end.

(** What a thread did: the chunks it read from its PTY, what it put on the
    UART under the lock each time, and since it holds it. *)
Record local : Type := Local {
  lc_read : list (list byte);
  lc_sent : list (list byte);
  lc_cur : option (list byte)
}.

Definition local_init : local := Local [] [] None.

Section Obeys.
Context (E : env) (ok : stop → Prop) (stab : host → Prop) (uart : Z).

(** A call that needs no care. *)
Definition free_call (rq : sysreq) : bool :=
  match rq with
  | RqWrite _ _ | RqRead _ _ | RqOpen _ _ | RqOpenpt | RqClose _ | RqThread _ | RqUnlink _ | RqStdout _ => false
  | _ => true
  end.

(** A call: only its PTY is read, the UART is only written under the lock;
    nothing is opened, closed or started. *)
Definition may_call (fd : Z) (rq : sysreq) (l : local) : Prop :=
  match rq with
  | RqWrite fd' _ => fd' = uart ∧ lc_cur l ≠ None
  | RqRead fd' _ => fd' = fd
  | _ => free_call rq = true
  end.

(** What a call reads, and what it writes. *)
Definition got (rq : sysreq) (r : sysres) : list (list byte) :=
  match rq with
  | RqRead _ _ => if 0 <? res r then [take (Z.to_nat (res r)) (res_bytes r)] else []
  | _ => []
  end.

Definition put (rq : sysreq) (r : sysres) : list byte :=
  match rq with RqWrite _ d => take (Z.to_nat (res r)) d | _ => [] end.

Definition after (rq : sysreq) (r : sysres) (l : local) : local :=
  Local (lc_read l ++ got rq r) (lc_sent l) (option_map (λ s, s ++ put rq r) (lc_cur l)).

(** The thread of the PTY [fd], having done [l], keeps to the rule and to the
    invariant [I] of what it has done, and ends with [Q]. *)
Fixpoint obeys {A} (fd : Z) (I : local → Prop) (p : proc A) (Q : A → local → Prop) (l : local) : Prop :=
  I l ∧
  match p with
  | Ret a => Q a l
  | Halt w => ok w
  | Look k => ∀ h, stab h → obeys fd I (k h) Q l
  | Call rq k =>
      may_call fd rq l ∧ ∀ tr, obeys fd I (k (E tr rq)) Q (after rq (E tr rq) l)
  | Lock k => lc_cur l = None ∧ obeys fd I k Q (Local (lc_read l) (lc_sent l) (Some []))
  | Unlock k =>
      match lc_cur l with
      | None => False
      | Some s => obeys fd I k Q (Local (lc_read l) (lc_sent l ++ [s]) None)
      end
  end.

End Obeys.

(** The pool, what its threads did, and the writes in order: each was made
    whole under the lock by one thread.  [D k] holds when thread [k] is done. *)
Section Pool.
Context (E : env) (ok : stop → Prop) (stab : host → Prop) (uart : Z) (fds : list Z).
Context (I D : nat → local → Prop) (other : host → host → Prop).

(** What the threads outside the pool leave alone. *)
Class lets_be : Prop := LetsBe {
  lb_stable h h' : stab h → other h h' → stab h';
  lb_uart h h' : stab h → other h h' → accepted uart (trace h') = accepted uart (trace h);
  lb_reads h h' fd : stab h → other h h' → fd ∈ fds → reads fd (trace h') = reads fd (trace h)
}.

Definition held (s : par) (ls : list local) : list byte :=
  match pr_owner s with Some k => default [] (ls !! k ≫= lc_cur) | None => [] end.

Record together (h0 : host) (s : par) (ls : list local) (ws : list (nat * list byte)) : Prop := Together {
  to_stable : stab (pr_host s);
  to_procs : length (pr_procs s) = length fds;
  to_locals : length ls = length fds;
  to_obeys k p fd l : pr_procs s !! k = Some p → fds !! k = Some fd → ls !! k = Some l →
    obeys E ok stab uart fd (I k) p (λ _, D k) l;
  to_owner k l : ls !! k = Some l → lc_cur l ≠ None ↔ pr_owner s = Some k;
  to_held k : pr_owner s = Some k → (k < length fds)%nat;
  to_uart : accepted uart (trace (pr_host s)) =
    accepted uart (trace h0) ++ concat ws.*2 ++ held s ls;
  to_reads k fd l : fds !! k = Some fd → ls !! k = Some l →
    reads fd (trace (pr_host s)) = reads fd (trace h0) ++ lc_read l;
  to_sent k l : ls !! k = Some l → lc_sent l = (filter (λ w, w.1 = k) ws).*2
}.

(* ------------------------------------------------------------------ *)
(** ** Lemmas *)

Lemma obeys_inv {A} fd J (p : proc A) Q l : obeys E ok stab uart fd J p Q l → J l.
Proof. by destruct p; intros []. Qed.

Lemma obeys_mono {A} fd J (p : proc A) (Q Q' : A → local → Prop) l :
  (∀ a l, J l → Q a l → Q' a l) → obeys E ok stab uart fd J p Q l → obeys E ok stab uart fd J p Q' l.
Proof.
  intros HQ. revert l. induction p as [a|w|k IH|rq k IH|k IH|k IH]; intros l [Hl Hp]; (split; [done|]).
  - by apply HQ.
  - done.
  - intros h Hh. by apply IH, Hp.
  - destruct Hp as [Hm Hp]. split; [done|]. intros tr. by apply IH.
  - destruct Hp as [Hm Hp]. split; [done|]. by apply IH.
  - cbn in Hp. destruct (lc_cur l); [by apply IH|done].
Qed.

Lemma obeys_bind {A B} fd J (p : proc A) (f : A → proc B) Q l :
  obeys E ok stab uart fd J p (λ a l, obeys E ok stab uart fd J (f a) Q l) l →
  obeys E ok stab uart fd J (p ≫= f) Q l.
Proof.
  revert l. induction p as [a|w|k IH|rq k IH|k IH|k IH]; intros l [Hl Hp]; [done|..]; (split; [done|]).
  - done.
  - intros h Hh. by apply IH, Hp.
  - destruct Hp as [Hm Hp]. split; [done|]. intros tr. by apply IH.
  - destruct Hp as [Hm Hp]. split; [done|]. by apply IH.
  - cbn in Hp |- *. destruct (lc_cur l); [by apply IH|done].
Qed.

Lemma obeys_unbind {A B} fd J (p : proc A) (f : A → proc B) Q l :
  obeys E ok stab uart fd J (p ≫= f) Q l →
  obeys E ok stab uart fd J p (λ a l, obeys E ok stab uart fd J (f a) Q l) l.
Proof.
  revert l. induction p as [a|w|k IH|rq k IH|k IH|k IH]; intros l Hp.
  - split; [by eapply obeys_inv|done].
  - done.
  - destruct Hp as [Hl Hp]. split; [done|]. intros h Hh. by apply IH, Hp.
  - destruct Hp as [Hl [Hm Hp]]. split; [done|]. split; [done|]. intros tr. by apply IH.
  - destruct Hp as [Hl [Hm Hp]]. split; [done|]. split; [done|]. by apply IH.
  - destruct Hp as [Hl Hp]. split; [done|]. destruct (lc_cur l); [by apply IH|done].
Qed.

Lemma reads_app fd a b : reads fd (a ++ b) = reads fd b ++ reads fd a.
Proof. unfold reads. by rewrite inputs_app, filter_app, fmap_app. Qed.

(** What a call of the thread of [fd] adds to the reads and to the UART. *)
Lemma reads_call fd fd' rq r tr l :
  may_call uart fd rq l →
  reads fd' ((rq, r) :: tr) = reads fd' tr ++ (if decide (fd' = fd) then got rq r else []).
Proof.
  intros Hm. change ((rq, r) :: tr) with ([(rq, r)] ++ tr). rewrite reads_app. f_equal.
  unfold reads. destruct rq; cbn in *; try by case_match.
  subst fd0. destruct (0 <? res r); cbn; [|by case_match].
  case_decide as H1; case_decide as H2; congruence || done.
Qed.

Lemma accepted_call fd rq r tr l :
  may_call uart fd rq l → accepted uart ((rq, r) :: tr) = accepted uart tr ++ put rq r.
Proof.
  intros Hm. destruct rq; cbn in *; rewrite ?app_nil_r; try done. destruct Hm as [-> _].
  by rewrite Z.eqb_refl.
Qed.

Lemma put_held fd rq r l : may_call uart fd rq l → lc_cur l = None → put rq r = [].
Proof. by destruct rq; cbn; [intros []|..]. Qed.

Lemma after_cur rq r l : lc_cur (after rq r l) = None ↔ lc_cur l = None.
Proof. cbn. by destruct (lc_cur l). Qed.

(** Thread [k] moves from [l] to [l']: the others stay. *)
Lemma other_local (ls : list local) k k' l l' :
  <[k := l']> ls !! k' = Some l → (k' = k ∧ l = l') ∨ (k' ≠ k ∧ ls !! k' = Some l).
Proof. intros H. apply list_lookup_insert_Some in H as [(-> & -> & _)|[? ?]]; auto. Qed.

Context (HD : ∀ k l, D k l → lc_cur l = None).
Context (HN : NoDup fds) (Hcall : call_blind E (λ _, true) stab) {Hother : lets_be}.

(** A thread's action that touches neither the lock nor what is recorded. *)
Lemma together_look h0 o h ps ls ws k c :
  ps !! k = Some (Look c) → together h0 (Par o h ps) ls ws →
  together h0 (Par o h (<[k := c h]> ps)) ls ws.
Proof.
  intros Hk [Hs Hp Hl Ho Hw Hh Hu Hr Hn]. constructor; try done.
  - cbn. by rewrite length_insert.
  - intros k' p fd l Hp' Hfd Hl'. cbn in Hp'.
    apply list_lookup_insert_Some in Hp' as [(-> & <- & _)|[? ?]]; [|by eapply Ho].
    destruct (Ho k' _ fd l Hk Hfd Hl') as [_ Hc]. by apply Hc.
Qed.

Lemma together_call h0 o h ps ls ws k rq c :
  ps !! k = Some (Call rq c) → together h0 (Par o h ps) ls ws →
  let r := E (trace h) rq in
  ∃ l, ls !! k = Some l ∧
  together h0 (Par o (set_trace ((rq, r) :: trace h) h) (<[k := c r]> ps)) (<[k := after rq r l]> ls) ws.
Proof.
  intros Hk [Hs Hp Hl Ho Hw Hh Hu Hr Hn] r. cbn in *.
  pose proof (lookup_lt_Some _ _ _ Hk) as Hlt.
  destruct (lookup_lt_is_Some_2 fds k) as [fd Hfd]; [lia|].
  destruct (lookup_lt_is_Some_2 ls k) as [l Hlk]; [lia|].
  destruct (Ho k _ fd l Hk Hfd Hlk) as [_ [Hm Hc]]. exists l. split; [done|].
  constructor; cbn -[accepted reads]; rewrite ?length_insert; try done.
  - by apply Hcall.
  - intros k' p fd' l' Hp' Hfd' Hl'.
    apply list_lookup_insert_Some in Hp' as [(-> & <- & _)|[? ?]].
    + rewrite list_lookup_insert_eq in Hl' by lia. simplify_eq. apply Hc.
    + rewrite list_lookup_insert_ne in Hl' by done. by eapply Ho.
  - intros k' l' Hl'. apply other_local in Hl' as [[-> ->]|[? ?]]; [|by apply Hw].
    rewrite <-(Hw k l Hlk). by rewrite after_cur.
  - rewrite (accepted_call fd _ _ _ l), Hu by done. rewrite <-!app_assoc. do 2 f_equal.
    unfold held. cbn. destruct o as [k'|].
    + destruct (decide (k' = k)) as [->|Hne].
      * rewrite list_lookup_insert_eq, Hlk by lia. cbn. destruct (lc_cur l) eqn:Hcur; [done|].
        by eapply put_held.
      * rewrite list_lookup_insert_ne by done. rewrite (put_held fd _ _ l Hm); [by rewrite app_nil_r|].
        destruct (lc_cur l) eqn:Hcur; [|done].
        assert (Some k' = Some k) as [= ->] by (apply (Hw k l Hlk); by rewrite Hcur). done.
    + eapply put_held; [exact Hm|]. destruct (lc_cur l) eqn:Hcur; [|done].
      assert (None = Some k) by (apply (Hw k l Hlk); by rewrite Hcur). done.
  - intros k' fd' l' Hfd' Hl'. rewrite (reads_call fd fd' _ _ _ l Hm).
    apply other_local in Hl' as [[-> ->]|[Hne Hl']].
    + simplify_eq. rewrite decide_True by done. cbn. rewrite (Hr k fd l Hfd Hlk). by rewrite app_assoc.
    + rewrite decide_False, app_nil_r; [by eapply Hr|].
      intros ->. apply Hne. by eapply NoDup_lookup.
  - intros k' l' Hl'. apply other_local in Hl' as [[-> ->]|[? ?]]; [|by apply Hn].
    cbn. by apply Hn.
Qed.

Lemma together_lock h0 h ps ls ws k c :
  ps !! k = Some (Lock c) → together h0 (Par None h ps) ls ws →
  ∃ l, ls !! k = Some l ∧
  together h0 (Par (Some k) h (<[k := c]> ps))
    (<[k := Local (lc_read l) (lc_sent l) (Some [])]> ls) ws.
Proof.
  intros Hk [Hs Hp Hl Ho Hw Hh Hu Hr Hn]. cbn in *.
  pose proof (lookup_lt_Some _ _ _ Hk) as Hlt.
  destruct (lookup_lt_is_Some_2 fds k) as [fd Hfd]; [lia|].
  destruct (lookup_lt_is_Some_2 ls k) as [l Hlk]; [lia|].
  destruct (Ho k _ fd l Hk Hfd Hlk) as [_ [Hm Hc]]. exists l. split; [done|].
  constructor; cbn; rewrite ?length_insert; try done.
  - intros k' p fd' l' Hp' Hfd' Hl'.
    apply list_lookup_insert_Some in Hp' as [(-> & <- & _)|[? ?]].
    + rewrite list_lookup_insert_eq in Hl' by lia. by simplify_eq.
    + rewrite list_lookup_insert_ne in Hl' by done. by eapply Ho.
  - intros k' l' Hl'. apply other_local in Hl' as [[-> ->]|[? Hl']]; [done|].
    rewrite (Hw k' l' Hl'). split; [done|]. by intros [= ->].
  - intros k' [= <-]. by apply lookup_lt_Some in Hfd.
  - unfold held. cbn. rewrite list_lookup_insert_eq by lia. exact Hu.
  - intros k' fd' l' Hfd' Hl'. apply other_local in Hl' as [[-> ->]|[Hne Hl']]; [|by eapply Hr].
    assert (fd' = fd) as -> by congruence. cbn. by apply (Hr k).
  - intros k' l' Hl'. apply other_local in Hl' as [[-> ->]|[? ?]]; [|by apply Hn]. cbn. by apply Hn.
Qed.

Lemma together_unlock h0 h ps ls ws k c :
  ps !! k = Some (Unlock c) → together h0 (Par (Some k) h ps) ls ws →
  ∃ l s, ls !! k = Some l ∧ lc_cur l = Some s ∧
  together h0 (Par None h (<[k := c]> ps))
    (<[k := Local (lc_read l) (lc_sent l ++ [s]) None]> ls) (ws ++ [(k, s)]).
Proof.
  intros Hk [Hs Hp Hl Ho Hw Hh Hu Hr Hn]. cbn in *.
  pose proof (lookup_lt_Some _ _ _ Hk) as Hlt.
  destruct (lookup_lt_is_Some_2 fds k) as [fd Hfd]; [lia|].
  destruct (lookup_lt_is_Some_2 ls k) as [l Hlk]; [lia|].
  destruct (Ho k _ fd l Hk Hfd Hlk) as [_ Hc]. cbn in Hc.
  destruct (lc_cur l) as [s|] eqn:Hcur; [|done]. exists l, s. split_and!; try done.
  constructor; cbn; rewrite ?length_insert; try done.
  - intros k' p fd' l' Hp' Hfd' Hl'.
    apply list_lookup_insert_Some in Hp' as [(-> & <- & _)|[? ?]].
    + rewrite list_lookup_insert_eq in Hl' by lia. by simplify_eq.
    + rewrite list_lookup_insert_ne in Hl' by done. by eapply Ho.
  - intros k' l' Hl'. apply other_local in Hl' as [[-> ->]|[Hne Hl']]; [done|].
    rewrite (Hw k' l' Hl'). split; [|done]. by intros [= ->].
  - rewrite Hu. unfold held. cbn. rewrite Hlk. cbn. rewrite Hcur. cbn.
    by rewrite fmap_app, concat_app, app_nil_r; cbn; rewrite app_nil_r.
  - intros k' fd' l' Hfd' Hl'. apply other_local in Hl' as [[-> ->]|[Hne Hl']]; [|by eapply Hr].
    assert (fd' = fd) as -> by congruence. cbn. by apply (Hr k).
  - intros k' l' Hl'. rewrite filter_app, filter_cons, filter_nil, fmap_app. cbn [fst].
    apply other_local in Hl' as [[-> ->]|[Hne Hl']].
    + rewrite decide_True by done. cbn. by rewrite (Hn k l Hlk).
    + rewrite decide_False by congruence. rewrite app_nil_r. by apply Hn.
Qed.

Lemma together_other h0 o h h' ps ls ws :
  other h h' → together h0 (Par o h ps) ls ws → together h0 (Par o h' ps) ls ws.
Proof.
  intros Hi [Hs Hp Hl Ho Hw Hh Hu Hr Hn]. cbn in *. constructor; try done; cbn.
  - by eapply lb_stable.
  - by rewrite (lb_uart h h').
  - intros k fd l Hfd Hlk. rewrite (lb_reads h h') by (by try eapply list_elem_of_lookup_2). eauto.
Qed.

(** Every step keeps the threads together. *)
Lemma together_step h0 s s' ls ws :
  together h0 s ls ws → pstep E other s s' → ∃ ls' ws', together h0 s' ls' ws'.
Proof.
  intros Ht Hst. destruct Hst as [k s s' Ha|o h h' ps Hi].
  2:{ exists ls, ws. by eapply together_other. }
  destruct s as [o h ps]. unfold advance in Ha. cbn in Ha.
  destruct (ps !! k) as [[a|w|c|rq c|c|c]|] eqn:Hk; try done.
  - injection Ha as <-. exists ls, ws. by apply together_look.
  - injection Ha as <-. destruct (together_call h0 o h ps ls ws k rq c Hk Ht) as (l & _ & H). eauto.
  - destruct o; [done|]. injection Ha as <-.
    destruct (together_lock h0 h ps ls ws k c Hk Ht) as (l & _ & H). eauto.
  - case_bool_decide as Ho; [|done]. cbn in Ho. subst o. injection Ha as <-.
    destruct (together_unlock h0 h ps ls ws k c Hk Ht) as (l & x & _ & _ & H). eauto.
Qed.

Lemma together_steps h0 s s' ls ws :
  together h0 s ls ws → rtc (pstep E other) s s' → ∃ ls' ws', together h0 s' ls' ws'.
Proof.
  intros Ht Hr. revert ls ws Ht. induction Hr as [s|s1 s2 s3 Hst _ IH]; intros ls ws Ht; [eauto|].
  destruct (together_step h0 s1 s2 ls ws Ht Hst) as (ls1 & ws1 & H1). eauto.
Qed.

(** The threads put together: whatever the schedule, the UART received whole
    writes one after the other. *)
Lemma par_sound h ps s :
  stab h → length ps = length fds →
  (∀ k p fd, ps !! k = Some p → fds !! k = Some fd →
     obeys E ok stab uart fd (I k) p (λ _, D k) local_init) →
  rtc (pstep E other) (Par None h ps) s →
  ∃ ls ws, together h s ls ws.
Proof.
  intros Hs Hl Ho. apply (together_steps h _ _ (replicate (length fds) local_init) []).
  constructor; try done; cbn.
  - apply length_replicate.
  - intros k p fd l Hp Hfd Hlk. apply lookup_replicate in Hlk as [-> _]. by apply (Ho k).
  - intros k l Hlk. by apply lookup_replicate in Hlk as [-> _].
  - by rewrite app_nil_r.
  - intros k fd l Hfd Hlk. apply lookup_replicate in Hlk as [-> _]. by rewrite app_nil_r.
  - intros k l Hlk. by apply lookup_replicate in Hlk as [-> _].
Qed.

(** No deadlock: unless all threads have ended or stopped, one can go on. *)
Lemma par_progress h0 s ls ws :
  together h0 s ls ws →
  (∃ k s', advance E k s = Some s') ∨
  forallb final (pr_procs s) = true ∨
  ∃ k, pr_owner s = Some k ∧ ∃ w, pr_procs s !! k = Some (Halt w) ∧ ok w.
Proof.
  intros [Hs Hp Hl Ho Hw Hh Hu Hr Hn]. destruct s as [o h ps]. cbn in *.
  destruct o as [k|].
  - pose proof (Hh k eq_refl) as Hk.
    destruct (lookup_lt_is_Some_2 ps k) as [p Hpk]; [lia|].
    destruct (lookup_lt_is_Some_2 fds k) as [fd Hfd]; [lia|].
    destruct (lookup_lt_is_Some_2 ls k) as [l Hlk]; [lia|].
    pose proof (Ho k p fd l Hpk Hfd Hlk) as Hob. pose proof (proj2 (Hw k l Hlk) eq_refl) as Hc.
    destruct p as [a|w|c|rq c|c|c]; destruct Hob as [_ Hob].
    + by destruct (Hc (HD _ _ Hob)).
    + right. right. exists k. split; [done|]. by exists w.
    + left. exists k. eexists. unfold advance. cbn. by rewrite Hpk.
    + left. exists k. eexists. unfold advance. cbn. by rewrite Hpk.
    + by destruct Hob.
    + left. exists k. eexists. unfold advance. cbn. rewrite Hpk. by rewrite bool_decide_true.
  - destruct (forallb final ps) eqn:Hf; [by right; left|]. left.
    assert (∃ k p, ps !! k = Some p ∧ final p = false) as (k & p & Hpk & Hp').
    { clear -Hf. induction ps as [|p ps IH]; [done|]. cbn in Hf.
      destruct (final p) eqn:Hp; [|by exists 0%nat, p]. destruct (IH Hf) as (k & q & ? & ?).
      by exists (S k), q. }
    pose proof (lookup_lt_Some _ _ _ Hpk) as Hlt.
    destruct (lookup_lt_is_Some_2 fds k) as [fd Hfd]; [lia|].
    destruct (lookup_lt_is_Some_2 ls k) as [l Hlk]; [lia|].
    pose proof (Ho k p fd l Hpk Hfd Hlk) as Hob.
    exists k. unfold advance. cbn. rewrite Hpk. destruct p as [a|w|c|rq c|c|c]; try discriminate Hp'; try by eexists.
    destruct Hob as [_ Hob]. destruct (lc_cur l) eqn:Hc; [|done]. assert (None = Some k) by (apply (Hw k l Hlk); by rewrite Hc).
    done.
Qed.

End Pool.
