(* ===== verification/TtySpec.v ===== *)
(** * What opening the UART device guarantees

    Opening owns exactly the descriptor it returns: no failure path leaks one,
    none is closed twice, and the lock loops end.  It can only stop while it
    resets the device's demultiplexer, where [putch_or_exit] asserts that the
    UART can be polled and retries interrupted calls; where output is answered
    ([output_answers]) it always returns. *)

From S2P Require Import Prelude Proto CString HostState HostIo HostIoInv Startup Tty.

(** Descriptors opened minus descriptors closed. *)
Fixpoint fd_balance (fd : Z) (tr : history) : Z :=
  match tr with
  | [] => 0
  | (RqOpen _ _, r) :: tr' => fd_balance fd tr' + (if (0 <=? res r) && (res r =? fd) then 1 else 0)
  | (RqClose fd', _) :: tr' => fd_balance fd tr' - (if fd' =? fd then 1 else 0)
  | _ :: tr' => fd_balance fd tr'
  end.

(** What a descriptor variable counts for: nothing when it is negative. *)
Definition owns (z d : Z) : Z := if (0 <=? z) && (z =? d) then 1 else 0.

(** From [h] to [h'] the program gave up [a] and obtained [b]. *)
Record owning (a b : Z) (h h' : host) : Prop := Owning {
  ow_cfg : cfg h' = cfg h;
  ow_balance : ∀ d, fd_balance d (trace h') = fd_balance d (trace h) + owns b d - owns a d
}.

(** The name part of the device path fits its buffer. *)
Definition device_ok (c : config) : Prop :=
  0 < Z.of_nat (length (tty_device c)) < MAX_PATH - 1.

(** The stops that writing to the device may end with: none where output is
    answered. *)
Definition puts_with (E : env) (fuel : nat) (ok : stop → Prop) : Prop :=
  (output_answers E ∧ (0 < fuel)%nat) ∨ (ok AssertFail ∧ ok OutOfFuel).

(* ------------------------------------------------------------------ *)
(** ** Lemmas *)

Lemma owning_refl z h : owning z z h h.
Proof. constructor; [done|]. intros d. lia. Qed.

Lemma owning_trans a b c h1 h2 h3 : owning a b h1 h2 → owning b c h2 h3 → owning a c h1 h3.
Proof. intros [? H1] [? H2]. constructor; [congruence|]. intros d. rewrite H2, H1. lia. Qed.

(** Around a computation that keeps its own balance. *)
Lemma owning_frame z h h' : owning (-1) (-1) h h' → owning z z h h'.
Proof. intros [? H]. constructor; [done|]. intros d. rewrite H. lia. Qed.

(** A call that neither opens nor closes. *)
Definition keeps_fds (rq : sysreq) : Prop :=
  match rq with RqOpen _ _ | RqClose _ => False | _ => True end.

Lemma owning_call z h rq r :
  keeps_fds rq → owning z z h (set_trace ((rq, r) :: trace h) h).
Proof. intros Hk. constructor; [done|]. intros d. cbn. destruct rq; try done; lia. Qed.

Lemma owning_open h path m r :
  owning (-1) (res r) h (set_trace ((RqOpen path m, r) :: trace h) h).
Proof.
  constructor; [done|]. intros d. cbn. unfold owns. change (0 <=? -1) with false.
  cbn [andb]. lia.
Qed.

Lemma owning_close fd h r :
  0 ≤ fd → owning fd (-1) h (set_trace ((RqClose fd, r) :: trace h) h).
Proof.
  intros Hfd. constructor; [done|]. intros d. cbn. unfold owns. change (0 <=? -1) with false.
  rewrite (proj2 (Z.leb_le 0 fd)) by done. cbn [andb]. lia.
Qed.

(** A negative result owns nothing. *)
Lemma owning_none a z h h' : z < 0 → owning a z h h' → owning a (-1) h h'.
Proof.
  intros Hz [? H]. constructor; [done|]. intros d. rewrite H. unfold owns.
  by rewrite (proj2 (Z.leb_gt 0 z)).
Qed.

(** The balance of a fixed sequence of calls. *)
Ltac balance :=
  constructor; [done|]; intros ?; cbn; unfold owns; change (0 <=? -1) with false; cbn [andb];
  z_bool; repeat case_match; z_bool;
  repeat match goal with H : (_ && _) = false |- _ => apply andb_false_iff in H as [?|?] end;
  z_bool; lia.

Section Open.
Context (E : env) (fuel : nat) (ok : stop → Prop).

Lemma wp_set_filelock h :
  device_ok (cfg h) →
  wp ok uucp_set_filelock_name (λ _ h', owning (-1) (-1) h h' ∧ uucp_locked h' = uucp_locked h) h.
Proof.
  intros [H0 H1]. unfold uucp_set_filelock_name. do 2 wp_step.
  destruct (tty_device (cfg h)) as [|c rest] eqn:Hd; [cbn in H0; lia|].
  set (name := match strstr rest 0 [x2f] with Some i => _ | None => _ end).
  assert (Hn : Z.of_nat (length name) < MAX_PATH - 1).
  { unfold name. destruct (strstr _ _ _); [rewrite length_drop|]; cbn [length] in *; lia. }
  rewrite (proj2 (Z.leb_gt _ _)) by done. cbv zeta. wp_steps. split; [|done].
  constructor; [done|]. intros d. cbn. lia.
Qed.

Lemma wp_check_is_locked h :
  wp ok (uucp_check_is_locked E)
    (λ _ h', owning (-1) (-1) h h' ∧ uucp_locked h' = uucp_locked h) h.
Proof. unfold uucp_check_is_locked. hw_steps; (split; [balance|done]). Qed.

Lemma wp_lock_device h :
  wp ok (uucp_lock_tty_device E)
    (λ z h', owning (-1) (-1) h h' ∧ (z = 0 → uucp_locked h' = true)) h.
Proof. unfold uucp_lock_tty_device. hw_steps; (split; [balance|done]). Qed.

Lemma wp_uucp_acquire h :
  device_ok (cfg h) →
  wp ok (uucp_acquire E)
    (λ b h', owning (-1) (-1) h h' ∧
      (b = true → disable_uucp_lock (cfg h) = false →
       res (E (trace h) (RqStat UUCP_DIR)) = 0 → uucp_locked h' = true)) h.
Proof.
  intros Hd. unfold uucp_acquire. do 2 hw_step. hw_step; [hw_step; split; [balance|done]|].
  do 2 hw_step. hw_step.
  { hw_step. split; [balance|]. intros _ _ Hs. subst r. rewrite Hs in Heqb0. exact Heqb0. }
  set (h1 := set_trace _ h). assert (H1 : owning (-1) (-1) h h1) by balance.
  hw_step. eapply wp_mono; [by apply wp_set_filelock|]. intros e h2 [H2 _]. cbv beta.
  pose proof (owning_trans _ _ _ _ _ _ H1 H2) as H12.
  hw_step; [hw_step; split; [done|discriminate]|].
  hw_step. eapply wp_mono; [apply wp_check_is_locked|]. intros b h3 [H3 _]. cbv beta.
  pose proof (owning_trans _ _ _ _ _ _ H12 H3) as H13.
  hw_step; [hw_step; split; [done|discriminate]|].
  hw_step. eapply wp_mono; [apply wp_lock_device|]. intros z h4 [H4 Hz]. hw_step.
  split; [by eapply owning_trans|]. intros Hb _ _. z_bool. auto.
Qed.

(** Opening ends: the descriptor it found, and not more retries. *)
Lemma wp_open_retry path n h :
  wp ok (open_retry E path n)
    (λ p h', owning (-1) p.1 h h' ∧ (0 ≤ p.1 → 0 ≤ p.2 ≤ Z.of_nat n) ∧
             uucp_locked h' = uucp_locked h) h.
Proof.
  revert h. induction n as [|n IH]; intros h; cbn [open_retry]; do 2 hw_step; hw_step; z_bool.
  - hw_step. cbn [fst snd]. split; [|split; [lia|done]]. apply owning_open.
  - hw_step. cbn [fst snd]. split; [|split; [lia|done]]. apply owning_open.
  - hw_step. cbn [fst snd]. split; [|split; [lia|done]]. apply owning_open.
  - do 2 hw_step. eapply wp_mono; [apply IH|]. intros [fd k] h' (Ho & Hk & Hu). cbn [fst snd] in *.
    split; [|split; [lia|done]]. eapply owning_trans; [|exact Ho].
    eapply owning_trans; [eapply owning_none; [done|]; apply owning_open|]. by apply owning_call.
Qed.

(** The lock loop ends within the retries, with the descriptor it owns. *)
Lemma wp_lock_retry path n fd retries h :
  0 ≤ fd → 0 ≤ retries < Z.of_nat n →
  wp ok (lock_retry E path n fd retries)
    (λ p h', owning fd p.2 h h' ∧ (p.1 = true → 0 ≤ p.2) ∧ uucp_locked h' = uucp_locked h) h.
Proof.
  revert fd retries h. induction n as [|n IH]; intros fd retries h Hfd Hr; [lia|].
  cbn [lock_retry]. do 2 hw_step. hw_step.
  { hw_step. cbn [fst snd]. split; [by apply owning_call|done]. }
  set (h1 := set_trace _ h). assert (H1 : owning fd fd h h1) by (by apply owning_call).
  hw_step. eapply (wp_mono ok _ (λ p h2, owning fd p.1 h h2 ∧
    (0 ≤ p.1 → 0 ≤ p.2 ≤ retries) ∧ uucp_locked h2 = uucp_locked h)).
  { hw_step.
    - do 2 hw_step. eapply wp_mono; [apply wp_open_retry|]. intros [fd2 k] h3 (Ho & Hk & Hu).
      cbn [fst snd] in *. split; [|split; [|done]].
      + eapply owning_trans; [exact H1|]. eapply owning_trans; [by apply owning_close|exact Ho].
      + intros Hz. specialize (Hk Hz). lia.
    - hw_step. cbn [fst snd]. split; [done|split; [lia|done]]. }
  intros [fd2 k] h2 (Ho & Hk & Hu). cbn [fst snd] in *.
  hw_step; z_bool; [hw_step; cbn [fst snd]; split; [done|split; [discriminate|done]]|].
  specialize (Hk ltac:(lia)).
  hw_step; z_bool; [hw_step; cbn [fst snd]; split; [done|split; [discriminate|done]]|].
  do 2 hw_step. eapply wp_mono; [apply IH; lia|]. intros p h' (Ho' & Hp & Hu').
  split; [|split; [done|by rewrite Hu']]. eapply owning_trans; [exact Ho|].
  eapply owning_trans; [|exact Ho']. by apply owning_call.
Qed.

Lemma wp_tty_err fd h :
  wp ok (tty_err E fd) (λ z h', z = -1 ∧ owning fd (-1) h h') h.
Proof.
  unfold tty_err. hw_step. hw_step; z_bool.
  - do 2 hw_step. hw_step. hw_step. split; [done|]. by apply owning_close.
  - hw_step. hw_step. split; [done|]. eapply owning_none; [exact Heqb|]. apply owning_refl.
Qed.

Lemma wp_tty_setup fd b h :
  wp ok (tty_setup E fd b) (λ _ h', owning (-1) (-1) h h' ∧ uucp_locked h' = uucp_locked h) h.
Proof. unfold tty_setup. hw_steps; (split; [balance|done]). Qed.

Lemma retried_owning rq rs r h h' :
  keeps_fds rq → retried E rq rs r h h' → owning (-1) (-1) h h' ∧ uucp_locked h' = uucp_locked h.
Proof.
  intros Hk (_ & _ & _ & ->). split; [|done]. constructor; [done|]. intros d. cbn.
  assert (Hb : ∀ tr, fd_balance d (map (pair rq) rs ++ tr) = fd_balance d tr).
  { intros tr. induction rs as [|q rs IH]; [done|]. cbn. rewrite <-IH. by destruct rq. }
  rewrite <-(Hb (trace h)). destruct rq; try done; lia.
Qed.

Lemma wp_retry_owning n rq h :
  ok OutOfFuel → keeps_fds rq →
  wp ok (retry_io E n rq) (λ _ h', owning (-1) (-1) h h' ∧ uucp_locked h' = uucp_locked h) h.
Proof.
  intros Ho Hk. eapply wp_mono; [by apply wp_retry_io|]. intros r h' (rs & Hr).
  by eapply retried_owning.
Qed.

Lemma wp_putch fd b h :
  puts_with E fuel ok →
  wp ok (putch_or_exit E fuel fd b)
    (λ _ h', owning (-1) (-1) h h' ∧ uucp_locked h' = uucp_locked h) h.
Proof.
  unfold putch_or_exit, poll_output. intros [[[Hp Hw] Hf]|[Ha Ho]].
  - destruct fuel as [|f]; [lia|]. do 3 wp_step. unfold wp at 1.
    destruct (Hp (trace h) fd (poll_output_timeout (cfg h))) as (Hr & Hres).
    rewrite retry_io_first by done. destruct Hres as [Hres | [Hres Hnv]]; rewrite Hres.
    + change (0 =? 0) with true. cbv iota. wp_step. split; [balance|done].
    + rewrite Hnv. change (1 =? 0) with false. change (1 =? 1) with true.
      change (0 =? 0) with true. cbv iota. cbn [assert_c]. do 5 wp_step. unfold wp at 1.
      rewrite retry_io_first by apply Hw. hw_steps; (split; [balance|done]).
  - do 3 wp_step. eapply wp_mono; [by apply wp_retry_owning|]. intros p h1 [H1 U1]. cbv beta.
    wp_step; [by wp_step|]. wp_step. apply wp_assert; [done|]. intros _.
    wp_step. apply wp_assert; [done|]. intros _. wp_step.
    eapply wp_mono; [by apply wp_retry_owning|]. intros r h2 [H2 U2]. cbv beta.
    wp_step; wp_step; (split; [by eapply owning_trans|congruence]).
Qed.

Lemma wp_tty_reset fd h :
  puts_with E fuel ok →
  wp ok (tty_reset E fuel fd)
    (λ _ h', owning (-1) (-1) h h' ∧ uucp_locked h' = uucp_locked h) h.
Proof.
  intros Hp. unfold tty_reset.
  wp_step. eapply wp_mono; [by apply wp_putch|]. intros _ h1 [H1 U1].
  wp_step. eapply wp_mono; [by apply wp_putch|]. intros _ h2 [H2 U2].
  wp_step. eapply wp_mono; [by apply wp_putch|]. intros _ h3 [H3 U3]. wp_step.
  split; [|congruence]. eapply owning_trans; [exact H1|]. by eapply owning_trans.
Qed.

Lemma wp_open_tty_device h :
  device_ok (cfg h) → puts_with E fuel ok →
  wp ok (open_tty_device E fuel)
    (λ z h', -1 ≤ z ∧ owning (-1) z h h' ∧
      (invalid_baudrate (int_baudrate (cfg h)) = true → z = -1) ∧
      (0 ≤ z → disable_uucp_lock (cfg h) = false →
       res (E (trace h) (RqStat UUCP_DIR)) = 0 → uucp_locked h' = true)) h.
Proof.
  intros Hd Hp. unfold open_tty_device. set (P := λ b h', _).
  assert (Herr : ∀ fd h1, owning (-1) fd h h1 → wp ok (tty_err E fd) P h1).
  { intros fd h1 H1. eapply wp_mono; [apply wp_tty_err|]. intros z h2 [-> H2].
    split; [lia|]. split; [by eapply owning_trans|]. split; [done|lia]. }
  wp_step. eapply wp_mono; [by apply wp_uucp_acquire|]. intros got h1 [H1 Hgot]. cbv beta.
  destruct got; cbn [negb]; [|by apply Herr]. specialize (Hgot eq_refl).
  do 2 wp_step. cbv zeta. wp_step. eapply wp_mono; [apply wp_open_retry|].
  intros [fd k] h2 (H2 & _ & U2). cbn [fst] in H2. cbv beta iota.
  pose proof (owning_trans _ _ _ _ _ _ H1 H2) as H12.
  wp_step; z_bool; [by apply Herr|].
  rewrite (ow_cfg _ _ _ _ H1).
  wp_step; [by apply Herr|]. cbv zeta.
  wp_step. eapply wp_mono; [apply wp_lock_retry; unfold LOCK_RETRIES; lia|].
  intros [locked fd2] h3 (H3 & Hl & U3). cbn [fst snd] in *. cbv beta iota.
  pose proof (owning_trans _ _ _ _ _ _ H12 H3) as H13.
  destruct locked; cbn [negb]; [|by apply Herr]. specialize (Hl eq_refl).
  wp_step. eapply wp_mono; [apply wp_tty_setup|]. intros set h4 [H4 U4]. cbv beta.
  pose proof (owning_trans _ _ _ _ _ _ H13 (owning_frame _ _ _ H4)) as H14.
  destruct set; cbn [negb]; [|by apply Herr].
  wp_step. eapply wp_mono; [by apply wp_tty_reset|]. intros _ h5 [H5 U5]. wp_step.
  pose proof (owning_trans _ _ _ _ _ _ H14 (owning_frame _ _ _ H5)) as H15.
  split; [lia|]. split; [done|]. split; [congruence|]. intros _ Hu Hs.
  rewrite U5, U4, U3, U2. auto.
Qed.

End Open.

(* ------------------------------------------------------------------ *)
(** ** Lemmas: invariants through opening *)

Lemma preserves_retry E ok I n rq :
  call_blind E ok I → ok rq = true → preserves I (retry_io E n rq).
Proof. intros Hb Hc. induction n as [|n IH]; cbn [retry_io]; preserve. Qed.

Lemma preserves_putch E ok I fuel fd b :
  call_blind E ok I → (∀ t, ok (RqPollOut fd t) = true) → (∀ d, ok (RqWrite fd d) = true) →
  ok (RqDrain fd) = true → preserves I (putch_or_exit E fuel fd b).
Proof.
  intros Hb Hp Hw Hd. pose proof (λ n rq, preserves_retry E ok I n rq Hb).
  unfold putch_or_exit, poll_output. preserve.
Qed.

(** The calls that do not create a lock file. *)
Definition no_lock (rq : sysreq) : bool :=
  match rq with RqOpen _ OpenLockCreate => false | _ => true end.

(** Nor print. *)
Definition silent (rq : sysreq) : bool :=
  match rq with RqStdout _ => false | _ => no_lock rq end.

(** Opening the UART, once the lock is dealt with. *)
Section Opening.
Context (E : env) (fuel : nat) (I : host → Prop).
Context (Hb : call_blind E silent I) (Hacq : preserves I (uucp_acquire E)).

Lemma preserves_open_retry path n : preserves I (open_retry E path n).
Proof using Hb. induction n as [|n IH]; cbn [open_retry]; preserve. Qed.

Lemma preserves_lock_retry path n fd retries : preserves I (lock_retry E path n fd retries).
Proof using Hb.
  pose proof preserves_open_retry. revert fd retries.
  induction n as [|n IH]; intros fd retries; cbn [lock_retry]; preserve.
Qed.

Lemma preserves_open_tty : preserves I (open_tty_device E fuel).
Proof using Hb Hacq.
  pose proof preserves_open_retry. pose proof preserves_lock_retry.
  pose proof (λ fd b, preserves_putch E silent I fuel fd b Hb (λ _, eq_refl) (λ _, eq_refl) eq_refl).
  assert (∀ fd, preserves I (tty_err E fd)) by (intros fd; unfold tty_err; preserve).
  assert (∀ fd b, preserves I (tty_setup E fd b)) by (intros fd b; unfold tty_setup; preserve).
  assert (∀ fd, preserves I (tty_reset E fuel fd)) by (intros fd; unfold tty_reset; preserve).
  unfold open_tty_device. preserve.
Qed.

End Opening.

(** An invariant of the stream table does not mind the lock either. *)
Lemma preserves_acquire_table E I :
  call_blind E (λ _, true) I → (∀ h v, I h → I (set_filelock v h)) →
  (∀ h v, I h → I (set_uucp_locked v h)) → preserves I (uucp_acquire E).
Proof.
  intros Hb Hlock Hheld.
  assert (preserves I uucp_set_filelock_name).
  { unfold uucp_set_filelock_name. preserve; apply preserves_modify; auto. }
  assert (preserves I (uucp_check_is_locked E)) by (unfold uucp_check_is_locked; preserve).
  assert (preserves I (uucp_lock_tty_device E)).
  { unfold uucp_lock_tty_device. preserve; apply preserves_modify; auto. }
  unfold uucp_acquire. preserve.
Qed.

(** The stops that opening the device may end with. *)
Definition opens_with (E : env) (fuel : nat) (ok : stop → Prop) (dev : list byte) : Prop :=
  ∀ h, tty_device (cfg h) = dev → wp ok (open_tty_device E fuel) (λ _ _, True) h.

Lemma opens_partial E fuel dev : opens_with E fuel partial dev.
Proof. intros h _. unfold wp. by destruct (open_tty_device E fuel h). Qed.

Lemma opens_total E fuel ok dev :
  0 < Z.of_nat (length dev) < MAX_PATH - 1 → output_answers E → (0 < fuel)%nat →
  opens_with E fuel ok dev.
Proof.
  intros Hd Ho Hf h <-. eapply wp_mono; [apply wp_open_tty_device; [done|by left]|]. done.
Qed.

Lemma good_env_answers : output_answers good_env.
Proof.
  constructor; intros; cbn; [split; [done|by right]|].
  unfold should_retry_io. cbn. by rewrite (proj2 (Z.eqb_neq _ (-1))) by lia.
Qed.

(* ------------------------------------------------------------------ *)
(** ** Properties *)



(** A device that is unplugged between the poll and its answer: the assertion
    of [putch_or_exit] stops the program. *)
Example open_tty_pollnval :
  match open_tty_device (λ tr rq, match rq with
      | RqPollOut _ _ => SysRes 1 0 POLLNVAL [] [] | _ => good_env tr rq end) 1
    (host_boot default_options) with
  | Stop w _ => w = AssertFail
  | Done _ _ => False
  end.
Proof. by vm_compute. Qed.
