(* ===== verification/StartupInv.v ===== *)
(** * Start-up establishes the invariant

    In Virtioso mode, whenever the start-up sequence of [main] succeeds, the
    stream table is well formed and holds the three built-in channels, and
    the locals the UART thread starts with are consistent. *)

From S2P Require Import Prelude Proto CString HostState HostIo HostIoInv Flush Registry RegistryInv Tty Startup TtySpec Demux DemuxInv.

(** The table of [init_virtioso_tags], before any stream is known. *)
Record booted (o : options) (h : host) : Prop := Booted {
  bt_shape : shape h 3;
  bt_tags : tags h =
    [Tag (Some RAW_CCPLEX_PTY) x00; Tag (Some AUTOPILOT_CONTROL_PTY) x00;
     Tag (Some PHYSICAL_UART_DEFAULT_PTY) x00] ++
    replicate (Z.to_nat VIRTIOSO_MAX_PTY_COUNT - 3) tag_zero;
  bt_num : num_proc h = 3;
  bt_max : pty_max_count h = 3;
  bt_cfg : cfg_ok (cfg h);
  bt_registry : virtioso_registry_json h = None;
  bt_input : take 3 (virtioso_stream_input_enabled h) = [true; true; true];
  bt_patch : disable_patch (cfg h) = negb (opt_patch o);
  bt_save : save_output_path (cfg h) = opt_save o;
  bt_outer : virtioso_outer_mode (cfg h) = opt_outer_mode o;
  bt_device : tty_device (cfg h) = opt_device o;
  bt_mode : virtioso_mode_enabled (cfg h) = true;
  bt_carrier : virtioso_outer_mode (cfg h) = VIRTIOSO_OUTER_NVIDIA_TCU →
    0 ≤ virtioso_outer_tag_idx (cfg h) < Z.of_nat (length chip_tags)
}.

(* ------------------------------------------------------------------ *)
(** ** Lemmas *)

Lemma builtin_table_ok l : table_ok
  ([Tag (Some RAW_CCPLEX_PTY) x00; Tag (Some AUTOPILOT_CONTROL_PTY) x00;
    Tag (Some PHYSICAL_UART_DEFAULT_PTY) x00] ++ l) 3.
Proof.
  assert (Hz : ∀ i t, Z.of_nat i < 3 →
    ([Tag (Some RAW_CCPLEX_PTY) x00; Tag (Some AUTOPILOT_CONTROL_PTY) x00;
      Tag (Some PHYSICAL_UART_DEFAULT_PTY) x00] ++ l) !! i = Some t → tag_value t = x00).
  { intros [|[|[|i]]] t Hi Ht; [by injection Ht as <-..|lia]. }
  constructor.
  - intros i t Hi Ht. pose proof (Hz i t Hi Ht). split; [lia|done].
  - intros i j t u Hi Hj Ht Hu Heq Hne. by destruct Hne; apply (Hz i).
Qed.

Lemma booted_wf o h : booted o h → wf h.
Proof.
  intros [Hs Ht Hn Hm Hc _ _ _ _ _ _ _ _].
  constructor; rewrite ?Hn, ?Ht; [done|apply builtin_table_ok|done|done].
Qed.

Lemma rx_init_ok h : 0 ≤ num_proc h → rx_ok h rx_init.
Proof.
  intros Hn. constructor; try done; cbn; [lia|by intros [?|?]..].
Qed.

Lemma booted_opens o i h h' : opens i h h' → booted o h → booted o h'.
Proof.
  intros Ho []. pose proof (opens_shape _ _ _ _ Ho bt_shape0). destruct Ho.
  constructor; try congruence; by rewrite op_cfg.
Qed.

(** What the calls between the table and the PTYs leave alone. *)
Lemma booted_same o h h' :
  cfg h' = cfg h → tags h' = tags h → num_proc h' = num_proc h → pty_max_count h' = pty_max_count h →
  pty_data h' = pty_data h → virtioso_stream_input_enabled h' = virtioso_stream_input_enabled h →
  virtioso_registry_json h' = virtioso_registry_json h → booted o h → booted o h'.
Proof.
  intros Hc Ht Hn Hm Hp Hi Hr [Hs]. constructor; try congruence; [|by rewrite Hc].
  destruct Hs. constructor; rewrite ?Ht, ?Hp, ?Hi, ?Hc; done.
Qed.

Ltac same_table := by match goal with H : booted _ ?h |- booted _ _ => by apply (booted_same _ h) end.

Lemma find_tag_name_bound l name i :
  0 ≤ i → -1 ≤ find_tag_name l name i < i + Z.of_nat (length l) ∨ find_tag_name l name i = -1.
Proof.
  revert i. induction l as [|t l IH]; intros i Hi; cbn [find_tag_name length]; [by right|].
  destruct (bool_decide _); [left; lia|]. destruct (IH (i + 1)); [lia|left; lia|by right].
Qed.

Section StartupSafety.
Context (E : env).

Lemma wp_main_threads ok o n i h :
  booted o h → wp ok (main_threads E n i) (λ _ h', booted o h') h.
Proof.
  revert i h. induction n as [|n IH]; intros i h Hb; cbn [main_threads]; [by wp_step|].
  wp_step. eapply wp_mono; [apply wp_create_thread|]. intros z h1 Ho. cbv beta in Ho.
  pose proof (booted_opens _ _ _ _ Ho Hb).
  wp_step; [by wp_step|]. by apply IH.
Qed.

(** Creating the PTYs from index [i] on, below the three built-ins. *)
Lemma wp_main_create ok o n i h :
  booted o h → 0 ≤ i → i + Z.of_nat n ≤ 3 →
  wp ok (main_create E n i) (λ _ h', booted o h') h.
Proof.
  revert i h. induction n as [|n IH]; intros i h Hb Hi Hn; cbn [main_create]; [by wp_step|].
  pose proof (bt_mode _ _ Hb) as Hv. pose proof (bt_shape _ _ Hb) as Hs. pose proof (sh_tags _ _ Hs) as Ht.
  unfold pty_name. do 3 wp_step. rewrite Hv. cbn [orb]. wp_step.
  apply wp_arr_get; [unfold NPTY in Ht; lia|]. intros t Hti.
  destruct (sh_names _ _ Hs (Z.to_nat i) t) as [name Hname]; [lia|done|].
  rewrite Hname. do 2 wp_step.
  eapply wp_mono; [apply (wp_create_pty E _ _ _ _ _ 3); (done || lia)|].
  intros z h1 (Ho & _). pose proof (booted_opens _ _ _ _ Ho Hb).
  wp_step; [by wp_step|]. apply IH; (done || lia).
Qed.

(** The stream table and its counters, up to the UART. *)
Lemma wp_main_setup ok o name :
  opt_virtioso o = true →
  wp ok (main_setup E name)
    (λ z h', z = 0 → booted o h') (host_boot o).
Proof.
  intros Hv. unfold main_setup, main_tags, main_counts, main_arrays, init_virtioso_tags.
  do 3 wp_step. cbn [host_boot cfg virtioso_mode_enabled]. rewrite Hv.
  wp_step. do 2 hw_step. hw_step; [do 4 hw_step; try done; by z_bool|].
  do 5 hw_step. apply wp_arr_set; [done|]. hw_step. apply wp_arr_set; [done|].
  hw_step. apply wp_arr_set; [done|]. do 9 hw_step.
  hw_step; [by z_bool|].
  eapply (wp_mono _ _ (λ z h', z = 0 → ∃ c, cfg_ok c ∧ virtioso_mode_enabled c = true ∧
    disable_patch c = negb (opt_patch o) ∧ save_output_path c = opt_save o ∧
    virtioso_outer_mode c = opt_outer_mode o ∧ tty_device c = opt_device o ∧
    (virtioso_outer_mode c = VIRTIOSO_OUTER_NVIDIA_TCU →
     0 ≤ virtioso_outer_tag_idx c < Z.of_nat (length chip_tags)) ∧
    ∃ tr, h' = Host tr c
    ([Tag (Some RAW_CCPLEX_PTY) x00; Tag (Some AUTOPILOT_CONTROL_PTY) x00;
      Tag (Some PHYSICAL_UART_DEFAULT_PTY) x00] ++
     replicate (Z.to_nat VIRTIOSO_MAX_PTY_COUNT - 3) tag_zero) 3 0 0 []
    ([true; true; true] ++ replicate (Z.to_nat VIRTIOSO_MAX_PTY_COUNT - 3) false)
    None x00 0 0 0 [] false)).
  - hw_steps; intros Hz; try discriminate Hz; eexists;
      (split; [|split; [|split; [|split; [|split; [|split; [|split; [|eexists; reflexivity]]]]]]]);
      try done.
    + intros _. cbn [virtioso_outer_tag_idx set_outer_tag].
      destruct (find_chip_tag_idx_by_name _ <? 0) eqn:Hidx; [done|]. z_bool.
      unfold find_chip_tag_idx_by_name in *.
      match goal with |- 0 ≤ find_tag_name ?l ?n 0 < _ => destruct (find_tag_name_bound l n 0); lia end.
    + intros Hm. z_bool. by cbn in *.
  - intros z h' Hz. hw_step; [by hw_step|]. z_bool.
    destruct (Hz ltac:(done)) as (c & Hc & Hvc & Hp & Hsv & Hom & Hdv & Hcr & tr & ->).
    do 3 hw_step. cbn [cfg]. rewrite Hvc.
    hw_steps; intros Hz1; try discriminate.
    constructor; try done. constructor; try done.
    intros [|[|[|i]]] t Hi Ht; [injection Ht as <-; eauto..|lia].
Qed.

Lemma wp_main_save_dir ok h o :
  booted o h → wp ok (main_save_dir E) (λ _ h', booted o h' ∧ tty_fd h' = tty_fd h) h.
Proof.
  intros Hb. unfold main_save_dir. do 2 hw_step. destruct (save_output_path (cfg h)); [|by hw_step].
  hw_steps; (split; [same_table|done]).
Qed.

Lemma wp_main_raw_log ok h o l :
  booted o h → wp ok (main_raw_log E l) (λ _ h', booted o h' ∧ tty_fd h' = tty_fd h) h.
Proof.
  intros Hb. unfold main_raw_log. destruct l; hw_steps; (split; [same_table|done]).
Qed.

(** Opening the UART leaves the table alone. *)
Lemma wp_main_open_tty fuel ok h o :
  opens_with E fuel ok (opt_device o) → booted o h →
  wp ok (main_open_tty E fuel) (λ z h', booted o h' ∧ (z = 0 → 0 ≤ tty_fd h')) h.
Proof.
  intros Ho Hb. unfold main_open_tty. wp_step. eapply wp_mono.
  { apply wp_preserves; [|exact Hb|apply Ho, Hb]. apply preserves_open_tty.
    { intros h1 rq _ Hb1. same_table. }
    apply preserves_acquire_table.
    - intros h1 rq _ Hb1. same_table.
    - intros h1 v Hb1. same_table.
    - intros h1 v Hb1. same_table. }
  intros fd h1 [_ Hb1]. do 3 wp_step. split; [same_table|].
  destruct (fd <? 0) eqn:Hfd; [done|]. z_bool. intros _. exact Hfd.
Qed.

Lemma wp_main_start_threads ok h o :
  booted o h → wp ok (main_start_threads E) (λ _ h', booted o h') h.
Proof.
  intros Hb. unfold main_start_threads. wp_step.
  eapply wp_mono; [apply wp_create_thread|]. intros z h1 Ho. cbv beta in Ho.
  pose proof (booted_opens _ _ _ _ Ho Hb). wp_step; [by wp_step|]. do 2 wp_step.
  by apply wp_main_threads.
Qed.

Lemma wp_main_start fuel ok o :
  opt_virtioso o = true → opens_with E fuel ok (opt_device o) →
  wp ok (main_start E fuel o) (λ z h', z = 0 → booted o h') (host_boot o).
Proof.
  intros Hv Hop. unfold main_start, main_launch. wp_step. eapply wp_mono; [by apply wp_main_setup|].
  intros z h Hb. wp_step; z_bool; [by wp_step|]. specialize (Hb ltac:(done)).
  wp_step. eapply wp_mono; [by apply wp_main_open_tty|]. intros z1 h1 [Hb1 _]. cbv beta.
  wp_step; [by wp_step|]. wp_step. eapply wp_mono; [by apply wp_main_save_dir|].
  intros z2 h2 [Hb2 _]. cbv beta. wp_step; [by wp_step|]. wp_step.
  eapply wp_mono; [by apply wp_main_raw_log|]. intros _ h3 [Hb3 _]. do 3 wp_step.
  eapply wp_mono; [apply (wp_main_create _ o); try done; rewrite (bt_max _ _ Hb3); lia|].
  intros z4 h4 Hb4. cbv beta in Hb4. cbv beta. wp_step; [by wp_step|].
  eapply wp_mono; [by eapply wp_main_start_threads|]. done.
Qed.

End StartupSafety.

(** The concrete start-ups succeed. *)
Lemma demo_booted fuel o :
  opt_virtioso o = true →
  (match main_start good_env fuel o (host_boot o) with Done 0 _ => true | _ => false end) = true →
  booted o (run (main_start good_env fuel o) (host_boot o)).
Proof.
  intros Hv Hr. pose proof (wp_main_start good_env fuel partial o Hv (opens_partial _ _ _)) as Hw.
  unfold run, wp in *. destruct (main_start _ _ _ _) as [z h|]; [|done].
  apply Hw. by destruct z.
Qed.

Lemma demo_host_wf : wf demo_host.
Proof. eapply booted_wf, demo_booted; [done|vm_compute; reflexivity]. Qed.

Lemma demo_host_tcu_wf : wf demo_host_tcu.
Proof. eapply booted_wf, demo_booted; [done|vm_compute; reflexivity]. Qed.
