(* ===== verification/RegistrySpec.v ===== *)
(** * From the assembly to the host's table

    The ids the generator assigns, and the round trip: the host that applies
    the generator's document has the generator's streams in its table. *)

From S2P Require Import Prelude Proto CString Generator Json RegistryText HostState HostIo Flush Registry RegistryScan RegistryInv RegistryParse Startup Demux DemuxInv StartupInv.
From Stdlib Require Import Sorted.

(** How many usable ids there are from [next] on. *)
Definition avail (next : Z) : Z :=
  if next <=? 0xfc then 254 - next else if next <=? 0xff then 1 else 0.

(** What the generator promises of its list of streams. *)
Record instances (types : list byte → list interface) (matches : list (list byte * list byte))
    (seen : list (list byte)) (next : Z) (sts : list stream) : Prop := Instances {
  in_matches : map (λ s, (st_type s, st_component s)) sts = matches;
  in_nodup : NoDup (map st_component sts);
  in_seen : ∀ s, s ∈ sts → st_component s ∉ seen;
  in_interfaces : ∀ s, s ∈ sts → st_interfaces s = types (st_type s) ∧
    st_direction s = stream_direction (types (st_type s)) ∧
    (st_id s = -1 ↔ types (st_type s) = []) ∧ (st_id s = -1 ∨ next ≤ st_id s);
  in_source : ∀ s, s ∈ sts → plain (st_id_source s) = true;
  in_reserved : ∀ s, s ∈ sts → st_id s ∉ RESERVED_STREAM_IDS;
  in_sorted : StronglySorted Z.lt (st_id <$> routed sts);
  in_bound : Z.of_nat (length (routed sts)) ≤ avail next → ∀ s, s ∈ sts → st_id s ≤ 0xff
}.

(* ------------------------------------------------------------------ *)
(** ** Lemmas: the ids *)

Lemma reserved_iff m : m ∈ RESERVED_STREAM_IDS ↔ m = 0 ∨ m = 0xfd ∨ m = 0xfe.
Proof. unfold RESERVED_STREAM_IDS. rewrite !elem_of_cons, elem_of_nil. intuition. Qed.

Lemma next_stream_id_eq n :
  1 ≤ n → next_stream_id n = if (n =? 0xfd) || (n =? 0xfe) then 0xff else n.
Proof.
  intros Hn. destruct (n =? 0xfd) eqn:H1; z_bool; [by subst|].
  destruct (n =? 0xfe) eqn:H2; z_bool; [by subst|]. cbn [orb].
  unfold next_stream_id. cbn [length RESERVED_STREAM_IDS next_stream_id_loop].
  rewrite bool_decide_eq_false_2; [done|]. rewrite reserved_iff. lia.
Qed.

Lemma next_stream_id_spec n :
  1 ≤ n →
  n ≤ next_stream_id n ∧ (next_stream_id n ∉ RESERVED_STREAM_IDS) ∧
  (0 < avail n → next_stream_id n ≤ 0xff ∧ avail (next_stream_id n + 1) = avail n - 1).
Proof.
  intros Hn. rewrite next_stream_id_eq, reserved_iff by done. unfold avail.
  repeat match goal with |- context [?b <=? ?c] => destruct (b <=? c) eqn:? end;
    repeat match goal with |- context [?b =? ?c] => destruct (b =? c) eqn:? end;
    repeat match goal with H : context [if ?b then _ else _] |- _ => destruct b eqn:? end;
    z_bool; cbn [orb] in *; lia.
Qed.

Lemma loop_instances types matches : ∀ seen next sts,
  1 ≤ next → instances_loop types matches seen next = Some sts →
  instances types matches seen next sts.
Proof.
  induction matches as [|[ty nm] rest IH]; intros seen next sts Hn Hl; cbn [instances_loop] in Hl.
  { injection Hl as <-. constructor; cbn; try done; try (by intros ? ?%not_elem_of_nil);
      try (by constructor). by intros _ ? ?%not_elem_of_nil. }
  case_bool_decide as Hseen; [done|].
  destruct (types ty) as [|i ifs] eqn:Hty.
  - destruct (instances_loop types rest (nm :: seen) next) as [l|] eqn:Hr; [|done].
    cbn in Hl. injection Hl as <-. destruct (IH _ _ _ Hn Hr) as [Hm Hnd Hs Hi Hso Hre Hsrt Hb].
    assert (Hro : ∀ d, routed (Stream (-1) nm ty (bs "none") d [] :: l) = routed l)
      by (intros d; unfold routed; by rewrite filter_cons_False by (cbn; lia)).
    constructor; rewrite ?Hro; cbn [map]; try done.
    + cbn. by rewrite Hm.
    + constructor; [|done]. intros (s & Hs1 & Hs2)%list_elem_of_fmap.
      apply (Hs s Hs2). rewrite <-Hs1. left.
    + intros s [->|Hin]%elem_of_cons; [done|]. intros Hc. apply (Hs s Hin). by right.
    + intros s [->|Hin]%elem_of_cons; [|by apply Hi]. cbn. rewrite Hty. split_and!; try done. by left.
    + intros s [->|Hin]%elem_of_cons; [done|by apply Hso].
    + intros s [->|Hin]%elem_of_cons; [cbn; rewrite reserved_iff; lia|by apply Hre].
    + intros Hlen s [->|Hin]%elem_of_cons; [cbn; lia|]. by apply Hb.
  - destruct (next_stream_id_spec next Hn) as (Hge & Hnr & Hav).
    set (id := next_stream_id next) in *. clearbody id.
    destruct (instances_loop types rest (nm :: seen) (id + 1)) as [l|] eqn:Hr; [|done].
    cbn in Hl. injection Hl as <-.
    destruct (IH _ (id + 1) _ ltac:(lia) Hr) as [Hm Hnd Hs Hi Hso Hre Hsrt Hb].
    assert (Hro : ∀ d, routed (Stream id nm ty (bs "component.common.c") d (i :: ifs) :: l) =
      Stream id nm ty (bs "component.common.c") d (i :: ifs) :: routed l)
      by (intros d; unfold routed; rewrite filter_cons_True; [done|change (0 ≤ id); lia]).
    constructor; rewrite ?Hro; cbn [map]; try done.
    + cbn. by rewrite Hm.
    + constructor; [|done]. intros (s & Hs1 & Hs2)%list_elem_of_fmap.
      apply (Hs s Hs2). rewrite <-Hs1. left.
    + intros s [->|Hin]%elem_of_cons; [done|]. intros Hc. apply (Hs s Hin). by right.
    + intros s [->|Hin]%elem_of_cons.
      * cbn. rewrite Hty. split; [done|]. split; [done|]. split; [split; [intros ->; exfalso; lia|done]|by right].
      * destruct (Hi s Hin) as (? & ? & ? & ?). repeat (split; [done|]). lia.
    + intros s [->|Hin]%elem_of_cons; [done|by apply Hso].
    + intros s [->|Hin]%elem_of_cons; [done|by apply Hre].
    + cbn [fmap list_fmap]. constructor; [done|].
      apply List.Forall_forall. intros z Hz. apply list_elem_of_In, list_elem_of_fmap in Hz as (s & -> & Hs2).
      unfold routed in Hs2. apply list_elem_of_filter in Hs2 as [Hp Hs2].
      destruct (Hi s Hs2) as (_ & _ & _ & [?|?]); cbn in *; lia.
    + cbn [length]. intros Hlen. assert (0 < avail next) as Hp by lia.
      destruct (Hav Hp) as [Hff Hav']. intros s [->|Hin]%elem_of_cons; [done|].
      apply Hb; [lia|done].
Qed.

Lemma component_instances_spec types matches sts :
  component_instances types matches = Some sts → instances types matches [] 1 sts.
Proof.
  unfold component_instances. destruct (instances_loop types matches [] 1) as [[|s l]|] eqn:Hl;
    [done| |done]. intros [= <-]. by apply loop_instances.
Qed.

(* ------------------------------------------------------------------ *)
(** ** Lemmas: the document around the list of streams *)

(** The names of an assembly the scanner can read: no quote or backslash, and
    none that is one of its keys or a channel every host has. *)
Definition builtin_names : list (list byte) :=
  [RAW_CCPLEX_PTY; AUTOPILOT_CONTROL_PTY; PHYSICAL_UART_DEFAULT_PTY].

Definition assembly_ok (types : list byte → list interface)
    (matches : list (list byte * list byte)) (conns : list connection)
    (name source : list byte) : bool :=
  forallb (λ m, plain m.1 && word_ok m.2 && bool_decide (m.2 ∉ builtin_names) &&
                forallb interface_ok (types m.1)) matches &&
  forallb (λ c, word_ok (from_component c) && word_ok (to_component c) &&
                word_ok (to_interface c)) conns &&
  word_ok name && word_ok source.

Definition document_head (name source : list byte) (sources : list mux_source)
    (sinks : list demux_sink) : list chunk :=
  [CRaw (bs "{"); CStr (bs "demux_sinks"); CRaw (bs ": ")] ++
  jlist (map demux_sink_json sinks) ++
  [CRaw (bs ", "); CStr (bs "mux_sources"); CRaw (bs ": ")] ++
  jlist (map mux_source_json sources) ++
  [CRaw (bs ", "); CStr (bs "name"); CRaw (bs ": "); CStr name; CRaw (bs ", ");
   CStr (bs "schema"); CRaw (bs ": "); CStr (bs "virtioso.camkes_component_identity.v1");
   CRaw (bs ", "); CStr (bs "source"); CRaw (bs ": "); CStr source; CRaw (bs ", ")].

Lemma registry_json_chunks name source sts sources sinks :
  registry_json name source sts sources sinks =
  text (document_head name source sources sinks ++ CStr (bs "streams") :: CRaw (bs ": ") ::
        jlist (map stream_json sts) ++ [CRaw (bs "}")]).
Proof.
  unfold registry_json, document_head. f_equal.
  generalize (map stream_json sts), (map mux_source_json sources), (map demux_sink_json sinks).
  intros l1 l2 l3. unfold jdict, jlist. cbn. repeat (rewrite <-app_assoc; cbn [app]).
  reflexivity.
Qed.

(** A field list of literals and numbers is a value without the word [k]. *)
Definition fine (k : list byte) (cs : list chunk) : Prop := value cs ∧ CStr k ∉ cs.

Lemma word_fine k s : word_ok s = true → k ∈ scanner_keys → fine k (jstr s).
Proof.
  intros Hs Hk. pose proof (word_ok_ne _ _ Hs Hk) as Hne.
  apply word_ok_spec in Hs as [Hp _]. split; [by apply value_jstr|].
  by intros ?%list_elem_of_singleton.
Qed.

Lemma fine_jlist k vs : Forall (fine k) vs → fine k (jlist vs).
Proof.
  intros Hvs. split.
  - apply value_jlist. eapply Forall_impl; [exact Hvs|]. by intros ? [? _].
  - intros (v & Hv & Hin)%in_jlist. rewrite Forall_forall in Hvs. by apply (Hvs v Hv).
Qed.

Lemma fine_jint k z : fine k (jint z).
Proof. split; [apply value_jint|]. by intros ?%list_elem_of_singleton. Qed.

(** A dictionary of fine values. *)
Lemma fine_jdict k fields :
  Forall (λ kv, plain kv.1 = true ∧ kv.1 ≠ k ∧ fine k kv.2) fields → fine k (jdict fields).
Proof.
  rewrite Forall_forall. intros Hf. split.
  - apply (value_wrap x7b x7d); [by right|]. apply value_comma_sep, Forall_forall.
    intros v Hv. apply list_elem_of_In, in_map_iff in Hv as (kv & <- & Hin).
    apply list_elem_of_In, sort_keys_elem, Hf in Hin as (? & _ & [? _]). by apply value_field.
  - unfold jdict. intros [?|[Hin|Hin]%elem_of_app]%elem_of_cons; [done| |].
    + apply in_comma_sep in Hin as (v & Hv & Hin).
      apply list_elem_of_In, in_map_iff in Hv as (kv & <- & Hkv).
      apply list_elem_of_In, sort_keys_elem, Hf in Hkv as (_ & Hne & [_ Hn]).
      apply elem_of_cons in Hin as [[= ->]|[?|?]%elem_of_cons]; done.
    + by apply list_elem_of_singleton in Hin.
Qed.

Lemma sinks_fine d :
  word_ok (ds_component d) = true → word_ok (ds_interface d) = true →
  word_ok (ds_source d) = true → fine (bs "streams") (demux_sink_json d).
Proof.
  intros Hc Hi Hs. apply fine_jdict.
  repeat (apply Forall_cons; split; [split_and!; [done..|]; cbn [snd]|]); try by apply Forall_nil.
  all: try apply fine_jint; apply word_fine; (done || left).
Qed.

Lemma sources_fine m :
  word_ok (ms_component m) = true → word_ok (ms_interface m) = true →
  word_ok (ms_source m) = true → fine (bs "streams") (mux_source_json m).
Proof.
  intros Hc Hi Hs. apply fine_jdict.
  repeat (apply Forall_cons; split; [split_and!; [done..|]; cbn [snd]|]); try by apply Forall_nil.
  all: try apply fine_jint; apply word_fine; (done || left).
Qed.

Definition connection_ok (c : connection) : bool :=
  word_ok (from_component c) && word_ok (to_component c) && word_ok (to_interface c).

Lemma mux_sources_fine sts conns l :
  forallb connection_ok conns = true → mux_sources conns sts = Some l →
  Forall (fine (bs "streams")) (map mux_source_json l).
Proof.
  revert l. induction conns as [|c conns IH]; intros l Hc Hl; cbn [mux_sources forallb] in *.
  { injection Hl as <-. by apply Forall_nil. }
  apply andb_prop in Hc as [Hc Hcs]. destruct (negb _); [by apply IH|].
  destruct (stream_id_of _ _) as [id|]; [|done].
  cbn in Hl. destruct (mux_sources conns sts) as [l'|]; [|done].
  cbn in Hl. injection Hl as <-. unfold connection_ok in Hc. z_bool.
  cbn [map]. apply Forall_cons. split; [by apply sources_fine|by apply IH].
Qed.

Lemma demux_sinks_fine sts conns : ∀ eps l,
  forallb connection_ok conns = true → demux_sinks conns sts eps = Some l →
  Forall (fine (bs "streams")) (map demux_sink_json l).
Proof.
  induction conns as [|c conns IH]; intros eps l Hc Hl; cbn [demux_sinks forallb] in *.
  { injection Hl as <-. by apply Forall_nil. }
  apply andb_prop in Hc as [Hc Hcs]. destruct (strstr _ _ _); [|by eapply IH].
  cbv zeta in Hl. destruct (stream_id_of _ _) as [id|]; [|done]. cbn [mbind option_bind] in Hl.
  destruct (demux_sinks conns sts _) as [l'|] eqn:Hd; [|done].
  cbn in Hl. injection Hl as <-. unfold connection_ok in Hc. z_bool.
  cbn [map]. apply Forall_cons. split; [by apply sinks_fine|by eapply IH].
Qed.

Lemma document_head_good name source sources sinks :
  word_ok name = true → word_ok source = true →
  Forall (fine (bs "streams")) (map mux_source_json sources) →
  Forall (fine (bs "streams")) (map demux_sink_json sinks) →
  good (document_head name source sources sinks) = true ∧
  CStr (bs "streams") ∉ document_head name source sources sinks.
Proof.
  intros Hn Hs [[Hg1 _] Hx1]%fine_jlist [[Hg2 _] Hx2]%fine_jlist.
  assert (Hk : bs "streams" ∈ scanner_keys) by left.
  pose proof (word_ok_ne _ _ Hn Hk). pose proof (word_ok_ne _ _ Hs Hk).
  apply word_ok_spec in Hn as [Hn _], Hs as [Hs _]. unfold document_head. split.
  - rewrite !good_app, Hg1, Hg2. cbn [good forallb good_chunk]. by rewrite Hn, Hs.
  - rewrite !elem_of_app, !elem_of_cons, !elem_of_nil. intuition done.
Qed.

(** *** The generator's streams *)

Lemma opened_pos tr : 0 ≤ opened tr.
Proof. induction tr as [|[[] r] tr IH]; cbn; lia. Qed.

Lemma good_env_ptys : ptys_open good_env.
Proof. constructor; intros; cbn; try reflexivity; apply opened_pos. Qed.

Lemma stream_direction_ok l : word_ok (stream_direction l) = true.
Proof.
  unfold stream_direction. destruct (bool_decide _), (bool_decide _); vm_compute; reflexivity.
Qed.

Section Generated.
Context (types : list byte → list interface) (matches : list (list byte * list byte)).
Context (conns : list connection) (name source : list byte) (sts : list stream).
Hypothesis (Hok : assembly_ok types matches conns name source = true).
Hypothesis (Hin : instances types matches [] 1 sts).
Hypothesis (Hlen : Z.of_nat (length (routed sts)) ≤ 253).

Lemma match_words s :
  s ∈ sts → plain (st_type s) = true ∧ word_ok (st_component s) = true ∧
  (st_component s ∉ builtin_names) ∧ forallb interface_ok (types (st_type s)) = true.
Proof using Hok Hin.
  intros Hs. destruct Hin as [Hm _ _ _ _ _ _ _].
  unfold assembly_ok in Hok. z_bool.
  match goal with H : forallb _ matches = true |- _ => rewrite forallb_forall in H;
    specialize (H (st_type s, st_component s)); cbn in H end.
  assert (Hmt : In (st_type s, st_component s) matches).
  { rewrite <-Hm. apply in_map_iff. exists s. split; [done|by apply list_elem_of_In]. }
  match goal with H : In _ matches → _ |- _ => specialize (H Hmt) end. z_bool. done.
Qed.

Lemma generated_ok : forallb stream_ok sts = true.
Proof using Hok Hin Hlen.
  apply forallb_forall. intros s Hs%list_elem_of_In.
  destruct (match_words s Hs) as (Hty & Hc & _ & Hi).
  pose proof (in_bound _ _ _ _ _ Hin ltac:(done) s Hs) as Hub.
  destruct (in_interfaces _ _ _ _ _ Hin s Hs) as (Hif & Hd & _ & Hlb).
  unfold stream_ok. rewrite Hc, Hty, (in_source _ _ _ _ _ Hin s Hs), Hd, stream_direction_ok,
    Hif, Hi. cbn [andb]. apply andb_true_intro. split; apply Z.leb_le; lia.
Qed.

Lemma generated_usable s : s ∈ routed sts → usable_id (st_id s).
Proof using Hin Hlen.
  intros [Hp Hs]%list_elem_of_filter.
  pose proof (in_bound _ _ _ _ _ Hin ltac:(done) s Hs) as Hub.
  destruct (in_interfaces _ _ _ _ _ Hin s Hs) as (_ & _ & _ & Hlb).
  pose proof (in_reserved _ _ _ _ _ Hin s Hs) as Hr. rewrite reserved_iff in Hr.
  unfold usable_id. lia.
Qed.

End Generated.

(** Distinct usable ids and distinct names are all taken. *)
Lemma addable_sorted l : ∀ T,
  (∀ s, s ∈ l → usable_id (st_id s)) → NoDup (map st_component l) →
  StronglySorted Z.lt (st_id <$> l) →
  (∀ s, s ∈ l → new_in T s) → addable T l.
Proof.
  induction l as [|s l IH]; intros T Hu Hn Hs Hnew; cbn [addable]; [done|].
  cbn in Hn, Hs. apply NoDup_cons in Hn as [Hnot Hn]. apply StronglySorted_inv in Hs as [Hs Hlt].
  assert (Hs0 : s ∈ s :: l) by left.
  split_and!; [by apply Hu|by apply Hnew|]. apply IH; [|done..|].
  { intros u Hin. apply Hu. by right. }
  intros u Hin t Ht. apply elem_of_app in Ht as [Ht|Ht%list_elem_of_singleton].
  { apply (Hnew u); [by right|done]. }
  subst t. cbn. rewrite List.Forall_forall in Hlt.
  assert (st_id s < st_id u) as Hid by (by apply Hlt, list_elem_of_In, list_elem_of_fmap_2).
  destruct (Hu s Hs0) as [? _]. destruct (Hu u) as [? _]; [by right|]. split.
  - intros Heq%(f_equal b2z). rewrite !b2z_z2b_small in Heq by lia. lia.
  - intros [= Heq]. apply Hnot. rewrite Heq. by apply list_elem_of_In, in_map, list_elem_of_In.
Qed.

Lemma routed_nodup sts : NoDup (map st_component sts) → NoDup (map st_component (routed sts)).
Proof.
  induction sts as [|s sts IH]; [done|]. cbn [map]. intros [Hn Hs]%NoDup_cons.
  unfold routed. rewrite filter_cons. destruct (decide _); [|by apply IH].
  cbn [map]. apply NoDup_cons. split; [|by apply IH]. intros Hin. apply Hn.
  apply list_elem_of_In, in_map_iff in Hin as (u & <- & Hu).
  apply list_elem_of_In, list_elem_of_filter in Hu as [_ Hu].
  by apply list_elem_of_In, in_map, list_elem_of_In.
Qed.

(** The generated document in the form the scanner reads. *)
Lemma document_text name source sts sources sinks :
  word_ok name = true → word_ok source = true → forallb stream_ok sts = true →
  Forall (fine (bs "streams")) (map mux_source_json sources) →
  Forall (fine (bs "streams")) (map demux_sink_json sinks) →
  let s := registry_json name source sts sources sinks in
  (x00 ∉ s) ∧
  s = text (document_head name source sources sinks) ++
      (x22 :: bs "streams" ++ [x22]) ++ bs ": [" ++
      text (comma_sep (map stream_json sts)) ++ x5d :: bs "}".
Proof.
  intros Hn Hs Hok Hm Hd. destruct (document_head_good name source _ _ Hn Hs Hm Hd) as [Hg _].
  assert (Hv : value (jlist (map stream_json sts))) by by apply value_jlist, values_ok.
  cbv zeta. rewrite registry_json_chunks. split.
  - apply good_no_nul. rewrite good_app, Hg. cbn [andb].
    change (good (?a :: ?b :: ?c)) with (good_chunk a && (good_chunk b && good c)).
    rewrite good_app. by destruct Hv as [-> _].
  - rewrite text_app, !text_cons, text_app. unfold jlist. rewrite text_cons, text_app.
    change (chunk_text (CStr (bs "streams"))) with (x22 :: bs "streams" ++ [x22]).
    change (bs ": [") with (bs ": " ++ [x5b]). by app_norm.
Qed.

(** A host that has just started takes the generator's streams. *)
Lemma builtin_addable T sts :
  T = ((λ n, Tag (Some n) x00) <$> builtin_names) →
  (∀ s, s ∈ routed sts → usable_id (st_id s) ∧ (st_component s ∉ builtin_names)) →
  NoDup (map st_component sts) → StronglySorted Z.lt (st_id <$> routed sts) →
  addable T (routed sts).
Proof.
  intros HT Hs Hn Hsrt. apply addable_sorted; [|by apply routed_nodup|done|].
  { intros s Hin. by apply Hs. }
  intros s Hin t Ht. destruct (Hs s Hin) as [[Hid _] Hnm].
  assert (Hz : x00 ≠ z2b (st_id s)).
  { intros Heq%(f_equal b2z). rewrite b2z_z2b_small in Heq by lia. cbn in Heq. lia. }
  rewrite HT in Ht. apply list_elem_of_fmap in Ht as (n & -> & Ht).
  split; [done|]. cbn. intros [= ->]. done.
Qed.

(** A host whose table holds the three built-in channels only. *)
Record fresh_table (h : host) : Prop := FreshTable {
  ft_wf : wf h;
  ft_tags : active_tags h = (λ n, Tag (Some n) x00) <$> builtin_names;
  ft_num : num_proc h = 3;
  ft_input : take 3 (virtioso_stream_input_enabled h) = [true; true; true]
}.

Lemma booted_fresh o h : booted o h → fresh_table h.
Proof.
  intros Hb. constructor; [by eapply booted_wf| |by apply Hb..].
  unfold active_tags. by rewrite (bt_num _ _ Hb), (bt_tags _ _ Hb).
Qed.

Lemma fresh_table_stable h h' : stable h h' → fresh_table h → fresh_table h'.
Proof.
  intros Hst []. pose proof (stable_wf _ _ Hst ft_wf0). destruct Hst. constructor; try done; try congruence.
  unfold active_tags in *. congruence.
Qed.

(** Whether a component reads the console. *)
Definition reads_console (s : stream) : bool :=
  bool_decide (GetChar ∈ if_kind <$> st_interfaces s).

Lemma direction_input l :
  is_input_direction (stream_direction l) = bool_decide (GetChar ∈ if_kind <$> l).
Proof.
  unfold stream_direction. destruct (bool_decide (PutChar ∈ _)), (bool_decide (GetChar ∈ _));
    vm_compute; reflexivity.
Qed.

Lemma generated_input types matches sts :
  instances types matches [] 1 sts → stream_input <$> routed sts = reads_console <$> routed sts.
Proof.
  intros Hin. apply list_fmap_ext. intros i s Hs.
  apply list_elem_of_lookup_2, list_elem_of_filter in Hs as [_ Hs].
  destruct (in_interfaces _ _ _ _ _ Hin s Hs) as (Hif & Hd & _).
  unfold stream_input, reads_console. by rewrite Hd, direction_input, Hif.
Qed.

(** Applying the generated document to such a table. *)
Lemma wp_apply_generated E types matches conns name source sts doc h :
  alloc_ok E → ptys_open E → fresh_table h →
  assembly_ok types matches conns name source = true →
  generate types matches conns name source = Some (sts, doc) →
  1 ≤ Z.of_nat (length (routed sts)) ≤ 253 →
  wp total (apply_virtioso_registry_json E (Some doc))
    (λ z h', z = 0 ∧ wf h' ∧ keeps 3 h h' ∧
       num_proc h' = 3 + Z.of_nat (length (routed sts)) ∧
       active_tags h' = active_tags h ++ (stream_tag <$> routed sts) ∧
       take (Z.to_nat (num_proc h')) (virtioso_stream_input_enabled h') =
         [true; true; true] ++ (reads_console <$> routed sts)) h.
Proof.
  intros Ha Hpo [Hwf Htags Hnum Hinput] Hok Hgen Hlen. unfold generate in Hgen.
  destruct (component_instances types matches) as [sts'|] eqn:Hci; [|done]. cbn in Hgen.
  destruct (mux_sources conns sts') as [srcs|] eqn:Hms; [|done]. cbn in Hgen.
  destruct (demux_sinks conns sts' []) as [snks|] eqn:Hds; [|done]. cbn in Hgen.
  injection Hgen as -> <-. apply component_instances_spec in Hci as Hin.
  pose proof (generated_ok _ _ _ _ _ _ Hok Hin ltac:(lia)) as Hgood.
  assert (Hadd : addable (active_tags h) (routed sts)).
  { apply builtin_addable; [done| |by apply Hin..]. intros s Hs. split.
    - apply (generated_usable types matches sts Hin); [lia|done].
    - apply list_elem_of_filter in Hs as [_ Hs].
      by destruct (match_words _ _ _ _ _ _ Hok Hin s Hs) as (_ & _ & ? & _). }
  unfold assembly_ok in Hok. apply andb_prop in Hok as [[[_ Hcs]%andb_prop Hnm]%andb_prop Hsr].
  pose proof (mux_sources_fine _ _ _ Hcs Hms) as Hm.
  pose proof (demux_sinks_fine _ _ _ _ Hcs Hds) as Hd.
  destruct (document_head_good name source _ _ Hnm Hsr Hm Hd) as [Hg Hnot].
  destruct (document_text name source sts srcs snks Hnm Hsr Hgood Hm Hd) as [Hnul Hs].
  assert (Hne : routed sts ≠ []) by (intros Heq; rewrite Heq in Hlen; cbn in Hlen; lia).
  eapply wp_mono; [apply wp_conj; [by apply (wp_apply_registry E total (Some (registry_json name source sts srcs snks)) h Hwf)|]|].
  { apply (wp_apply_printed E _ sts _ _ h Ha Hpo Hwf Hg Hnot Hgood Hnul Hs Hadd); [|done].
    rewrite Hnum. unfold VIRTIOSO_MAX_PTY_COUNT. lia. }
  intros z h' ((Hwf' & Hk & _) & -> & Hn' & Ht & Hi). rewrite Hnum in *. split_and!; try done.
  rewrite Hi. change (Z.to_nat 3) with 3%nat. by rewrite Hinput, (generated_input _ _ _ Hin).
Qed.

(* ------------------------------------------------------------------ *)
(** ** The properties *)

(** C37: the generator's ids are sound.  For any list of components, when the
    generator succeeds: it lists the components in order with distinct names;
    exactly those with a console interface get an id; the ids are positive,
    none is reserved by the protocol, and they increase, so no two are equal;
    and with at most 253 such components every id fits the byte the Mux
    sends. *)
Theorem generator_ids types matches sts :
  component_instances types matches = Some sts →
  map (λ s, (st_type s, st_component s)) sts = matches ∧
  NoDup (map st_component sts) ∧
  (∀ s, s ∈ sts → (0 ≤ st_id s ↔ types (st_type s) ≠ []) ∧
     (0 ≤ st_id s → 1 ≤ st_id s ∧ st_id s ≠ 0xfd ∧ st_id s ≠ 0xfe)) ∧
  StronglySorted Z.lt (st_id <$> routed sts) ∧
  (Z.of_nat (length (routed sts)) ≤ 253 → ∀ s, s ∈ routed sts → usable_id (st_id s)).
Proof.
  intros Hg%component_instances_spec. pose proof Hg as [Hm Hn _ Hi _ Hr Hs Hb].
  split_and!; [done..| |done|].
  - intros s Hin. destruct (Hi s Hin) as (_ & _ & Hid & Hge).
    specialize (Hr s Hin). rewrite reserved_iff in Hr. split; [|lia].
    destruct Hge as [Hneg|Hge]; [|split; [|lia]].
    + split; [lia|]. intros Hne. by apply Hid in Hneg.
    + intros _ Hnil. apply Hid in Hnil. lia.
  - intros Hlen s Hin. by eapply generated_usable.
Qed.

Definition demo_types (t : list byte) : list interface :=
  if bool_decide (t = bs "VM")
  then [Interface PutChar (bs "guest_putchar"); Interface GetChar (bs "guest_getchar")]
  else if bool_decide (t = bs "Logger") then [Interface PutChar (bs "putchar")]
  else [].
Definition demo_matches : list (list byte * list byte) :=
  [(bs "VM", bs "vm0"); (bs "ConsoleMux", bs "console_mux"); (bs "VM", bs "vm1");
   (bs "Logger", bs "logger")].
Definition demo_conns : list connection :=
  [Connection (bs "vm0") (bs "batch") (bs "console_mux") (bs "mux_batch");
   Connection (bs "vm1") (bs "batch") (bs "console_mux") (bs "mux_batch");
   Connection (bs "vm0") (bs "guest_getchar") (bs "console_mux") (bs "getchar");
   Connection (bs "vm1") (bs "guest_getchar") (bs "console_mux") (bs "getchar")].
Definition demo_generated : list stream * list byte :=
  default ([], []) (generate demo_types demo_matches demo_conns (bs "vm_multi")
    (bs "apps/vm_multi/vm_multi.camkes")).

Lemma generator_ids_witness :
  let sts := demo_generated.1 in
  map (λ s, (st_type s, st_component s)) sts = demo_matches ∧
  NoDup (map st_component sts) ∧
  (∀ s, s ∈ sts → (0 ≤ st_id s ↔ demo_types (st_type s) ≠ []) ∧
     (0 ≤ st_id s → 1 ≤ st_id s ∧ st_id s ≠ 0xfd ∧ st_id s ≠ 0xfe)) ∧
  StronglySorted Z.lt (st_id <$> routed sts) ∧
  (Z.of_nat (length (routed sts)) ≤ 253 → ∀ s, s ∈ routed sts → usable_id (st_id s)).
Proof. intros sts. apply (generator_ids demo_types demo_matches sts). vm_compute. reflexivity. Defined.

(** C6: the registry round trip.  Let the generator succeed on an assembly
    with between 1 and 253 console streams whose names are plain text, not keys
    of the scanner and not names of the built-in channels.  A host that has
    just started in Virtioso mode and applies the generated document, on an
    operating system that gives it memory, PTYs and threads, accepts it: its
    table is the built-in channels followed by exactly the generator's
    streams, in order, each with its id and name, accepting input exactly
    when the component reads the console. *)
Theorem registry_roundtrip E o types matches conns name source sts doc h :
  alloc_ok E → ptys_open E → booted o h →
  assembly_ok types matches conns name source = true →
  generate types matches conns name source = Some (sts, doc) →
  1 ≤ Z.of_nat (length (routed sts)) ≤ 253 →
  ∃ h', apply_virtioso_registry_json E (Some doc) h = Done 0 h' ∧ wf h' ∧
    keeps 3 h h' ∧ num_proc h' = 3 + Z.of_nat (length (routed sts)) ∧
    active_tags h' = active_tags h ++ (stream_tag <$> routed sts) ∧
    take (Z.to_nat (num_proc h')) (virtioso_stream_input_enabled h') =
      [true; true; true] ++ (reads_console <$> routed sts).
Proof.
  intros Ha Hpo Hb Hok Hgen Hlen.
  destruct (wp_total_done _ _ _ (wp_apply_generated E _ _ _ _ _ _ _ h Ha Hpo (booted_fresh o h Hb)
    Hok Hgen Hlen)) as (z & h' & Hrun & -> & Hp). by exists h'.
Qed.

Lemma registry_roundtrip_witness :
  let sts := demo_generated.1 in
  let doc := demo_generated.2 in
  1 ≤ Z.of_nat (length (routed sts)) ≤ 253 ∧
  ∃ h', apply_virtioso_registry_json good_env (Some doc) demo_host = Done 0 h' ∧ wf h' ∧
    keeps 3 demo_host h' ∧ num_proc h' = 3 + Z.of_nat (length (routed sts)) ∧
    active_tags h' = active_tags demo_host ++ (stream_tag <$> routed sts) ∧
    take (Z.to_nat (num_proc h')) (virtioso_stream_input_enabled h') =
      [true; true; true] ++ (reads_console <$> routed sts).
Proof.
  assert (Hl : 1 ≤ Z.of_nat (length (routed demo_generated.1)) ≤ 253)
    by (vm_compute; split; congruence).
  split; [exact Hl|].
  refine (registry_roundtrip good_env (demo_options []) demo_types demo_matches demo_conns
    (bs "vm_multi") (bs "apps/vm_multi/vm_multi.camkes") _ _ demo_host _ _ _ _ _ Hl).
  - by intros tr n.
  - exact good_env_ptys.
  - apply demo_booted; [done|vm_compute; reflexivity].
  - vm_compute. reflexivity.
  - vm_compute. reflexivity.
Defined.

(** The scanner takes a value equal to one of its keys for the key: with a
    component of such a name the host refuses the generated document. *)
Example key_named_component :
  let doc := default [] (snd <$> generate demo_types [(bs "VM", bs "stream_id")] []
               (bs "app") (bs "app.camkes")) in
  match apply_virtioso_registry_json good_env (Some doc) demo_host with
  | Done z h' => (z, num_proc h') = (-1, 3)
  | Stop _ _ => False
  end.
Proof. by vm_compute. Qed.
