(* ===== verification/Route.v ===== *)
(** * Routing: which PTY receives which byte

    A pure machine over the data bytes of a stream (escapes, selections,
    payload; no control records) that says which PTY each byte is for.  The
    feeders of [Demux.v] implement it: under an environment that at most
    fails softly on the PTYs, every PTY is offered exactly the bytes routed
    to it, in order, with the line-ending patch applied to that PTY's own
    bytes only. *)

From S2P Require Import Prelude Proto CString HostState HostIo Flush Registry RegistryInv Demux DemuxInv.

Record route : Type := Route { rt_esc : bool; rt_cur : Z }.

(** A byte for the PTY of an index. *)
Definition event : Type := Z * byte.

Definition route_byte (h : host) (s : route) (b : byte) : option (route * list event) :=
  if rt_esc s then
    if bool_decide (b = VCMUX_PROTO_ESC_DEFAULT) then Some (Route false (-1), [])
    else if bool_decide (b = VCMUX_PROTO_ESC_ESC) then
      Some (Route false (rt_cur s), if 0 <=? rt_cur s then [(rt_cur s, b)] else [])
    else if bool_decide (b = VCMUX_PROTO_ESC_CONTROL) then None
    else Some (Route false (find_tag_value (active_tags h) b 0), [])
  else if bool_decide (b = VCMUX_PROTO_ESC_START) then Some (Route true (rt_cur s), [])
  else Some (s, [(if rt_cur s <? 0 then virtioso_default_pty_idx (cfg h) else rt_cur s, b)]).

(** The layer around it.  In raw mode each byte is copied to the raw PTY
    and routed.  In TCU mode only the selected tag's bytes are; an escaped
    0xff is routed without a copy. *)
Record outer : Type := Outer { ot_esc : bool; ot_tag : Z; ot_in : route }.

Definition inner_with (h : host) (pre : list event) (o : outer) (b : byte)
    : option (outer * list event) :=
  match route_byte h (ot_in o) b with
  | None => None
  | Some (s, e) => Some (Outer (ot_esc o) (ot_tag o) s, pre ++ e)
  end.

Definition outer_byte (h : host) (o : outer) (b : byte) : option (outer * list event) :=
  let raw := [(raw_ccplex_pty_idx (cfg h), b)] in
  if virtioso_outer_mode (cfg h) =? VIRTIOSO_OUTER_RAW then inner_with h raw o b
  else
  let selected := ot_tag o =? virtioso_outer_tag_idx (cfg h) in
  if ot_esc o then
    let o := Outer false (ot_tag o) (ot_in o) in
    if bool_decide (b = UART_PROTO_ESC_ESC) then
      if selected then inner_with h [] o b else Some (o, [])
    else if bool_decide (b = UART_PROTO_ESC_RESET) then
      Some (Outer false (-1) (Route false (-1)), [])
    else
      let tag_idx := find_tag_value chip_tags b 0 in
      Some (Outer false (if 0 <=? tag_idx then tag_idx else ot_tag o) (ot_in o), [])
  else if bool_decide (b = UART_PROTO_ESC_START) then
    Some (Outer true (ot_tag o) (ot_in o), [])
  else if selected then inner_with h raw o b else Some (o, []).

(** Any of these machines on a list of bytes. *)
Fixpoint run_route {S : Type} (f : S → byte → option (S * list event)) (s : S)
    (l : list byte) : option (S * list event) :=
  match l with
  | [] => Some (s, [])
  | b :: l' =>
      match f s b with
      | None => None
      | Some (s', e) =>
          match run_route f s' l' with
          | None => None
          | Some (s'', e') => Some (s'', e ++ e')
          end
      end
  end.

(** The bytes of a sequence of events for one PTY. *)
Definition for_pty (j : Z) (evs : list event) : list byte :=
  (filter (λ e, e.1 = j) evs).*2.

(** What a channel's descriptor is offered for a list of bytes, and the
    channel's line-ending flags after it. *)
Fixpoint chan (h : host) (n c : bool) (l : list byte) : list byte * bool * bool :=
  match l with
  | [] => ([], n, c)
  | b :: l' =>
      let '(o, n', c') := patch_out h n c b in
      let '(o', n'', c'') := chan h n' c' l' in (o ++ o', n'', c'')
  end.

(** The locals as the routing machines see them. *)
Definition route_of (r : rx) : route := Route (in_escape r) (cur_rx_stream r).

Definition outer_of (r : rx) : outer :=
  Outer (outer_in_escape r) (cur_outer_tag r) (route_of r).

(** Every channel in use has a descriptor of its own, not a log file's. *)
Record own_fds (h : host) : Prop := OwnFds {
  of_distinct : ∀ i j p q, Z.of_nat i < pty_max_count h → Z.of_nat j < pty_max_count h →
    pty_data h !! i = Some p → pty_data h !! j = Some q → td_fd p = td_fd q → i = j;
  of_log : ∀ i p, Z.of_nat i < pty_max_count h → pty_data h !! i = Some p →
    ¬ is_log h (td_fd p)
}.

(** From [(r, h)] to [(r', h')] the PTYs were offered what [evs] says. *)
Record routed (h : host) (r : rx) (evs : list event) (h' : host) (r' : rx) : Prop := Routed {
  rd_stable : stable h h';
  rd_len_n : length (seen_n r') = length (seen_n r);
  rd_len_r : length (seen_r r') = length (seen_r r);
  rd_chan : ∀ j p n c, Z.of_nat j < pty_max_count h → pty_data h !! j = Some p →
    seen_n r !! j = Some n → seen_r r !! j = Some c →
    let '(o, n', c') := chan h n c (for_pty (Z.of_nat j) evs) in
    offered (td_fd p) (trace h') = offered (td_fd p) (trace h) ++ o ∧
    seen_n r' !! j = Some n' ∧ seen_r r' !! j = Some c'
}.

(* ------------------------------------------------------------------ *)
(** ** Lemmas: events and channels *)

Lemma for_pty_app j a b : for_pty j (a ++ b) = for_pty j a ++ for_pty j b.
Proof. unfold for_pty. by rewrite filter_app, fmap_app. Qed.

Lemma for_pty_nil j : for_pty j [] = [].
Proof. done. Qed.

Lemma for_pty_one i b j : for_pty j [(i, b)] = if decide (i = j) then [b] else [].
Proof. unfold for_pty. rewrite filter_cons. cbn. by destruct (decide (i = j)). Qed.

Lemma for_pty_same i l : for_pty i (map (pair i) l) = l.
Proof.
  induction l as [|b l IH]; [done|]. unfold for_pty in *. cbn [map].
  rewrite filter_cons_True by done. rewrite fmap_cons. f_equal. apply IH.
Qed.

Lemma for_pty_other i j l : i ≠ j → for_pty j (map (pair i) l) = [].
Proof.
  intros Hij. induction l as [|b l IH]; [done|]. unfold for_pty in *. cbn [map].
  rewrite filter_cons_False by done. apply IH.
Qed.

Lemma chan_app h n c l1 l2 :
  chan h n c (l1 ++ l2) =
  let '(o, n', c') := chan h n c l1 in
  let '(o', n'', c'') := chan h n' c' l2 in (o ++ o', n'', c'').
Proof.
  revert n c. induction l1 as [|b l1 IH]; intros n c; cbn [app chan].
  - by destruct (chan h n c l2) as [[??]?].
  - destruct (patch_out h n c b) as [[o n'] c'] eqn:?. rewrite IH.
    destruct (chan h n' c' l1) as [[o1 n1] c1].
    destruct (chan h n1 c1 l2) as [[o2 n2] c2]. by rewrite app_assoc.
Qed.

Lemma chan_ext h h' n c l : cfg h' = cfg h → chan h' n c l = chan h n c l.
Proof.
  intros Hc. revert n c. induction l as [|b l IH]; intros n c; cbn [chan]; [done|].
  unfold patch_out. rewrite Hc. destruct (disable_patch (cfg h)); [by rewrite IH|].
  destruct (patch_step n c b) as [[o n'] c']. by rewrite IH.
Qed.

(** Without the patch a channel passes its bytes unchanged. *)
Lemma chan_plain h n c l : disable_patch (cfg h) = true → chan h n c l = (l, n, c).
Proof.
  intros Hd. induction l as [|b l IH]; cbn [chan]; [done|].
  unfold patch_out. by rewrite Hd, IH.
Qed.

Lemma chan_patch h n c l : disable_patch (cfg h) = false →
  (chan h n c l).1.1 = patch_all n c l.
Proof.
  intros Hd. revert n c. induction l as [|b l IH]; intros n c; cbn [chan patch_all]; [done|].
  unfold patch_out. rewrite Hd. destruct (patch_step n c b) as [[o n'] c'].
  rewrite <-IH. by destruct (chan h n' c' l) as [[??]?].
Qed.

Lemma active_tags_stable h h' : stable h h' → active_tags h' = active_tags h.
Proof. intros []. unfold active_tags. congruence. Qed.

Lemma route_byte_ext h h' s b :
  cfg h' = cfg h → active_tags h' = active_tags h → route_byte h' s b = route_byte h s b.
Proof. unfold route_byte. by intros -> ->. Qed.

Lemma outer_byte_ext h h' o b :
  cfg h' = cfg h → active_tags h' = active_tags h → outer_byte h' o b = outer_byte h o b.
Proof.
  intros Hc Ht. unfold outer_byte, inner_with. by rewrite !(route_byte_ext h h'), Hc.
Qed.

Lemma run_route_ext {S} (f g : S → byte → option (S * list event)) s l :
  (∀ s b, f s b = g s b) → run_route f s l = run_route g s l.
Proof.
  intros Hfg. revert s. induction l as [|b l IH]; intros s; [done|]. cbn [run_route].
  rewrite Hfg. destruct (g s b) as [[s' e]|]; [|done]. by rewrite IH.
Qed.

Lemma run_route_app {S} (f : S → byte → option (S * list event)) s l1 l2 :
  run_route f s (l1 ++ l2) =
  match run_route f s l1 with
  | None => None
  | Some (s', e) =>
      match run_route f s' l2 with
      | None => None
      | Some (s'', e') => Some (s'', e ++ e')
      end
  end.
Proof.
  revert s. induction l1 as [|b l1 IH]; intros s; cbn [app run_route].
  - by destruct (run_route f s l2) as [[??]|].
  - destruct (f s b) as [[s' e]|]; [|done]. rewrite IH.
    destruct (run_route f s' l1) as [[s1 e1]|]; [|done].
    destruct (run_route f s1 l2) as [[s2 e2]|]; [|done]. by rewrite app_assoc.
Qed.

Lemma route_byte_start h cur :
  route_byte h (Route false cur) VCMUX_PROTO_ESC_START = Some (Route true cur, []).
Proof. done. Qed.

Lemma route_byte_escaped h cur :
  0 ≤ cur → route_byte h (Route true cur) VCMUX_PROTO_ESC_START =
  Some (Route false cur, [(cur, VCMUX_PROTO_ESC_START)]).
Proof.
  intros Hc. transitivity (Some (Route false cur,
    if 0 <=? cur then [(cur, VCMUX_PROTO_ESC_START)] else [])); [done|].
  by rewrite (proj2 (Z.leb_le 0 cur)).
Qed.

Lemma route_byte_plain h cur b :
  0 ≤ cur → b ≠ VCMUX_PROTO_ESC_START →
  route_byte h (Route false cur) b = Some (Route false cur, [(cur, b)]).
Proof.
  intros Hc Hb. unfold route_byte. cbn [rt_esc rt_cur].
  by rewrite bool_decide_eq_false_2, (proj2 (Z.ltb_ge cur 0)).
Qed.

Lemma route_byte_select h cur sid :
  sid ≠ x00 → sid ≠ xfe → sid ≠ xfd →
  route_byte h (Route true cur) sid =
  Some (Route false (find_tag_value (active_tags h) sid 0), []).
Proof. intros. unfold route_byte. cbn [rt_esc]. by rewrite !bool_decide_eq_false_2. Qed.

(** The payload of a frame goes to the stream's PTY. *)
Lemma route_payload h cur l :
  0 ≤ cur → run_route (route_byte h) (Route false cur) (esc_bytes l) =
  Some (Route false cur, map (pair cur) l).
Proof.
  intros Hc. induction l as [|b l IH]; [done|].
  unfold esc_bytes in *. cbn [map concat]. rewrite run_route_app.
  assert (run_route (route_byte h) (Route false cur) (esc_byte b) = Some (Route false cur, [(cur, b)])) as ->.
  { unfold esc_byte. case_bool_decide as Hb.
    - subst b. cbn [run_route]. rewrite route_byte_start, route_byte_escaped by done. done.
    - cbn [run_route]. by rewrite route_byte_plain. }
  by rewrite IH.
Qed.

Lemma route_frame h s sid payload :
  rt_esc s = false → selectable sid = true →
  0 ≤ find_tag_value (active_tags h) sid 0 →
  run_route (route_byte h) s (frame sid payload) =
  Some (Route false (-1), map (pair (find_tag_value (active_tags h) sid 0)) payload).
Proof.
  intros Hs Hsel Hf. unfold frame. destruct s as [e cur]. cbn in Hs. subst e.
  rewrite run_route_app. apply selectable_spec in Hsel as (? & ? & ?).
  cbn [run_route]. rewrite route_byte_start, route_byte_select by done. cbn [app].
  rewrite run_route_app, route_payload by done.
  change (run_route (route_byte h) (Route false ?c) [VCMUX_PROTO_ESC_START; VCMUX_PROTO_ESC_DEFAULT])
    with (Some (Route false (-1), @nil event)). cbv iota beta. by rewrite app_nil_r.
Qed.

(* ------------------------------------------------------------------ *)
(** ** Lemmas: composing deliveries *)

Lemma routed_refl h r : routed h r [] h r.
Proof. constructor; try done. intros. cbn. by rewrite app_nil_r. Qed.

Lemma own_fds_stable h h' : stable h h' → own_fds h → own_fds h'.
Proof.
  intros Hs [Hd Hl].
  assert (Hb : ∀ i p', pty_data h' !! i = Some p' →
    ∃ p, pty_data h !! i = Some p ∧ td_fd p = td_fd p').
  { intros i p' Hp'. pose proof (st_pty _ _ Hs) as Hm.
    apply (f_equal (.!! i)) in Hm. rewrite !list_lookup_fmap, Hp' in Hm.
    destruct (pty_data h !! i) as [p|]; [|done]. exists p. split; [done|].
    cbn in Hm. unfold ident in Hm. congruence. }
  constructor; rewrite (st_max _ _ Hs).
  - intros i j p q Hi Hj Hp Hq Heq. destruct (Hb i p Hp) as (p0 & ? & ?).
    destruct (Hb j q Hq) as (q0 & ? & ?). apply (Hd i j p0 q0); (done || congruence).
  - intros i p Hi Hp. destruct (Hb i p Hp) as (p0 & Hp0 & <-).
    rewrite <-(stable_is_log h h') by done. eauto.
Qed.

Lemma routed_trans h1 r1 e1 h2 r2 e2 h3 r3 :
  routed h1 r1 e1 h2 r2 → routed h2 r2 e2 h3 r3 → routed h1 r1 (e1 ++ e2) h3 r3.
Proof.
  intros H1 H2. pose proof (rd_stable _ _ _ _ _ H1) as Hs1.
  pose proof (rd_stable _ _ _ _ _ H2) as Hs2. constructor.
  - by etrans.
  - by rewrite (rd_len_n _ _ _ _ _ H2), (rd_len_n _ _ _ _ _ H1).
  - by rewrite (rd_len_r _ _ _ _ _ H2), (rd_len_r _ _ _ _ _ H1).
  - intros j p n c Hj Hp Hn Hc. rewrite for_pty_app, chan_app.
    pose proof (rd_chan _ _ _ _ _ H1 j p n c Hj Hp Hn Hc) as Ha.
    destruct (chan h1 n c _) as [[o1 n1] c1]. destruct Ha as (Ho1 & Hn1 & Hc1).
    destruct (stable_lookup _ _ _ _ Hs1 Hp) as (p2 & Hp2 & Hid).
    assert (td_fd p2 = td_fd p) as Hfd by (unfold ident in Hid; congruence).
    rewrite <-(st_max _ _ Hs1) in Hj.
    pose proof (rd_chan _ _ _ _ _ H2 j p2 n1 c1 Hj Hp2 Hn1 Hc1) as Hb.
    rewrite (chan_ext h1 h2) in Hb by apply Hs1.
    destruct (chan h1 n1 c1 _) as [[o2 n2] c2]. rewrite Hfd, Ho1 in Hb.
    by rewrite app_assoc.
Qed.

(** Only the routing locals change: no byte is delivered. *)
Lemma routed_same h r r' :
  seen_n r' = seen_n r → seen_r r' = seen_r r → routed h r [] h r'.
Proof.
  intros Hn Hr. constructor; [done|by rewrite Hn|by rewrite Hr|].
  intros. cbn. by rewrite Hn, Hr, app_nil_r.
Qed.

(** One delivery is one event. *)
Lemma deliver_routed E h i b r a h' :
  own_fds h → 0 ≤ i < pty_max_count h → i < Z.of_nat (length (pty_data h)) →
  i < Z.of_nat NPTY → tolerates E h →
  length (seen_n r) = NPTY → length (seen_r r) = NPTY →
  deliver_post E h i b r a h' →
  a.1 = 0 ∧ routed h r [(i, b)] h' a.2.
Proof.
  intros [Hd Hl] Hi Hlp Hb Ht Hln Hlr (Hs & Hz & _ & _ & Hpost).
  destruct (lookup_lt_is_Some_2 (pty_data h) (Z.to_nat i)) as [p Hp]; [lia|].
  destruct (lookup_lt_is_Some_2 (seen_n r) (Z.to_nat i)) as [n Hsn]; [rewrite Hln; lia|].
  destruct (lookup_lt_is_Some_2 (seen_r r) (Z.to_nat i)) as [c Hsr]; [rewrite Hlr; lia|].
  destruct (Hpost p n c Hp Hsn Hsr Ht) as (-> & Hdel & ->). split; [done|].
  constructor; [done|cbn; by rewrite length_insert..|].
  cbn [snd seen_n seen_r set_seen_n set_seen_r]. intros j q n0 c0 Hj Hq Hn0 Hc0. rewrite for_pty_one.
  assert (Hfd' : ¬ is_log h (td_fd q)) by (by eapply Hl).
  specialize (Hdel (td_fd q) Hfd').
  destruct (decide (i = Z.of_nat j)) as [->|Hij].
  - rewrite Nat2Z.id in *. simplify_eq. cbn [chan].
    destruct (patch_out h _ _ b) as [[o n'] c'] eqn:Ho. cbn [fst snd] in *.
    rewrite Z.eqb_refl in Hdel. rewrite app_nil_r. split; [done|].
    rewrite !list_lookup_insert_eq; [done|rewrite Hlr; lia|rewrite Hln; lia].
  - cbn [chan]. rewrite !list_lookup_insert_ne by lia.
    assert (td_fd q ≠ td_fd p).
    { intros Heq. apply Hij. assert (j = Z.to_nat i); [|lia].
      apply (Hd j (Z.to_nat i) q p); (done || lia). }
    by rewrite (proj2 (Z.eqb_neq _ _)) in Hdel by done.
Qed.

(* ------------------------------------------------------------------ *)
(** ** The feeders implement the routing machines *)

(** The state after routing [evs]: between records, at the machine's state. *)
Record advanced (h : host) (r : rx) (o : outer) (evs : list event) (h' : host) (r' : rx)
    : Prop := Advanced {
  ad_routed : routed h r evs h' r';
  ad_wf : wf h';
  ad_ok : rx_ok h' r';
  ad_at : outer_of r' = o;
  ad_idle : control_state r' = VIRTIOSO_CONTROL_IDLE;
  ad_inputs : inputs (trace h') = inputs (trace h)
}.

(** Where the feeders may be started: between records, with descriptors of
    their own, and an environment that at most fails softly. *)
Record ready (E : env) (h : host) (r : rx) : Prop := Ready {
  rd_wf : wf h;
  rd_ok : rx_ok h r;
  rd_fds : own_fds h;
  rd_tolerates : tolerates E h;
  rd_idle : control_state r = VIRTIOSO_CONTROL_IDLE
}.

Lemma advanced_ready E h r o e h' r' :
  ready E h r → advanced h r o e h' r' → ready E h' r'.
Proof.
  intros [] []. constructor; try done; destruct ad_routed0.
  - by eapply own_fds_stable.
  - by eapply stable_tolerates.
Qed.

Lemma advanced_trans h1 r1 o2 e1 h2 r2 o3 e2 h3 r3 :
  advanced h1 r1 o2 e1 h2 r2 → advanced h2 r2 o3 e2 h3 r3 →
  advanced h1 r1 o3 (e1 ++ e2) h3 r3.
Proof. intros [] []. constructor; try done; [by eapply routed_trans|congruence]. Qed.

(** Routing locals changed before the first delivery. *)
Lemma advanced_from h r0 r o e h' r' :
  advanced h r0 o e h' r' → seen_n r0 = seen_n r → seen_r r0 = seen_r r →
  advanced h r o e h' r'.
Proof.
  intros [[] ? ? ? ? ?] Hn Hr.
  constructor; [constructor|..]; (done || congruence || by rewrite <-?Hn, <-?Hr).
Qed.

Lemma advanced_same h r r' o :
  wf h → rx_ok h r' → seen_n r' = seen_n r → seen_r r' = seen_r r →
  outer_of r' = o → control_state r' = VIRTIOSO_CONTROL_IDLE →
  advanced h r o [] h r'.
Proof. intros. constructor; try done. by apply routed_same. Qed.

Section Refinement.
Context (E : env).

(** Changing routing locals only. *)
Lemma ready_same h r r' :
  ready E h r → -1 ≤ cur_rx_stream r' < num_proc h →
  seen_n r' = seen_n r → seen_r r' = seen_r r → control_state r' = control_state r →
  ready E h r' ∧ advanced h r (outer_of r') [] h r'.
Proof.
  intros [] Hc Hn Hr Hst.
  assert (rx_ok h r') by (eapply rx_ok_route; try done; rewrite Hst, rd_idle0; done).
  split; [constructor|apply advanced_same]; try done; congruence.
Qed.

Lemma advanced_locals h r r' o :
  ready E h r → outer_of r' = o → -1 ≤ cur_rx_stream r' < num_proc h →
  seen_n r' = seen_n r → seen_r r' = seen_r r → control_state r' = control_state r →
  advanced h r o [] h r'.
Proof. intros Hrd <- ????. by apply ready_same. Qed.

Lemma wp_deliver_advanced ok i b r o h :
  ready E h r → 0 ≤ i < num_proc h → outer_of r = o →
  wp ok (deliver E i b r)
    (λ a h', a.1 = 0 ∧ advanced h r o [(i, b)] h' a.2) h.
Proof.
  intros [Hwf Hr Hof Ht Hc] Hi Hs.
  eapply wp_mono; [apply wp_deliver; (done || apply Hr)|]. intros a h' Hp.
  pose proof (wf_shape _ Hwf) as [_ Hlp _ _ ? _]. unfold VIRTIOSO_MAX_PTY_COUNT in *.
  destruct (deliver_routed E h i b r a h') as [Ha Hrt]; try done; try apply Hr;
    rewrite ?(wf_max _ Hwf), ?Hlp; unfold NPTY; try lia.
  destruct (deliver_feed_post E h i b r a h' Hwf Hr Hp) as (Hwf' & _ & Hok & _).
  destruct Hp as (_ & _ & (ln & lc & Heq & _) & Hin & _).
  split; [done|]. constructor; [done|done|auto|rewrite Heq; done..|done].
Qed.

Lemma wp_feed_route ok b r h s e :
  ready E h r → route_byte h (route_of r) b = Some (s, e) →
  wp ok (feed_virtioso_byte E b r)
    (λ a h', a.1 = 0 ∧
       advanced h r (Outer (outer_in_escape r) (cur_outer_tag r) s) e h' a.2) h.
Proof.
  intros Hrd Hb. pose proof Hrd as [Hwf Hr _ _ Hc]. pose proof (ro_cur _ _ Hr) as Hcur.
  pose proof (sh_n _ _ (wf_shape _ Hwf)) as Hn.
  unfold feed_virtioso_byte, feed_plain. rewrite Hc, Z.eqb_refl. cbv iota zeta beta.
  cbn [negb]. unfold route_byte in Hb. cbn [rt_esc rt_cur route_of] in Hb.
  destruct (in_escape r) eqn:Hesc.
  - wp_step.
    { wp_step. simplify_eq. split; [done|].
      apply (advanced_locals h r _ _ Hrd); (done || cbn; lia). }
    wp_step.
    { cbn [cur_rx_stream set_in_escape] in *.
      destruct (ready_same h r (set_in_escape false r) Hrd) as [Hrd' Had]; try done.
      destruct (0 <=? cur_rx_stream r) eqn:?; simplify_eq; [|by wp_step]. z_bool.
      eapply wp_mono; [apply (wp_deliver_advanced _ _ _ _ (Outer (outer_in_escape r)
        (cur_outer_tag r) (Route false (cur_rx_stream r))) _ Hrd'); (done || lia)|].
      intros a h' [? Ha]. split; [done|]. by eapply advanced_from. }
    wp_step; [done|]. simplify_eq. wp_step.
    unfold wp at 1. rewrite find_idx_run by apply Hwf. cbv beta iota.
    pose proof (find_tag_value_bound (active_tags h) b 0 ltac:(lia)) as Hfb.
    pose proof (active_length _ (wf_shape _ Hwf)).
    wp_step. split; [done|].
    assert ((if 0 <=? find_tag_value (active_tags h) b 0
             then find_tag_value (active_tags h) b 0 else -1) =
            find_tag_value (active_tags h) b 0) as -> by (case_match; z_bool; lia).
    apply (advanced_locals h r _ _ Hrd); (done || cbn; lia).
  - wp_step.
    { wp_step. simplify_eq. split; [done|]. by apply (advanced_locals h r _ _ Hrd). }
    pose proof (wf_cfg _ Hwf) as (Hraw & Hauto & Hdef & _).
    assert (outer_of r = Outer (outer_in_escape r) (cur_outer_tag r) (Route false (cur_rx_stream r)))
      by (unfold outer_of, route_of; by rewrite Hesc).
    destruct (cur_rx_stream r <? 0) eqn:Heq; simplify_eq; z_bool.
    + do 2 wp_step. cbv zeta. rewrite Hdef, (wf_max _ Hwf).
      rewrite (proj2 (Z.ltb_lt 2 _)) by lia. cbn [andb].
      apply wp_deliver_advanced; (done || lia).
    + apply wp_deliver_advanced; (done || lia).
Qed.

(** The copy to the raw PTY. *)
Lemma wp_mirror_raw_advanced ok b r h :
  ready E h r →
  wp ok (mirror_raw E b r)
    (λ m h', ∃ r', m = Some r' ∧
       advanced h r (outer_of r) [(raw_ccplex_pty_idx (cfg h), b)] h' r') h.
Proof.
  intros Hrd. pose proof (rd_wf _ _ _ Hrd) as Hwf. pose proof (sh_n _ _ (wf_shape _ Hwf)) as Hn.
  pose proof (wf_cfg _ Hwf) as (Hraw & _). unfold mirror_raw. do 2 wp_step. cbv zeta.
  rewrite Hraw, (wf_max _ Hwf), (proj2 (Z.ltb_lt 0 _)) by lia. cbn [andb Z.leb]. 
  wp_step; [|done]. wp_step. eapply wp_mono; [apply (wp_deliver_advanced _ _ _ _ (outer_of r)); (done || lia)|].
  intros [z r'] h' [Hz Had]. cbn in Hz. subst z. wp_step. eauto.
Qed.

Lemma wp_mirror_route ok b r h s e :
  ready E h r → route_byte h (route_of r) b = Some (s, e) →
  wp ok (m <- mirror_raw E b r ;;
         match m with
         | None => ret (-1, r)
         | Some r => feed_virtioso_byte E b r
         end)
    (λ a h', a.1 = 0 ∧
       advanced h r (Outer (outer_in_escape r) (cur_outer_tag r) s)
         ((raw_ccplex_pty_idx (cfg h), b) :: e) h' a.2) h.
Proof.
  intros Hrd Hb. wp_step. eapply wp_mono; [by apply wp_mirror_raw_advanced|].
  intros m h1 (r1 & -> & Had).
  pose proof (advanced_ready _ _ _ _ _ _ _ Hrd Had) as Hrd1.
  pose proof (rd_stable _ _ _ _ _ (ad_routed _ _ _ _ _ _ Had)) as Hst.
  pose proof (ad_at _ _ _ _ _ _ Had) as Hat. unfold outer_of in Hat.
  injection Hat as Ho Ht He Hcr.
  eapply wp_mono; [apply (wp_feed_route _ b r1 h1 s e Hrd1)|].
  - rewrite (route_byte_ext h h1); [|apply Hst|by apply active_tags_stable].
    unfold route_of in *. by rewrite He, Hcr.
  - intros a h2 [Ha Had2]. split; [done|]. rewrite Ho, Ht in Had2.
    by apply (advanced_trans _ _ _ [_] _ _ _ _ _ _ Had).
Qed.

Lemma wp_feed_outer_route ok b r h o e :
  ready E h r → outer_byte h (outer_of r) b = Some (o, e) →
  wp ok (feed_nvidia_outer_or_virtioso_raw E b r)
    (λ a h', a.1 = 0 ∧ advanced h r o e h' a.2) h.
Proof.
  intros Hrd Hb. pose proof (ro_cur _ _ (rd_ok _ _ _ Hrd)) as Hcur.
  pose proof (sh_n _ _ (wf_shape _ (rd_wf _ _ _ Hrd))).
  unfold outer_byte, inner_with in Hb. cbn [ot_in ot_esc ot_tag outer_of] in Hb.
  unfold feed_nvidia_outer_or_virtioso_raw. do 2 wp_step.
  destruct (virtioso_outer_mode (cfg h) =? VIRTIOSO_OUTER_RAW).
  { destruct (route_byte h (route_of r) b) as [[s e1]|] eqn:?; simplify_eq.
    by apply wp_mirror_route. }
  destruct (outer_in_escape r) eqn:Hoe.
  - cbv zeta in *. destruct (ready_same h r (set_outer_in_escape false r) Hrd) as [Hrd' Had]; try done.
    case_bool_decide as Hesc.
    { cbn [cur_outer_tag set_outer_in_escape]. destruct (cur_outer_tag r =? _).
      - destruct (route_byte h (route_of r) b) as [[s e1]|] eqn:Hb'; simplify_eq.
        eapply wp_mono; [by apply (wp_feed_route _ _ _ _ s e1 Hrd')|].
        intros a h' [? Ha]. split; [done|]. by eapply advanced_from.
      - wp_step. by simplify_eq. }
    case_bool_decide.
    + wp_step. simplify_eq. split; [done|]. apply (advanced_locals h r _ _ Hrd); (done || cbn; lia).
    + wp_step. simplify_eq. split; [done|].
      destruct (0 <=? find_tag_value chip_tags b 0); by apply (advanced_locals h r _ _ Hrd).
  - case_bool_decide.
    + wp_step. simplify_eq. split; [done|]. by apply (advanced_locals h r _ _ Hrd).
    + destruct (cur_outer_tag r =? _).
      * destruct (route_byte h (route_of r) b) as [[s e1]|] eqn:?; simplify_eq.
        rewrite <-Hoe. by apply wp_mirror_route.
      * wp_step. simplify_eq. split; [done|].
        replace (Outer false _ _) with (outer_of r) by (unfold outer_of; by rewrite Hoe).
        by apply (advanced_locals h r r _ Hrd).
Qed.

(** Whole buffers, through the feeder of either layer. *)
Lemma wp_feed_route_all {S} (at_ : rx → S) (f : host → S → byte → option (S * list event))
    (up : rx → S → outer) feed ok l r h s e :
  (∀ r o, outer_of o = up r (at_ o) → up o = up r) →
  (∀ r, up r (at_ r) = outer_of r) →
  (∀ r1 r2 s, outer_of r2 = up r1 s → at_ r2 = s) →
  (∀ h h' s b, cfg h' = cfg h → active_tags h' = active_tags h → f h' s b = f h s b) →
  (∀ b r h s e, ready E h r → f h (at_ r) b = Some (s, e) →
     wp ok (feed b r) (λ a h', a.1 = 0 ∧ advanced h r (up r s) e h' a.2) h) →
  ready E h r → run_route (f h) (at_ r) l = Some (s, e) →
  wp ok (feed_all feed l r) (λ a h', a.1 = 0 ∧ advanced h r (up r s) e h' a.2) h.
Proof.
  intros Hup Hid Hat Hext Hfeed. revert r h s e.
  induction l as [|b l IH]; intros r h s e Hrd Ha; cbn [feed_all].
  { cbn in Ha. simplify_eq. wp_step. split; [done|]. rewrite Hid.
    destruct Hrd. by apply advanced_same. }
  cbn [run_route] in Ha. destruct (f h _ b) as [[s1 e1]|] eqn:Hb; [|done].
  destruct (run_route (f h) s1 l) as [[s2 e2]|] eqn:Hrest; [|done]. simplify_eq.
  wp_step. eapply wp_mono; [by apply Hfeed|]. intros [z r1] h1 [Hz Had].
  cbn [fst snd] in *. subst z. wp_step; [done|].
  pose proof (rd_stable _ _ _ _ _ (ad_routed _ _ _ _ _ _ Had)) as Hst.
  pose proof (ad_at _ _ _ _ _ _ Had) as Hr1. pose proof (Hat _ _ _ Hr1) as Hs1.
  eapply wp_mono; [apply (IH r1 h1 s e2)|].
  - by eapply advanced_ready.
  - rewrite Hs1, (run_route_ext _ (f h)); [done|].
    intros. apply Hext; [apply Hst|by apply active_tags_stable].
  - intros a h2 [? Ha2]. split; [done|]. rewrite (Hup r r1) in Ha2 by (by rewrite Hs1).
    by eapply advanced_trans.
Qed.

Lemma wp_feed_inner_all ok l r h s e :
  ready E h r → run_route (route_byte h) (route_of r) l = Some (s, e) →
  wp ok (feed_all (feed_virtioso_byte E) l r)
    (λ a h', a.1 = 0 ∧
       advanced h r (Outer (outer_in_escape r) (cur_outer_tag r) s) e h' a.2) h.
Proof.
  apply (wp_feed_route_all route_of route_byte
    (λ r s, Outer (outer_in_escape r) (cur_outer_tag r) s)); try done.
  - intros r0 r1 Heq. unfold outer_of in Heq. by injection Heq as -> ->.
  - intros r1 r2 s0 Heq. unfold outer_of in Heq. by injection Heq.
  - intros. by apply route_byte_ext.
  - intros. by apply wp_feed_route.
Qed.

Lemma wp_feed_outer_all ok l r h o e :
  ready E h r → run_route (outer_byte h) (outer_of r) l = Some (o, e) →
  wp ok (feed_all (feed_nvidia_outer_or_virtioso_raw E) l r)
    (λ a h', a.1 = 0 ∧ advanced h r o e h' a.2) h.
Proof.
  apply (wp_feed_route_all outer_of outer_byte (λ _ o, o)); try done.
  - intros. by apply outer_byte_ext.
  - intros. by apply wp_feed_outer_route.
Qed.

End Refinement.
