(* ===== verification/Demo.v ===== *)
(** * Concrete hosts

    The host after start-up and after a STREAM_REGISTRY record with three
    streams, in raw mode and inside the TCU layer, and the decision
    procedure that shows they satisfy what the theorems ask for. *)

From S2P Require Import Prelude Proto CString HostState HostIo Flush Registry RegistryInv Startup StartupInv Demux DemuxInv Route.

(** One stream object as the generator prints it. *)
Definition stream_text (component : string) (id direction : string) : list byte :=
  bs "{" ++ quoted "component" ++ bs ": " ++ quoted component ++ bs ", " ++
  quoted "direction" ++ bs ": " ++ quoted direction ++ bs ", " ++
  quoted "stream_id" ++ bs ": " ++ bs id ++ bs "}".

Definition demo_registry : list byte :=
  bs "{" ++ quoted "streams" ++ bs ": [" ++
  stream_text "vm0" "1" "bidirectional" ++ bs ", " ++
  stream_text "vm1" "2" "bidirectional" ++ bs ", " ++
  stream_text "logger" "32" "output" ++ bs "]}".

Definition demo_streams : host :=
  run (apply_virtioso_registry_json good_env (Some demo_registry)) demo_host.
Definition demo_streams_tcu : host :=
  run (apply_virtioso_registry_json good_env (Some demo_registry)) demo_host_tcu.

(** An environment whose PTYs and logs are full: every write fails with EAGAIN. *)
Definition full_pty : env := λ tr rq,
  match rq with RqWrite _ _ => SysRes (-1) EAGAIN 0 [] [] | _ => good_env tr rq end.

(** [own_fds] as a test on the list of descriptors. *)
Definition own_fds_b (h : host) : bool :=
  let fds := take (Z.to_nat (pty_max_count h)) (td_fd <$> pty_data h) in
  let logs := td_log_fd <$> pty_data h in
  bool_decide (NoDup fds) &&
  forallb (λ fd, forallb (λ l, negb ((0 <=? l) && (l =? fd))) logs) fds.

(* ------------------------------------------------------------------ *)
(** ** Lemmas *)

Lemma own_fds_b_sound h : 0 ≤ pty_max_count h → own_fds_b h = true → own_fds h.
Proof.
  intros Hn Hb. unfold own_fds_b in Hb. apply andb_prop in Hb as [Hd Hl].
  apply bool_decide_eq_true in Hd. rewrite forallb_forall in Hl.
  assert (Hlk : ∀ i p, Z.of_nat i < pty_max_count h → pty_data h !! i = Some p →
    take (Z.to_nat (pty_max_count h)) (td_fd <$> pty_data h) !! i = Some (td_fd p)).
  { intros i p Hi Hp. rewrite lookup_take_lt by lia. by rewrite list_lookup_fmap, Hp. }
  constructor.
  - intros i j p q Hi Hj Hp Hq Heq.
    eapply NoDup_lookup; [exact Hd|by apply Hlk|]. rewrite Heq. by apply Hlk.
  - intros i p Hi Hp (q & Hq & Hq0 & Hq1).
    specialize (Hl (td_fd p)). rewrite forallb_forall in Hl.
    assert (negb ((0 <=? td_log_fd q) && (td_log_fd q =? td_fd p)) = true) as Hneg.
    { apply Hl; apply list_elem_of_In.
      - eapply elem_at. by apply Hlk.
      - by apply list_elem_of_fmap_2. }
    rewrite Hq1, Z.eqb_refl, andb_true_r in Hneg. z_bool. lia.
Qed.

Lemma good_env_tolerates h : tolerates good_env h.
Proof.
  intros p _. split; [intros tr d Hr|intros _ tr d]; cbn in *; lia.
Qed.

Lemma run_wp {A} (m : HM A) Q h : wp total m (λ _ h', Q h') h → Q (run m h).
Proof. unfold wp, run. by destruct (m h). Qed.

Lemma demo_streams_wf : wf demo_streams.
Proof.
  apply (run_wp _ wf). eapply wp_mono; [apply wp_apply_registry, demo_host_wf|]. by intros ? ? [? _].
Qed.

Lemma demo_streams_tcu_wf : wf demo_streams_tcu.
Proof.
  apply (run_wp _ wf). eapply wp_mono; [apply wp_apply_registry, demo_host_tcu_wf|]. by intros ? ? [? _].
Qed.

Lemma demo_streams_ready : ready good_env demo_streams rx_init.
Proof.
  pose proof demo_streams_wf as Hwf. pose proof (sh_n _ _ (wf_shape _ Hwf)).
  pose proof (wf_max _ Hwf). constructor; [exact Hwf|apply rx_init_ok; lia| |apply good_env_tolerates|reflexivity].
  apply own_fds_b_sound; [lia|]. vm_compute. reflexivity.
Qed.

Lemma demo_streams_tcu_ready : ready good_env demo_streams_tcu rx_init.
Proof.
  pose proof demo_streams_tcu_wf as Hwf. pose proof (sh_n _ _ (wf_shape _ Hwf)).
  pose proof (wf_max _ Hwf). constructor; [exact Hwf|apply rx_init_ok; lia| |apply good_env_tolerates|reflexivity].
  apply own_fds_b_sound; [lia|]. vm_compute. reflexivity.
Qed.

Example demo_streams_table :
  (λ t, (tag_value t, tag_name t)) <$> active_tags demo_streams =
  [(x00, Some RAW_CCPLEX_PTY); (x00, Some AUTOPILOT_CONTROL_PTY);
   (x00, Some PHYSICAL_UART_DEFAULT_PTY);
   (x01, Some (bs "vm0")); (x02, Some (bs "vm1")); (x20, Some (bs "logger"))].
Proof. by vm_compute. Qed.

Example demo_streams_fds :
  take 6 (td_fd <$> pty_data demo_streams) = [10; 12; 14; 16; 18; 20].
Proof. by vm_compute. Qed.
