(* ===== verification/RouteSpec.v ===== *)
(** * What the routing machines do with frames, tags and the raw copy

    Frames of any streams in any order, bare or inside the TCU layer with
    other tags in between: every PTY gets its own payload, and the raw PTY a
    copy. *)

From S2P Require Import Prelude Proto CString HostState HostIo Flush Registry RegistryInv Startup StartupInv Demux DemuxInv Route Demo.

(** Frames for PTY indices: [(stream id, payload)] each. *)
Definition frames (l : list (byte * list byte)) : list byte :=
  concat (map (λ f, frame f.1 f.2) l).

(** The index of a registered, selectable stream id. *)
Definition index_of (h : host) (sid : byte) : Z := find_tag_value (active_tags h) sid 0.
Definition known (h : host) (sid : byte) : Prop :=
  selectable sid = true ∧ 0 ≤ index_of h sid.

(** The payload bytes the frames carry for one index, in order. *)
Definition payload_for (h : host) (j : Z) (l : list (byte * list byte)) : list byte :=
  concat (map (λ f, if index_of h f.1 =? j then f.2 else []) l).

(** TCU segments: [(tag index, bytes)] each, and their encoding. *)
Definition tag_byte (k : nat) : byte :=
  match chip_tags !! k with Some t => tag_value t | None => x00 end.
Definition segments (l : list (nat * list byte)) : list byte :=
  concat (map (λ g, tcu_frame (tag_byte g.1) g.2) l).
Definition selected (k : Z) (l : list (nat * list byte)) : list byte :=
  concat (map (λ g, if Z.of_nat g.1 =? k then g.2 else []) l).

(** The events of the frames, in order. *)
Definition frame_events (h : host) (l : list (byte * list byte)) : list event :=
  concat (map (λ f, map (pair (index_of h f.1)) f.2) l).

(* ------------------------------------------------------------------ *)
(** ** Lemmas: frames *)

Lemma route_frames h s l :
  rt_esc s = false → Forall (λ f, known h f.1) l →
  run_route (route_byte h) s (frames l) =
  Some (if l is [] then s else Route false (-1), frame_events h l).
Proof.
  intros Hs Hl. revert s Hs. induction Hl as [|f l [Hsel Hk] _ IH]; intros s Hs; [done|].
  unfold frames, frame_events in *. cbn [map concat].
  rewrite run_route_app, route_frame by done. rewrite IH by done. by destruct l.
Qed.

Lemma for_pty_frames h j l : for_pty j (frame_events h l) = payload_for h j l.
Proof.
  induction l as [|f l IH]; [done|]. unfold frame_events, payload_for in *. cbn [map concat].
  rewrite for_pty_app, IH. f_equal. destruct (index_of h f.1 =? j) eqn:Hj; z_bool.
  - rewrite <-Hj. apply for_pty_same.
  - by apply for_pty_other.
Qed.

(* ------------------------------------------------------------------ *)
(** ** Lemmas: the raw PTY is never selected *)

Lemma index_of_not_zero h sid : wf h → sid ≠ x00 → index_of h sid ≠ 0.
Proof.
  intros Hwf Hs H0. unfold index_of in *.
  destruct (find_tag_value_found (active_tags h) sid 0) as (t & Ht & Hv); [lia..|].
  rewrite H0 in Ht. cbn in Ht. apply active_lookup in Ht as [Hn Ht].
  apply Hs. rewrite <-Hv. by apply (tb_builtin _ _ (wf_table _ Hwf) 0%nat); [..|lia].
Qed.

Definition off_raw (e : event) : Prop := e.1 ≠ 0.

Lemma route_byte_off_raw h s b s' e :
  wf h → rt_cur s ≠ 0 → route_byte h s b = Some (s', e) → rt_cur s' ≠ 0 ∧ Forall off_raw e.
Proof.
  intros Hwf Hs. pose proof (wf_cfg _ Hwf) as (_ & _ & Hd & _).
  unfold route_byte. repeat case_match; intros; simplify_eq; cbn;
    repeat constructor; unfold off_raw; cbn; try lia; try done.
  apply index_of_not_zero; [done|]. by match goal with H : bool_decide (b = VCMUX_PROTO_ESC_DEFAULT) = false |- _ =>
    apply bool_decide_eq_false in H end.
Qed.

Lemma for_pty_off_raw e : Forall off_raw e → for_pty 0 e = [].
Proof.
  intros He. unfold for_pty. induction He as [|x e Hx _ IH]; [done|].
  by rewrite filter_cons_False.
Qed.

(** Two event lists agree away from the raw PTY, and [raw] is what it gets. *)
Definition with_raw (raw : list byte) (e e' : list event) : Prop :=
  for_pty 0 e' = raw ∧ ∀ j, j ≠ 0 → for_pty j e' = for_pty j e.

Lemma with_raw_app r1 r2 a1 a2 b1 b2 :
  with_raw r1 a1 b1 → with_raw r2 a2 b2 → with_raw (r1 ++ r2) (a1 ++ a2) (b1 ++ b2).
Proof.
  intros [H1 H2] [H3 H4]. split; [by rewrite for_pty_app, H1, H3|].
  intros j Hj. by rewrite !for_pty_app, H2, H4.
Qed.

Lemma with_raw_copy b e : Forall off_raw e → with_raw [b] e ((0, b) :: e).
Proof.
  intros He. change ((0, b) :: e) with ([(0, b)] ++ e). split.
  - rewrite for_pty_app, for_pty_one, for_pty_off_raw by done. done.
  - intros j Hj. rewrite for_pty_app, for_pty_one.
    destruct (decide (0 = j)); [lia|done].
Qed.

Lemma with_raw_none e : Forall off_raw e → with_raw [] e e.
Proof. intros He. split; [by apply for_pty_off_raw|done]. Qed.

(* ------------------------------------------------------------------ *)
(** ** Lemmas: raw mode and the TCU layer *)

Lemma raw_mode_run h o l s e :
  wf h → virtioso_outer_mode (cfg h) = VIRTIOSO_OUTER_RAW → rt_cur (ot_in o) ≠ 0 →
  run_route (route_byte h) (ot_in o) l = Some (s, e) →
  ∃ e', run_route (outer_byte h) o l = Some (Outer (ot_esc o) (ot_tag o) s, e') ∧
    with_raw l e e'.
Proof.
  intros Hwf Hm. revert o s e. induction l as [|b l IH]; intros o s e Hc Hr.
  { cbn in Hr. simplify_eq. exists []. split; [by destruct o|]. by apply with_raw_none. }
  cbn [run_route] in *. destruct (route_byte h (ot_in o) b) as [[s1 e1]|] eqn:Hb; [|done].
  destruct (run_route (route_byte h) s1 l) as [[s2 e2]|] eqn:Hl; [|done]. simplify_eq.
  destruct (route_byte_off_raw _ _ _ _ _ Hwf Hc Hb) as [Hc1 He1].
  destruct (IH (Outer (ot_esc o) (ot_tag o) s1) s e2) as (e' & Hrun & Hw); [done..|].
  pose proof (wf_cfg _ Hwf) as (Hraw & _).
  assert (outer_byte h o b = Some (Outer (ot_esc o) (ot_tag o) s1, (0, b) :: e1)) as ->.
  { unfold outer_byte, inner_with. by rewrite Hm, Z.eqb_refl, Hb, Hraw. }
  rewrite Hrun. eexists. split; [done|].
  apply (with_raw_app [b] l e1 e2 ((0, b) :: e1)); [by apply with_raw_copy|done].
Qed.

Lemma outer_byte_start h t s :
  (virtioso_outer_mode (cfg h) =? VIRTIOSO_OUTER_RAW) = false →
  outer_byte h (Outer false t s) UART_PROTO_ESC_START = Some (Outer true t s, []).
Proof. intros Hm. unfold outer_byte. by rewrite Hm. Qed.

Lemma outer_byte_escaped h t s :
  (virtioso_outer_mode (cfg h) =? VIRTIOSO_OUTER_RAW) = false →
  outer_byte h (Outer true t s) UART_PROTO_ESC_ESC =
  if t =? virtioso_outer_tag_idx (cfg h)
  then inner_with h [] (Outer false t s) UART_PROTO_ESC_START
  else Some (Outer false t s, []).
Proof. intros Hm. unfold outer_byte. by rewrite Hm. Qed.

Lemma tcu_selected_run h tag s l s' e :
  wf h → virtioso_outer_mode (cfg h) ≠ VIRTIOSO_OUTER_RAW →
  tag = virtioso_outer_tag_idx (cfg h) → rt_cur s ≠ 0 →
  run_route (route_byte h) s l = Some (s', e) →
  rt_cur s' ≠ 0 ∧
  ∃ e', run_route (outer_byte h) (Outer false tag s) (tcu_bytes l) =
          Some (Outer false tag s', e') ∧
    with_raw (filter (λ b, b ≠ UART_PROTO_ESC_START) l) e e'.
Proof.
  intros Hwf Hm Ht. apply Z.eqb_neq in Hm. revert s s' e.
  induction l as [|b l IH]; intros s s' e Hc Hr.
  { cbn in Hr. simplify_eq. split; [done|]. exists []. split; [done|]. by apply with_raw_none. }
  cbn [run_route] in Hr. destruct (route_byte h s b) as [[s1 e1]|] eqn:Hb; [|done].
  destruct (run_route (route_byte h) s1 l) as [[s2 e2]|] eqn:Hl; [|done]. simplify_eq.
  destruct (route_byte_off_raw _ _ _ _ _ Hwf Hc Hb) as [Hc1 He1].
  destruct (IH s1 s' e2) as (Hs' & e' & Hrun & Hw); [done..|]. split; [done|].
  unfold tcu_bytes in *. cbn [map concat]. rewrite run_route_app.
  pose proof (wf_cfg _ Hwf) as (Hraw & _).
  rewrite filter_cons. destruct (decide (b = UART_PROTO_ESC_START)) as [->|Hff].
  - rewrite tcu_byte_escape. destruct (decide (UART_PROTO_ESC_START ≠ UART_PROTO_ESC_START)) as [n|_]; [by destruct n|].
    assert (run_route (outer_byte h) (Outer false (virtioso_outer_tag_idx (cfg h)) s)
              [UART_PROTO_ESC_START; UART_PROTO_ESC_ESC] =
            Some (Outer false (virtioso_outer_tag_idx (cfg h)) s1, e1)) as ->.
    { cbn [run_route]. rewrite outer_byte_start, outer_byte_escaped, Z.eqb_refl by done.
      unfold inner_with. cbn [ot_in]. rewrite Hb. cbn. by rewrite !app_nil_r. }
    cbv iota beta. rewrite Hrun. eexists. split; [done|]. by apply (with_raw_app [] _ e1 e2); [apply with_raw_none|].
  - destruct (decide (b ≠ UART_PROTO_ESC_START)) as [_|n]; [|by destruct n].
    rewrite tcu_byte_plain by done.
    assert (outer_byte h (Outer false (virtioso_outer_tag_idx (cfg h)) s) b =
            Some (Outer false (virtioso_outer_tag_idx (cfg h)) s1, (0, b) :: e1)) as Hstep.
    { unfold outer_byte, inner_with. rewrite Hm. cbn [ot_esc ot_tag ot_in].
      by rewrite bool_decide_eq_false_2, Z.eqb_refl, Hb, Hraw. }
    cbn [run_route]. rewrite Hstep. cbv iota beta. rewrite Hrun, app_nil_r. eexists. split; [done|].
    by apply (with_raw_app [b] _ e1 e2); [apply with_raw_copy|].
Qed.

Lemma tcu_other_run h tag s l :
  virtioso_outer_mode (cfg h) ≠ VIRTIOSO_OUTER_RAW →
  tag ≠ virtioso_outer_tag_idx (cfg h) →
  run_route (outer_byte h) (Outer false tag s) (tcu_bytes l) = Some (Outer false tag s, []).
Proof.
  intros Hm Ht. apply Z.eqb_neq in Hm, Ht. induction l as [|b l IH]; [done|].
  unfold tcu_bytes in *. cbn [map concat]. rewrite run_route_app.
  destruct (decide (b = UART_PROTO_ESC_START)) as [->|Hff].
  - rewrite tcu_byte_escape. cbn [run_route]. rewrite outer_byte_start, outer_byte_escaped, Ht by done.
    cbv iota beta. by rewrite IH.
  - rewrite tcu_byte_plain by done. cbn [run_route].
    assert (outer_byte h (Outer false tag s) b = Some (Outer false tag s, [])) as ->.
    { unfold outer_byte. rewrite Hm. cbn [ot_esc ot_tag ot_in].
      by rewrite Ht, bool_decide_eq_false_2. }
    cbv iota beta. by rewrite IH.
Qed.

Lemma tag_byte_spec k :
  (k < length chip_tags)%nat →
  find_tag_value chip_tags (tag_byte k) 0 = Z.of_nat k ∧
  tag_byte k ≠ UART_PROTO_ESC_ESC ∧ tag_byte k ≠ UART_PROTO_ESC_RESET.
Proof. intros Hk. cbn in Hk. do 15 (destruct k as [|k]; [by vm_compute|]). lia. Qed.

Lemma tcu_switch_run h tag s k :
  virtioso_outer_mode (cfg h) ≠ VIRTIOSO_OUTER_RAW → (k < length chip_tags)%nat →
  run_route (outer_byte h) (Outer false tag s) [UART_PROTO_ESC_START; tag_byte k] =
  Some (Outer false (Z.of_nat k) s, []).
Proof.
  intros Hm Hk. apply Z.eqb_neq in Hm. destruct (tag_byte_spec k Hk) as (Hf & H1 & H2).
  cbn [run_route]. rewrite outer_byte_start by done. unfold outer_byte. rewrite Hm. cbn [ot_esc ot_tag ot_in].
  rewrite !bool_decide_eq_false_2 by done. rewrite Hf, (proj2 (Z.leb_le 0 _)) by lia. done.
Qed.

(** Segments of any tags: the inner layer sees the selected tag's bytes. *)
Lemma segments_run h tag s l s' e :
  wf h → virtioso_outer_mode (cfg h) ≠ VIRTIOSO_OUTER_RAW → rt_cur s ≠ 0 →
  Forall (λ g, (g.1 < length chip_tags)%nat) l →
  run_route (route_byte h) s (selected (virtioso_outer_tag_idx (cfg h)) l) = Some (s', e) →
  ∃ tag' e', run_route (outer_byte h) (Outer false tag s) (segments l) =
               Some (Outer false tag' s', e') ∧
    with_raw (filter (λ b, b ≠ UART_PROTO_ESC_START)
                (selected (virtioso_outer_tag_idx (cfg h)) l)) e e'.
Proof.
  intros Hwf Hm Hc Hl. revert tag s s' e Hc. induction Hl as [|[k g] l Hk _ IH];
    intros tag s s' e Hc Hr.
  { cbn in Hr. simplify_eq. exists tag, []. split; [done|]. by apply with_raw_none. }
  unfold segments, selected in *. cbn [map concat fst snd] in *.
  change (tcu_frame (tag_byte k) g) with ([UART_PROTO_ESC_START; tag_byte k] ++ tcu_bytes g).
  rewrite run_route_app in Hr.
  rewrite <-app_assoc, run_route_app, tcu_switch_run, run_route_app by done.
  destruct (Z.of_nat k =? virtioso_outer_tag_idx (cfg h)) eqn:Hk'; z_bool.
  - destruct (run_route (route_byte h) s g) as [[s1 e1]|] eqn:Hg; [|done].
    destruct (run_route (route_byte h) s1 _) as [[s2 e2]|] eqn:Hrest; [|done]. simplify_eq.
    destruct (tcu_selected_run h (Z.of_nat k) s g s1 e1) as (Hs1 & e1' & -> & Hw1); [done..|].
    destruct (IH (Z.of_nat k) s1 s' e2 Hs1 Hrest) as (tag' & e2' & -> & Hw2).
    exists tag', (e1' ++ e2'). split; [done|]. rewrite filter_app. by apply with_raw_app.
  - rewrite tcu_other_run by done. cbn [run_route app] in *.
    destruct (run_route (route_byte h) s _) as [[s2 e2]|] eqn:Hrest; [|done]. simplify_eq.
    destruct (IH (Z.of_nat k) s s' e Hc Hrest) as (tag' & e2' & -> & Hw2).
    by exists tag', e2'.
Qed.

(* ------------------------------------------------------------------ *)
(** ** What the PTYs receive *)

(** Every channel in use was offered the bytes [recv] says, patched. *)
Definition receives (h : host) (r : rx) (recv : nat → list byte) (h' : host) (r' : rx) : Prop :=
  stable h h' ∧
  ∀ j p n c, Z.of_nat j < pty_max_count h → pty_data h !! j = Some p →
    seen_n r !! j = Some n → seen_r r !! j = Some c →
    offered (td_fd p) (trace h') =
    offered (td_fd p) (trace h) ++ (chan h n c (recv j)).1.1 ∧
    seen_n r' !! j = Some (chan h n c (recv j)).1.2 ∧
    seen_r r' !! j = Some (chan h n c (recv j)).2.

Lemma routed_receives h r evs h' r' recv :
  routed h r evs h' r' → (∀ j, for_pty (Z.of_nat j) evs = recv j) → receives h r recv h' r'.
Proof.
  intros [Hs _ _ Hc] Hrecv. split; [done|]. intros j p n c Hj Hp Hn Hr.
  specialize (Hc j p n c Hj Hp Hn Hr). rewrite <-Hrecv. by destruct (chan h n c _) as [[??]?].
Qed.

(** What each PTY gets from frames: its payload, and the raw PTY the copy. *)
Definition frames_recv (h : host) (raw : list byte) (l : list (byte * list byte)) (j : nat)
    : list byte :=
  if bool_decide (j = 0%nat) then raw else payload_for h (Z.of_nat j) l.

Lemma with_raw_recv h raw l e' j :
  with_raw raw (frame_events h l) e' → for_pty (Z.of_nat j) e' = frames_recv h raw l j.
Proof.
  intros [H0 Hj]. unfold frames_recv. case_bool_decide as Hz; [by subst|].
  rewrite Hj by lia. apply for_pty_frames.
Qed.

Lemma idle_route r : in_escape r = false → cur_rx_stream r = -1 → route_of r = Route false (-1).
Proof. unfold route_of. by intros -> ->. Qed.

Lemma route_frames_idle h l :
  Forall (λ f, known h f.1) l →
  run_route (route_byte h) (Route false (-1)) (frames l) =
  Some (Route false (-1), frame_events h l).
Proof. intros Hl. rewrite route_frames by done. by destruct l. Qed.

(** Frames of known streams, in raw mode. *)
Lemma frames_taken E h r l :
  ready E h r → virtioso_outer_mode (cfg h) = VIRTIOSO_OUTER_RAW →
  in_escape r = false → cur_rx_stream r = -1 → Forall (λ f, known h f.1) l →
  ∃ r' h', feed_all (feed_nvidia_outer_or_virtioso_raw E) (frames l) r h = Done (0, r') h' ∧
    ready E h' r' ∧ in_escape r' = false ∧ cur_rx_stream r' = -1 ∧
    receives h r (frames_recv h (frames l) l) h' r'.
Proof.
  intros Hrd Hm He Hc Hl.
  pose proof (route_frames_idle h l Hl) as Hrun. rewrite <-(idle_route r He Hc) in Hrun at 1.
  destruct (raw_mode_run h (outer_of r) (frames l) (Route false (-1)) (frame_events h l))
    as (e' & Hout & Hw); [apply Hrd|done|cbn; lia|exact Hrun|].
  pose proof (wp_feed_outer_all E total _ _ _ _ _ Hrd Hout) as Hwp.
  apply wp_total_done in Hwp as ([z r'] & h' & Hdone & Hz & Had). cbn in Hz. subst z.
  exists r', h'. split; [done|]. split; [by eapply advanced_ready|].
  pose proof (ad_at _ _ _ _ _ _ Had) as Hat. injection Hat as _ _ He' Hc'.
  split_and!; [done..|]. eapply routed_receives; [apply Had|].
  intros j. by apply with_raw_recv.
Qed.

(** C1: demultiplexing in raw mode.  For any frames of registered streams, in
    any order and interleaving, feeding their encoding to the UART side makes
    every stream's PTY receive exactly its own payload bytes, in order (with
    the line-ending patch of its own channel), the raw PTY a copy of every
    byte, and leaves the demultiplexer between frames.  It terminates without
    an error for every environment that at most fails softly on the PTYs. *)
Theorem demux_frames_raw E h r l :
  ready E h r → virtioso_outer_mode (cfg h) = VIRTIOSO_OUTER_RAW →
  in_escape r = false → cur_rx_stream r = -1 → Forall (λ f, known h f.1) l →
  ∃ r' h', feed_all (feed_nvidia_outer_or_virtioso_raw E) (frames l) r h = Done (0, r') h' ∧
    ready E h' r' ∧ in_escape r' = false ∧ cur_rx_stream r' = -1 ∧
    receives h r (frames_recv h (frames l) l) h' r'.
Proof. apply frames_taken. Qed.

(** C1 holds of a host with three streams and interleaved frames. *)
Lemma demux_frames_raw_witness :
  let l := [(x01, bs "ab"); (x20, [xfe; x0a]); (x01, bs "c"); (x02, [])] in
  ∃ r' h', feed_all (feed_nvidia_outer_or_virtioso_raw good_env) (frames l) rx_init demo_streams =
           Done (0, r') h' ∧
    ready good_env h' r' ∧ in_escape r' = false ∧ cur_rx_stream r' = -1 ∧
    receives demo_streams rx_init (frames_recv demo_streams (frames l) l) h' r'.
Proof.
  intros l. apply (demux_frames_raw good_env demo_streams rx_init l);
    [apply demo_streams_ready|vm_compute; reflexivity|reflexivity|reflexivity|].
  repeat constructor; vm_compute; congruence.
Defined.

(** C8: demultiplexing inside the NVIDIA TCU layer.  The frames may be cut
    into segments anywhere and interleaved with segments of other tags: when
    the selected tag's segments together hold the encoding of the frames,
    every stream's PTY receives exactly its payload, the raw PTY a copy of the
    selected bytes other than 0xff, and the other tags' bytes go nowhere. *)
Theorem demux_frames_tcu E h r l segs :
  ready E h r → virtioso_outer_mode (cfg h) = VIRTIOSO_OUTER_NVIDIA_TCU →
  outer_in_escape r = false → in_escape r = false → cur_rx_stream r = -1 →
  Forall (λ f, known h f.1) l → Forall (λ g, (g.1 < length chip_tags)%nat) segs →
  selected (virtioso_outer_tag_idx (cfg h)) segs = frames l →
  ∃ r' h', feed_all (feed_nvidia_outer_or_virtioso_raw E) (segments segs) r h = Done (0, r') h' ∧
    ready E h' r' ∧ in_escape r' = false ∧ cur_rx_stream r' = -1 ∧
    receives h r (frames_recv h (filter (λ b, b ≠ UART_PROTO_ESC_START) (frames l)) l) h' r'.
Proof.
  intros Hrd Hm Ho He Hc Hl Hg Hsel.
  pose proof (route_frames_idle h l Hl) as Hrun. rewrite <-Hsel in Hrun.
  destruct (segments_run h (cur_outer_tag r) (Route false (-1)) segs (Route false (-1))
    (frame_events h l)) as (tag' & e' & Hout & Hw);
    [apply Hrd|by rewrite Hm|done|done|exact Hrun|].
  assert (outer_of r = Outer false (cur_outer_tag r) (Route false (-1))) as Hat.
  { unfold outer_of. by rewrite Ho, (idle_route r He Hc). }
  rewrite <-Hat in Hout.
  pose proof (wp_feed_outer_all E total _ _ _ _ _ Hrd Hout) as Hwp.
  apply wp_total_done in Hwp as ([z r'] & h' & Hdone & Hz & Had). cbn in Hz. subst z.
  exists r', h'. split; [done|]. split; [by eapply advanced_ready|].
  pose proof (ad_at _ _ _ _ _ _ Had) as Hat'. injection Hat' as _ _ He' Hc'.
  split_and!; [done..|]. eapply routed_receives; [apply Had|].
  intros j. rewrite Hsel in Hw. by apply with_raw_recv.
Qed.

(** C8 holds of a frame cut in two around a segment of another tag. *)
Lemma demux_frames_tcu_witness :
  let l := [(x01, [x61; xff])] in
  let segs := [(0, [xfe; x01; x61]); (3, bs "noise"); (0, [xff; xfe; x00])]%nat in
  ∃ r' h', feed_all (feed_nvidia_outer_or_virtioso_raw good_env) (segments segs)
             rx_init demo_streams_tcu = Done (0, r') h' ∧
    ready good_env h' r' ∧ in_escape r' = false ∧ cur_rx_stream r' = -1 ∧
    receives demo_streams_tcu rx_init
      (frames_recv demo_streams_tcu (filter (λ b, b ≠ UART_PROTO_ESC_START) (frames l)) l) h' r'.
Proof.
  intros l segs. apply (demux_frames_tcu good_env demo_streams_tcu rx_init l segs);
    [apply demo_streams_tcu_ready|vm_compute; reflexivity|reflexivity..|
     repeat constructor; vm_compute; congruence|repeat constructor; vm_compute; lia|
     vm_compute; reflexivity].
Defined.
