(* ===== verification/Records.v ===== *)
(** * Control records in raw mode

    In raw mode every byte of a control record is also copied to the raw
    PTY.  A record is received as a whole, the copy is made, and only then is
    it acted upon. *)

From S2P Require Import Prelude Proto CString HostState HostIo Flush Registry RegistryInv Demux DemuxSpec DemuxInv Route RouteSpec.

(** From [(h, r)] to [(h1, r1)] the raw PTY received [fed]; otherwise only
    the pending record type may differ. *)
Record mirrored (h : host) (r : rx) (fed : list byte) (h1 : host) (r1 : rx) : Prop := Mirrored {
  mi_routed : routed h r (map (pair 0) fed)
    (set_pending_ctrl_type (virtioso_pending_ctrl_type h) h1) r1;
  mi_seen : same_but_seen r r1;
  mi_inputs : inputs (trace h1) = inputs (trace h)
}.

(** Changes to the locals that leave the line-ending flags alone. *)
Definition seen_blind (f : rx → rx) : Prop :=
  (∀ x ln lc, f (set_seen_n ln (set_seen_r lc x)) = set_seen_n ln (set_seen_r lc (f x))) ∧
  (∀ x, seen_n (f x) = seen_n x ∧ seen_r (f x) = seen_r x).

(* ------------------------------------------------------------------ *)
(** ** Lemmas *)

Lemma same_but_seen_refl r : same_but_seen r r.
Proof. exists (seen_n r), (seen_r r). by destruct r. Qed.

Lemma same_but_seen_trans r1 r2 r3 :
  same_but_seen r1 r2 → same_but_seen r2 r3 → same_but_seen r1 r3.
Proof.
  intros (n1 & c1 & -> & H1 & H2) (n2 & c2 & -> & H3 & H4). exists n2, c2. cbn in *.
  split; [done|]. split; congruence.
Qed.

Lemma stable_pending h h' v :
  stable h h' → stable (set_pending_ctrl_type v h) (set_pending_ctrl_type v h').
Proof. intros []. by constructor. Qed.

Lemma routed_pending h r e h' r' v :
  routed h r e h' r' →
  routed (set_pending_ctrl_type v h) r e (set_pending_ctrl_type v h') r'.
Proof.
  intros [Hs H1 H2 Hc]. constructor; [by apply stable_pending|done|done|].
  intros j p n c Hj Hp Hn Hr. specialize (Hc j p n c Hj Hp Hn Hr).
  by rewrite (chan_ext h) by done.
Qed.

Lemma set_pending_same h : set_pending_ctrl_type (virtioso_pending_ctrl_type h) h = h.
Proof. by destruct h. Qed.

Lemma mirrored_refl h r : mirrored h r [] h r.
Proof.
  constructor; [|apply same_but_seen_refl|done]. rewrite set_pending_same. apply routed_refl.
Qed.

(** A call that is no write, or the pending type. *)
Lemma mirrored_pending h r fed h1 r1 v :
  mirrored h r fed h1 r1 → mirrored h r fed (set_pending_ctrl_type v h1) r1.
Proof. intros []. by constructor. Qed.

Lemma routed_malloc h r n x : routed h r [] (set_trace ((RqMalloc n, x) :: trace h) h) r.
Proof.
  constructor; [|done..|].
  - constructor; try done. by exists [(RqMalloc n, x)].
  - intros j p a b Hj Hp Ha Hb. cbn. by rewrite app_nil_r.
Qed.

Lemma mirrored_malloc h r fed h1 r1 n x :
  mirrored h r fed h1 r1 → mirrored h r fed (set_trace ((RqMalloc n, x) :: trace h1) h1) r1.
Proof.
  intros [Hr Hs Hi]. constructor; [|done|done].
  rewrite <-(app_nil_r (map _ _)). eapply routed_trans; [exact Hr|].
  apply (routed_pending h1), routed_malloc.
Qed.

Section Records.
Context (E : env) (h : host) (r : rx).
Hypothesis (Hready : ready E h r) (Hraw : virtioso_outer_mode (cfg h) = VIRTIOSO_OUTER_RAW).

Lemma mirrored_host fed h1 r1 :
  mirrored h r fed h1 r1 →
  wf h1 ∧ own_fds h1 ∧ tolerates E h1 ∧ virtioso_outer_mode (cfg h1) = VIRTIOSO_OUTER_RAW ∧
  length (seen_n r1) = NPTY ∧ length (seen_r r1) = NPTY.
Proof using Hready Hraw.
  intros [[Hst Hn Hc _] _ _]. destruct Hready as [Hwf Hok Hfd Ht _].
  set (h1' := set_pending_ctrl_type _ h1) in *.
  assert (Hfd' : own_fds h1') by by eapply own_fds_stable.
  assert (Ht' : tolerates E h1') by by eapply stable_tolerates.
  pose proof (stable_wf _ _ Hst Hwf) as Hwf'. split_and!.
  - by apply (wf_same h1').
  - destruct Hfd'. by constructor.
  - exact Ht'.
  - by rewrite <-Hraw, <-(st_cfg _ _ Hst).
  - rewrite Hn. apply Hok.
  - rewrite Hc. apply Hok.
Qed.

(** The copy of one byte, in the middle of a record. *)
Lemma wp_mirror_step ok b f fed h1 r1 Q :
  mirrored h r fed h1 r1 → seen_blind f →
  (∀ h2 r2, mirrored h r (fed ++ [b]) h2 r2 → virtioso_pending_ctrl_type h2 = virtioso_pending_ctrl_type h1 →
     virtioso_registry_json h2 = virtioso_registry_json h1 → extends (trace h1) (trace h2) →
     wp ok (feed_virtioso_byte E b (f r2)) Q h2) →
  wp ok (feed_nvidia_outer_or_virtioso_raw E b (f r1)) Q h1.
Proof using Hready Hraw.
  intros Hm [Hcomm Hsame] HQ.
  destruct (mirrored_host _ _ _ Hm) as (Hwf & Hfd & Ht & Hmode & Hln & Hlr).
  pose proof (sh_n _ _ (wf_shape _ Hwf)) as Hn. pose proof (wf_cfg _ Hwf) as (Hraw0 & _).
  destruct (Hsame r1) as [Hs1 Hs2].
  unfold feed_nvidia_outer_or_virtioso_raw, mirror_raw.
  apply wp_bind, wp_get. rewrite Hmode, Z.eqb_refl. apply wp_bind, wp_bind, wp_get. cbv zeta.
  rewrite Hraw0, (wf_max _ Hwf), (proj2 (Z.ltb_lt 0 _)) by lia. cbn [andb Z.leb].
  change (0 <=? 0) with true. cbv iota.
  apply wp_bind. eapply wp_mono; [apply wp_deliver; [done|lia|by rewrite Hs1|by rewrite Hs2]|].
  intros [z r2] h2 Hp.
  pose proof Hp as (Hst & _ & Hsb & Hin & _).
  destruct (deliver_routed E h1 0 b (f r1) (z, r2) h2) as [Hz Hr];
    [done|rewrite (wf_max _ Hwf); lia|rewrite (sh_pty _ _ (wf_shape _ Hwf)); unfold NPTY; lia|
     unfold NPTY; lia|done|by rewrite Hs1|by rewrite Hs2|done|].
  cbn [fst snd] in *. subst z. cbn.
  assert (Hr2 : r2 = f (set_seen_n (seen_n r2) (set_seen_r (seen_r r2) r1))).
  { destruct Hsb as (n' & c' & -> & _). cbn. by rewrite Hcomm. }
  rewrite Hr2. destruct Hm as [Hm1 Hm2 Hm3]. destruct Hr as [Hr1 Hr3 Hr4 Hr5].
  apply HQ; [|apply Hst|apply Hst|apply Hst].
  constructor; [|eapply same_but_seen_trans; [exact Hm2|]|by rewrite Hin].
  - rewrite map_app. eapply routed_trans; [exact Hm1|]. apply routed_pending.
    constructor; [done|cbn; congruence..|]. rewrite Hs1, Hs2 in Hr5. exact Hr5.
  - exists (seen_n r2), (seen_r r2). split; [done|]. split; congruence.
Qed.

(** A byte that goes on with [g]. *)
Lemma wp_mirror_next ok b f g fed h1 r1 l Q :
  mirrored h r fed h1 r1 → seen_blind f →
  (∀ h2 r2, mirrored h r (fed ++ [b]) h2 r2 →
     virtioso_pending_ctrl_type h2 = virtioso_pending_ctrl_type h1 →
     virtioso_registry_json h2 = virtioso_registry_json h1 →
     ∃ h3, feed_virtioso_byte E b (f r2) h2 = Done (0, g r2) h3 ∧
       wp ok (feed_all (feed_nvidia_outer_or_virtioso_raw E) l (g r2)) Q h3) →
  wp ok (feed_all (feed_nvidia_outer_or_virtioso_raw E) (b :: l) (f r1)) Q h1.
Proof using Hready Hraw.
  intros Hm Hf HQ. cbn [feed_all]. apply wp_bind. eapply wp_mirror_step; [done|done|].
  intros h2 r2 Hm2 Hp Hj _. destruct (HQ h2 r2 Hm2 Hp Hj) as (h3 & Hrun & Hwp).
  unfold wp. rewrite Hrun. exact Hwp.
Qed.

Lemma mirrored_synced fed h1 r1 : synced r → mirrored h r fed h1 r1 → synced r1.
Proof. by intros [? ?] [_ (n & c & -> & _) _]. Qed.

(** The body of a record. *)
Lemma wp_mirror_body ok next rest Q body :
  next = VIRTIOSO_CONTROL_REGISTRY_JSON ∨ next = VIRTIOSO_CONTROL_ANNOUNCE_PAYLOAD →
  body ≠ [] → ∀ pre fed h1 r1,
  (length (pre ++ body) ≤ Z.to_nat 0xffff)%nat → mirrored h r fed h1 r1 →
  (∀ h2 r2, mirrored h r (fed ++ body) h2 r2 →
     virtioso_pending_ctrl_type h2 = virtioso_pending_ctrl_type h1 →
     virtioso_registry_json h2 = virtioso_registry_json h1 →
     wp ok (let* (z, r') := body_done E next (with_body next (pre ++ body) r2) in
            if z <? 0 then ret (z, r')
            else feed_all (feed_nvidia_outer_or_virtioso_raw E) rest r') Q h2) →
  wp ok (feed_all (feed_nvidia_outer_or_virtioso_raw E) (body ++ rest)
           (in_body next pre (length body) r1)) Q h1.
Proof using Hready Hraw.
  intros Hnext. induction body as [|b body IH]; intros Hne pre fed h1 r1 Hlen Hm HQ; [done|].
  rewrite length_app in Hlen. cbn [length app] in *.
  destruct (decide (body = [])) as [->|Hbody].
  - cbn [app feed_all]. apply wp_bind.
    eapply (wp_mirror_step _ _ (in_body next pre 1)); [exact Hm|done|].
    intros h2 r2 Hm2 Hp Hj _. unfold wp at 1. cbn [length] in *.
    rewrite feed_body_byte by (done || lia). cbn [decide].
    rewrite decide_True by done.
    specialize (HQ h2 r2 Hm2 Hp Hj). unfold wp, bind in HQ.
    destruct (body_done E next (with_body next (pre ++ [b]) r2) h2) as [[z r'] h3|w h3]; exact HQ.
  - eapply (wp_mirror_next _ b (in_body next pre (S (length body)))
      (in_body next (pre ++ [b]) (length body))); [exact Hm|done|].
    intros h2 r2 Hm2 Hp Hj. exists h2. split.
    { rewrite feed_body_byte by (done || lia). by rewrite decide_False by (by destruct body). }
    eapply IH; [done|rewrite !length_app; cbn; lia|exact Hm2|].
    intros h3 r3 Hm3 Hp3 Hj3. rewrite <-app_assoc. apply HQ; [|congruence..].
    by rewrite <-app_assoc in Hm3.
Qed.

(** A whole record: every byte is copied, then the record is acted upon. *)
Lemma wp_mirror_record ok next ctrl body rest Q :
  alloc_ok E → synced r → body_ok body = true →
  (next = VIRTIOSO_CONTROL_REGISTRY_JSON ∧ ctrl = VCMUX_PROTO_CONTROL_STREAM_REGISTRY ∨
   next = VIRTIOSO_CONTROL_ANNOUNCE_PAYLOAD ∧
     (ctrl = VCMUX_PROTO_CONTROL_STREAM_CONNECTED ∨
      ctrl = VCMUX_PROTO_CONTROL_STREAM_DISCONNECTED)) →
  (∀ h2 r2, mirrored h r (control_record ctrl body) h2 r2 →
     virtioso_pending_ctrl_type h2 =
       (if next =? VIRTIOSO_CONTROL_REGISTRY_JSON then virtioso_pending_ctrl_type h else ctrl) →
     virtioso_registry_json h2 = virtioso_registry_json h →
     wp ok (let* (z, r') := body_done E next (with_body next body r2) in
            if z <? 0 then ret (z, r')
            else feed_all (feed_nvidia_outer_or_virtioso_raw E) rest r') Q h2) →
  wp ok (feed_all (feed_nvidia_outer_or_virtioso_raw E) (control_record ctrl body ++ rest) r) Q h.
Proof using Hready Hraw.
  intros Hok Hs Hb Hn HQ. unfold body_ok in Hb. z_bool.
  pose proof (control_length body ltac:(done)) as Hlen. cbv zeta in Hlen.
  unfold control_record in *. cbv zeta in *.
  set (hi := z2b (Z.land (Z.shiftr _ 8) _)) in *.
  set (lo := z2b (Z.land (Z.of_nat (length body)) 0xff)) in *.
  cbn [app] in *.
  apply (wp_mirror_next _ xfe id (set_in_escape true) [] h r _ Q (mirrored_refl h r)); [done|].
  intros h1 r1 Hm1 Hp1 Hj1. pose proof (mirrored_synced _ _ _ Hs Hm1) as Hs1.
  exists h1. split; [by apply feed_synced_esc|].
  eapply (wp_mirror_next _ xfd (set_in_escape true) (set_control_state VIRTIOSO_CONTROL_CMD));
    [exact Hm1|done|].
  intros h2 r2 Hm2 Hp2 Hj2. pose proof (mirrored_synced _ _ _ Hs Hm2) as Hs2.
  exists h2. split; [by rewrite feed_escaped|].
  set (g := λ x, set_control_state (next - 2) (set_control_registry_pos 0
    (set_control_registry_len 0 (set_control_state VIRTIOSO_CONTROL_CMD x)))).
  eapply (wp_mirror_next _ ctrl (set_control_state VIRTIOSO_CONTROL_CMD) g); [exact Hm2|done|].
  intros h3 r3 Hm3 Hp3 Hj3.
  set (v := if next =? VIRTIOSO_CONTROL_REGISTRY_JSON then virtioso_pending_ctrl_type h else ctrl) in *.
  exists (set_pending_ctrl_type v h3). split.
  { subst v. destruct Hn as [[-> ->]|[-> [-> | ->]]]; cbn; try done.
    rewrite <-Hp1, <-Hp2, <-Hp3. by rewrite set_pending_same. }
  apply (mirrored_pending _ _ _ _ _ v) in Hm3.
  set (g1 := λ x, set_control_state (next - 1) (set_control_registry_len (Z.shiftl (b2z hi) 8) (g x))).
  eapply (wp_mirror_next _ hi g g1); [exact Hm3|done|].
  intros h4 r4 Hm4 Hp4 Hj4. exists h4. split; [by destruct Hn as [[-> ->]|[-> ?]]|].
  eapply (wp_mirror_next _ lo g1 (in_body next [] (length body))); [exact Hm4|done|].
  intros h5 r5 Hm5 Hp5 Hj5.
  set (q := RqMalloc (Z.of_nat (length body) + 1)).
  exists (set_trace ((q, E (trace h5) q) :: trace h5) h5). split.
  { rewrite <-(in_body_idem next [] (length body) r5 (g1 r5)) by done.
    transitivity (control_len_lo E lo next (g1 r5) h5);
      [destruct Hn as [[-> ->]|[-> ?]]; done|].
    by rewrite (control_len_lo_run E hi lo body) by done. }
  eapply wp_mirror_body; [destruct Hn as [[? _]|[? _]]; auto|by destruct body
    |cbn; lia|apply mirrored_malloc; exact Hm5|].
  intros h6 r6 Hm6 Hp6 Hj6. apply HQ; [|cbn in *; congruence..].
  cbn in Hm6. exact Hm6.
Qed.
End Records.
