(* ===== verification/Fds.v ===== *)
(** * Descriptors

    Every channel has a descriptor of its own.  The operating system promises
    that [open] and [posix_openpt] return a descriptor that is not open; the
    program's part is never to close, or use for two channels, a descriptor
    it still holds.  [fds] is the invariant, [preserves] the way through the
    code, and every operation of the demultiplexer and of start-up keeps it. *)

From S2P Require Import Prelude Proto CString Json HostState HostIo Flush Registry RegistryInv Tty Startup TtySpec StartupInv Demux DemuxInv Route.
From Stdlib Require Import Ascii.

(* ------------------------------------------------------------------ *)
(** ** Open descriptors *)

Definition opens_fd (rq : sysreq) : bool :=
  match rq with RqOpenpt | RqOpen _ _ => true | _ => false end.

(** Is [fd] open after the calls [tr]?  The standard descriptors are from the
    start. *)
Fixpoint is_open (fd : Z) (tr : history) : bool :=
  match tr with
  | [] => (0 <=? fd) && (fd <=? 2)
  | (RqClose fd', _) :: tr' => negb (fd' =? fd) && is_open fd tr'
  | (rq, r) :: tr' => (opens_fd rq && (0 <=? fd) && (res r =? fd)) || is_open fd tr'
  end.

(** The answers of a history are the environment's. *)
Fixpoint produced (E : env) (tr : history) : Prop :=
  match tr with
  | [] => True
  | (rq, r) :: tr' => r = E tr' rq ∧ produced E tr'
  end.

(** The operating system's promises about descriptors: a new one is not
    open, and [logs] tells those of log files, to which writes succeed, from
    the PTYs', where they at most fail softly. *)
Record good_fds (E : env) (logs : Z → bool) : Prop := GoodFds {
  gf_fresh : ∀ tr rq, produced E tr → opens_fd rq = true →
    0 ≤ res (E tr rq) → is_open (res (E tr rq)) tr = false;
  gf_zero : logs 0 = true;
  gf_log : ∀ tr path, 0 ≤ res (E tr (RqOpen path OpenLog)) →
    logs (res (E tr (RqOpen path OpenLog))) = true;
  gf_write_log : ∀ fd tr d, logs fd = true → 0 ≤ res (E tr (RqWrite fd d));
  gf_write : ∀ fd tr d, soft_result (E tr (RqWrite fd d))
}.

(** The descriptors the host holds besides its channels': the UART, the raw
    log, and 0, which [calloc] leaves in the entries not in use. *)
Definition held (h : host) : list Z := 0 :: filter (λ fd, 0 < fd) [tty_fd h; tty_log_fd h].

(** The first [n] entries have open descriptors of their own, and no entry
    has one of [K]; threads were started for entries that exist. *)
Record fds (E : env) (logs : Z → bool) (K : list Z) (n : Z) (tr : history)
    (l : list thread_data) : Prop := Fds {
  fd_produced : produced E tr;
  fd_keep : ∀ fd, fd ∈ K → is_open fd tr = true;
  fd_nodup : NoDup K;
  fd_kept : ∀ p fd, p ∈ l → fd ∈ K → fd = td_fd p ∨ fd = td_log_fd p → fd = 0;
  fd_live : ∀ i p, Z.of_nat i < n → l !! i = Some p → td_fd p ≠ 0;
  fd_threads : Forall (λ i, -1 ≤ i < Z.of_nat (length l)) (spawned tr);
  fd_open : ∀ p, p ∈ l → is_open (td_fd p) tr = true;
  fd_logs : ∀ p, p ∈ l → 0 ≤ td_log_fd p → is_open (td_log_fd p) tr = true ∧ logs (td_log_fd p) = true;
  fd_distinct : ∀ i j p q, Z.of_nat i < n → l !! i = Some p → l !! j = Some q →
    td_fd p = td_fd q → i = j;
  fd_apart : ∀ i p q, Z.of_nat i < n → l !! i = Some p → q ∈ l → td_fd p ≠ td_log_fd q
}.

(** Nothing uses [fd]. *)
Definition unused (fd : Z) (K : list Z) (l : list thread_data) : Prop :=
  (fd ∉ K) ∧ ∀ p, p ∈ l → td_fd p ≠ fd ∧ td_log_fd p ≠ fd.

(* ------------------------------------------------------------------ *)
(** ** Lemmas: descriptors *)

Section Fds.
Context (E : env) (logs : Z → bool).
Hypothesis (Henv : good_fds E logs).

(** A call that neither closes a descriptor nor starts a thread. *)
Definition calm (rq : sysreq) : bool :=
  match rq with RqClose _ | RqThread _ => false | _ => true end.

Lemma calm_not_close rq : calm rq = true → not_close rq = true.
Proof. by destruct rq. Qed.

Lemma is_open_call fd rq r tr : not_close rq = true → is_open fd tr = true → is_open fd ((rq, r) :: tr) = true.
Proof.
  intros Hc Ho. by destruct rq; cbn; rewrite ?Ho, ?orb_true_r.
Qed.

Lemma is_open_calm fd rq r tr : calm rq = true → is_open fd tr = true → is_open fd ((rq, r) :: tr) = true.
Proof. intros Hc%calm_not_close. by apply is_open_call. Qed.

Lemma is_open_close fd fd' r tr : fd' ≠ fd → is_open fd ((RqClose fd', r) :: tr) = is_open fd tr.
Proof. intros Hne. cbn. by rewrite (proj2 (Z.eqb_neq _ _)). Qed.

Lemma is_open_new rq r tr :
  opens_fd rq = true → 0 ≤ res r → is_open (res r) ((rq, r) :: tr) = true.
Proof. intros Ho Hr%Z.leb_le. destruct rq; cbn in *; by rewrite ?Z.eqb_refl, ?Hr. Qed.

Lemma is_open_nonneg fd tr : is_open fd tr = true → 0 ≤ fd.
Proof.
  induction tr as [|[rq r] tr IH]; intros H; [cbn in H; by z_bool|].
  destruct rq; cbn in H; try (by apply IH); try (apply orb_prop in H as [H|H]; [by z_bool|by apply IH]).
  apply andb_prop in H as [_ H]. by apply IH.
Qed.

Lemma spawned_call rq r tr : calm rq = true → spawned ((rq, r) :: tr) = spawned tr.
Proof. by destruct rq. Qed.

Section Descriptors.
Context (K : list Z).

Lemma fds_call n tr l rq : calm rq = true → fds E logs K n tr l → fds E logs K n ((rq, E tr rq) :: tr) l.
Proof using.
  intros Hc []. pose proof (calm_not_close _ Hc).
  constructor; try done; [intros; by apply is_open_call, fd_keep0|by rewrite spawned_call|
    intros; by apply is_open_call, fd_open0|].
  intros p Hp Hl. destruct (fd_logs0 p Hp Hl). split; [by apply is_open_call|done].
Qed.

Lemma fds_thread n tr l i :
  -1 ≤ i < Z.of_nat (length l) → fds E logs K n tr l →
  fds E logs K n ((RqThread i, E tr (RqThread i)) :: tr) l.
Proof using.
  intros Hi []. constructor; try done. cbn [spawned]. apply Forall_app. split; [done|].
  case_match; [by apply Forall_singleton|by apply Forall_nil].
Qed.

Lemma fds_close n tr l fd r :
  r = E tr (RqClose fd) → unused fd K l → fds E logs K n tr l → fds E logs K n ((RqClose fd, r) :: tr) l.
Proof using.
  intros -> [Hz Hu] []. constructor; try done.
  - intros fd' Hk. rewrite is_open_close by congruence. by apply fd_keep0.
  - intros p Hp. destruct (Hu p Hp). rewrite is_open_close by congruence. by apply fd_open0.
  - intros p Hp Hl. destruct (Hu p Hp). rewrite is_open_close by congruence. by apply fd_logs0.
Qed.

(** A descriptor that is not open is not in use. *)
Lemma fds_unused n tr l fd : fds E logs K n tr l → 0 ≤ fd → is_open fd tr = false → unused fd K l.
Proof using.
  intros [] Hf Hn. split; [intros Hk%fd_keep0; congruence|]. intros p Hp. split; intros <-.
  - specialize (fd_open0 p Hp). congruence.
  - destruct (fd_logs0 p Hp Hf). congruence.
Qed.

Lemma fds_fresh n tr l rq :
  fds E logs K n tr l → opens_fd rq = true → 0 ≤ res (E tr rq) → unused (res (E tr rq)) K l.
Proof using Henv.
  intros Hf Ho Hr. eapply fds_unused; [done..|]. apply (gf_fresh _ _ Henv); try done. apply Hf.
Qed.

(** A descriptor is given up, or taken over. *)
Lemma fds_release K' n tr l : K' ⊆ K → NoDup K' → fds E logs K n tr l → fds E logs K' n tr l.
Proof using.
  intros Hs Hd []. constructor; try done; [by intros fd Hk%Hs; auto|].
  intros p fd Hp Hk%Hs. by apply fd_kept0.
Qed.

Lemma fds_hold n tr l fd :
  is_open fd tr = true → unused fd K l → fds E logs K n tr l → fds E logs (fd :: K) n tr l.
Proof using.
  intros Ho [Hn Hu] []. constructor; try done.
  - intros fd' [->|Hk]%elem_of_cons; auto.
  - by constructor.
  - intros p fd' Hp [->|Hk]%elem_of_cons Hor; [|by eapply fd_kept0].
    destruct (Hu p Hp). by destruct Hor.
Qed.

(** A descriptor the host holds is nobody else's. *)
Lemma fds_held n tr l fd K' :
  fds E logs K n tr l → fd ∈ K → fd ≠ 0 → fd ∉ K' → unused fd K' l.
Proof using.
  intros [] Hk Hz Hn. split; [done|]. intros p Hp. split; intros Heq; apply Hz; eapply fd_kept0; eauto.
Qed.

Lemma fds_mono n m tr l : m ≤ n → fds E logs K n tr l → fds E logs K m tr l.
Proof using.
  intros Hm []. constructor; try done.
  - intros i p Hi. apply fd_live0. lia.
  - intros i j p q Hi. apply fd_distinct0. lia.
  - intros i p q Hi. apply fd_apart0. lia.
Qed.

(** Entry [n] gets a descriptor nobody uses, and perhaps a log file's. *)
Lemma fds_insert n tr l p :
  0 ≤ n → 0 ∈ K → fds E logs K n tr l → is_open (td_fd p) tr = true → unused (td_fd p) K l →
  td_log_fd p ≠ td_fd p →
  (0 ≤ td_log_fd p → is_open (td_log_fd p) tr = true ∧ logs (td_log_fd p) = true ∧
     unused (td_log_fd p) K l) →
  fds E logs K (n + 1) tr (<[Z.to_nat n := p]> l).
Proof using.
  intros Hn0 H0 [] Ho [Hz Hu] Hne Hl. set (l' := <[_ := p]> l).
  assert (Hat : ∀ j q, l' !! j = Some q → (j = Z.to_nat n ∧ q = p) ∨ (j ≠ Z.to_nat n ∧ l !! j = Some q)).
  { intros j q Hj. destruct (decide (j = Z.to_nat n)) as [->|Hjn].
    - left. destruct (decide (Z.to_nat n < length l)%nat) as [Hlt|Hge].
      + subst l'. rewrite list_lookup_insert_eq in Hj by done. by simplify_eq.
      + subst l'. rewrite list_insert_ge in Hj by lia. apply lookup_lt_Some in Hj. lia.
    - subst l'. rewrite list_lookup_insert_ne in Hj by done. by right. }
  assert (Hin : ∀ q, q ∈ l' → q = p ∨ q ∈ l).
  { intros q [j Hj]%list_elem_of_lookup. destruct (Hat j q Hj) as [[_ ->]|[_ ?]]; [by left|right].
    by eapply list_elem_of_lookup_2. }
  constructor; try done; [| |by unfold l'; rewrite length_insert|..].
  - intros q fd [->|Hq]%Hin Hk Hor; [|by eapply fd_kept0]. destruct Hor as [->| ->]; [done|].
    pose proof (is_open_nonneg _ _ (fd_keep0 _ Hk)) as Hf. by destruct (Hl Hf) as (_ & _ & ? & _).
  - intros i q Hi Hq. destruct (Hat _ _ Hq) as [[-> ->]|[Hni Hq']]; [congruence|].
    apply (fd_live0 i q); (done || lia).
  - intros q [->|Hq]%Hin; auto.
  - intros q [->|Hq]%Hin; [|by auto]. intros Hq. by destruct (Hl Hq) as (? & ? & _).
  - intros i j q u Hi Hq Hu' Heq.
    destruct (Hat _ _ Hq) as [[-> ->]|[Hni Hq']], (Hat _ _ Hu') as [[-> ->]|[Hnj Hu'']]; try done.
    + apply list_elem_of_lookup_2, Hu in Hu'' as [? _]. congruence.
    + apply list_elem_of_lookup_2, Hu in Hq' as [? _]. congruence.
    + eapply fd_distinct0; (done || lia).
  - intros i q u Hi Hq [->|Hu']%Hin.
    + destruct (Hat _ _ Hq) as [[-> ->]|[Hni Hq']]; [congruence|]. intros Heq.
      apply list_elem_of_lookup_2 in Hq' as Hq2.
      pose proof (is_open_nonneg _ _ (fd_open0 q Hq2)) as Hf. rewrite Heq in Hf.
      destruct (Hl Hf) as (_ & _ & _ & Hu2). by destruct (Hu2 q Hq2).
    + destruct (Hat _ _ Hq) as [[-> ->]|[Hni Hq']].
      * destruct (Hu u Hu') as [_ ?]. congruence.
      * eapply fd_apart0; [|done..]. lia.
Qed.

End Descriptors.

(* ------------------------------------------------------------------ *)
(** ** Lemmas: through the code *)

Definition fds_ok (n : Z) (h : host) : Prop := fds E logs (held h) n (trace h) (pty_data h).

#[export] Instance fds_ok_blind n : call_blind E calm (fds_ok n).
Proof. intros h rq Hc Hf. by apply fds_call. Qed.

(** The invariant of a running host: its entries in use. *)
Definition own (h : host) : Prop := fds_ok (num_proc h) h.

#[export] Instance own_blind : call_blind E calm own.
Proof. intros h rq Hc Hf. by apply fds_call. Qed.

(** *** Delivering a byte *)

(** Changing [last_ch] only. *)
Lemma fds_last_ch K n tr l i p c :
  l !! i = Some p → fds E logs K n tr l →
  fds E logs K n tr (<[i := ThreadData (td_fd p) (td_log_fd p) (td_id p) (td_device_name p) c]> l).
Proof.
  intros Hi []. set (p' := ThreadData _ _ _ _ _). set (l' := <[_ := _]> l).
  assert (Hat : ∀ j q, l' !! j = Some q →
    ∃ q', l !! j = Some q' ∧ td_fd q' = td_fd q ∧ td_log_fd q' = td_log_fd q).
  { intros j q Hj. destruct (decide (j = i)) as [->|Hji]; subst l'.
    - rewrite list_lookup_insert_eq in Hj by (by eapply lookup_lt_Some). simplify_eq. by exists p.
    - rewrite list_lookup_insert_ne in Hj by done. by exists q. }
  assert (Hin : ∀ q, q ∈ l' → ∃ q', q' ∈ l ∧ td_fd q' = td_fd q ∧ td_log_fd q' = td_log_fd q).
  { intros q [j Hj]%list_elem_of_lookup. destruct (Hat j q Hj) as (q' & ? & ?).
    exists q'. split; [by eapply list_elem_of_lookup_2|done]. }
  constructor; try done; [| |by unfold l'; rewrite length_insert|..].
  - intros q fd Hq Hk. destruct (Hin _ Hq) as (q' & ? & <- & <-). eauto.
  - intros j q Hj Hq. destruct (Hat _ _ Hq) as (q' & ? & <- & _). eauto.
  - intros q Hq. destruct (Hin q Hq) as (q' & ? & <- & _). auto.
  - intros q Hq. destruct (Hin q Hq) as (q' & ? & _ & <-). auto.
  - intros j k q u Hj Hq Hu Heq. destruct (Hat _ _ Hq) as (q' & ? & Hq' & _), (Hat _ _ Hu) as (u' & ? & Hu' & _).
    eapply fd_distinct0; (done || congruence).
  - intros j q u Hj Hq Hu. destruct (Hat _ _ Hq) as (q' & ? & <- & _), (Hin _ Hu) as (u' & ? & _ & <-). eauto.
Qed.

Lemma preserves_last_ch (I : host → Prop) i ch :
  (∀ h j p, I h → pty_data h !! j = Some p →
     I (set_pty_data (<[j := ThreadData (td_fd p) (td_log_fd p) (td_id p) (td_device_name p) ch]>
          (pty_data h)) h)) →
  preserves I (set_last_ch i ch).
Proof.
  intros HI h Hh. unfold set_last_ch. apply wp_bind, wp_get, wp_bind.
  unfold arr_get at 1. destruct (i <? 0); [done|].
  destruct (pty_data h !! Z.to_nat i) as [p|] eqn:Hp; [|done].
  apply wp_ret, wp_bind. unfold arr_set. case_match; [done|]. apply wp_ret, wp_modify. by apply HI.
Qed.

(** *** Opening a PTY *)

(** The invariant while the table is being changed: [n] entries have their
    descriptors, and [num_proc] is [k]. *)
Definition building (n k : Z) (h : host) : Prop := fds_ok n h ∧ num_proc h = k.

#[export] Instance building_blind n k : call_blind E calm (building n k).
Proof. intros h rq Hc [Hf Hk]. split; [by apply fds_call|done]. Qed.

Lemma preserves_emit I i name : call_blind E calm I → preserves I (emit_pty_session_record E i name).
Proof. intros Hb. unfold emit_pty_session_record. preserve. Qed.

(** The same, and index [i] may be given a thread. *)
Definition startable (i n k : Z) (h : host) : Prop :=
  building n k h ∧ -1 ≤ i < Z.of_nat (length (pty_data h)).

#[export] Instance startable_blind i n k : call_blind E calm (startable i n k).
Proof. intros h rq Hc [Hb Hi]. split; [exact (building_blind n k h rq Hc Hb)|done]. Qed.

Lemma preserves_thread i n k : preserves (startable i n k) (create_thread_with_stack E i).
Proof using.
  pose proof (startable_blind i n k). unfold create_thread_with_stack. preserve.
  intros h1 [[Hf Hk] Hl]. apply wp_sys. intros r ->.
  split; [split; [by apply fds_thread|done]|done].
Qed.

(** The log file of a PTY whose descriptor is [fd]. *)
Definition with_log (n k fd : Z) (log_fd : Z) (h : host) : Prop :=
  building n k h ∧ is_open fd (trace h) = true ∧ unused fd (held h) (pty_data h) ∧ log_fd ≠ fd ∧
  (0 ≤ log_fd → is_open log_fd (trace h) = true ∧ logs log_fd = true ∧ unused log_fd (held h) (pty_data h)).

Lemma with_log_call n k fd log_fd h rq :
  calm rq = true → with_log n k fd log_fd h →
  with_log n k fd log_fd (set_trace ((rq, E (trace h) rq) :: trace h) h).
Proof.
  intros Hc (Hb & Ho & Hu & Hne & Hl). split_and!; [by apply building_blind|by apply is_open_calm|done..|].
  intros H0. destruct (Hl H0) as (? & ? & ?). by split_and!; [apply is_open_calm|..].
Qed.

Lemma wp_open_log n k fd name h :
  building n k h → is_open fd (trace h) = true → unused fd (held h) (pty_data h) →
  wp partial (match save_output_path (cfg h) with
              | Some path => r <- sys E (RqOpen (savefile path name) OpenLog) ;; ret (res r)
              | None => ret (-1)
              end) (with_log n k fd) h.
Proof using Henv.
  intros Hb Ho Hu. destruct (save_output_path (cfg h)) as [path|].
  - apply wp_bind, wp_sys. intros r ->. apply wp_ret.
    set (rq := RqOpen _ _). set (r := E (trace h) rq). assert (Hc : calm rq = true) by done.
    split_and!; [by apply building_blind|by apply is_open_calm|done|..].
    + intros Heq. pose proof (is_open_nonneg _ _ Ho) as H0. rewrite <-Heq in H0.
      pose proof (gf_fresh _ _ Henv (trace h) rq (fd_produced _ _ _ _ _ _ (proj1 Hb)) eq_refl H0) as Hn.
      fold r in Hn. congruence.
    + intros H0. split_and!; [by apply (is_open_new rq)|by apply (gf_log _ _ Henv)|].
      by apply (fds_fresh (held h) n (trace h)); [apply Hb|..].
  - apply wp_ret. split_and!; [done..| |lia]. pose proof (is_open_nonneg _ _ Ho). lia.
Qed.

(** Entry [n] is filled in. *)
Lemma with_log_insert n k fd log_fd h p :
  0 ≤ n → with_log n k fd log_fd h → td_fd p = fd → td_log_fd p = log_fd →
  building (n + 1) k (set_pty_data (<[Z.to_nat n := p]> (pty_data h)) h).
Proof.
  intros Hn ([Hf Hk] & Ho & Hu & Hne & Hl) <- <-. split; [|done]. apply fds_insert; try done. by left.
Qed.

Definition pty_post (n k z : Z) (h : host) : Prop := building (if z =? 0 then n + 1 else n) k h.

Lemma building_mono n m k h : m ≤ n → building n k h → building m k h.
Proof. intros Hm [Hf Hk]. split; [|done]. by eapply fds_mono. Qed.

(** A descriptor that was just opened is closed again. *)
Lemma building_close n k h fd :
  building n k h → unused fd (held h) (pty_data h) →
  building n k (set_trace ((RqClose fd, E (trace h) (RqClose fd)) :: trace h) h).
Proof. intros [Hf Hk] Hu. split; [by eapply fds_close|done]. Qed.

(** The second half: the slave side, the session record, the thread. *)
Lemma wp_pty_slave n k i name dev b h :
  startable i (n + 1) k h →
  wp partial (slave <- sys E (RqOpen dev OpenSlave) ;;
    if res slave <? 0 then ret (-1)
    else
    sys E (RqRawMode (res slave)) ;;;
    sys E (RqClose (res slave)) ;;;
    emit_pty_session_record E i name ;;;
    if b : bool then
      t <- create_thread_with_stack E i ;;
      ret (if negb (t =? 0) then -1 else 0)
    else ret 0) (pty_post n k) h.
Proof using Henv.
  intros Hb. apply wp_bind, wp_sys. intros r ->. set (rq := RqOpen _ _).
  pose proof (startable_blind _ _ _ h rq ltac:(done) Hb) as Hb1.
  destruct (res (E (trace h) rq) <? 0) eqn:Hr; z_bool.
  { apply wp_ret. apply (building_mono (n + 1) n); [lia|apply Hb1]. }
  assert (Hu : unused (res (E (trace h) rq)) (held h) (pty_data h))
    by by apply (fds_fresh (held h) (n + 1)); [apply Hb|..].
  set (h1 := set_trace _ h) in *. change (held h) with (held h1) in Hu.
  change (pty_data h) with (pty_data h1) in Hu.
  apply wp_bind, wp_sys. intros r ->. apply wp_bind, wp_sys. intros r ->.
  set (h2 := set_trace _ (set_trace _ h1)).
  assert (Hb2 : startable i (n + 1) k h2).
  { destruct Hb1 as [Hb1 Hi]. split; [|done]. by apply building_close; [apply building_blind|]. }
  clearbody h2. apply wp_bind.
  eapply wp_mono; [by apply (preserves_emit _ i name (startable_blind i (n + 1) k))|].
  intros u h3 Hb3. cbv beta in Hb3. destruct b; [|by apply wp_ret; apply Hb3].
  apply wp_bind. eapply wp_mono; [by apply (preserves_thread i (n + 1) k)|].
  intros t h4 Hb4. cbv beta in Hb4. apply wp_ret. unfold pty_post. destruct (t =? 0); [apply Hb4|].
  apply (building_mono (n + 1) n); [lia|apply Hb4].
Qed.

Lemma wp_create_pty_fds n k name b h :
  building n k h → wp partial (create_pty_at_index E n name b) (pty_post n k) h.
Proof using Henv.
  intros Hb. unfold create_pty_at_index. apply wp_bind, wp_get.
  destruct (_ || _) eqn:Hn; [by apply wp_ret|]. z_bool.
  apply wp_bind, wp_sys. intros r ->. cbv zeta. set (fd := res _).
  pose proof (building_blind _ _ h RqOpenpt ltac:(done) Hb) as Hb1.
  destruct (fd <? 0) eqn:Hr; z_bool; [by apply wp_ret|].
  assert (Hu : unused fd (held h) (pty_data h)) by by apply (fds_fresh (held h) n); [apply Hb|..].
  assert (Ho : is_open fd ((RqOpenpt, E (trace h) RqOpenpt) :: trace h) = true) by by apply is_open_new.
  set (h1 := set_trace _ h) in *. change (held h) with (held h1) in Hu. change (pty_data h) with (pty_data h1) in Hu.
  change (_ :: trace h) with (trace h1) in Ho. change (cfg h) with (cfg h1). clearbody h1 fd.
  apply wp_bind, wp_sys. intros g ->.
  destruct (negb _).
  { apply wp_bind, wp_sys. intros c ->. apply wp_ret. by apply building_close; [apply building_blind|]. }
  apply wp_bind, wp_sys. intros u ->. destruct (negb _).
  { apply wp_bind, wp_sys. intros c ->. apply wp_ret.
    by apply building_close; [do 2 (apply building_blind; [done|])|]. }
  set (h2 := set_trace _ (set_trace _ h1)). change (cfg h1) with (cfg h2).
  apply wp_bind. eapply wp_mono.
  { apply (wp_open_log n k fd); [by do 2 (apply building_blind; [done|])|by do 2 (apply is_open_calm; [done|])|done]. }
  intros log_fd h3 Hlog. apply wp_bind, wp_sys. intros pn ->.
  apply (with_log_call _ _ _ _ _ (RqPtsname fd DEVICE_NAME_SIZE)) in Hlog; [|done].
  set (h4 := set_trace _ h3) in *. clearbody h4.
  apply wp_bind, wp_get, wp_bind. unfold arr_get. destruct (n <? 0); [done|].
  destruct (pty_data h4 !! Z.to_nat n) as [old|]; [|done]. apply wp_ret. cbv zeta. apply wp_bind.
  unfold arr_set. destruct (_ || _) eqn:Hlen; [done|]. z_bool. apply wp_ret, wp_bind, wp_modify.
  apply wp_pty_slave. split; [by eapply with_log_insert|]. cbn. rewrite length_insert. lia.
Qed.

(** *** The stream table *)

(** *** What only calls and changes the table *)

Lemma preserves_xstrndup I l : call_blind E calm I → preserves I (xstrndup E l).
Proof. intros Hb. unfold xstrndup. preserve. Qed.

Lemma preserves_duplicate I n l i id name : preserves I (duplicate_stream n l i id name).
Proof.
  revert i. induction n as [|n IH]; intros i; cbn [duplicate_stream]; preserve.
Qed.

Lemma preserves_append I l n c id name :
  call_blind E calm I → preserves I (append_virtioso_stream E l n c id name).
Proof.
  intros Hb. pose proof preserves_duplicate I. unfold append_virtioso_stream. preserve.
Qed.

Lemma preserves_loop n k fuel s pos stop c :
  preserves (building n k) (registry_loop E fuel s pos stop c).
Proof.
  pose proof (building_blind n k) as Hb. revert pos c.
  induction fuel as [|fuel IH]; intros pos c; cbn [registry_loop]; [apply preserves_halt|].
  pose proof (λ l, preserves_xstrndup _ l Hb). pose proof (λ l n c id nm, preserves_append _ l n c id nm Hb).
  preserve.
Qed.

Lemma preserves_clear n k m i : preserves (building n k) (clear_tags m i).
Proof. revert i. induction m as [|m IH]; intros i; cbn [clear_tags]; preserve. Qed.

Lemma wp_create_ptys_fds m n k h :
  building n k h →
  wp partial (create_ptys E m n) (λ r h', building (if r : bool then n + Z.of_nat m else n) k h') h.
Proof using Henv.
  revert n h. induction m as [|m IH]; intros n h Hb; cbn [create_ptys].
  { apply wp_ret. by replace (n + Z.of_nat 0) with n by lia. }
  apply wp_bind, wp_get, wp_bind. eapply wp_mono; [by apply preserves_arr_get|].
  intros t h1 Hb1. apply wp_bind. eapply wp_mono; [by apply preserves_arr_get|]. intros inp h2 Hb2.
  cbv beta in *. destruct (tag_name t) as [name|]; [|done].
  apply wp_bind. eapply wp_mono; [by apply wp_create_pty_fds|]. intros z h3 Hb3. unfold pty_post in Hb3.
  destruct (z =? 0); cbn [negb].
  - apply wp_bind, wp_modify. eapply wp_mono; [by apply IH|]. intros [] h4 Hb4.
    + by replace (n + Z.of_nat (S m)) with (n + 1 + Z.of_nat m) by lia.
    + apply (building_mono (n + 1) n); [lia|done].
  - by apply wp_ret.
Qed.

Lemma own_building h : own h ↔ building (num_proc h) (num_proc h) h.
Proof. unfold own, building. tauto. Qed.

Lemma wp_registry_fail_fds b n k h :
  building b k h → wp partial (registry_fail b n) (λ _, own) h.
Proof.
  intros Hb. unfold registry_fail. apply wp_bind. eapply wp_mono; [by apply preserves_clear|].
  intros u h1 [Hf _]. by repeat (apply wp_bind, wp_modify).
Qed.

Lemma preserves_apply_registry json : preserves own (apply_virtioso_registry_json E json).
Proof using Henv.
  intros h Hown%own_building. unfold apply_virtioso_registry_json.
  destruct json as [buf|]; [|by apply wp_ret, own_building].
  apply wp_bind, wp_get. cbv zeta.
  destruct (json_find_array_after _ _ _) as [[a b]|]; [|by apply wp_ret, own_building].
  apply wp_bind. eapply wp_mono; [by apply preserves_loop|]. intros [f c] h1 Hb1. cbv beta in Hb1.
  set (n := num_proc h) in *. destruct (f || _); [by eapply wp_registry_fail_fds|].
  apply wp_bind, wp_modify, wp_bind, wp_modify, wp_bind.
  eapply wp_mono; [apply (wp_create_ptys_fds _ n c); split; [apply Hb1|done]|].
  intros [] h2 Hb2; [|by eapply wp_registry_fail_fds].
  apply wp_ret. destruct Hb2 as [Hf <-]. eapply fds_mono; [|exact Hf]. lia.
Qed.

Lemma preserves_apply_connected sid name :
  preserves own (apply_virtioso_stream_connected E sid name).
Proof using Henv.
  intros h Hown%own_building. unfold apply_virtioso_stream_connected, find_virtioso_pty_idx_by_stream_id.
  set (n := num_proc h) in *. apply wp_bind, wp_bind, wp_get.
  destruct (_ <? _); [done|]. apply wp_ret. destruct (0 <=? _); [by apply wp_ret, own_building|].
  apply wp_bind, wp_get. destruct (_ <=? num_proc h); [by apply wp_ret, own_building|]. cbv zeta.
  apply wp_bind. eapply wp_mono; [by apply (preserves_xstrndup _ _ (building_blind n n))|].
  intros [nm|] h1 Hb1; [|by apply wp_ret; destruct Hb1 as [? <-]]. fold n. cbv beta in Hb1.
  apply wp_bind. eapply wp_mono; [by apply preserves_arr_set|]. intros l h2 Hb2. cbv beta in Hb2.
  apply wp_bind, wp_modify, wp_bind. eapply wp_mono; [by apply (preserves_arr_set (building n n))|].
  intros l2 h3 Hb3. cbv beta in Hb3. do 3 apply wp_bind, wp_modify.
  apply wp_bind. eapply wp_mono; [apply (wp_create_pty_fds n (n + 1)); split; [apply Hb3|done]|].
  intros z h4 Hb4. unfold pty_post in Hb4. destruct (z =? 0); cbn [negb].
  - apply wp_ret. by destruct Hb4 as [? Hn]; unfold own; rewrite Hn.
  - apply wp_bind, wp_get, wp_bind. eapply wp_mono; [by apply preserves_arr_set|].
    intros l3 h5 Hb5. cbv beta in Hb5. apply wp_bind, wp_modify, wp_bind, wp_modify, wp_modify.
    apply Hb5.
Qed.

(** *** Delivering and feeding *)

Lemma own_last_ch i ch : preserves own (set_last_ch i ch).
Proof.
  apply preserves_last_ch. intros h j p Hf Hp. by apply fds_last_ch.
Qed.

Lemma own_deliver i b r : preserves own (deliver E i b r).
Proof.
  pose proof own_blind as Hb. pose proof own_last_ch as Hl.
  assert (Hts : ∀ n, preserves own (get_timestamp E n)) by (intros n; unfold get_timestamp; preserve).
  assert (Hft : ∀ j c, preserves own (flush_timestamp E j c)) by (intros j c; unfold flush_timestamp; preserve).
  assert (Hfl : ∀ j c, preserves own (flush_log E j c)) by (intros j c; unfold flush_log; preserve).
  assert (Hfs : ∀ fd j c, preserves own (flush_stream E fd j c)) by (intros fd j c; unfold flush_stream; preserve).
  assert (Hp : ∀ fd j c n r, preserves own (patch2flush_stream E fd j c n r))
    by (intros fd j c n r'; unfold patch2flush_stream; preserve).
  unfold deliver. preserve.
Qed.

Lemma own_feed_control b r : preserves own (feed_control E b r).
Proof using Henv.
  pose proof own_blind. apply preserves_feed_control; try done.
  - intros h rq Hc. by apply own_blind; destruct rq.
  - unfold emit_virtioso_registry_record. preserve.
  - exact preserves_apply_registry.
  - exact preserves_apply_connected.
Qed.

Lemma own_feed b r : preserves own (feed_nvidia_outer_or_virtioso_raw E b r).
Proof using Henv. apply preserves_feed; [exact own_deliver|exact own_feed_control]. Qed.

Lemma own_feed_all l r : preserves own (feed_all (feed_nvidia_outer_or_virtioso_raw E) l r).
Proof using Henv.
  revert r. induction l as [|b l IH]; intros r; cbn [feed_all]; [apply preserves_ret|].
  apply preserves_bind; [apply own_feed|]. intros [z r']. preserve.
Qed.

(** *** Opening the UART *)

(** The first [n] entries, the descriptors [K] and [fd], if it is one, are
    all different. *)
Definition spare (K : list Z) (n fd : Z) (h : host) : Prop :=
  fds E logs K n (trace h) (pty_data h) ∧
  (0 ≤ fd → is_open fd (trace h) = true ∧ unused fd K (pty_data h)).

#[export] Instance spare_blind K n fd : call_blind E calm (spare K n fd).
Proof.
  intros h rq Hc [Hf Ho]. split; [by apply fds_call|]. intros H0. destruct (Ho H0).
  split; [by apply is_open_calm|done].
Qed.

Lemma wp_spare_open K n path m Q h :
  spare K n (-1) h →
  (∀ r h', spare K n (res r) h' → Q r h') →
  wp partial (sys E (RqOpen path m)) Q h.
Proof using Henv.
  intros [Hf _] HQ. apply wp_sys. intros r ->. apply HQ. set (rq := RqOpen path m).
  split; [by apply fds_call|]. intros H0. split; [by apply (is_open_new rq)|].
  by apply (fds_fresh K n (trace h)).
Qed.

Lemma wp_spare_close K n fd Q h :
  spare K n fd h → 0 ≤ fd → (∀ r h', spare K n (-1) h' → Q r h') → wp partial (sys E (RqClose fd)) Q h.
Proof using.
  intros [Hf Ho] H0 HQ. apply wp_sys. intros r ->. apply HQ. destruct (Ho H0).
  split; [by eapply fds_close|lia].
Qed.

Lemma spare_none K n fd fd' h : fd' < 0 → spare K n fd h → spare K n fd' h.
Proof using. intros Hn [Hf _]. split; [done|lia]. Qed.

Lemma wp_spare_retry K n path m h :
  spare K n (-1) h → wp partial (open_retry E path m) (λ p, spare K n p.1) h.
Proof using Henv.
  revert h. induction m as [|m IH]; intros h Hs; cbn [open_retry]; apply wp_bind;
    (apply (wp_spare_open K n); [done|]); intros r h1 H1;
    destruct (0 <=? res r) eqn:Hr; z_bool; try by apply wp_ret.
  apply wp_bind, wp_sys. intros r' ->. apply IH. apply spare_blind; [done|].
  by apply (spare_none _ _ (res r)).
Qed.

Lemma wp_spare_lock K n path m fd retries h :
  spare K n fd h → 0 ≤ fd → wp partial (lock_retry E path m fd retries) (λ p, spare K n p.2) h.
Proof using Henv.
  revert fd retries h. induction m as [|m IH]; intros fd retries h Hs H0; cbn [lock_retry]; [done|].
  apply wp_bind, wp_sys. intros r ->. set (h1 := set_trace _ h).
  assert (H1 : spare K n fd h1) by by apply spare_blind. clearbody h1.
  destruct (res _ =? 0); [by apply wp_ret|]. apply wp_bind.
  apply (wp_mono _ _ (λ p, spare K n p.1)).
  { destruct (_ && _); [|by apply wp_ret]. apply wp_bind, (wp_spare_close K n); [done..|].
    intros r h2 H2. by apply wp_spare_retry. }
  intros [fd2 k] h2 H2. cbn [fst] in H2. destruct (fd2 <? 0) eqn:Hf; z_bool; [by apply wp_ret|].
  destruct (_ <? 0); [by apply wp_ret|]. apply wp_bind, wp_sys. intros r ->.
  apply IH; [by apply spare_blind|done].
Qed.

Lemma wp_spare_err K n fd h :
  spare K n fd h → wp partial (tty_err E fd) (λ z, spare K n z) h.
Proof using.
  intros Hs. unfold tty_err. apply wp_bind. destruct (0 <=? fd) eqn:Hf; z_bool.
  - apply wp_bind, (wp_spare_close K n); [done..|]. intros r h1 H1. by apply wp_ret, wp_ret.
  - apply wp_ret, wp_ret. by eapply spare_none.
Qed.

(** What follows the calls on a file that was opened and is closed again. *)
Ltac after_close :=
  match goal with H : spare ?K ?n (-1) ?h |- wp _ ?m _ ?h =>
    assert (Hp : preserves (spare K n (-1)) m) by preserve; by apply Hp end.

(** The lock file: opened and closed again, and the lock's variables. *)
Lemma preserves_acquire K n : preserves (spare K n (-1)) (uucp_acquire E).
Proof using Henv.
  pose proof (spare_blind K n (-1)) as Hb.
  assert (Hn : preserves (spare K n (-1)) uucp_set_filelock_name)
    by (unfold uucp_set_filelock_name; preserve).
  assert (Hc : preserves (spare K n (-1)) (uucp_check_is_locked E)).
  { unfold uucp_check_is_locked. apply preserves_bind; [by apply preserves_get|]. intros h0 h Hs.
    apply wp_bind, (wp_spare_open K n); [done|]. intros r h1 H1.
    destruct (res r <? 0) eqn:Hr; z_bool; [by apply wp_ret; eapply spare_none|].
    apply wp_bind, wp_sys. intros d ->. apply (spare_blind _ _ _ _ (RqRead (res r) (MAX_PATH - 1))) in H1; [|done].
    apply wp_bind, (wp_spare_close K n _ _ _ H1); [done|]. intros c h2 H2. after_close. }
  assert (Hl : preserves (spare K n (-1)) (uucp_lock_tty_device E)).
  { unfold uucp_lock_tty_device. apply preserves_bind; [by apply preserves_get|]. intros h0 h Hs.
    apply wp_bind, (wp_spare_open K n); [done|]. intros r h1 H1.
    destruct (res r <? 0) eqn:Hr; z_bool; [by apply wp_ret; eapply spare_none|].
    apply wp_bind, wp_sys. intros d ->. apply (spare_blind _ _ _ _ RqGetpid) in H1; [|done].
    cbv zeta. destruct (_ <=? _).
    { apply wp_bind, (wp_spare_close K n _ _ _ H1); [done|]. intros c h2 H2. by apply wp_ret. }
    apply wp_bind, wp_sys. intros w ->.
    match goal with |- context [RqWrite ?a ?b] => apply (spare_blind _ _ _ _ (RqWrite a b)) in H1; [|done] end.
    apply wp_bind, (wp_spare_close K n _ _ _ H1); [done|]. intros c h2 H2. after_close. }
  unfold uucp_acquire. preserve.
Qed.

Lemma wp_spare_open_tty fuel K n h :
  spare K n (-1) h → wp partial (open_tty_device E fuel) (λ z, spare K n z) h.
Proof using Henv.
  intros Hs. unfold open_tty_device. apply wp_bind. eapply wp_mono; [by apply preserves_acquire|].
  intros got h1 H1. cbv beta in H1. destruct got; cbn [negb]; [|by apply wp_spare_err].
  apply wp_bind, wp_get. cbv zeta. apply wp_bind. eapply wp_mono; [by apply wp_spare_retry|].
  intros [fd k] h2 H2. cbn [fst] in H2. destruct (fd <? 0) eqn:Hf; z_bool; [by apply wp_spare_err|].
  destruct (invalid_baudrate _); [by apply wp_spare_err|]. apply wp_bind.
  eapply wp_mono; [by apply (wp_spare_lock K n)|]. intros [locked fd2] h3 H3. cbn [snd] in H3.
  destruct locked; cbn [negb]; [|by apply wp_spare_err].
  pose proof (spare_blind K n fd2) as Hb.
  assert (Hset : ∀ b, preserves (spare K n fd2) (tty_setup E fd2 b)) by (intros b; unfold tty_setup; preserve).
  pose proof (λ b, preserves_putch E calm (spare K n fd2) fuel fd2 b Hb (λ _, eq_refl) (λ _, eq_refl) eq_refl).
  apply wp_bind. eapply wp_mono; [by apply Hset|]. intros ok h4 H4. cbv beta in H4.
  destruct ok; cbn [negb]; [|by apply wp_spare_err].
  assert (Hr : preserves (spare K n fd2) (tty_reset E fuel fd2)) by (unfold tty_reset; preserve).
  apply wp_bind. eapply wp_mono; [by apply Hr|]. intros u h5 H5. by apply wp_ret.
Qed.

(** *** Start-up *)

Lemma wp_main_create_fds m n k h :
  building n k h → wp partial (main_create E m n) (λ z, building (if z =? 0 then n + Z.of_nat m else n) k) h.
Proof using Henv.
  revert n h. induction m as [|m IH]; intros n h Hb; cbn [main_create].
  { apply wp_ret. by replace (n + Z.of_nat 0) with n by lia. }
  apply wp_bind. eapply (wp_mono _ _ (λ _, building n k)).
  { assert (Hp : preserves (building n k) (pty_name n)) by (unfold pty_name; preserve). by apply Hp. }
  intros name h1 Hb1. apply wp_bind. eapply wp_mono; [by apply wp_create_pty_fds|].
  intros z h2 Hb2. unfold pty_post in Hb2. destruct (z =? 0); cbn [negb].
  - eapply wp_mono; [by apply IH|]. intros z' h3 Hb3. cbv beta in Hb3. destruct (z' =? 0).
    + by replace (n + Z.of_nat (S m)) with (n + 1 + Z.of_nat m) by lia.
    + apply (building_mono (n + 1) n); [lia|done].
  - by apply wp_ret.
Qed.

(** Before the PTYs: the entries are as [calloc] made them. *)
Definition clean (h : host) : Prop :=
  produced E (trace h) ∧ is_open 0 (trace h) = true ∧ spawned (trace h) = [] ∧
  ∀ p, p ∈ pty_data h → p = thread_data_zero.

#[export] Instance clean_blind : call_blind E calm clean.
Proof.
  intros h rq Hc (Hp & Ho & Hs & Hz). split_and!; [done|by apply is_open_calm| |done].
  cbn [set_trace trace]. by rewrite spawned_call.
Qed.

Lemma clean_fds h : clean h → fds E logs [0] 0 (trace h) (pty_data h).
Proof using Henv.
  intros (Hp & Ho & Hs & Hz). constructor; try done; try (intros; lia).
  - by intros fd ->%list_elem_of_singleton.
  - apply NoDup_singleton.
  - intros p fd _. by rewrite list_elem_of_singleton.
  - by rewrite Hs.
  - by intros p ->%Hz.
  - intros p ->%Hz _. split; [done|apply Henv].
Qed.

Lemma preserves_setup name : preserves clean (main_setup E name).
Proof.
  pose proof clean_blind as Hb. unfold main_setup, main_tags, main_counts, main_arrays, init_virtioso_tags.
  preserve. apply preserves_modify. intros h (Hp & Ho & Hs & _). split_and!; [done..|].
  by intros p [-> _]%elem_of_replicate.
Qed.

(** The host with its UART and before its PTYs. *)
Definition connected (h : host) : Prop :=
  fds E logs [tty_fd h; 0] 0 (trace h) (pty_data h) ∧ 0 < tty_fd h.

#[export] Instance connected_blind : call_blind E calm connected.
Proof. intros h rq Hc [Hf Ht]. split; [by apply fds_call|done]. Qed.

Lemma wp_main_open_tty_fds fuel h :
  fds E logs [0] 0 (trace h) (pty_data h) →
  wp partial (main_open_tty E fuel) (λ z h', z = 0 → connected h') h.
Proof using Henv.
  intros Hf. unfold main_open_tty. apply wp_bind.
  eapply wp_mono; [apply (wp_spare_open_tty fuel [0] 0); split; [done|lia]|].
  intros z h1 [Hf1 Ho]. apply wp_bind, wp_modify, wp_ret. intros Hz.
  destruct (z <? 0) eqn:Hneg; [done|]. z_bool. destruct (Ho Hneg) as [Hop Hu].
  split; [by apply fds_hold|]. cbn. destruct Hu as [Hu _]. rewrite list_elem_of_singleton in Hu. lia.
Qed.

Lemma connected_held h l :
  connected h → (0 ≤ l → is_open l (trace h) = true ∧ unused l [tty_fd h; 0] (pty_data h)) →
  fds_ok 0 (set_tty_log_fd l h).
Proof using.
  intros [Hf Ht] Hl. unfold fds_ok, held. cbn [set_tty_log_fd tty_fd tty_log_fd trace pty_data].
  assert (Hsub : ∀ L, NoDup L → fds E logs L 0 (trace h) (pty_data h) →
    (if decide (0 < l) then l ∈ L else True) → tty_fd h ∈ L → 0 ∈ L →
    fds E logs (0 :: filter (λ fd, 0 < fd) [tty_fd h; l]) 0 (trace h) (pty_data h)).
  { intros L Hd HL Hlin Htin H0in. apply (fds_release L); [| |done].
    - intros x. rewrite elem_of_cons, list_elem_of_filter, elem_of_cons, list_elem_of_singleton.
      intros [->|[Hx [->| ->]]]; try done. by rewrite decide_True in Hlin.
    - constructor; [rewrite list_elem_of_filter; lia|]. apply NoDup_filter.
      constructor; [|apply NoDup_singleton]. rewrite list_elem_of_singleton. intros Heq.
      destruct Hl as [_ [Hn _]]; [lia|]. apply Hn. rewrite Heq. by left. }
  destruct (decide (0 < l)) as [Hp|Hp].
  - destruct Hl as [Ho Hu]; [lia|]. pose proof (fds_hold _ _ _ _ _ Ho Hu Hf) as Hf2.
    apply (Hsub _ (fd_nodup _ _ _ _ _ _ Hf2) Hf2); rewrite ?decide_True, ?decide_False, ?elem_of_cons by done; auto.
  - apply (Hsub _ (fd_nodup _ _ _ _ _ _ Hf) Hf); rewrite ?decide_True, ?decide_False, ?elem_of_cons by done; auto.
Qed.

Lemma wp_main_raw_log_fds l h :
  connected h → wp partial (main_raw_log E l) (λ _ h', fds_ok 0 h') h.
Proof using Henv.
  intros Hc. unfold main_raw_log. destruct l as [path|].
  - apply wp_bind, wp_sys. intros r ->. apply wp_modify. set (rq := RqOpen path _).
    apply connected_held; [by apply connected_blind|]. intros H0.
    split; [by apply (is_open_new rq)|]. by apply (fds_fresh _ 0 (trace h)); [apply Hc|..].
  - apply wp_modify. apply connected_held; [done|lia].
Qed.

(** The threads of entries that exist. *)
Lemma wp_main_threads_fds m i n k h :
  building n k h → 0 ≤ i → i + Z.of_nat m ≤ Z.of_nat (length (pty_data h)) →
  wp partial (main_threads E m i) (λ _, building n k) h.
Proof using.
  revert i h. induction m as [|m IH]; intros i h Hb Hi Hm; cbn [main_threads]; [by apply wp_ret|].
  apply wp_bind. set (len := Z.of_nat (length (pty_data h))).
  eapply wp_mono.
  { apply (wp_preserves _ (λ h', len = Z.of_nat (length (pty_data h')))); [|done|].
    - unfold create_thread_with_stack.
      assert (Hbl : call_blind E (λ _, true) (λ h', len = Z.of_nat (length (pty_data h')))) by (intros ? ? _ Hlen; exact Hlen).
      preserve.
    - apply (preserves_thread i n k). split; [done|lia]. }
  intros z h1 [[Hb1 _] Hl]. destruct (z =? 0); cbn [negb]; [|by apply wp_ret].
  apply IH; [done|lia|lia].
Qed.

Lemma wp_main_start_fds fuel o :
  opt_virtioso o = true →
  wp partial (main_start E fuel o) (λ z h', z = 0 → own h') (host_boot o).
Proof using Henv.
  intros Hv. unfold main_start, main_launch. apply wp_bind. eapply wp_mono.
  { apply wp_conj; [by apply (wp_main_setup E partial o)|].
    apply preserves_setup. split_and!; [done..|]. by intros p ?%elem_of_nil. }
  intros z h [Hb Hc]. destruct (z =? 0) eqn:Hz; cbn [negb]; [|by apply wp_ret]. z_bool.
  specialize (Hb Hz). apply wp_bind. eapply wp_mono.
  { apply wp_conj; [apply (wp_main_open_tty E fuel partial h o); [apply opens_partial|done]|].
    by apply wp_main_open_tty_fds, clean_fds. }
  intros z1 h1 [[Hb1 _] Hc1]. destruct (z1 =? 0) eqn:Hz1; cbn [negb]; [|by apply wp_ret]. z_bool.
  specialize (Hc1 Hz1). apply wp_bind. eapply wp_mono.
  { apply wp_conj; [by apply (wp_main_save_dir E partial h1 o)|].
    assert (Hp : preserves connected (main_save_dir E)); [|by apply Hp].
    pose proof connected_blind. unfold main_save_dir. preserve. }
  intros z2 h2 [[Hb2 _] Hc2]. destruct (z2 =? 0); cbn [negb]; [|by apply wp_ret].
  apply wp_bind. eapply wp_mono.
  { apply wp_conj; [by apply (wp_main_raw_log E partial h2 o)|by apply wp_main_raw_log_fds]. }
  intros u h3 [[Hb3 _] Hf3]. apply wp_bind, wp_get, wp_bind.
  rewrite (bt_max _ _ Hb3). eapply wp_mono.
  { apply wp_conj; [apply (wp_main_create E partial o); (done || lia)|].
    apply (wp_main_create_fds _ 0 3). split; [done|]. apply Hb3. }
  intros z4 h4 [Hb4 Hf4]. cbv beta in Hb4, Hf4. destruct (z4 =? 0) eqn:Hz4; cbn [negb]; [|by apply wp_ret].
  change (0 + Z.of_nat (Z.to_nat 3)) with 3 in Hf4. pose proof (sh_pty _ _ (bt_shape _ _ Hb4)) as Hl.
  unfold main_start_threads. apply wp_bind. eapply wp_mono.
  { apply wp_conj; [apply (wp_create_thread E partial (-1) h4)|].
    apply (preserves_thread (-1) 3 3). split; [done|]. unfold NPTY in Hl. lia. }
  intros z5 h5 [Ho5 [Hf5 _]]. cbv beta in Ho5. destruct (z5 =? 0); cbn [negb]; [|by apply wp_ret].
  pose proof (booted_opens _ _ _ _ Ho5 Hb4) as Hb5.
  pose proof (sh_pty _ _ (bt_shape _ _ Hb5)) as Hl5. apply wp_bind, wp_get. rewrite (bt_max _ _ Hb5).
  eapply wp_mono; [apply (wp_main_threads_fds _ _ 3 3); [done|lia|unfold NPTY in Hl5; lia]|].
  intros z6 h6 [Hf6 Hn] _. unfold own. by rewrite Hn.
Qed.

(** *** What the routing theorems rely on *)

Lemma own_own_fds h : wf h → own h → own_fds h.
Proof.
  intros Hwf []. pose proof (wf_max _ Hwf). constructor.
  - intros i j p q Hi Hj Hp Hq Heq. eapply fd_distinct0; (done || lia).
  - intros i p Hi Hp (q & Hq & Hl & Heq). eapply (fd_apart0 i p q); (done || lia).
Qed.

Lemma own_tolerates h : own h → tolerates E h.
Proof using Henv.
  intros [] p Hp. split; [intros; by apply Henv|]. intros Hl tr d.
  destruct (fd_logs0 p Hp Hl). by apply Henv.
Qed.

Lemma own_ready h r :
  wf h → rx_ok h r → own h → control_state r = VIRTIOSO_CONTROL_IDLE → ready E h r.
Proof using Henv. intros. constructor; try done; [by apply own_own_fds|by apply own_tolerates]. Qed.

End Fds.

(* ------------------------------------------------------------------ *)
(** ** The concrete environment *)

Lemma good_env_open tr rq :
  opens_fd rq = true → 0 ≤ res (good_env tr rq) → res (good_env tr rq) = opened tr.
Proof.
  destruct rq as [| | | | | |path mode| | | | | | | | | | | | | | | | | | | | | | | |]; try done.
  by destruct mode.
Qed.

(** Environments that differ from it in what is read. *)
Lemma like_good_env_fds E :
  (∀ tr rq, match rq with RqRead _ _ | RqPollIn _ _ => True | _ => E tr rq = good_env tr rq end) →
  good_fds E (λ _, true).
Proof.
  intros Hlike.
  assert (Hopen : ∀ tr rq, opens_fd rq = true → E tr rq = good_env tr rq).
  { intros tr rq Ho. specialize (Hlike tr rq). by destruct rq. }
  assert (Hcount : ∀ tr fd, produced E tr → is_open fd tr = true → fd < opened tr).
  { intros tr fd. induction tr as [|[rq r] tr IH]; cbn; [intros _ H; z_bool; lia|].
    intros [-> Hp] Ho. assert (Hle : is_open fd tr = true → fd < opened tr) by auto.
    destruct (opens_fd rq) eqn:Hq.
    - rewrite Hopen in Ho by done. pose proof (good_env_open tr rq Hq) as Hres.
      assert (Ho' : (0 <=? fd) && (res (good_env tr rq) =? fd) || is_open fd tr = true) by by destruct rq.
      assert (Hlt : fd < opened tr + 1).
      { apply orb_prop in Ho' as [H|H]; [z_bool; lia|specialize (Hle H); lia]. }
      by destruct rq.
    - destruct rq; try done; try (by apply Hle). apply andb_prop in Ho as [_ Ho]. by apply Hle. }
  constructor; try done.
  - intros tr rq Hp Ho H0. rewrite Hopen in * by done. rewrite (good_env_open tr rq) by done.
    apply not_true_is_false. intros Hop%Hcount; [lia|done].
  - intros fd tr d _. rewrite (Hlike tr (RqWrite fd d)). cbn. lia.
  - intros fd tr d Hr. rewrite (Hlike tr (RqWrite fd d)) in Hr. cbn in Hr. lia.
Qed.

Lemma good_env_fds : good_fds good_env (λ _, true).
Proof. apply like_good_env_fds. by intros tr []. Qed.
