(* ===== verification/HostSpec.v ===== *)
(** * What the host multiplexer guarantees

    The properties of the demultiplexer and of the stream table, stated for
    arbitrary input bytes, registry texts and environments, with the concrete
    hosts of [Demo.v] as instances. *)

From S2P Require Import Prelude Proto CString HostState HostIo HostIoInv Flush Registry RegistryInv Tty Startup TtySpec StartupInv Demux DemuxSpec DemuxInv Route Demo.
From Stdlib Require Import Ascii.

Lemma good_env_alloc : alloc_ok good_env.
Proof. by intros tr n. Qed.

Lemma rx_init_synced : synced rx_init.
Proof. done. Qed.

(** C5: no input can break the host demultiplexer.  From any well-formed
    state, any bytes through either outer layer, with any answers of the
    operating system, are consumed without an undefined behaviour, a failed
    assertion or an endless loop; the stream table stays well formed and,
    unless an error code is returned, the parser's locals stay consistent. *)
Theorem demux_total E l r h :
  wf h → rx_ok h r →
  ∃ z r' h', feed_all (feed_nvidia_outer_or_virtioso_raw E) l r h = Done (z, r') h' ∧
    wf h' ∧ z ≤ 0 ∧ (z = 0 → rx_ok h' r').
Proof.
  intros Hwf Hr.
  destruct (wp_total_done _ _ _ (wp_feed_all total _ l r h
    (λ c r h, wp_feed_outer E total c r h) Hwf Hr)) as ([z r'] & h' & Hrun & Hp).
  by exists z, r', h'.
Qed.

(** C5 on a truncated record followed by noise. *)
Lemma demux_total_witness :
  ∃ z r' h', feed_all (feed_nvidia_outer_or_virtioso_raw good_env)
               [xfe; xfd; x02; x00; x05; x7b; xff; xfe] rx_init demo_host = Done (z, r') h' ∧
    wf h' ∧ z ≤ 0 ∧ (z = 0 → rx_ok h' r').
Proof.
  apply (demux_total good_env [xfe; xfd; x02; x00; x05; x7b; xff; xfe] rx_init demo_host).
  - exact demo_host_wf.
  - apply rx_init_ok. vm_compute. congruence.
Defined.

(** C9: the byte state machine implements the token semantics.  For any
    sequence of tokens (payload bytes, selections, registry, acknowledgement
    and announcement records) and any bytes after it, feeding the encoding is
    running [tok_all] on the tokens and then feeding the rest: records split
    over any number of calls, escapes and 16-bit lengths are all decoded. *)
Theorem demux_tokens E ts rest r h :
  alloc_ok E → synced r → forallb token_ok ts = true →
  feed_all (feed_virtioso_byte E) (wires ts ++ rest) r h =
  (let* (z, r') := tok_all E ts r in
   if z <? 0 then ret (z, r') else feed_all (feed_virtioso_byte E) rest r') h.
Proof. apply feed_tokens. Qed.

(** C9 on a registry record, a frame and a record cut in the middle. *)
Lemma demux_tokens_witness :
  let ts := [TRegistry demo_registry; TSelect x01; TByte xfe; TByte x41; TDefault; TAck;
             TConnected [x21; x70; x71]] in
  forallb token_ok ts = true ∧
  feed_all (feed_virtioso_byte good_env) (wires ts ++ [xfe; xfd]) rx_init demo_host =
  (let* (z, r') := tok_all good_env ts rx_init in
   if z <? 0 then ret (z, r') else feed_all (feed_virtioso_byte good_env) [xfe; xfd] r')
    demo_host.
Proof.
  split; [vm_compute; reflexivity|].
  apply (demux_tokens good_env _ [xfe; xfd] rx_init demo_host good_env_alloc rx_init_synced).
  vm_compute. reflexivity.
Defined.

(** C19: a registry is applied as a whole or not at all.  For any registry
    text and any answers of the operating system, applying it finishes, keeps
    the table well formed (every stream id still routes to one PTY) and leaves
    all existing channels as they were; on success it adds at least one
    channel, on failure the counters are back to what they were. *)
Theorem apply_registry_atomic E json h :
  wf h →
  ∃ z h', apply_virtioso_registry_json E json h = Done z h' ∧
    wf h' ∧ keeps (num_proc h) h h' ∧
    ((z = 0 ∧ num_proc h < num_proc h') ∨ (z = -1 ∧ num_proc h' = num_proc h)).
Proof.
  intros Hwf. destruct (wp_total_done _ _ _ (wp_apply_registry E total json h Hwf))
    as (z & h' & Hrun & Hp). by exists z, h'.
Qed.

Lemma apply_registry_atomic_witness :
  ∃ z h', apply_virtioso_registry_json good_env (Some demo_registry) demo_host = Done z h' ∧
    wf h' ∧ keeps (num_proc demo_host) demo_host h' ∧
    ((z = 0 ∧ num_proc demo_host < num_proc h') ∨
     (z = -1 ∧ num_proc h' = num_proc demo_host)).
Proof. exact (apply_registry_atomic good_env (Some demo_registry) demo_host demo_host_wf). Defined.

(** C27: an announced stream becomes routable.  Announcing a stream finishes
    for any answers of the operating system and keeps the table well formed
    and the existing channels; either nothing is added, or exactly one entry:
    the stream id with its name (cut to 255 bytes and at the first NUL), an
    open PTY, no input, and the id now routes to it. *)
Theorem connected_adds_stream E sid name h :
  wf h →
  ∃ h', apply_virtioso_stream_connected E sid name h = Done tt h' ∧
    wf h' ∧ keeps (num_proc h) h h' ∧
    (num_proc h' = num_proc h ∨
     num_proc h' = num_proc h + 1 ∧ connected_entry h sid name h' ∧
     find_virtioso_pty_idx_by_stream_id sid h' = Done (num_proc h) h').
Proof.
  intros Hwf. pose proof (sh_n _ _ (wf_shape _ Hwf)) as Hn.
  destruct (wp_total_done _ _ _ (wp_apply_connected E total sid name h Hwf))
    as ([] & h' & Hrun & Hwf' & Hk & Hp).
  exists h'. split_and!; [done..|]. destruct Hp as [?|[Hn' He]]; [by left|right].
  split_and!; [done..|]. rewrite find_idx_run by apply Hwf'. f_equal.
  destruct He as (Ht & _).
  pose proof (find_registered h' (Z.to_nat (num_proc h)) _ Hwf' ltac:(lia) ltac:(lia) Ht) as Hf.
  cbn [tag_value] in Hf. lia.
Qed.

Lemma connected_adds_stream_witness :
  ∃ h', apply_virtioso_stream_connected good_env x41 (bs "shell") demo_streams = Done tt h' ∧
    wf h' ∧ keeps (num_proc demo_streams) demo_streams h' ∧
    (num_proc h' = num_proc demo_streams ∨
     num_proc h' = num_proc demo_streams + 1 ∧
     connected_entry demo_streams x41 (bs "shell") h' ∧
     find_virtioso_pty_idx_by_stream_id x41 h' = Done (num_proc demo_streams) h').
Proof.
  exact (connected_adds_stream good_env x41 (bs "shell") demo_streams demo_streams_wf).
Defined.

(** C28: start-up establishes the invariant.  With [-A], whatever the
    operating system answers (as long as the UART, once open, takes its reset
    sequence without interruptions), the start-up sequence finishes; when it returns
    0 the table holds exactly the three built-in channels, all accepting
    input, and the state and the demultiplexer's initial locals satisfy the
    invariants the other theorems start from. *)
Theorem startup_wf E fuel o :
  opt_virtioso o = true → 0 < Z.of_nat (length (opt_device o)) < MAX_PATH - 1 →
  output_answers E → (0 < fuel)%nat →
  ∃ z h, main_start E fuel o (host_boot o) = Done z h ∧
    (z = 0 → booted o h ∧ wf h ∧ rx_ok h rx_init).
Proof.
  intros Hv Hd Ho Hf.
  destruct (wp_total_done _ _ _ (wp_main_start E fuel total o Hv (opens_total E fuel total _ Hd Ho Hf)))
    as (z & h & Hrun & Hb). exists z, h. split; [done|]. intros Hz. specialize (Hb Hz).
  split_and!; [done|by eapply booted_wf|]. apply rx_init_ok.
  rewrite (bt_num _ _ Hb). lia.
Qed.

Lemma startup_wf_witness :
  let o := demo_options [("i"%char, []); ("s"%char, bs "/tmp/logs/")] in
  ∃ z h, main_start good_env 1 o (host_boot o) = Done z h ∧
    (z = 0 → booted o h ∧ wf h ∧ rx_ok h rx_init).
Proof.
  intros o. apply (startup_wf good_env 1 o).
  - reflexivity.
  - vm_compute. split; reflexivity.
  - exact good_env_answers.
  - lia.
Defined.

(** The log file a session record reports is the one that was opened.
    [create_pty_at_index] builds the path with [snprintf] and [strncat] into a
    buffer, [emit_pty_session_record] with one [snprintf]: they agree for all
    directories and names, including those that are cut. *)
Theorem log_path_reported path name : savefile path name = session_savefile path name.
Proof. apply savefile_session. Qed.

(** Writing to a PTY never stops the demultiplexer.  [patch2flush_stream]
    finishes for all answers of the operating system and changes nothing but
    the history and [last_ch]; when the PTY only fails softly (EAGAIN, EIO)
    and the log is writable it returns 0 having offered exactly the patched
    byte to the PTY and nothing to any other descriptor but log files. *)
Theorem patch2flush_soft E fd i ch sn sr h :
  pty_ok h i →
  ∃ z n r h', patch2flush_stream E fd i ch sn sr h = Done (z, n, r) h' ∧
    stable h h' ∧ -3 ≤ z ≤ 0 ∧
    (tolerates E h → (∃ p, p ∈ pty_data h ∧ td_fd p = fd) →
     z = 0 ∧ (n, r) = ((patch_out h sn sr ch).1.2, (patch_out h sn sr ch).2) ∧
     delivers h h' fd (patch_out h sn sr ch).1.1).
Proof.
  intros Hok. destruct (wp_total_done _ _ _ (wp_patch2flush_stream E total fd i ch sn sr h Hok))
    as ([[z n] r] & h' & Hrun & Hs & Hz & Hp).
  exists z, n, r, h'. split_and!; [done..|lia|lia|].
  intros Ht Hfd. destruct (Hp Ht Hfd) as (? & ? & -> & ->). done.
Qed.

(** The same on a PTY nobody reads. *)
Lemma patch2flush_soft_witness :
  pty_ok demo_streams 3 ∧
  ∃ z n r h', patch2flush_stream full_pty 16 3 x41 true false demo_streams = Done (z, n, r) h' ∧
    stable demo_streams h' ∧ -3 ≤ z ≤ 0 ∧
    (tolerates full_pty demo_streams → (∃ p, p ∈ pty_data demo_streams ∧ td_fd p = 16) →
     z = 0 ∧ (n, r) = ((patch_out demo_streams true false x41).1.2,
                       (patch_out demo_streams true false x41).2) ∧
     delivers demo_streams h' 16 (patch_out demo_streams true false x41).1.1).
Proof.
  assert (Hok : pty_ok demo_streams 3) by (intros _; vm_compute; split; congruence).
  split; [exact Hok|].
  exact (patch2flush_soft full_pty 16 3 x41 true false demo_streams Hok).
Defined.
