(* ===== verification/Mux.v ===== *)
(** * The CAmkES Mux component

    [sel4/Mux/src/console_mux.c]: the uplink, which frames batches of
    stream output for the UART, and the downlink, which routes UART input to
    the rings of the component streams.

    The generated files give the registry text and the table of sinks; the
    platform gives the cycle counter and the UART device.  They are
    parameters. *)

From S2P Require Import Prelude Proto CString.

Definition VCMUX_ESC : byte := xfe.
Definition VCMUX_DEFAULT : byte := x00.
Definition VCMUX_CTRL : byte := xfd.
Definition VCMUX_CTRL_STREAM_REGISTRY : byte := x02.
Definition VCMUX_CTRL_DOWNLINK_ACK : byte := x03.
Definition CONSOLE_MUX_RPC_REPORT_INTERVAL : Z := 16.

(** [sizeof(console_mux_frame)], [sizeof(batch->buf)], [sizeof(rx->buf)]. *)
Definition FRAME_SIZE : Z := 4096 - 8.
Definition BATCH_SIZE : Z := 4096 - 12.
Definition RING_SIZE : Z := 4096 - 8.

(** [console_mux_batch_buffer_t], the dataport of a client. *)
Record batch_buffer : Type := BatchBuffer {
  bb_stream_id : Z;
  bb_head : Z;
  bb_tail : Z;
  bb_buf : list byte
}.

Definition set_bb_head (v : Z) (b : batch_buffer) : batch_buffer :=
  BatchBuffer (bb_stream_id b) v (bb_tail b) (bb_buf b).

(** [console_mux_getchar_buffer_t], the ring of a sink. *)
Record ring : Type := Ring { rg_head : Z; rg_tail : Z; rg_buf : list byte }.

Record rpc_stats : Type := RpcStats {
  server_calls : Z;
  server_payload_bytes : Z;
  server_cycles : Z;
  uplink_calls : Z;
  uplink_payload_bytes : Z;
  uplink_cycles : Z
}.

Record downlink_stats : Type := DownlinkStats {
  uart_bytes : Z;
  payload_bytes : Z;
  delivered_frames : Z;
  missing_sink_bytes : Z;
  ring_full_bytes : Z;
  unknown_stream_bytes : Z
}.

(** An entry of the generated [virtioso_camkes_demux_sinks]: the two
    function pointers (null or not), and the dataport [buf()] returns. *)
Record sink : Type := Sink {
  sk_stream_id : Z;
  sk_has_buf : bool;
  sk_has_emit : bool;
  sk_ring : option nat
}.

(** The statics of the component, the rings it shares with its clients, and
    its outputs: bytes to the UART and notifications, oldest first. *)
Record mux : Type := Mux {
  mx_rpc : rpc_stats;
  mx_down : downlink_stats;
  mx_registry_emitted : bool;
  mx_frame : list byte;
  mx_serial : bool;
  mx_rx_stream : Z;
  mx_rx_escape : bool;
  mx_rings : list ring;
  mx_uart : list byte;
  mx_emits : list Z;
  mx_clock : nat
}.

(** Assignments. *)
Definition set_server_calls (v : Z) (s : rpc_stats) : rpc_stats :=
  RpcStats v (server_payload_bytes s) (server_cycles s) (uplink_calls s) (uplink_payload_bytes s) (uplink_cycles s).
Definition set_server_payload_bytes (v : Z) (s : rpc_stats) : rpc_stats :=
  RpcStats (server_calls s) v (server_cycles s) (uplink_calls s) (uplink_payload_bytes s) (uplink_cycles s).
Definition set_server_cycles (v : Z) (s : rpc_stats) : rpc_stats :=
  RpcStats (server_calls s) (server_payload_bytes s) v (uplink_calls s) (uplink_payload_bytes s) (uplink_cycles s).
Definition set_uplink_calls (v : Z) (s : rpc_stats) : rpc_stats :=
  RpcStats (server_calls s) (server_payload_bytes s) (server_cycles s) v (uplink_payload_bytes s) (uplink_cycles s).
Definition set_uplink_payload_bytes (v : Z) (s : rpc_stats) : rpc_stats :=
  RpcStats (server_calls s) (server_payload_bytes s) (server_cycles s) (uplink_calls s) v (uplink_cycles s).
Definition set_uplink_cycles (v : Z) (s : rpc_stats) : rpc_stats :=
  RpcStats (server_calls s) (server_payload_bytes s) (server_cycles s) (uplink_calls s) (uplink_payload_bytes s) v.
Definition set_uart_bytes (v : Z) (s : downlink_stats) : downlink_stats :=
  DownlinkStats v (payload_bytes s) (delivered_frames s) (missing_sink_bytes s) (ring_full_bytes s) (unknown_stream_bytes s).
Definition set_payload_bytes (v : Z) (s : downlink_stats) : downlink_stats :=
  DownlinkStats (uart_bytes s) v (delivered_frames s) (missing_sink_bytes s) (ring_full_bytes s) (unknown_stream_bytes s).
Definition set_delivered_frames (v : Z) (s : downlink_stats) : downlink_stats :=
  DownlinkStats (uart_bytes s) (payload_bytes s) v (missing_sink_bytes s) (ring_full_bytes s) (unknown_stream_bytes s).
Definition set_missing_sink_bytes (v : Z) (s : downlink_stats) : downlink_stats :=
  DownlinkStats (uart_bytes s) (payload_bytes s) (delivered_frames s) v (ring_full_bytes s) (unknown_stream_bytes s).
Definition set_ring_full_bytes (v : Z) (s : downlink_stats) : downlink_stats :=
  DownlinkStats (uart_bytes s) (payload_bytes s) (delivered_frames s) (missing_sink_bytes s) v (unknown_stream_bytes s).
Definition set_unknown_stream_bytes (v : Z) (s : downlink_stats) : downlink_stats :=
  DownlinkStats (uart_bytes s) (payload_bytes s) (delivered_frames s) (missing_sink_bytes s) (ring_full_bytes s) v.
Definition set_mx_rpc (v : rpc_stats) (m : mux) : mux :=
  Mux v (mx_down m) (mx_registry_emitted m) (mx_frame m) (mx_serial m) (mx_rx_stream m) (mx_rx_escape m) (mx_rings m) (mx_uart m) (mx_emits m) (mx_clock m).
Definition set_mx_down (v : downlink_stats) (m : mux) : mux :=
  Mux (mx_rpc m) v (mx_registry_emitted m) (mx_frame m) (mx_serial m) (mx_rx_stream m) (mx_rx_escape m) (mx_rings m) (mx_uart m) (mx_emits m) (mx_clock m).
Definition set_mx_registry_emitted (v : bool) (m : mux) : mux :=
  Mux (mx_rpc m) (mx_down m) v (mx_frame m) (mx_serial m) (mx_rx_stream m) (mx_rx_escape m) (mx_rings m) (mx_uart m) (mx_emits m) (mx_clock m).
Definition set_mx_frame (v : list byte) (m : mux) : mux :=
  Mux (mx_rpc m) (mx_down m) (mx_registry_emitted m) v (mx_serial m) (mx_rx_stream m) (mx_rx_escape m) (mx_rings m) (mx_uart m) (mx_emits m) (mx_clock m).
Definition set_mx_serial (v : bool) (m : mux) : mux :=
  Mux (mx_rpc m) (mx_down m) (mx_registry_emitted m) (mx_frame m) v (mx_rx_stream m) (mx_rx_escape m) (mx_rings m) (mx_uart m) (mx_emits m) (mx_clock m).
Definition set_mx_rx_stream (v : Z) (m : mux) : mux :=
  Mux (mx_rpc m) (mx_down m) (mx_registry_emitted m) (mx_frame m) (mx_serial m) v (mx_rx_escape m) (mx_rings m) (mx_uart m) (mx_emits m) (mx_clock m).
Definition set_mx_rx_escape (v : bool) (m : mux) : mux :=
  Mux (mx_rpc m) (mx_down m) (mx_registry_emitted m) (mx_frame m) (mx_serial m) (mx_rx_stream m) v (mx_rings m) (mx_uart m) (mx_emits m) (mx_clock m).
Definition set_mx_rings (v : list ring) (m : mux) : mux :=
  Mux (mx_rpc m) (mx_down m) (mx_registry_emitted m) (mx_frame m) (mx_serial m) (mx_rx_stream m) (mx_rx_escape m) v (mx_uart m) (mx_emits m) (mx_clock m).
Definition set_mx_uart (v : list byte) (m : mux) : mux :=
  Mux (mx_rpc m) (mx_down m) (mx_registry_emitted m) (mx_frame m) (mx_serial m) (mx_rx_stream m) (mx_rx_escape m) (mx_rings m) v (mx_emits m) (mx_clock m).
Definition set_mx_emits (v : list Z) (m : mux) : mux :=
  Mux (mx_rpc m) (mx_down m) (mx_registry_emitted m) (mx_frame m) (mx_serial m) (mx_rx_stream m) (mx_rx_escape m) (mx_rings m) (mx_uart m) v (mx_clock m).
Definition set_mx_clock (v : nat) (m : mux) : mux :=
  Mux (mx_rpc m) (mx_down m) (mx_registry_emitted m) (mx_frame m) (mx_serial m) (mx_rx_stream m) (mx_rx_escape m) (mx_rings m) (mx_uart m) (mx_emits m) v.

(** Computations of the component. *)
Definition MM (A : Type) : Type := M mux A.

(** [counter++] and [counter += n] on the 64-bit statistics. *)
Definition bump (n : Z) (v : Z) : Z := u64 (v + n).
Definition on_rpc (f : rpc_stats → rpc_stats) : MM unit :=
  modify (λ m, set_mx_rpc (f (mx_rpc m)) m).
Definition on_down (f : downlink_stats → downlink_stats) : MM unit :=
  modify (λ m, set_mx_down (f (mx_down m)) m).

Definition console_mux_valid_stream_id (stream_id : Z) : bool :=
  (0 <? stream_id) && (stream_id <=? 0xff) &&
  negb (stream_id =? b2z VCMUX_ESC) && negb (stream_id =? b2z VCMUX_CTRL).

Section Mux.
Context (cycles : nat → Z) (registry_json : list byte) (sinks : list sink).

(** [console_mux_cycles_now]: successive reads of the cycle counter. *)
Definition console_mux_cycles_now : MM Z :=
  m <- get ;;
  modify (set_mx_clock (S (mx_clock m))) ;;;
  ret (cycles (mx_clock m)).

(* ------------------------------------------------------------------ *)
(** ** Uplink *)

(** [ps_cdev_putchar], when the UART is there. *)
Definition putchar (b : byte) : MM unit :=
  m <- get ;;
  if mx_serial m then modify (set_mx_uart (mx_uart m ++ [b])) else ret tt.

(** The offsets [0 .. n-1] of a C loop. *)
Definition upto (n : Z) : list Z := map Z.of_nat (seq 0 (Z.to_nat n)).

Definition console_mux_uplink_bytes (bytes : list byte) (bytes_len : Z) : MM unit :=
  start <- console_mux_cycles_now ;;
  for_each (upto bytes_len) (λ i, b <- arr_get bytes i ;; putchar b) ;;;
  on_rpc (λ s, set_uplink_calls (bump 1 (uplink_calls s)) s) ;;;
  on_rpc (λ s, set_uplink_payload_bytes (bump bytes_len (uplink_payload_bytes s)) s) ;;;
  now <- console_mux_cycles_now ;;
  on_rpc (λ s, set_uplink_cycles (bump (u64 (now - start)) (uplink_cycles s)) s).

(** [console_mux_frame[out++] = b]: the new [out]. *)
Definition frame_put (out : Z) (b : byte) : MM Z :=
  m <- get ;;
  f <- arr_set (mx_frame m) out b ;;
  modify (set_mx_frame f) ;;;
  ret (u32 (out + 1)).

(** Uplink the first [out] bytes of [console_mux_frame]. *)
Definition uplink_frame (out : Z) : MM unit :=
  m <- get ;; console_mux_uplink_bytes (mx_frame m) out.

(** [memcpy(&console_mux_frame[out], src, len)]: the new [out]. *)
Fixpoint frame_copy (out : Z) (src : list byte) : MM Z :=
  match src with
  | [] => ret out
  | b :: src' => out <- frame_put out b ;; frame_copy out src'
  end.

Definition console_mux_emit_registry : MM unit :=
  let len := Z.of_nat (length registry_json) in
  if (0xffff <? len) || (FRAME_SIZE <? len + 5) then ret tt
  else
  out <- frame_put 0 VCMUX_ESC ;;
  out <- frame_put out VCMUX_CTRL ;;
  out <- frame_put out VCMUX_CTRL_STREAM_REGISTRY ;;
  out <- frame_put out (z2b (Z.land (Z.shiftr len 8) 0xff)) ;;
  out <- frame_put out (z2b (Z.land len 0xff)) ;;
  out <- frame_copy out registry_json ;;
  uplink_frame out.

Definition console_mux_maybe_emit_registry : MM unit :=
  m <- get ;;
  if mx_registry_emitted m then ret tt
  else console_mux_emit_registry ;;; modify (set_mx_registry_emitted true).

Definition console_mux_emit_downlink_ack (stream_id : Z) : MM unit :=
  if negb (console_mux_valid_stream_id stream_id) then ret tt
  else
  console_mux_uplink_bytes [VCMUX_ESC; VCMUX_CTRL; VCMUX_CTRL_DOWNLINK_ACK] 3.

(** The loop body of [console_mux_emit_framed_payload]: the new [out]. *)
Definition framed_payload_byte (stream_id : Z) (byte : byte) (out : Z) : MM Z :=
  out <- (if FRAME_SIZE <=? out + 4 then
            uplink_frame out ;;;
            out <- frame_put 0 VCMUX_ESC ;;
            frame_put out (z2b stream_id)
          else ret out) ;;
  out <- (if bool_decide (byte = VCMUX_ESC) then frame_put out VCMUX_ESC else ret out) ;;
  frame_put out byte.

(** [for (i = 0; i < bytes_len; i++)] over [bytes = &buf[off]]. *)
Fixpoint framed_payload_loop (stream_id : Z) (buf : list byte) (off : Z) (n : nat) (out : Z)
    : MM Z :=
  match n with
  | O => ret out
  | S n' =>
      byte <- arr_get buf off ;;
      out <- framed_payload_byte stream_id byte out ;;
      framed_payload_loop stream_id buf (off + 1) n' out
  end.

Definition console_mux_emit_framed_payload (stream_id : Z) (buf : list byte) (off bytes_len : Z)
    : MM unit :=
  if negb (console_mux_valid_stream_id stream_id) then ret tt
  else
  console_mux_maybe_emit_registry ;;;
  out <- frame_put 0 VCMUX_ESC ;;
  out <- frame_put out (z2b stream_id) ;;
  out <- framed_payload_loop stream_id buf off (Z.to_nat bytes_len) out ;;
  out <- (if FRAME_SIZE <=? out + 2 then uplink_frame out ;;; ret 0 else ret out) ;;
  out <- frame_put out VCMUX_ESC ;;
  out <- frame_put out VCMUX_DEFAULT ;;
  uplink_frame out.

(** The line of the report is formatted and dropped. *)
Definition console_mux_emit_report_line (line : list byte) : MM unit := ret tt.

Definition report_line (s : rpc_stats) : list byte :=
  let avg (t n : Z) := fmt_u (if n =? 0 then 0 else t / n) in
  snprintf 256 (
    [x0a] ++ bs "[rpcprof] mux srv_calls=" ++ fmt_u (server_calls s) ++
    bs " srv_bytes=" ++ fmt_u (server_payload_bytes s) ++
    bs " srv_cyc=" ++ fmt_u (server_cycles s) ++
    bs " srv_avg=" ++ avg (server_cycles s) (server_calls s) ++
    bs " uplink_calls=" ++ fmt_u (uplink_calls s) ++
    bs " uplink_bytes=" ++ fmt_u (uplink_payload_bytes s) ++
    bs " uplink_cyc=" ++ fmt_u (uplink_cycles s) ++
    bs " uplink_avg=" ++ avg (uplink_cycles s) (uplink_calls s) ++ [x0a]).

Definition console_mux_report_rpc_stats : MM unit :=
  m <- get ;; console_mux_emit_report_line (report_line (mx_rpc m)).

(** When the counts of dropped bytes are logged; the log itself ([ZF_LOGW]) is
    not modelled. *)
Definition console_mux_is_power_of_two (value : Z) : bool :=
  negb (value =? 0) && (Z.land value (u64 (value - 1)) =? 0).

(** [mux_batch_batch], on the caller's dataport; the new dataport. *)
Definition mux_batch_batch (port : option batch_buffer) : MM (option batch_buffer) :=
  match port with
  | None => ret None
  | Some batch =>
      let stream_id := s32 (bb_stream_id batch) in
      if negb (console_mux_valid_stream_id stream_id) then ret (Some batch)
      else if bb_tail batch <? bb_head batch then ret (Some batch)
      else
      let bytes_len := u32 (bb_tail batch - bb_head batch) in
      if bytes_len =? 0 then ret (Some batch)
      else
      start <- console_mux_cycles_now ;;
      console_mux_emit_framed_payload stream_id (bb_buf batch) (bb_head batch) bytes_len ;;;
      on_rpc (λ s, set_server_calls (bump 1 (server_calls s)) s) ;;;
      on_rpc (λ s, set_server_payload_bytes (bump bytes_len (server_payload_bytes s)) s) ;;;
      now <- console_mux_cycles_now ;;
      on_rpc (λ s, set_server_cycles (bump (u64 (now - start)) (server_cycles s)) s) ;;;
      m <- get ;;
      (if server_calls (mx_rpc m) mod CONSOLE_MUX_RPC_REPORT_INTERVAL =? 0
       then console_mux_report_rpc_stats else ret tt) ;;;
      ret (Some (set_bb_head (bb_tail batch) batch))
  end.

(* ------------------------------------------------------------------ *)
(** ** Downlink *)

Definition console_mux_sink_for_stream (stream_id : Z) : option sink :=
  List.find (λ s, sk_stream_id s =? stream_id) sinks.

Definition drop_missing_sink : MM Z :=
  on_down (λ s, set_missing_sink_bytes (bump 1 (missing_sink_bytes s)) s) ;;; ret (-1).

Definition console_mux_enqueue_stream_byte (stream_id : Z) (byte : byte) : MM Z :=
  match console_mux_sink_for_stream stream_id with
  | None => drop_missing_sink
  | Some s =>
      if negb (sk_has_buf s) || negb (sk_has_emit s) then drop_missing_sink
      else
      match sk_ring s with
      | None => drop_missing_sink
      | Some k =>
          m <- get ;;
          rx <- arr_get (mx_rings m) (Z.of_nat k) ;;
          let next_tail := u32 (rg_tail rx + 1) mod RING_SIZE in
          if next_tail =? rg_head rx then
            on_down (λ s, set_ring_full_bytes (bump 1 (ring_full_bytes s)) s) ;;; ret (-1)
          else
          buf <- arr_set (rg_buf rx) (rg_tail rx) byte ;;
          rings <- arr_set (mx_rings m) (Z.of_nat k) (Ring (rg_head rx) next_tail buf) ;;
          modify (set_mx_rings rings) ;;;
          on_down (λ s, set_payload_bytes (bump 1 (payload_bytes s)) s) ;;;
          ret 0
      end
  end.

Definition console_mux_emit_stream_ready (stream_id : Z) : MM unit :=
  match console_mux_sink_for_stream stream_id with
  | None => ret tt
  | Some s =>
      if negb (sk_has_emit s) then ret tt
      else
      m <- get ;;
      modify (set_mx_emits (mx_emits m ++ [stream_id])) ;;;
      on_down (λ s, set_delivered_frames (bump 1 (delivered_frames s)) s)
  end.

(** [if (rx_stream >= 0) (void)enqueue(rx_stream, byte)]. *)
Definition enqueue_current (byte : byte) : MM unit :=
  m <- get ;;
  if 0 <=? mx_rx_stream m then
    console_mux_enqueue_stream_byte (mx_rx_stream m) byte ;;; ret tt
  else ret tt.

Definition console_mux_feed_downlink_byte (byte : byte) : MM unit :=
  m <- get ;;
  if mx_rx_escape m then
    modify (set_mx_rx_escape false) ;;;
    if bool_decide (byte = VCMUX_DEFAULT) then
      console_mux_emit_stream_ready (mx_rx_stream m) ;;;
      console_mux_emit_downlink_ack (mx_rx_stream m) ;;;
      modify (set_mx_rx_stream (-1))
    else if bool_decide (byte = VCMUX_ESC) then enqueue_current byte
    else if bool_decide (byte = VCMUX_CTRL) then
      console_mux_emit_stream_ready (mx_rx_stream m) ;;;
      modify (set_mx_rx_stream (-1))
    else
      console_mux_emit_stream_ready (mx_rx_stream m) ;;;
      match console_mux_sink_for_stream (b2z byte) with
      | Some _ => modify (set_mx_rx_stream (b2z byte))
      | None =>
          modify (set_mx_rx_stream (-1)) ;;;
          on_down (λ s, set_unknown_stream_bytes (bump 1 (unknown_stream_bytes s)) s)
      end
  else if bool_decide (byte = VCMUX_ESC) then modify (set_mx_rx_escape true)
  else enqueue_current byte.

(* ------------------------------------------------------------------ *)
(** ** The UART interrupt *)

Section Uart.
Context {D : Type} (ps_cdev_getchar : D → option byte * D) (ps_cdev_handle_irq : D → D).

(** The component next to its UART device. *)
Definition lift {A} (m : MM A) : M (mux * D) A := λ s,
  match m s.1 with
  | Done a m' => Done a (m', s.2)
  | Stop w m' => Stop w (m', s.2)
  end.

(** [do { ch = getchar(); ... } while (ch != EOF)]. *)
Fixpoint drain_loop (fuel : nat) : M (mux * D) unit :=
  match fuel with
  | O => halt OutOfFuel
  | S fuel' =>
      s <- get ;;
      let '(ch, d) := ps_cdev_getchar s.2 in
      modify (λ s, (s.1, d)) ;;;
      match ch with
      | None => ret tt
      | Some b =>
          lift (on_down (λ s, set_uart_bytes (bump 1 (uart_bytes s)) s)) ;;;
          lift (console_mux_feed_downlink_byte b) ;;;
          drain_loop fuel'
      end
  end.

Definition console_mux_drain_uart (fuel : nat) : M (mux * D) unit :=
  s <- get ;;
  if negb (mx_serial s.1) then ret tt else drain_loop fuel.

Definition console_mux_handle_uart_irq (fuel : nat) : M (mux * D) unit :=
  s <- get ;;
  if mx_serial s.1 then
    console_mux_drain_uart fuel ;;;
    modify (λ s, (s.1, ps_cdev_handle_irq s.2)) ;;;
    console_mux_drain_uart fuel
  else ret tt.

(** The handler the kernel calls; a failed acknowledgement is only logged. *)
Definition serial_dev_irq_handle (serial_dev_irq_acknowledge : D → Z * D) (fuel : nat) : M (mux * D) unit :=
  console_mux_handle_uart_irq fuel ;;;
  s <- get ;;
  let '(err, d) := serial_dev_irq_acknowledge s.2 in
  modify (λ s, (s.1, d)).

End Uart.
End Mux.

(** [pre_init]: the results of [camkes_io_ops] and [ps_cdev_init] (the device's
    flags, if there is one) are given; [fatal] is what [ZF_LOGF_IF] does.  The
    new flags. *)
Definition pre_init (fatal : M mux unit) (SERIAL_AUTO_CR err : Z) (dev : option Z) : M mux Z :=
  (if negb (err =? 0) then fatal else ret tt) ;;;
  modify (set_mx_serial (bool_decide (is_Some dev))) ;;;
  match dev with
  | None => fatal ;;; halt Undefined
  | Some flags => ret (Z.land flags (Z.lnot SERIAL_AUTO_CR))
  end.

(** The statics at start, after [pre_init] found the UART. *)
Definition mux_init (rings : list ring) : mux :=
  Mux (RpcStats 0 0 0 0 0 0) (DownlinkStats 0 0 0 0 0 0) false
    (replicate (Z.to_nat FRAME_SIZE) x00) true (-1) false rings [] [] 0.
