(* ===== verification/MuxUplink.v ===== *)
(** * The Mux uplink

    What [console_mux_emit_framed_payload], the registry emission and
    [mux_batch_batch] put on the UART, as tokens of the VCMux stream, and that
    they never leave the frame buffer. *)

From S2P Require Import Prelude Proto Mux.

(** The tokens of a payload when [pos] bytes are in the frame buffer: the
    stream is selected again at the start of every further buffer. *)
Fixpoint payload_tokens (sid : byte) (pos : Z) (l : list byte) : list token :=
  match l with
  | [] => []
  | b :: l' =>
      if FRAME_SIZE <=? pos + 4
      then TSelect sid :: TByte b ::
             payload_tokens sid (2 + Z.of_nat (length (esc_byte b))) l'
      else TByte b :: payload_tokens sid (pos + Z.of_nat (length (esc_byte b))) l'
  end.

(** The tokens of a whole framed payload. *)
Definition uplink_tokens (sid : byte) (l : list byte) : list token :=
  TSelect sid :: payload_tokens sid 2 l ++ [TDefault].

(** What the registry emission sends. *)
Definition registry_tokens (json : list byte) : list token :=
  if (0xffff <? Z.of_nat (length json)) || (FRAME_SIZE <? Z.of_nat (length json) + 5)
  then [] else [TRegistry json].

(** [m'] is [m] after sending [out]: everything but the outputs, the frame
    buffer's contents, the uplink statistics and the clock is as before. *)
Record uplinked (m : mux) (out : list byte) (m' : mux) : Prop := Uplinked {
  ul_uart : mx_uart m' = mx_uart m ++ (if mx_serial m then out else []);
  ul_serial : mx_serial m' = mx_serial m;
  ul_frame : length (mx_frame m') = length (mx_frame m);
  ul_down : mx_down m' = mx_down m;
  ul_stream : mx_rx_stream m' = mx_rx_stream m;
  ul_escape : mx_rx_escape m' = mx_rx_escape m;
  ul_rings : mx_rings m' = mx_rings m;
  ul_emits : mx_emits m' = mx_emits m;
  ul_registry : mx_registry_emitted m' = mx_registry_emitted m;
  ul_calls : server_calls (mx_rpc m') = server_calls (mx_rpc m);
  ul_bytes : server_payload_bytes (mx_rpc m') = server_payload_bytes (mx_rpc m)
}.

(** The frame buffer starts with the pending bytes. *)
Record holds (m : mux) (pend : list byte) : Prop := Holds {
  hd_size : Z.of_nat (length (mx_frame m)) = FRAME_SIZE;
  hd_fits : Z.of_nat (length pend) ≤ FRAME_SIZE;
  hd_prefix : take (length pend) (mx_frame m) = pend
}.

(** Pending bytes with nothing sent, and sent bytes with others pending. *)
Definition progress (m : mux) (sent pend : list byte) (m' : mux) : Prop :=
  uplinked m sent m' ∧ holds m' pend.

(* ------------------------------------------------------------------ *)
(** ** Lemmas: the token stream *)

Lemma payload_tokens_bytes sid pos l :
  omap (λ t, match t with TByte b => Some b | _ => None end) (payload_tokens sid pos l) = l.
Proof.
  revert pos. induction l as [|b l IH]; intros pos; cbn [payload_tokens]; [done|].
  case_match; cbn; by rewrite IH.
Qed.

Lemma payload_tokens_kind sid pos l :
  Forall (λ t, t = TSelect sid ∨ ∃ b, t = TByte b) (payload_tokens sid pos l).
Proof.
  revert pos. induction l as [|b l IH]; intros pos; cbn [payload_tokens]; [constructor|].
  case_match; repeat (apply Forall_cons; split; [eauto|]); apply IH.
Qed.

(** A payload that fits one buffer is not split. *)
Lemma payload_tokens_short sid pos l :
  pos + Z.of_nat (length (esc_bytes l)) < FRAME_SIZE - 3 →
  payload_tokens sid pos l = map TByte l.
Proof.
  revert pos. induction l as [|b l IH]; intros pos Hp; [done|].
  unfold esc_bytes in *. cbn [map concat payload_tokens] in *. rewrite length_app in Hp.
  pose proof (esc_byte_length b). rewrite (proj2 (Z.leb_gt _ _)) by lia.
  rewrite IH by lia. done.
Qed.

(* ------------------------------------------------------------------ *)
(** ** Lemmas: the frame buffer *)

Lemma uplinked_refl m : uplinked m [] m.
Proof. constructor; try done. destruct (mx_serial m); by rewrite app_nil_r. Qed.

Lemma uplinked_trans m1 m2 m3 a b :
  uplinked m1 a m2 → uplinked m2 b m3 → uplinked m1 (a ++ b) m3.
Proof.
  intros [] []. constructor; try congruence.
  rewrite ul_uart1, ul_uart0, ul_serial0. destruct (mx_serial m1); by rewrite <-?app_assoc.
Qed.

Lemma progress_nil m : Z.of_nat (length (mx_frame m)) = FRAME_SIZE → progress m [] [] m.
Proof. intros Hm. split; [apply uplinked_refl|]. by constructor. Qed.

Section Uplink.
Context (cycles : nat → Z) (registry_json : list byte).

Lemma wp_frame_put ok m sent pend b m0 :
  progress m0 sent pend m → Z.of_nat (length pend) < FRAME_SIZE →
  wp ok (frame_put (Z.of_nat (length pend)) b)
    (λ out m', out = Z.of_nat (length (pend ++ [b])) ∧ progress m0 sent (pend ++ [b]) m') m.
Proof.
  intros [[] []] Hlt. unfold frame_put. do 3 wp_step. apply wp_arr_set; [lia|]. wp_steps.
  rewrite length_app. cbn [length]. split; [unfold u32, FRAME_SIZE in *; rewrite Z.mod_small; lia|].
  split; constructor; try done; cbn.
  - by rewrite length_insert.
  - by rewrite length_insert.
  - rewrite length_app. cbn. lia.
  - rewrite Nat2Z.id, length_app. cbn [length]. rewrite Nat.add_1_r.
    rewrite (take_S_r _ _ b) by (apply list_lookup_insert_eq; lia).
    by rewrite take_insert_ge, hd_prefix0 by lia.
Qed.

Lemma wp_frame_copy ok m sent pend l m0 :
  progress m0 sent pend m → Z.of_nat (length (pend ++ l)) ≤ FRAME_SIZE →
  wp ok (frame_copy (Z.of_nat (length pend)) l)
    (λ out m', out = Z.of_nat (length (pend ++ l)) ∧ progress m0 sent (pend ++ l) m') m.
Proof.
  revert pend m. induction l as [|b l IH]; intros pend m Hp Hlen; cbn [frame_copy].
  { wp_step. by rewrite app_nil_r. }
  rewrite length_app in Hlen. cbn [length] in Hlen.
  wp_step. eapply wp_mono; [apply wp_frame_put; [done|lia]|]. intros out m' [-> Hp'].
  eapply wp_mono; [apply IH; [done|]|].
  - rewrite !length_app. cbn. lia.
  - intros out m2. by rewrite <-app_assoc.
Qed.

(** Sending a prefix of a buffer. *)
Lemma wp_putchars ok (l : list byte) n m :
  (n ≤ length l)%nat →
  wp ok (for_each (upto (Z.of_nat n)) (λ i, b <- arr_get l i ;; putchar b))
    (λ _ m', m' = set_mx_uart (mx_uart m ++ (if mx_serial m then take n l else [])) m) m.
Proof.
  intros Hn. unfold upto. rewrite Nat2Z.id.
  assert (Hgen : ∀ k i m, (i + k ≤ length l)%nat →
    wp ok (for_each (map Z.of_nat (seq i k)) (λ i, b <- arr_get l i ;; putchar b))
      (λ _ m', m' = set_mx_uart (mx_uart m ++ (if mx_serial m then take k (drop i l) else [])) m) m).
  { clear. induction k as [|k IH]; intros i m Hk; cbn [seq map for_each].
    { wp_step. destruct m as [????[]]; cbn; unfold set_mx_uart; cbn; by rewrite app_nil_r. }
    wp_step. wp_step. apply wp_arr_get; [lia|]. intros b Hb. rewrite Nat2Z.id in Hb.
    unfold putchar. do 2 wp_step. rewrite (drop_S _ _ _ Hb). cbn [take].
    wp_step; wp_step; (eapply wp_mono; [apply IH; lia|]); intros _ m' ->;
      destruct m as [????[]]; cbn in *; try done; unfold set_mx_uart; cbn.
    by rewrite <-app_assoc. }
  eapply wp_mono; [by apply (Hgen n 0%nat)|]. intros _ m' ->. by rewrite drop_0.
Qed.

Lemma wp_uplink_bytes ok l n m :
  (n ≤ length l)%nat →
  wp ok (console_mux_uplink_bytes cycles l (Z.of_nat n))
    (λ _ m', uplinked m (take n l) m' ∧ mx_frame m' = mx_frame m ∧
       uplink_payload_bytes (mx_rpc m') =
         u64 (uplink_payload_bytes (mx_rpc m) + Z.of_nat n)) m.
Proof.
  intros Hn. unfold console_mux_uplink_bytes, console_mux_cycles_now, on_rpc.
  do 7 wp_step. eapply wp_mono; [by apply wp_putchars|]. intros _ m' ->.
  wp_steps. split_and!; [|done|done]. by constructor.
Qed.

(** Sending the pending bytes. *)
Lemma wp_uplink_frame ok m sent pend m0 :
  progress m0 sent pend m →
  wp ok (uplink_frame cycles (Z.of_nat (length pend)))
    (λ _ m', progress m0 (sent ++ pend) [] m') m.
Proof.
  intros [Hu Hh]. unfold uplink_frame. do 2 wp_step.
  eapply wp_mono; [apply wp_uplink_bytes; destruct Hh; lia|].
  intros _ m' (Hu' & Hf & _). destruct Hh as [Hs Hl Hp]. rewrite Hp in Hu'.
  split; [by eapply uplinked_trans|]. constructor; cbn; [by rewrite Hf|done|done].
Qed.

(** Appending one byte and going on. *)
Lemma wp_put_then {A} ok m sent pend b m0 (k : Z → MM A) Q :
  progress m0 sent pend m → Z.of_nat (length pend) < FRAME_SIZE →
  (∀ m', progress m0 sent (pend ++ [b]) m' →
     wp ok (k (Z.of_nat (length (pend ++ [b])))) Q m') →
  wp ok (out <- frame_put (Z.of_nat (length pend)) b ;; k out) Q m.
Proof.
  intros Hp Hl Hk. wp_step. eapply wp_mono; [by apply wp_frame_put|].
  intros out m' [-> Hp']. by apply Hk.
Qed.

Lemma wp_mux_registry ok m :
  Z.of_nat (length (mx_frame m)) = FRAME_SIZE →
  wp ok (console_mux_emit_registry cycles registry_json)
    (λ _ m', uplinked m (wires (registry_tokens registry_json)) m') m.
Proof.
  intros Hm. pose proof (progress_nil m Hm) as Hp. unfold console_mux_emit_registry, registry_tokens.
  cbv zeta. destruct (_ || _) eqn:Hbig; [wp_step; apply uplinked_refl|]. z_bool.
  apply (wp_put_then ok m [] [] _ m); [done|done|]. intros m1 H1. cbn [app] in H1 |- *.
  do 4 (eapply wp_put_then; [done|unfold FRAME_SIZE; cbn; lia|]; clear H1;
        intros ? H1; cbn [app] in H1 |- *).
  wp_step. eapply wp_mono; [apply wp_frame_copy; [done|]|].
  { rewrite length_app. cbn [length]. lia. }
  intros out m2 [-> H2]. eapply wp_mono; [by apply wp_uplink_frame|].
  intros _ m3 [Hu _]. cbn. by rewrite app_nil_r.
Qed.

Lemma uplinked_flag m out m' :
  uplinked m out m' →
  uplinked (set_mx_registry_emitted true m) out (set_mx_registry_emitted true m').
Proof. intros []. by constructor. Qed.

Lemma wp_maybe_emit_registry ok m :
  Z.of_nat (length (mx_frame m)) = FRAME_SIZE →
  wp ok (console_mux_maybe_emit_registry cycles registry_json)
    (λ _ m', uplinked (set_mx_registry_emitted true m)
       (if mx_registry_emitted m then [] else wires (registry_tokens registry_json)) m') m.
Proof.
  intros Hm. unfold console_mux_maybe_emit_registry. do 2 wp_step.
  destruct (mx_registry_emitted m) eqn:He.
  - wp_step. assert (set_mx_registry_emitted true m = m) as -> by (destruct m; cbn in *; by subst).
    apply uplinked_refl.
  - wp_step. eapply wp_mono; [by apply wp_mux_registry|]. intros [] m' Hu. wp_step.
    by apply uplinked_flag.
Qed.

Lemma wp_framed_byte ok sid b m sent pend m0 :
  progress m0 sent pend m → Z.of_nat (length pend) < FRAME_SIZE - 2 →
  wp ok (framed_payload_byte cycles (b2z sid) b (Z.of_nat (length pend)))
    (λ out m', ∃ sent' pend', out = Z.of_nat (length pend') ∧ progress m0 sent' pend' m' ∧
       Z.of_nat (length pend') < FRAME_SIZE - 2 ∧
       if FRAME_SIZE <=? Z.of_nat (length pend) + 4
       then sent' = sent ++ pend ∧ pend' = [VCMUX_ESC; sid] ++ esc_byte b
       else sent' = sent ∧ pend' = pend ++ esc_byte b) m.
Proof.
  intros Hp Hl. unfold framed_payload_byte. wp_step.
  apply (wp_mono _ _ (λ out m', ∃ sent' pend', out = Z.of_nat (length pend') ∧
    progress m0 sent' pend' m' ∧ Z.of_nat (length pend') < FRAME_SIZE - 4 ∧
    if FRAME_SIZE <=? Z.of_nat (length pend) + 4
    then sent' = sent ++ pend ∧ pend' = [VCMUX_ESC; sid] else sent' = sent ∧ pend' = pend)).
  { destruct (FRAME_SIZE <=? _) eqn:Hf; z_bool.
    - wp_step. eapply wp_mono; [by apply wp_uplink_frame|]. intros [] m1 H1.
      apply (wp_put_then ok m1 (sent ++ pend) [] _ m0); [done|done|]. intros m2 H2.
      eapply wp_mono; [by apply wp_frame_put|]. intros out m3 [-> H3].
      exists (sent ++ pend), [VCMUX_ESC; sid]. rewrite z2b_b2z in *. split_and!; done.
    - wp_step. exists sent, pend. split_and!; (done || lia). }
  intros out m1 (sent' & pend' & -> & Hp' & Hl' & Heq). wp_step.
  assert (Hesc : esc_byte b = if bool_decide (b = VCMUX_ESC) then [VCMUX_ESC; b] else [b]) by done.
  rewrite Hesc. clear Hesc. destruct (bool_decide (b = VCMUX_ESC)) eqn:Hb.
  - eapply wp_mono; [apply wp_frame_put; [done|lia]|]. intros out m2 [-> Hp2].
    eapply wp_mono; [apply wp_frame_put; [done|rewrite length_app; cbn [length]; lia]|].
    intros out m3 [-> Hp3]. exists sent', ((pend' ++ [VCMUX_ESC]) ++ [b]).
    split_and!; [done|done|rewrite !length_app; cbn [length]; lia|].
    destruct (FRAME_SIZE <=? _); destruct Heq as [-> ->]; (split; [done|]); by rewrite <-?app_assoc.
  - wp_step. eapply wp_mono; [apply wp_frame_put; [done|lia]|]. intros out m3 [-> Hp3].
    exists sent', (pend' ++ [b]). split_and!; [done|done|rewrite length_app; cbn [length]; lia|].
    destruct (FRAME_SIZE <=? _); by destruct Heq as [-> ->].
Qed.

(** The bytes [buf[off .. off+n-1]]. *)
Definition slice (buf : list byte) (off n : nat) : list byte := take n (drop off buf).

Lemma wp_framed_loop ok sid buf n off m sent pend m0 :
  progress m0 sent pend m → Z.of_nat (length pend) < FRAME_SIZE - 2 →
  (off + n ≤ length buf)%nat →
  wp ok (framed_payload_loop cycles (b2z sid) buf (Z.of_nat off) n (Z.of_nat (length pend)))
    (λ out m', ∃ sent' pend', out = Z.of_nat (length pend') ∧ progress m0 sent' pend' m' ∧
       Z.of_nat (length pend') < FRAME_SIZE - 2 ∧
       sent' ++ pend' = sent ++ pend ++
         wires (payload_tokens sid (Z.of_nat (length pend)) (slice buf off n))) m.
Proof.
  revert off m sent pend. induction n as [|n IH]; intros off m sent pend Hp Hl Hn;
    cbn [framed_payload_loop].
  { wp_step. exists sent, pend. split_and!; [done..|]. cbn. by rewrite app_nil_r. }
  wp_step. apply wp_arr_get; [lia|]. intros b Hb. rewrite Nat2Z.id in Hb.
  unfold slice in *. rewrite (drop_S _ _ _ Hb). cbn [take payload_tokens].
  wp_step. eapply wp_mono; [by apply wp_framed_byte|].
  intros out m1 (sent1 & pend1 & -> & Hp1 & Hl1 & Heq).
  replace (Z.of_nat off + 1) with (Z.of_nat (S off)) by lia.
  eapply wp_mono; [apply IH; [done|done|lia]|].
  intros out m2 (sent2 & pend2 & -> & Hp2 & Hl2 & Heq2).
  exists sent2, pend2. split_and!; [done..|]. rewrite Heq2.
  case_match; destruct Heq as [-> ->]; rewrite ?wires_cons; cbn [wire].
  - rewrite <-!app_assoc. cbn [length app].
    by replace (Z.of_nat (S (S (length (esc_byte b))))) with (2 + Z.of_nat (length (esc_byte b))) by lia.
  - rewrite <-!app_assoc, length_app, Nat2Z.inj_add. done.
Qed.

(** The whole framed payload, after the registry. *)
Lemma wp_emit_framed ok sid buf off n m :
  console_mux_valid_stream_id (b2z sid) = true →
  Z.of_nat (length (mx_frame m)) = FRAME_SIZE → (off + n ≤ length buf)%nat →
  wp ok (console_mux_emit_framed_payload cycles registry_json (b2z sid) buf (Z.of_nat off) (Z.of_nat n))
    (λ _ m', uplinked (set_mx_registry_emitted true m)
       ((if mx_registry_emitted m then [] else wires (registry_tokens registry_json)) ++
        wires (uplink_tokens sid (slice buf off n))) m') m.
Proof.
  intros Hv Hm Hn. unfold console_mux_emit_framed_payload. rewrite Hv. cbn [negb].
  wp_step. eapply wp_mono; [by apply wp_maybe_emit_registry|]. intros [] m1 Hu.
  assert (Z.of_nat (length (mx_frame m1)) = FRAME_SIZE) as Hm1
    by (by rewrite (ul_frame _ _ _ Hu)).
  apply (wp_put_then ok m1 [] [] _ m1); [by apply progress_nil|done|]. intros m2 H2.
  eapply wp_put_then; [done|done|]. intros m3 H3. rewrite z2b_b2z in *. cbn [app] in H3 |- *.
  wp_step. rewrite Nat2Z.id. eapply wp_mono; [apply wp_framed_loop; done|].
  intros out m4 (sent & pend & -> & Hp & Hl & Heq). cbn [app] in Heq.
  wp_step. apply (wp_mono _ _ (λ out m', ∃ sent' pend', out = Z.of_nat (length pend') ∧
    progress m1 sent' pend' m' ∧ Z.of_nat (length pend') < FRAME_SIZE - 1 ∧
    sent' ++ pend' = sent ++ pend)).
  { wp_step.
    - wp_step. eapply wp_mono; [by apply wp_uplink_frame|]. intros [] m5 H5. wp_step.
      exists (sent ++ pend), []. split_and!; [done|done|done|by rewrite app_nil_r].
    - wp_step. exists sent, pend. split_and!; (done || lia). }
  intros out m5 (sent' & pend' & -> & Hp5 & Hl5 & Heq5).
  eapply wp_put_then; [done|lia|]. intros m6 H6.
  eapply wp_put_then; [done|rewrite length_app; cbn [length]; lia|]. intros m7 H7.
  eapply wp_mono; [by apply wp_uplink_frame|]. intros _ m8 [Hu8 _].
  eapply uplinked_trans; [exact Hu|].
  replace (wires (uplink_tokens sid (slice buf off n)))
    with (sent' ++ (pend' ++ [VCMUX_ESC]) ++ [VCMUX_DEFAULT]); [done|].
  rewrite <-!app_assoc, app_assoc, Heq5, Heq. unfold uplink_tokens.
  rewrite wires_cons, wires_app. cbn [wire app]. done.
Qed.

End Uplink.
