(* ===== verification/MuxBatch.v ===== *)
(** * The Mux batch RPC

    [mux_batch_batch] on a client's dataport: which batches are sent, what
    they become on the UART, and what happens when the client's indices are
    outside its buffer. *)

From S2P Require Import Prelude Proto Mux MuxUplink.

(** A dataport whose fields have their C types. *)
Record batch_typed (b : batch_buffer) : Prop := BatchTyped {
  bty_id : 0 ≤ bb_stream_id b < 2 ^ 32;
  bty_head : 0 ≤ bb_head b < 2 ^ 32;
  bty_tail : 0 ≤ bb_tail b < 2 ^ 32;
  bty_buf : Z.of_nat (length (bb_buf b)) = BATCH_SIZE
}.

(** The batches that are sent. *)
Definition batch_live (b : batch_buffer) : bool :=
  console_mux_valid_stream_id (s32 (bb_stream_id b)) && (bb_head b <? bb_tail b).

Definition batch_sid (b : batch_buffer) : byte := z2b (s32 (bb_stream_id b)).

Definition batch_payload (b : batch_buffer) : list byte :=
  slice (bb_buf b) (Z.to_nat (bb_head b)) (Z.to_nat (bb_tail b - bb_head b)).

(** What a batch becomes on the wire, by whether the registry was sent. *)
Definition batch_wire (registry_json : list byte) (emitted : bool) (b : batch_buffer)
    : list byte :=
  (if emitted then [] else wires (registry_tokens registry_json)) ++
  wires (uplink_tokens (batch_sid b) (batch_payload b)).

(* ------------------------------------------------------------------ *)
(** ** Lemmas *)

Lemma s32_small z : 0 ≤ z < 2 ^ 31 → s32 z = z.
Proof. intros Hz. unfold s32. rewrite Z.mod_small; lia. Qed.

Lemma valid_stream_id_range z :
  console_mux_valid_stream_id z = true → 0 < z ≤ 255 ∧ z ≠ 0xfe ∧ z ≠ 0xfd.
Proof.
  unfold console_mux_valid_stream_id. intros Hv. repeat (apply andb_prop in Hv as [Hv ?]).
  z_bool. change (b2z VCMUX_ESC) with 0xfe in *. change (b2z VCMUX_CTRL) with 0xfd in *.
  lia.
Qed.

Lemma valid_stream_id_byte z :
  console_mux_valid_stream_id z = true → b2z (z2b z) = z.
Proof. intros Hv. apply valid_stream_id_range in Hv. apply b2z_z2b_small. lia. Qed.

(** The ids the Mux accepts are the ones a receiver can select. *)
Lemma valid_stream_id_selectable z :
  console_mux_valid_stream_id z = true → selectable (z2b z) = true.
Proof.
  intros Hv. pose proof (valid_stream_id_byte z Hv) as Hb.
  apply valid_stream_id_range in Hv as (H0 & H1 & H2). apply selectable_spec.
  split_and!; intros Heq; rewrite Heq in Hb; cbn in Hb; lia.
Qed.

Section Batch.
Context (cycles : nat → Z) (registry_json : list byte).

Lemma wp_mux_batch ok b m :
  batch_typed b → bb_tail b ≤ BATCH_SIZE → Z.of_nat (length (mx_frame m)) = FRAME_SIZE →
  wp ok (mux_batch_batch cycles registry_json (Some b))
    (λ p m', if batch_live b then
       p = Some (set_bb_head (bb_tail b) b) ∧
       mx_uart m' = mx_uart m ++
         (if mx_serial m then batch_wire registry_json (mx_registry_emitted m) b else []) ∧
       mx_registry_emitted m' = true ∧ mx_serial m' = mx_serial m ∧
       length (mx_frame m') = length (mx_frame m) ∧
       mx_rings m' = mx_rings m ∧ mx_down m' = mx_down m ∧ mx_emits m' = mx_emits m ∧
       mx_rx_stream m' = mx_rx_stream m ∧ mx_rx_escape m' = mx_rx_escape m ∧
       server_calls (mx_rpc m') = u64 (server_calls (mx_rpc m) + 1) ∧
       server_payload_bytes (mx_rpc m') =
         u64 (server_payload_bytes (mx_rpc m) + (bb_tail b - bb_head b))
     else p = Some b ∧ m' = m) m.
Proof.
  intros [Hid Hh Ht Hb] Hmax Hm. unfold mux_batch_batch, batch_live. cbv zeta.
  destruct (console_mux_valid_stream_id _) eqn:Hv; cbn [negb andb]; [|by wp_step].
  destruct (bb_tail b <? bb_head b) eqn:Hlt; z_bool.
  { rewrite (proj2 (Z.ltb_ge _ _)) by lia. by wp_step. }
  assert (Hlen : u32 (bb_tail b - bb_head b) = bb_tail b - bb_head b)
    by (unfold u32; rewrite Z.mod_small; lia).
  rewrite Hlen. destruct (bb_tail b - bb_head b =? 0) eqn:H0; z_bool.
  { rewrite (proj2 (Z.ltb_ge _ _)) by lia. by wp_step. }
  rewrite (proj2 (Z.ltb_lt _ _)) by lia.
  unfold console_mux_cycles_now, on_rpc. do 6 wp_step.
  set (m1 := set_mx_clock _ _).
  pose proof (wp_emit_framed cycles registry_json ok (batch_sid b) (bb_buf b)
    (Z.to_nat (bb_head b)) (Z.to_nat (bb_tail b - bb_head b)) m1) as Hw.
  unfold batch_sid in Hw. rewrite (valid_stream_id_byte _ Hv), !Z2Nat.id in Hw by lia.
  wp_step. eapply wp_mono; [apply Hw; [done|done|lia]|]. clear Hw.
  intros [] m2 []. subst m1. cbn [set_mx_registry_emitted set_mx_clock mx_uart mx_serial
    mx_frame mx_down mx_rx_stream mx_rx_escape mx_rings mx_emits mx_registry_emitted
    mx_rpc mx_clock] in *.
  wp_steps; cbn; rewrite ?ul_calls, ?ul_bytes; split_and!; try done; congruence.
Qed.

(** Reading past the buffer. *)
Lemma framed_loop_overrun sid buf n off m sent pend m0 :
  progress m0 sent pend m → Z.of_nat (length pend) < FRAME_SIZE - 2 →
  (length buf < off + n)%nat → (0 < n)%nat →
  wp (λ w, w = Undefined)
    (framed_payload_loop cycles (b2z sid) buf (Z.of_nat off) n (Z.of_nat (length pend)))
    (λ _ _, False) m.
Proof.
  revert off m sent pend. induction n as [|n IH]; intros off m sent pend Hp Hl Hn H0; [lia|].
  cbn [framed_payload_loop]. wp_step.
  destruct (decide (length buf ≤ off)%nat) as [Hge|Hlt].
  { unfold wp, arr_get. rewrite (proj2 (Z.ltb_ge _ 0)) by lia.
    by rewrite (proj2 (lookup_ge_None buf _)) by lia. }
  apply wp_arr_get; [lia|]. intros b Hb. wp_step.
  eapply wp_mono; [by apply wp_framed_byte|].
  intros out m1 (sent1 & pend1 & -> & Hp1 & Hl1 & _).
  replace (Z.of_nat off + 1) with (Z.of_nat (S off)) by lia.
  eapply IH; [done|done|lia|lia].
Qed.

Lemma mux_batch_overrun b m :
  batch_typed b → batch_live b = true → BATCH_SIZE < bb_tail b →
  Z.of_nat (length (mx_frame m)) = FRAME_SIZE →
  wp (λ w, w = Undefined) (mux_batch_batch cycles registry_json (Some b)) (λ _ _, False) m.
Proof.
  intros [Hid Hh Ht Hb] Hlive Hover Hm. unfold mux_batch_batch, batch_live in *. cbv zeta.
  apply andb_prop in Hlive as [Hv Hlt]. rewrite Hv. z_bool. cbn [negb].
  rewrite (proj2 (Z.ltb_ge _ _)) by lia.
  assert (Hlen : u32 (bb_tail b - bb_head b) = bb_tail b - bb_head b)
    by (unfold u32; rewrite Z.mod_small; lia).
  rewrite Hlen, (proj2 (Z.eqb_neq _ _)) by lia.
  unfold console_mux_cycles_now. do 6 wp_step. unfold console_mux_emit_framed_payload.
  rewrite Hv. cbn [negb]. do 2 wp_step. eapply wp_mono; [by apply wp_maybe_emit_registry|].
  intros [] m1 Hu. assert (Z.of_nat (length (mx_frame m1)) = FRAME_SIZE) as Hm1
    by (by rewrite (ul_frame _ _ _ Hu)).
  apply (wp_put_then _ m1 [] [] _ m1); [by apply progress_nil|done|]. intros m2 H2.
  eapply wp_put_then; [done|done|]. intros m3 H3. cbn [app] in H3 |- *.
  wp_step. rewrite <-(valid_stream_id_byte _ Hv) in *. rewrite <-(Z2Nat.id (bb_head b)) at 1 by lia.
  eapply wp_mono; [eapply framed_loop_overrun; [done|done|lia|lia]|]. done.
Qed.

End Batch.
