(* ===== verification/MuxDown.v ===== *)
(** * The Mux downlink

    The rings as bounded queues, an abstract machine over the tokens of the
    downlink stream, and the proof that the byte handler implements it: each
    payload byte is appended to the ring of the selected stream or dropped
    when the ring is full, and every completed frame wakes the client and is
    acknowledged. *)

From S2P Require Import Prelude Proto Mux MuxUplink.

(* ------------------------------------------------------------------ *)
(** ** Rings as queues *)

Record ring_ok (r : ring) : Prop := RingOk {
  rok_head : 0 ≤ rg_head r < RING_SIZE;
  rok_tail : 0 ≤ rg_tail r < RING_SIZE;
  rok_buf : Z.of_nat (length (rg_buf r)) = RING_SIZE
}.

Definition ring_count (r : ring) : nat := Z.to_nat ((rg_tail r - rg_head r) mod RING_SIZE).

Definition ring_at (r : ring) (k : nat) : byte :=
  default x00 (rg_buf r !! Z.to_nat ((rg_head r + Z.of_nat k) mod RING_SIZE)).

(** The bytes a client has still to read, oldest first. *)
Definition ring_items (r : ring) : list byte := map (ring_at r) (seq 0 (ring_count r)).

(** A ring holds at most one byte less than its size. *)
Definition ring_capacity : Z := RING_SIZE - 1.

(** What happens to the ring of a stream: the Mux enqueues a byte; the client
    (no code of this repository, another component with the ring mapped) reads
    [n] bytes from the head, or as many as there are, and moves the head past
    them. *)
Inductive ring_event : Type := Enqueue (b : byte) | ClientReads (n : nat).

Section Ring.
Context (sinks : list sink) (stream_id : Z) (k : nat).

(** The byte the Mux put, if it did, and those the client got. *)
Definition ring_event_run (e : ring_event) : MM (list byte * list byte) :=
  match e with
  | Enqueue b =>
      z <- console_mux_enqueue_stream_byte sinks stream_id b ;;
      ret (if z =? 0 then [b] else [], [])
  | ClientReads n =>
      m <- get ;;
      rx <- arr_get (mx_rings m) (Z.of_nat k) ;;
      let n := Nat.min n (ring_count rx) in
      rings <- arr_set (mx_rings m) (Z.of_nat k)
        (Ring ((rg_head rx + Z.of_nat n) mod RING_SIZE) (rg_tail rx) (rg_buf rx)) ;;
      modify (set_mx_rings rings) ;;;
      ret ([], map (ring_at rx) (seq 0 n))
  end.

(** All the bytes put and all those the client got, in order. *)
Fixpoint ring_run (l : list ring_event) : MM (list byte * list byte) :=
  match l with
  | [] => ret ([], [])
  | e :: l' =>
      let* (p, c) := ring_event_run e in
      let* (p', c') := ring_run l' in
      ret (p ++ p', c ++ c')
  end.

End Ring.

(* ------------------------------------------------------------------ *)
(** ** The abstract downlink *)

(** The selected stream, the queues, the notifications, the UART output. *)
Record down : Type := Down {
  dn_cur : Z;
  dn_queues : list (list byte);
  dn_emits : list Z;
  dn_uart : list byte
}.

Section Down.
Context (sinks : list sink).

(** The queue that bytes of a stream are put in. *)
Definition queue_of (stream_id : Z) : option nat :=
  match console_mux_sink_for_stream sinks stream_id with
  | Some s => if sk_has_buf s && sk_has_emit s then sk_ring s else None
  | None => None
  end.

Definition down_put (b : byte) (d : down) : down :=
  if dn_cur d <? 0 then d
  else
  match queue_of (dn_cur d) with
  | None => d
  | Some k =>
      match dn_queues d !! k with
      | None => d
      | Some q =>
          if Z.of_nat (length q) <? ring_capacity
          then Down (dn_cur d) (<[k := q ++ [b]]> (dn_queues d)) (dn_emits d) (dn_uart d)
          else d
      end
  end.

(** The client of the current stream is notified. *)
Definition down_ready (d : down) : down :=
  match console_mux_sink_for_stream sinks (dn_cur d) with
  | Some s => if sk_has_emit s
              then Down (dn_cur d) (dn_queues d) (dn_emits d ++ [dn_cur d]) (dn_uart d) else d
  | None => d
  end.

Definition down_ack (d : down) : down :=
  if console_mux_valid_stream_id (dn_cur d)
  then Down (dn_cur d) (dn_queues d) (dn_emits d) (dn_uart d ++ wire TAck) else d.

Definition down_select (sid : Z) (d : down) : down :=
  Down (if console_mux_sink_for_stream sinks sid is Some _ then sid else -1)
    (dn_queues d) (dn_emits d) (dn_uart d).

(** Records are for the other direction: their header unselects. *)
Definition down_step (d : down) (t : token) : down :=
  match t with
  | TByte b => down_put b d
  | TSelect s => down_select (b2z s) (down_ready d)
  | TDefault =>
      let d := down_ack (down_ready d) in Down (-1) (dn_queues d) (dn_emits d) (dn_uart d)
  | TRegistry _ | TAck | TConnected _ | TDisconnected _ =>
      let d := down_ready d in Down (-1) (dn_queues d) (dn_emits d) (dn_uart d)
  end.

(** The same machine byte by byte; the flag is a pending escape. *)
Definition down_byte (s : bool * down) (b : byte) : bool * down :=
  let '(esc, d) := s in
  if esc then
    (false,
     if bool_decide (b = VCMUX_DEFAULT) then down_step d TDefault
     else if bool_decide (b = VCMUX_ESC) then down_put b d
     else if bool_decide (b = VCMUX_CTRL) then down_step d TAck
     else down_step d (TSelect b))
  else if bool_decide (b = VCMUX_ESC) then (true, d) else (false, down_put b d).

(** The abstraction of a state. *)
Definition down_of (m : mux) : down :=
  Down (mx_rx_stream m) (ring_items <$> mx_rings m) (mx_emits m) (mx_uart m).

(** The invariant of the downlink. *)
Record down_ok (m : mux) : Prop := DownOk {
  dok_rings : Forall ring_ok (mx_rings m);
  dok_sinks : ∀ s k, s ∈ sinks → sk_ring s = Some k → (k < length (mx_rings m))%nat;
  dok_stream : -1 ≤ mx_rx_stream m ≤ 255;
  dok_serial : mx_serial m = true
}.

(** The abstract byte machine's view of a state. *)
Definition down_view (m : mux) : bool * down := (mx_rx_escape m, down_of m).

(** The tokens a host sends: frames only. *)
Definition data_token (t : token) : bool :=
  match t with TByte _ | TDefault => true | TSelect s => selectable s | _ => false end.

End Down.

(** The bytes a device delivers before it reports EOF, within [n] reads. *)
Fixpoint device_reads {D : Type} (getchar : D → option byte * D) (n : nat) (d : D)
    : option (list byte * D) :=
  match n with
  | O => None
  | S n' =>
      match getchar d with
      | (None, d') => Some ([], d')
      | (Some b, d') =>
          match device_reads getchar n' d' with
          | Some (l, d'') => Some (b :: l, d'')
          | None => None
          end
      end
  end.

(* ------------------------------------------------------------------ *)
(** ** Lemmas: rings *)

Lemma ring_count_bound r : Z.of_nat (ring_count r) < RING_SIZE.
Proof.
  unfold ring_count. pose proof (Z.mod_pos_bound (rg_tail r - rg_head r) RING_SIZE eq_refl). lia.
Qed.

Lemma ring_items_length r : length (ring_items r) = ring_count r.
Proof. unfold ring_items. by rewrite length_map, length_seq. Qed.

(** The position after the last item is the tail. *)
Lemma ring_tail_pos r :
  ring_ok r → (rg_head r + Z.of_nat (ring_count r)) mod RING_SIZE = rg_tail r.
Proof.
  intros []. unfold ring_count.
  pose proof (Z.mod_pos_bound (rg_tail r - rg_head r) RING_SIZE eq_refl).
  rewrite Z2Nat.id by lia. rewrite Zplus_mod_idemp_r.
  replace (rg_head r + (rg_tail r - rg_head r)) with (rg_tail r) by lia.
  by apply Z.mod_small.
Qed.

Lemma ring_full_iff r :
  ring_ok r →
  ((rg_tail r + 1) mod RING_SIZE =? rg_head r) = negb (Z.of_nat (ring_count r) <? ring_capacity).
Proof.
  intros [Hh Ht _]. unfold ring_capacity, ring_count.
  pose proof (Z.mod_pos_bound (rg_tail r - rg_head r) RING_SIZE eq_refl) as Hm.
  rewrite Z2Nat.id by lia.
  destruct (Z_lt_ge_dec (rg_tail r) (rg_head r)).
  - replace (rg_tail r - rg_head r) with (rg_tail r - rg_head r + RING_SIZE + -1 * RING_SIZE) by lia.
    rewrite Z.mod_add, (Z.mod_small (_ + RING_SIZE)), (Z.mod_small (rg_tail r + 1))
      by (unfold RING_SIZE in *; lia).
    destruct (_ =? _) eqn:?, (_ <? _) eqn:?; z_bool; done || lia.
  - rewrite (Z.mod_small (rg_tail r - rg_head r)) by lia.
    destruct (decide (rg_tail r = RING_SIZE - 1)) as [->|].
    + replace (RING_SIZE - 1 + 1) with RING_SIZE by lia. rewrite Z.mod_same by done.
      destruct (_ =? _) eqn:?, (_ <? _) eqn:?; z_bool; done || lia.
    + rewrite (Z.mod_small (rg_tail r + 1)) by lia.
      destruct (_ =? _) eqn:?, (_ <? _) eqn:?; z_bool; done || lia.
Qed.

(** A ring with one more byte. *)
Local Abbreviation ring_put r b :=
  (Ring (rg_head r) ((rg_tail r + 1) mod RING_SIZE) (<[Z.to_nat (rg_tail r) := b]> (rg_buf r))).

Lemma ring_put_ok r b : ring_ok r → ring_ok (ring_put r b).
Proof.
  intros []. constructor; cbn; [done|by apply Z.mod_pos_bound|by rewrite length_insert].
Qed.

Lemma ring_put_count r b :
  ring_ok r → Z.of_nat (ring_count r) < ring_capacity →
  ring_count (ring_put r b) = S (ring_count r).
Proof.
  intros [Hh Ht _] Hc. unfold ring_count, ring_capacity in *. cbn.
  pose proof (Z.mod_pos_bound (rg_tail r - rg_head r) RING_SIZE eq_refl) as Hm.
  rewrite Zminus_mod_idemp_l.
  replace (rg_tail r + 1 - rg_head r) with (rg_tail r - rg_head r + 1) by lia.
  rewrite <-Zplus_mod_idemp_l, (Z.mod_small (_ + 1)) by lia. lia.
Qed.

(** Items sit at distinct positions, none of them the tail. *)
Lemma ring_pos_not_tail r k :
  ring_ok r → (k < ring_count r)%nat →
  (rg_head r + Z.of_nat k) mod RING_SIZE ≠ rg_tail r.
Proof.
  intros Hr Hk Heq. pose proof (ring_count_bound r). rewrite <-(ring_tail_pos r Hr) in Heq.
  assert (Hd : (Z.of_nat (ring_count r) - Z.of_nat k) mod RING_SIZE = 0).
  { replace (Z.of_nat (ring_count r) - Z.of_nat k)
      with ((rg_head r + Z.of_nat (ring_count r)) - (rg_head r + Z.of_nat k)) by lia.
    by rewrite Zminus_mod, Heq, Z.sub_diag. }
  rewrite Z.mod_small in Hd by lia. lia.
Qed.

Lemma ring_put_items r b :
  ring_ok r → Z.of_nat (ring_count r) < ring_capacity →
  ring_items (ring_put r b) = ring_items r ++ [b].
Proof.
  intros Hr Hc. pose proof Hr as [Hh Ht Hb]. unfold ring_items.
  rewrite ring_put_count by done. rewrite seq_S, map_app. cbn [map Nat.add].
  f_equal.
  - apply map_ext_in. intros k Hk. apply in_seq in Hk. unfold ring_at. cbn.
    rewrite list_lookup_insert_ne; [done|].
    pose proof (ring_pos_not_tail r k Hr ltac:(lia)).
    pose proof (Z.mod_pos_bound (rg_head r + Z.of_nat k) RING_SIZE eq_refl). lia.
  - unfold ring_at. cbn. rewrite (ring_tail_pos r Hr).
    rewrite list_lookup_insert_eq; [done|]. lia.
Qed.

(** Moving the head past [n] items leaves the others. *)
Lemma ring_read_items r n :
  ring_ok r → (n ≤ ring_count r)%nat →
  let r' := Ring ((rg_head r + Z.of_nat n) mod RING_SIZE) (rg_tail r) (rg_buf r) in
  ring_ok r' ∧ ring_items r = map (ring_at r) (seq 0 n) ++ ring_items r'.
Proof.
  intros Hr Hn r'. pose proof Hr as [Hh Ht Hb]. pose proof (ring_count_bound r) as Hc.
  split; [constructor; cbn; [by apply Z.mod_pos_bound|done..]|].
  assert (Hcount : ring_count r' = (ring_count r - n)%nat).
  { unfold ring_count at 1, r'. cbn [rg_head rg_tail]. rewrite <-(ring_tail_pos r Hr).
    rewrite <-Zminus_mod. rewrite Z.mod_small; lia. }
  unfold ring_items at 1 2. rewrite Hcount.
  replace (ring_count r) with (n + (ring_count r - n))%nat at 1 by lia.
  rewrite seq_app, map_app. f_equal.
  replace (seq (0 + n) _) with (map (Nat.add n) (seq 0 (ring_count r - n)))
    by (etrans; [apply (fmap_add_seq n 0)|f_equal; lia]).
  rewrite map_map. apply map_ext. intros j. unfold ring_at, r'. cbn.
  rewrite Zplus_mod_idemp_l. do 4 f_equal. lia.
Qed.

(* ------------------------------------------------------------------ *)
(** ** Lemmas: the handler implements the abstract machine *)

Section Refinement.
Context (cycles : nat → Z) (sinks : list sink).

Lemma sink_elem sid s : console_mux_sink_for_stream sinks sid = Some s → s ∈ sinks.
Proof. intros Hs. apply list_elem_of_In. by apply find_some in Hs as [? _]. Qed.

Lemma sink_id sid s : console_mux_sink_for_stream sinks sid = Some s → sk_stream_id s = sid.
Proof. intros Hs. apply find_some in Hs as [_ He]. by apply Z.eqb_eq. Qed.

(** Changing one ring changes one queue. *)
Lemma items_insert (l : list ring) (k : nat) r :
  ring_items <$> <[k := r]> l = <[k := ring_items r]> (ring_items <$> l).
Proof. apply (list_fmap_insert ring_items). Qed.

(** What a step promises: the invariant and the abstract step. *)
Definition refines (m : mux) (d : down) (m' : mux) : Prop :=
  down_ok sinks m' ∧ down_of m' = d.

Lemma refines_here m m' :
  down_ok sinks m → mx_rings m' = mx_rings m → mx_rx_stream m' = mx_rx_stream m →
  mx_serial m' = mx_serial m → mx_emits m' = mx_emits m → mx_uart m' = mx_uart m →
  refines m (down_of m) m'.
Proof.
  intros [] Hr Hs Hse He Hu. split; [constructor; rewrite ?Hr, ?Hs, ?Hse; done|].
  unfold down_of. congruence.
Qed.

(** The ring after a byte was offered for it, and what the call says. *)
Definition offered (b : byte) (r r' : ring) (z : Z) (s s' : downlink_stats) : Prop :=
  if Z.of_nat (length (ring_items r)) <? ring_capacity then
    z = 0 ∧ ring_items r' = ring_items r ++ [b] ∧ rg_head r' = rg_head r ∧
    s' = set_payload_bytes (bump 1 (payload_bytes s)) s
  else z = -1 ∧ r' = r ∧ s' = set_ring_full_bytes (bump 1 (ring_full_bytes s)) s.

Lemma wp_enqueue_ring ok sid k r b m :
  queue_of sinks sid = Some k → mx_rings m !! k = Some r → ring_ok r →
  wp ok (console_mux_enqueue_stream_byte sinks sid b)
    (λ z m', ∃ r' s', m' = set_mx_down s' (set_mx_rings (<[k := r']> (mx_rings m)) m) ∧
       ring_ok r' ∧ offered b r r' z (mx_down m) s') m.
Proof.
  unfold queue_of, console_mux_enqueue_stream_byte, offered, on_down. intros Hq Hrk Hrok.
  destruct (console_mux_sink_for_stream sinks sid) as [s|]; [|done].
  rewrite <-negb_andb. destruct (sk_has_buf s && sk_has_emit s); cbn [negb]; [|done].
  pose proof (lookup_lt_Some _ _ _ Hrk) as Hlt.
  rewrite Hq. do 3 wp_step. apply wp_arr_get; [lia|]. intros r1 Hr1. rewrite Nat2Z.id in Hr1. simplify_eq.
  cbv zeta. unfold u32. rewrite (Z.mod_small (_ + 1)) by (destruct Hrok; unfold RING_SIZE in *; lia).
  rewrite ring_full_iff, ring_items_length by done.
  destruct (Z.of_nat (ring_count r) <? ring_capacity) eqn:Hfull; cbn [negb]; z_bool.
  - wp_step. apply wp_arr_set; [destruct Hrok; lia|].
    wp_step. apply wp_arr_set; [lia|].
    wp_steps. rewrite Nat2Z.id. eexists (ring_put r b), _. split; [done|].
    split; [by apply ring_put_ok|]. by rewrite ring_put_items.
  - wp_steps. exists r, (set_ring_full_bytes (bump 1 (ring_full_bytes (mx_down m))) (mx_down m)).
    rewrite list_insert_id by done. by destruct m.
Qed.

(** Through any events on a ring its bytes keep their order. *)
Lemma wp_ring_run ok sid k l r m :
  queue_of sinks sid = Some k → mx_rings m !! k = Some r → ring_ok r →
  wp ok (ring_run sinks sid k l)
    (λ pc m', ∃ r' s', m' = set_mx_down s' (set_mx_rings (<[k := r']> (mx_rings m)) m) ∧
       ring_ok r' ∧ ring_items r ++ pc.1 = pc.2 ++ ring_items r') m.
Proof.
  intros Hq. revert r m. induction l as [|e l IH]; intros r m Hrk Hrok; cbn [ring_run].
  { wp_step. exists r, (mx_down m). rewrite list_insert_id, app_nil_r by done. by destruct m. }
  assert (He : wp ok (ring_event_run sinks sid k e)
    (λ pc m', ∃ r' s', m' = set_mx_down s' (set_mx_rings (<[k := r']> (mx_rings m)) m) ∧
       ring_ok r' ∧ ring_items r ++ pc.1 = pc.2 ++ ring_items r') m).
  { destruct e as [b|n]; cbn [ring_event_run]; wp_step.
    - eapply wp_mono; [by apply wp_enqueue_ring|]. intros z m1 (r1 & s1 & -> & Hr1 & Ho). wp_step.
      exists r1, s1. split_and!; [done..|]. unfold offered in Ho. cbn [fst snd app].
      destruct (_ <? _); [destruct Ho as (-> & -> & _)|destruct Ho as (-> & -> & _)]; cbn; [done|].
      by rewrite app_nil_r.
    - pose proof (lookup_lt_Some _ _ _ Hrk) as Hlt.
      wp_step. wp_step. apply wp_arr_get; [lia|]. intros r1 Hr1. rewrite Nat2Z.id in Hr1. simplify_eq.
      cbv zeta. destruct (ring_read_items r (Nat.min n (ring_count r)) Hrok ltac:(lia)) as [Hr1 Hi].
      wp_step. apply wp_arr_set; [lia|]. wp_steps. rewrite Nat2Z.id. eexists _, (mx_down m). split; [done|].
      split; [exact Hr1|]. cbn [fst snd]. by rewrite app_nil_r. }
  wp_step. eapply wp_mono; [exact He|]. intros [p c] m1 (r1 & s1 & -> & Hr1 & H1). cbn [fst snd] in H1.
  wp_step. eapply wp_mono.
  { apply (IH r1); [|done]. cbn. apply list_lookup_insert_eq. by eapply lookup_lt_Some. }
  intros [p' c'] m2 (r2 & s2 & -> & Hr2 & H2). cbn [fst snd] in H2. wp_step.
  exists r2, s2. cbn. rewrite list_insert_insert_eq. split_and!; [done..|].
  by rewrite app_assoc, H1, <-app_assoc, H2, app_assoc.
Qed.

Lemma wp_enqueue ok b m :
  down_ok sinks m → 0 ≤ mx_rx_stream m →
  wp ok (console_mux_enqueue_stream_byte sinks (mx_rx_stream m) b)
    (λ _ m', refines m (down_put sinks b (down_of m)) m' ∧ mx_rx_escape m' = mx_rx_escape m ∧
       length (mx_frame m') = length (mx_frame m)) m.
Proof.
  intros Hok Hs. pose proof Hok as [Hr Hk Hst Hse].
  unfold console_mux_enqueue_stream_byte, drop_missing_sink, on_down.
  unfold down_put, queue_of. cbn [dn_cur down_of].
  rewrite (proj2 (Z.ltb_ge _ 0)) by lia.
  destruct (console_mux_sink_for_stream sinks (mx_rx_stream m)) as [s|] eqn:Hsk.
  2: { wp_steps. split; [by apply refines_here|done]. }
  rewrite <-negb_andb. destruct (sk_has_buf s && sk_has_emit s); cbn [negb].
  2: { wp_steps. split; [by apply refines_here|done]. }
  destruct (sk_ring s) as [k|] eqn:Hring; [|wp_steps; split; [by apply refines_here|done]].
  pose proof (Hk s k (sink_elem _ _ Hsk) Hring) as Hlen.
  destruct (lookup_lt_is_Some_2 (mx_rings m) k Hlen) as [r Hrk].
  pose proof (proj1 (Forall_lookup _ _) Hr k r Hrk) as Hrok.
  do 3 wp_step. apply wp_arr_get; [lia|]. intros r' Hr'. rewrite Nat2Z.id in Hr'. simplify_eq.
  cbn [dn_queues down_of]. rewrite list_lookup_fmap, Hrk. cbn [fmap option_fmap option_map].
  cbv zeta. unfold u32. rewrite (Z.mod_small (_ + 1)) by (destruct Hrok; unfold RING_SIZE in *; lia).
  rewrite ring_full_iff, ring_items_length by done.
  destruct (Z.of_nat (ring_count r) <? ring_capacity) eqn:Hfull; cbn [negb]; z_bool.
  2: { wp_steps. split; [by apply refines_here|done]. }
  wp_step. apply wp_arr_set; [destruct Hrok; lia|]. wp_step. apply wp_arr_set; [lia|].
  wp_steps. rewrite Nat2Z.id. split; [|done]. split.
  - constructor; cbn; [|by rewrite length_insert; eauto|done|done].
    apply Forall_insert; [done|]. by apply (ring_put_ok r b).
  - unfold down_of. cbn. rewrite items_insert. by rewrite <-(ring_put_items r b).
Qed.

Lemma wp_enqueue_current ok b m :
  down_ok sinks m →
  wp ok (enqueue_current sinks b)
    (λ _ m', refines m (down_put sinks b (down_of m)) m' ∧ mx_rx_escape m' = mx_rx_escape m ∧
       length (mx_frame m') = length (mx_frame m)) m.
Proof.
  intros Hok. unfold enqueue_current. do 2 wp_step. wp_step; z_bool.
  - wp_step. eapply wp_mono; [by apply wp_enqueue|]. intros z m' Hp. by wp_step.
  - wp_step. unfold down_put. cbn [dn_cur down_of]. rewrite (proj2 (Z.ltb_lt _ 0)) by lia.
    split; [by apply refines_here|done].
Qed.

Lemma wp_stream_ready ok m :
  down_ok sinks m →
  wp ok (console_mux_emit_stream_ready sinks (mx_rx_stream m))
    (λ _ m', refines m (down_ready sinks (down_of m)) m' ∧ mx_rx_escape m' = mx_rx_escape m ∧
       mx_rx_stream m' = mx_rx_stream m ∧ length (mx_frame m') = length (mx_frame m)) m.
Proof.
  intros Hok. unfold console_mux_emit_stream_ready, down_ready, on_down. cbn [dn_cur down_of].
  destruct (console_mux_sink_for_stream _ _) as [s|]; [|wp_step; split; [by apply refines_here|done]].
  destruct (sk_has_emit s); cbn [negb]; [|wp_step; split; [by apply refines_here|done]].
  wp_steps. split; [|done]. destruct Hok. split; [by constructor|done].
Qed.

Lemma wp_downlink_ack ok m :
  down_ok sinks m →
  wp ok (console_mux_emit_downlink_ack cycles (mx_rx_stream m))
    (λ _ m', refines m (down_ack (down_of m)) m' ∧ mx_rx_escape m' = mx_rx_escape m ∧
       mx_rx_stream m' = mx_rx_stream m ∧ length (mx_frame m') = length (mx_frame m)) m.
Proof.
  intros Hok. unfold console_mux_emit_downlink_ack, down_ack. cbn [dn_cur down_of].
  destruct (console_mux_valid_stream_id _); cbn [negb]; [|wp_step; split; [by apply refines_here|done]].
  eapply wp_mono; [by apply (wp_uplink_bytes cycles ok [VCMUX_ESC; VCMUX_CTRL; VCMUX_CTRL_DOWNLINK_ACK] 3)|].
  intros [] m' ([] & _). destruct Hok as [Hr Hk Hst Hse].
  rewrite Hse in ul_uart. split; [|done]. split.
  - constructor; rewrite ?ul_rings, ?ul_stream; try done. by rewrite ul_serial.
  - unfold down_of. cbn. rewrite ul_rings, ul_stream, ul_emits, ul_uart. done.
Qed.

(** One byte, whatever it is. *)
Lemma wp_feed_downlink ok b m :
  down_ok sinks m →
  wp ok (console_mux_feed_downlink_byte cycles sinks b)
    (λ _ m', down_ok sinks m' ∧ down_view m' = down_byte sinks (down_view m) b) m.
Proof.
  intros Hok. unfold console_mux_feed_downlink_byte, down_byte, down_view. do 2 wp_step.
  destruct (mx_rx_escape m) eqn:Hesc.
  2: { wp_step.
       - wp_step. cbn. destruct Hok. split; [by constructor|done].
       - eapply wp_mono; [by apply wp_enqueue_current|]. intros [] m' ([Hok' Hd] & He & _).
         rewrite He, Hesc. by rewrite <-Hd. }
  do 2 wp_step. set (m0 := set_mx_rx_escape false m).
  assert (Hok0 : down_ok sinks m0) by (destruct Hok; by constructor).
  assert (Hd0 : down_of m0 = down_of m) by done.
  change (mx_rx_stream m) with (mx_rx_stream m0). rewrite <-Hd0.
  wp_step.
  { wp_step. eapply wp_mono; [by apply wp_stream_ready|]. intros [] m1 ([Hok1 Hd1] & He1 & Hs1 & _).
    wp_step. rewrite <-Hs1. eapply wp_mono; [by apply wp_downlink_ack|].
    intros [] m2 ([Hok2 Hd2] & He2 & Hs2 & _). wp_step.
    split; [destruct Hok2; by constructor|]. cbn. rewrite He2, He1.
    cbn [down_step]. rewrite <-Hd1, <-Hd2. done. }
  wp_step.
  { eapply wp_mono; [by apply wp_enqueue_current|]. intros [] m1 ([Hok1 Hd1] & He1 & _).
    split; [done|]. by rewrite He1, Hd1. }
  wp_step.
  { wp_step. eapply wp_mono; [by apply wp_stream_ready|]. intros [] m1 ([Hok1 Hd1] & He1 & Hs1 & _).
    wp_step. split; [destruct Hok1; by constructor|]. cbn. rewrite He1.
    cbn [down_step]. by rewrite <-Hd1. }
  wp_step. eapply wp_mono; [by apply wp_stream_ready|]. intros [] m1 ([Hok1 Hd1] & He1 & Hs1 & _).
  pose proof (b2z_range b). unfold on_down. cbn [down_step]. rewrite <-Hd1. unfold down_select.
  destruct (console_mux_sink_for_stream sinks (b2z b)).
  - wp_step. split; [destruct Hok1; constructor; (done || cbn; lia)|]. cbn. by rewrite He1.
  - wp_steps. split; [destruct Hok1; constructor; (done || cbn; lia)|]. cbn. by rewrite He1.
Qed.

(** A list of bytes. *)
Lemma wp_feed_downlink_all ok l m :
  down_ok sinks m →
  wp ok (for_each l (console_mux_feed_downlink_byte cycles sinks))
    (λ _ m', down_ok sinks m' ∧ down_view m' = foldl (down_byte sinks) (down_view m) l) m.
Proof.
  revert m. induction l as [|b l IH]; intros m Hok; cbn [for_each foldl]; [by wp_step|].
  wp_step. eapply wp_mono; [by apply wp_feed_downlink|]. intros [] m1 [Hok1 Hd1].
  rewrite <-Hd1. by apply IH.
Qed.

(** The bytes of a data token are its step. *)
Lemma down_bytes_token d t :
  data_token t = true →
  foldl (down_byte sinks) (false, d) (wire t) = (false, down_step sinks d t).
Proof.
  destruct t as [b|s| | | | |]; intros Ht; try done; cbn [wire].
  - unfold esc_byte. case_bool_decide as Hb.
    + subst b. done.
    + cbn [foldl down_byte]. by rewrite bool_decide_eq_false_2.
  - cbn in Ht. apply selectable_spec in Ht as (? & ? & ?).
    cbn [foldl]. change (down_byte sinks (false, d) VCMUX_PROTO_ESC_START) with (true, d).
    cbn [down_byte]. by rewrite !bool_decide_eq_false_2.
Qed.

Lemma down_bytes_tokens d ts :
  forallb data_token ts = true →
  foldl (down_byte sinks) (false, d) (wires ts) = (false, foldl (down_step sinks) d ts).
Proof.
  revert d. induction ts as [|t ts IH]; intros d Hts; [done|].
  cbn [forallb] in Hts. apply andb_prop in Hts as [Ht Hts].
  rewrite wires_cons, foldl_app, down_bytes_token by done. by apply IH.
Qed.

Section Device.
Context {D : Type} (getchar : D → option byte * D) (handle_irq : D → D).

(** Draining feeds everything the device delivers before EOF. *)
Lemma wp_drain_loop ok n m d l d' :
  down_ok sinks m → device_reads getchar n d = Some (l, d') →
  wp ok (drain_loop cycles sinks getchar n)
    (λ _ s, down_ok sinks s.1 ∧ s.2 = d' ∧
       down_view s.1 = foldl (down_byte sinks) (down_view m) l) (m, d).
Proof.
  revert m d l. induction n as [|n IH]; intros m d l Hok Hd; [done|].
  cbn [device_reads drain_loop] in *. do 2 wp_step. cbn [snd].
  destruct (getchar d) as [[b|] d1] eqn:Hg.
  2: { simplify_eq. wp_steps. done. }
  destruct (device_reads getchar n d1) as [[l1 d2]|] eqn:Hrest; [|done]. simplify_eq.
  do 2 wp_step. cbn [fst]. wp_step. unfold wp at 1, lift, on_down. cbn [fst snd modify].
  set (m1 := set_mx_down _ m). wp_step.
  assert (Hok1 : down_ok sinks m1) by (destruct Hok; by constructor).
  pose proof (wp_feed_downlink total b m1 Hok1) as Hf.
  apply wp_total_done in Hf as ([] & m2 & Hrun & Hok2 & Hd2).
  unfold wp at 1, lift. cbn [fst snd]. rewrite Hrun.
  eapply wp_mono; [by apply IH|]. intros _ s (? & ? & Hs). split_and!; [done..|].
  rewrite Hs, Hd2. done.
Qed.

Lemma wp_handle_uart_irq ok n m d l1 d1 l2 d2 :
  down_ok sinks m → device_reads getchar n d = Some (l1, d1) →
  device_reads getchar n (handle_irq d1) = Some (l2, d2) →
  wp ok (console_mux_handle_uart_irq cycles sinks getchar handle_irq n)
    (λ _ s, down_ok sinks s.1 ∧ s.2 = d2 ∧
       down_view s.1 = foldl (down_byte sinks) (down_view m) (l1 ++ l2)) (m, d).
Proof.
  intros Hok H1 H2. unfold console_mux_handle_uart_irq, console_mux_drain_uart. do 2 wp_step.
  cbn [fst]. rewrite (dok_serial _ _ Hok). cbn [negb]. do 3 wp_step. cbn [fst].
  rewrite (dok_serial _ _ Hok). cbn [negb].
  eapply wp_mono; [by apply wp_drain_loop|]. intros _ [m1 e1] (Hok1 & He1 & Hd1). cbn in *. subst e1.
  do 4 wp_step. cbn [fst]. rewrite (dok_serial _ _ Hok1). cbn [negb].
  eapply wp_mono; [by apply wp_drain_loop|]. intros _ [m2 e2] (Hok2 & He2 & Hd2).
  split_and!; [done..|]. cbn in *. by rewrite foldl_app, <-Hd1.
Qed.

End Device.

End Refinement.
