(* ===== verification/MuxSpec.v ===== *)
(** * What the CAmkES Mux guarantees

    Uplink: framing, splitting, the registry, bounds.  Downlink: queues,
    notifications, acknowledgements, the interrupt handler. *)

From S2P Require Import Prelude Proto Mux MuxUplink MuxBatch MuxDown.

(** The payload bytes of a token sequence. *)
Definition token_bytes (ts : list token) : list byte :=
  omap (λ t, match t with TByte b => Some b | _ => None end) ts.

(** A sink that takes bytes into ring [k]. *)
Definition accepts (sinks : list sink) (sid : Z) (k : nat) : Prop :=
  queue_of sinks sid = Some k.

(** Concrete component: three rings, two sinks. *)
Definition demo_ring : ring := Ring 4086 4086 (replicate (Z.to_nat RING_SIZE) x00).
Definition demo_sinks : list sink := [Sink 1 true true (Some 0%nat); Sink 2 true true (Some 1%nat)].
Definition demo_mux : mux := mux_init [demo_ring; demo_ring].
Definition demo_json : list byte := bs "{}".
Definition demo_cycles : nat → Z := λ n, 10 * Z.of_nat n.

(** A dataport with [payload] from offset [head] on. *)
Definition demo_batch (sid head : Z) (payload : list byte) : batch_buffer :=
  let buf := replicate (Z.to_nat head) x00 ++ payload in
  BatchBuffer sid head (head + Z.of_nat (length payload))
    (buf ++ replicate (Z.to_nat BATCH_SIZE - length buf) x00).

(** A client after client calling the RPC. *)
Fixpoint serve (cycles : nat → Z) (json : list byte) (l : list batch_buffer) : MM unit :=
  match l with
  | [] => ret tt
  | b :: l' => mux_batch_batch cycles json (Some b) ;;; serve cycles json l'
  end.

(** What they send. *)
Fixpoint serve_wire (json : list byte) (emitted : bool) (l : list batch_buffer) : list byte :=
  match l with
  | [] => []
  | b :: l' =>
      if batch_live b then batch_wire json emitted b ++ serve_wire json true l'
      else serve_wire json emitted l'
  end.

(* ------------------------------------------------------------------ *)
(** ** Lemmas *)

Lemma serve_run cycles json l m :
  Forall (λ b, batch_typed b ∧ bb_tail b ≤ BATCH_SIZE) l →
  Z.of_nat (length (mx_frame m)) = FRAME_SIZE → mx_serial m = true →
  ∃ m', serve cycles json l m = Done tt m' ∧
    mx_uart m' = mx_uart m ++ serve_wire json (mx_registry_emitted m) l ∧
    length (mx_frame m') = length (mx_frame m) ∧ mx_serial m' = true.
Proof.
  intros Hl. revert m. induction Hl as [|b l [Hb Ht] _ IH]; intros m Hm Hs; cbn [serve serve_wire].
  { exists m. split; [done|]. by rewrite app_nil_r. }
  pose proof (wp_mux_batch cycles json total b m Hb Ht Hm) as Hw.
  apply wp_total_done in Hw as (p & m1 & Hrun & Hp). rewrite (run_bind _ _ _ _ _ Hrun).
  destruct (batch_live b).
  - destruct Hp as (-> & Hu & Hr & Hs1 & Hf & _). rewrite Hs in Hu, Hs1.
    destruct (IH m1) as (m2 & Hrun2 & Hu2 & Hf2 & Hs2); [by rewrite Hf|done|].
    exists m2. split; [done|]. split; [by rewrite Hu2, Hu, Hr, app_assoc|]. by rewrite Hf2.
  - destruct Hp as [-> ->]. by apply IH.
Qed.

Lemma demo_down_ok : down_ok demo_sinks demo_mux.
Proof.
  constructor; cbn; [|intros s k Hs Hk|lia|done].
  - repeat constructor; cbn; unfold RING_SIZE; lia.
  - unfold demo_sinks in Hs. rewrite !elem_of_cons in Hs.
    destruct Hs as [->|[->|Hs]]; [cbn in Hk; simplify_eq; lia..|by apply not_elem_of_nil in Hs].
Qed.

Lemma demo_frame_size : Z.of_nat (length (mx_frame demo_mux)) = FRAME_SIZE.
Proof. by vm_compute. Qed.

Lemma frame_data_tokens sid l :
  selectable sid = true → forallb data_token (frame_tokens sid l) = true.
Proof.
  intros Hs. unfold frame_tokens. rewrite !forallb_app. cbn [forallb data_token].
  rewrite Hs. cbn. rewrite andb_true_r. by induction l.
Qed.

(** Payload bytes fill the queue up to its capacity. *)
Lemma down_puts sinks l d k q :
  0 ≤ dn_cur d → accepts sinks (dn_cur d) k → dn_queues d !! k = Some q →
  foldl (down_step sinks) d (map TByte l) =
  Down (dn_cur d) (<[k := q ++ take (Z.to_nat ring_capacity - length q) l]> (dn_queues d))
    (dn_emits d) (dn_uart d).
Proof.
  intros Hc Ha. revert d q Hc Ha. induction l as [|b l IH]; intros d q Hc Ha Hq; cbn [map foldl].
  { rewrite take_nil, app_nil_r, list_insert_id by done. by destruct d. }
  cbn [down_step]. unfold down_put. rewrite (proj2 (Z.ltb_ge _ 0)) by done.
  rewrite Ha, Hq. destruct (Z.of_nat (length q) <? ring_capacity) eqn:Hlt; z_bool.
  - rewrite (IH (Down _ _ _ _) (q ++ [b])) by (cbn; try done;
      apply list_lookup_insert_eq; by eapply lookup_lt_Some).
    cbn [dn_cur dn_queues dn_emits dn_uart]. rewrite list_insert_insert_eq.
    f_equal. f_equal. rewrite <-app_assoc, length_app. cbn [length].
    replace (Z.to_nat ring_capacity - length q)%nat
      with (S (Z.to_nat ring_capacity - (length q + 1))) by lia. done.
  - rewrite (IH d q) by done.
    replace (Z.to_nat ring_capacity - length q)%nat with 0%nat by lia. by rewrite !take_0.
Qed.

(** [pre_init] leaves the statics as [mux_init] has them, and the UART in the
    mode in which it sends bytes as they are. *)
Lemma pre_init_run fatal bit rings flags :
  0 ≤ bit →
  ∃ flags', pre_init fatal (2 ^ bit) 0 (Some flags) (set_mx_serial false (mux_init rings)) =
      Done flags' (mux_init rings) ∧ Z.testbit flags' bit = false ∧
    ∀ k, 0 ≤ k → k ≠ bit → Z.testbit flags' k = Z.testbit flags k.
Proof.
  intros Hb. eexists. split; [reflexivity|]. split.
  - rewrite Z.land_spec, Z.lnot_spec, Z.pow2_bits_true by done. apply andb_false_r.
  - intros k Hk Hne. rewrite Z.land_spec, Z.lnot_spec, Z.pow2_bits_false by congruence || lia.
    apply andb_true_r.
Qed.

(** The bit trick recognises the powers of two. *)
Lemma is_power_of_two_spec v :
  0 ≤ v < 2 ^ 64 → console_mux_is_power_of_two v = true ↔ ∃ k, 0 ≤ k ∧ v = 2 ^ k.
Proof.
  intros Hv. unfold console_mux_is_power_of_two. rewrite andb_true_iff, negb_true_iff, Z.eqb_neq, Z.eqb_eq.
  split.
  - intros [H0 Hl]. exists (Z.log2 v). split; [apply Z.log2_nonneg|].
    unfold u64 in Hl. rewrite Z.mod_small in Hl by lia.
    destruct (Z.log2_spec v) as [Hlo Hhi]; [lia|].
    destruct (Z.eq_dec v (2 ^ Z.log2 v)) as [|Hne]; [done|].
    assert (Hpos : 0 < 2 ^ Z.log2 v) by (apply Z.pow_pos_nonneg; [lia|apply Z.log2_nonneg]).
    assert (Hlog : Z.log2 (v - 1) = Z.log2 v).
    { apply Z.log2_unique; [apply Z.log2_nonneg|]. lia. }
    pose proof (f_equal (λ z, Z.testbit z (Z.log2 v)) Hl) as Hbit. cbv beta in Hbit.
    rewrite Z.land_spec, Z.bits_0, Z.bit_log2 in Hbit by lia.
    rewrite <-Hlog, Z.bit_log2 in Hbit by lia. done.
  - intros (k & Hk & ->). assert (0 < 2 ^ k) by (by apply Z.pow_pos_nonneg). split; [lia|].
    unfold u64. rewrite Z.mod_small by lia. apply Z.bits_inj'. intros j Hj.
    rewrite Z.land_spec, Z.bits_0. destruct (Z.eq_dec j k) as [->|Hne].
    + rewrite Z.sub_1_r, <-Z.ones_equiv, Z.ones_spec_high by lia. apply andb_false_r.
    + by rewrite Z.pow2_bits_false by congruence.
Qed.

(* ------------------------------------------------------------------ *)
(** ** Uplink *)

(** C16: framing.  For every payload inside its buffer and every accepted
    stream id, framing finishes inside the frame buffer and sends, after the
    registry record if it was not sent yet, a well-formed token sequence: it
    selects the stream, carries exactly the payload's bytes in order, selects
    nothing but that stream, and ends with the default token.  A payload that
    fits one buffer is exactly one frame. *)
Theorem uplink_framing cycles json sid buf off n m :
  console_mux_valid_stream_id (b2z sid) = true →
  Z.of_nat (length (mx_frame m)) = FRAME_SIZE → (off + n ≤ length buf)%nat →
  ∃ m' mid,
    console_mux_emit_framed_payload cycles json (b2z sid) buf (Z.of_nat off) (Z.of_nat n) m =
      Done tt m' ∧
    uplinked (set_mx_registry_emitted true m)
      ((if mx_registry_emitted m then [] else wires (registry_tokens json)) ++
       wires (TSelect sid :: mid ++ [TDefault])) m' ∧
    token_bytes mid = slice buf off n ∧
    Forall (λ t, t = TSelect sid ∨ ∃ b, t = TByte b) mid ∧
    (2 + Z.of_nat (length (esc_bytes (slice buf off n))) < FRAME_SIZE - 3 →
     wires (TSelect sid :: mid ++ [TDefault]) = frame sid (slice buf off n)).
Proof.
  intros Hv Hm Hn.
  destruct (wp_total_done _ _ _ (wp_emit_framed cycles json total sid buf off n m Hv Hm Hn))
    as ([] & m' & Hrun & Hu).
  exists m', (payload_tokens sid 2 (slice buf off n)).
  split_and!; [done|done|apply payload_tokens_bytes|apply payload_tokens_kind|].
  intros Hs. rewrite payload_tokens_short by done. by rewrite frame_wires.
Qed.

(** C16 on a payload with an escape byte. *)
Lemma uplink_framing_witness :
  let buf := [x68; xfe; x69] in
  ∃ m' mid,
    console_mux_emit_framed_payload demo_cycles demo_json (b2z x01) buf (Z.of_nat 0) (Z.of_nat 3)
      demo_mux = Done tt m' ∧
    uplinked (set_mx_registry_emitted true demo_mux)
      ((if mx_registry_emitted demo_mux then [] else wires (registry_tokens demo_json)) ++
       wires (TSelect x01 :: mid ++ [TDefault])) m' ∧
    token_bytes mid = slice buf 0 3 ∧
    Forall (λ t, t = TSelect x01 ∨ ∃ b, t = TByte b) mid ∧
    (2 + Z.of_nat (length (esc_bytes (slice buf 0 3))) < FRAME_SIZE - 3 →
     wires (TSelect x01 :: mid ++ [TDefault]) = frame x01 (slice buf 0 3)).
Proof.
  intros buf. apply (uplink_framing demo_cycles demo_json x01 buf 0 3 demo_mux);
    [reflexivity|exact demo_frame_size|cbn; lia].
Defined.

(** The batch RPC.  A batch whose indices lie in its buffer is consumed:
    when its stream id is valid and it is not empty, its bytes are framed to
    the UART (after the registry the first time), its head is moved to its
    tail and the statistics count one call and its bytes; any other batch
    changes nothing at all.  The downlink state is never touched. *)
Theorem batch_consumed cycles json b m :
  batch_typed b → bb_tail b ≤ BATCH_SIZE → Z.of_nat (length (mx_frame m)) = FRAME_SIZE →
  ∃ p m', mux_batch_batch cycles json (Some b) m = Done p m' ∧
    if batch_live b then
      p = Some (set_bb_head (bb_tail b) b) ∧
      mx_uart m' = mx_uart m ++
        (if mx_serial m then batch_wire json (mx_registry_emitted m) b else []) ∧
      mx_registry_emitted m' = true ∧ down_view m' = (mx_rx_escape m,
        Down (mx_rx_stream m) (ring_items <$> mx_rings m) (mx_emits m) (mx_uart m')) ∧
      Z.of_nat (length (mx_frame m')) = FRAME_SIZE ∧
      server_calls (mx_rpc m') = u64 (server_calls (mx_rpc m) + 1) ∧
      server_payload_bytes (mx_rpc m') =
        u64 (server_payload_bytes (mx_rpc m) + (bb_tail b - bb_head b))
    else p = Some b ∧ m' = m.
Proof.
  intros Hb Ht Hm.
  destruct (wp_total_done _ _ _ (wp_mux_batch cycles json total b m Hb Ht Hm)) as (p & m' & Hrun & Hp).
  exists p, m'. split; [done|]. destruct (batch_live b); [|done].
  destruct Hp as (-> & Hu & Hr & _ & Hf & Hrg & Hd & He & Hs & Hes & Hc & Hby).
  unfold down_view, down_of. rewrite Hf, Hrg, He, Hs, Hes. done.
Qed.

Lemma batch_consumed_witness :
  let b := demo_batch 1 7 (bs "hello") in
  batch_live b = true ∧
  ∃ p m', mux_batch_batch demo_cycles demo_json (Some b) demo_mux = Done p m' ∧
    if batch_live b then
      p = Some (set_bb_head (bb_tail b) b) ∧
      mx_uart m' = mx_uart demo_mux ++
        (if mx_serial demo_mux then batch_wire demo_json (mx_registry_emitted demo_mux) b else []) ∧
      mx_registry_emitted m' = true ∧ down_view m' = (mx_rx_escape demo_mux,
        Down (mx_rx_stream demo_mux) (ring_items <$> mx_rings demo_mux) (mx_emits demo_mux)
          (mx_uart m')) ∧
      Z.of_nat (length (mx_frame m')) = FRAME_SIZE ∧
      server_calls (mx_rpc m') = u64 (server_calls (mx_rpc demo_mux) + 1) ∧
      server_payload_bytes (mx_rpc m') =
        u64 (server_payload_bytes (mx_rpc demo_mux) + (bb_tail b - bb_head b))
    else p = Some b ∧ m' = demo_mux.
Proof.
  intros b. split; [reflexivity|].
  apply (batch_consumed demo_cycles demo_json b demo_mux);
    [constructor; vm_compute; intuition congruence|vm_compute; congruence|exact demo_frame_size].
Defined.

(** C31: the bound the Mux leaves to its clients.  For a batch that is sent,
    the handler completes exactly when the client's tail lies in its buffer;
    a larger tail makes it read outside the dataport (it has no check). *)
Theorem batch_safe_iff cycles json b m :
  batch_typed b → batch_live b = true → Z.of_nat (length (mx_frame m)) = FRAME_SIZE →
  (∃ p m', mux_batch_batch cycles json (Some b) m = Done p m') ↔ bb_tail b ≤ BATCH_SIZE.
Proof.
  intros Hb Hl Hm. split.
  - intros (p & m' & Hrun). destruct (Z.le_gt_cases (bb_tail b) BATCH_SIZE); [done|].
    pose proof (mux_batch_overrun cycles json b m Hb Hl ltac:(lia) Hm) as Hw.
    unfold wp in Hw. by rewrite Hrun in Hw.
  - intros Ht. destruct (wp_total_done _ _ _ (wp_mux_batch cycles json total b m Hb Ht Hm))
      as (p & m' & Hrun & _). eauto.
Qed.

Lemma batch_safe_iff_witness :
  let b := BatchBuffer 1 4080 4085 (replicate (Z.to_nat BATCH_SIZE) x41) in
  (∃ p m', mux_batch_batch demo_cycles demo_json (Some b) demo_mux = Done p m') ↔
  bb_tail b ≤ BATCH_SIZE.
Proof.
  intros b. apply (batch_safe_iff demo_cycles demo_json b demo_mux);
    [constructor; vm_compute; intuition congruence|reflexivity|exact demo_frame_size].
Defined.

(** The UART carries the batches in order, the registry once.  Serving
    any sequence of batches whose indices lie in their buffers finishes and
    sends exactly the framed payloads of the live ones, in order, with the
    registry record once, before the first of them. *)
Theorem serve_in_order cycles json l m :
  Forall (λ b, batch_typed b ∧ bb_tail b ≤ BATCH_SIZE) l →
  Z.of_nat (length (mx_frame m)) = FRAME_SIZE → mx_serial m = true →
  ∃ m', serve cycles json l m = Done tt m' ∧
    mx_uart m' = mx_uart m ++ serve_wire json (mx_registry_emitted m) l.
Proof.
  intros Hl Hm Hs. destruct (serve_run cycles json l m Hl Hm Hs) as (m' & Hrun & Hu & _).
  by exists m'.
Qed.

Lemma serve_in_order_witness :
  let l := [demo_batch 1 0 (bs "one"); demo_batch 254 0 (bs "bad"); demo_batch 2 9 [xfe]] in
  ∃ m', serve demo_cycles demo_json l demo_mux = Done tt m' ∧
    mx_uart m' = mx_uart demo_mux ++ serve_wire demo_json (mx_registry_emitted demo_mux) l.
Proof.
  intros l. apply (serve_in_order demo_cycles demo_json l demo_mux);
    [|exact demo_frame_size|reflexivity].
  repeat (constructor; [split; [constructor; vm_compute; intuition congruence|
    vm_compute; congruence]|]). constructor.
Defined.

(* ------------------------------------------------------------------ *)
(** ** Downlink *)

(** C26: the ring of a stream is a bounded queue that loses nothing it took.
    Offered a byte while fewer than 4087 wait, [console_mux_enqueue_stream_byte]
    appends it to the bytes the client will read, counts it and returns 0, the
    head and every other ring as they were; when 4087 wait it changes nothing
    but the count of dropped bytes and returns -1.  And however such calls and
    reads of the client alternate: what waited at first and the bytes the
    calls accepted are, in order, the bytes the client read and those that
    wait now, of which there are never more than 4087.  (The client's reads
    are those of another component: it advances the head, at most to the
    tail.) *)
Theorem ring_is_queue sinks sid k r m :
  accepts sinks sid k → mx_rings m !! k = Some r → ring_ok r →
  (∀ b, ∃ z r' s',
     console_mux_enqueue_stream_byte sinks sid b m =
       Done z (set_mx_down s' (set_mx_rings (<[k := r']> (mx_rings m)) m)) ∧
     ring_ok r' ∧
     (Z.of_nat (length (ring_items r)) < 4087 →
        z = 0 ∧ ring_items r' = ring_items r ++ [b] ∧ rg_head r' = rg_head r ∧
        s' = set_payload_bytes (bump 1 (payload_bytes (mx_down m))) (mx_down m)) ∧
     (4087 ≤ Z.of_nat (length (ring_items r)) →
        z = -1 ∧ r' = r ∧
        s' = set_ring_full_bytes (bump 1 (ring_full_bytes (mx_down m))) (mx_down m))) ∧
  (∀ l, ∃ put got r' s',
     ring_run sinks sid k l m =
       Done (put, got) (set_mx_down s' (set_mx_rings (<[k := r']> (mx_rings m)) m)) ∧
     ring_items r ++ put = got ++ ring_items r' ∧
     Z.of_nat (length (ring_items r')) ≤ 4087).
Proof.
  intros Ha Hk Hr. split.
  - intros b. pose proof (wp_enqueue_ring sinks total sid k r b m Ha Hk Hr) as Hw.
    destruct (wp_total_done _ _ _ Hw) as (z & m' & Hrun & r' & s' & -> & Hr' & Ho).
    exists z, r', s'. split_and!; [done|done|intros Hn|intros Hn]; unfold offered in Ho.
    + by rewrite (proj2 (Z.ltb_lt _ ring_capacity)) in Ho.
    + by rewrite (proj2 (Z.ltb_ge _ ring_capacity)) in Ho.
  - intros l. pose proof (wp_ring_run sinks total sid k l r m Ha Hk Hr) as Hw.
    destruct (wp_total_done _ _ _ Hw) as ([put got] & m' & Hrun & r' & s' & -> & Hr' & Ho).
    exists put, got, r', s'. split_and!; [done|done|]. rewrite ring_items_length.
    pose proof (ring_count_bound r'). unfold RING_SIZE in *. lia.
Qed.

(** C26 across the end of the buffer: two bytes wait, four are offered, the
    client reads three, then one, then finds one. *)
Lemma ring_is_queue_witness :
  let r := Ring 4085 4087 (replicate (Z.to_nat RING_SIZE) x61) in
  let m := mux_init [demo_ring; r] in
  ((∀ b, ∃ z r' s',
     console_mux_enqueue_stream_byte demo_sinks 2 b m =
       Done z (set_mx_down s' (set_mx_rings (<[1%nat := r']> (mx_rings m)) m)) ∧
     ring_ok r' ∧
     (Z.of_nat (length (ring_items r)) < 4087 →
        z = 0 ∧ ring_items r' = ring_items r ++ [b] ∧ rg_head r' = rg_head r ∧
        s' = set_payload_bytes (bump 1 (payload_bytes (mx_down m))) (mx_down m)) ∧
     (4087 ≤ Z.of_nat (length (ring_items r)) →
        z = -1 ∧ r' = r ∧
        s' = set_ring_full_bytes (bump 1 (ring_full_bytes (mx_down m))) (mx_down m))) ∧
   (∀ l, ∃ put got r' s',
     ring_run demo_sinks 2 1 l m =
       Done (put, got) (set_mx_down s' (set_mx_rings (<[1%nat := r']> (mx_rings m)) m)) ∧
     ring_items r ++ put = got ++ ring_items r' ∧
     Z.of_nat (length (ring_items r')) ≤ 4087)) ∧
  ring_items r = [x61; x61] ∧
  match ring_run demo_sinks 2 1
    [Enqueue x01; Enqueue x02; ClientReads 3; Enqueue x03; ClientReads 1; ClientReads 5; Enqueue x04] m with
  | Done (put, got) _ => put = [x01; x02; x03; x04] ∧ got = [x61; x61; x01; x02; x03]
  | Stop _ _ => False
  end.
Proof.
  intros r m. split; [|vm_compute; repeat split; reflexivity].
  apply (ring_is_queue demo_sinks 2 1 r m); [reflexivity|reflexivity|].
  constructor; vm_compute; intuition congruence.
Defined.

(** A full ring refuses. *)
Example ring_full_refuses :
  let m := mux_init [Ring 5 4 (replicate (Z.to_nat RING_SIZE) x61); demo_ring] in
  match ring_run demo_sinks 1 0 [Enqueue x01; ClientReads 1; Enqueue x02; Enqueue x03] m with
  | Done (put, got) m' => put = [x02] ∧ got = [x61] ∧
      ring_full_bytes (mx_down m') = 2 ∧ payload_bytes (mx_down m') = 1
  | Stop _ _ => False
  end.
Proof. vm_compute. repeat split; reflexivity. Qed.

(** C17: the downlink handler implements the abstract queues.  On any bytes
    at all (frames, noise, control records) it finishes, never leaves a ring,
    and does exactly what the abstract machine does on the queues, the
    notifications, the acknowledgements and the selected stream. *)
Theorem downlink_refines cycles sinks l m :
  down_ok sinks m →
  ∃ m', for_each l (console_mux_feed_downlink_byte cycles sinks) m = Done tt m' ∧
    down_ok sinks m' ∧ down_view m' = foldl (down_byte sinks) (down_view m) l.
Proof.
  intros Hok. destruct (wp_total_done _ _ _ (wp_feed_downlink_all cycles sinks total l m Hok))
    as ([] & m' & Hrun & Hp). by exists m'.
Qed.

Lemma downlink_refines_witness :
  let l := [xfe; x01; x41; xfe; xfe; xfe; xfd; x03; xfe; x63; x42; xfe] in
  ∃ m', for_each l (console_mux_feed_downlink_byte demo_cycles demo_sinks) demo_mux = Done tt m' ∧
    down_ok demo_sinks m' ∧ down_view m' = foldl (down_byte demo_sinks) (down_view demo_mux) l.
Proof. intros l. exact (downlink_refines demo_cycles demo_sinks l demo_mux demo_down_ok). Defined.

(** A downlink frame reaches its client.  A frame for a stream with a
    sink, received between frames, appends its payload to that stream's queue
    (as much of it as there is room for) and to no other, notifies that client
    once and acknowledges the frame once; the handler is then between frames. *)
Theorem downlink_frame cycles sinks sid k q payload m :
  down_ok sinks m → mx_rx_escape m = false → mx_rx_stream m = -1 →
  console_mux_sink_for_stream sinks (-1) = None →
  console_mux_valid_stream_id (b2z sid) = true → accepts sinks (b2z sid) k →
  (ring_items <$> mx_rings m) !! k = Some q →
  ∃ m', for_each (frame sid payload) (console_mux_feed_downlink_byte cycles sinks) m =
          Done tt m' ∧ down_ok sinks m' ∧
    mx_rx_escape m' = false ∧ mx_rx_stream m' = -1 ∧
    ring_items <$> mx_rings m' =
      <[k := q ++ take (Z.to_nat ring_capacity - length q) payload]> (ring_items <$> mx_rings m) ∧
    mx_emits m' = mx_emits m ++ [b2z sid] ∧ mx_uart m' = mx_uart m ++ wire TAck.
Proof.
  intros Hok He Hs Hno Hv Ha Hq.
  pose proof (valid_stream_id_selectable _ Hv) as Hsel. rewrite z2b_b2z in Hsel.
  destruct (wp_total_done _ _ _ (wp_feed_downlink_all cycles sinks total (frame sid payload) m Hok))
    as ([] & m' & Hrun & Hok' & Hd).
  exists m'. split; [done|]. split; [done|].
  rewrite frame_wires in Hd. unfold down_view in Hd. rewrite He in Hd.
  rewrite down_bytes_tokens in Hd.
  2: { by apply frame_data_tokens. }
  unfold frame_tokens in Hd. rewrite !foldl_app in Hd. cbn [foldl down_step] in Hd.
  pose proof Ha as Ha'. unfold accepts, queue_of in Ha'.
  destruct (console_mux_sink_for_stream sinks (b2z sid)) as [s|] eqn:Hsk; [|done].
  assert (Hemit : sk_has_emit s = true) by (by destruct (sk_has_buf s), (sk_has_emit s)).
  unfold down_select, down_ready in Hd. cbn [dn_cur down_of] in Hd. rewrite Hs, Hno, Hsk in Hd.
  rewrite (down_puts _ _ _ k q) in Hd; [|cbn; apply b2z_range|done|done].
  cbn [dn_cur dn_queues dn_emits dn_uart down_of] in Hd. rewrite Hsk, Hemit in Hd.
  unfold down_ack in Hd. cbn [dn_cur dn_queues dn_emits dn_uart] in Hd. rewrite Hv in Hd.
  injection Hd as -> Hs' Hq' He' Hu'. done.
Qed.

Lemma downlink_frame_witness :
  ∃ m', for_each (frame x02 [x6c; xfe; x0a]) (console_mux_feed_downlink_byte demo_cycles demo_sinks)
          demo_mux = Done tt m' ∧ down_ok demo_sinks m' ∧
    mx_rx_escape m' = false ∧ mx_rx_stream m' = -1 ∧
    ring_items <$> mx_rings m' =
      <[1%nat := [] ++ take (Z.to_nat ring_capacity - length (@nil byte)) [x6c; xfe; x0a]]>
        (ring_items <$> mx_rings demo_mux) ∧
    mx_emits m' = mx_emits demo_mux ++ [b2z x02] ∧ mx_uart m' = mx_uart demo_mux ++ wire TAck.
Proof.
  apply (downlink_frame demo_cycles demo_sinks x02 1 [] [x6c; xfe; x0a] demo_mux demo_down_ok);
    vm_compute; reflexivity.
Defined.

(** C32: the interrupt handler drains the UART.  When the device reports EOF
    after finitely many reads before and after its own interrupt handling, the
    handler terminates having fed exactly the delivered bytes, in order, and
    acknowledges the interrupt after that. *)
Theorem uart_irq_drains {D} cycles sinks (getchar : D → option byte * D) (handle_irq : D → D)
    (acknowledge : D → Z * D) n m d l1 d1 l2 d2 :
  down_ok sinks m → device_reads getchar n d = Some (l1, d1) →
  device_reads getchar n (handle_irq d1) = Some (l2, d2) →
  ∃ m', serial_dev_irq_handle cycles sinks getchar handle_irq acknowledge n (m, d) =
      Done tt (m', (acknowledge d2).2) ∧
    down_ok sinks m' ∧ down_view m' = foldl (down_byte sinks) (down_view m) (l1 ++ l2).
Proof.
  intros Hok H1 H2.
  destruct (wp_total_done _ _ _
    (wp_handle_uart_irq cycles sinks getchar handle_irq total n m d l1 d1 l2 d2 Hok H1 H2))
    as ([] & [m' d'] & Hrun & Hok' & Hd & Hv). cbn [fst snd] in Hok', Hd, Hv. subst d'. exists m'.
  split; [|done]. unfold serial_dev_irq_handle. rewrite (run_bind _ _ _ _ _ Hrun).
  unfold bind, get, modify. cbn. by destruct (acknowledge d2).
Qed.

(** C32 on a device that is a list of bytes, to which the interrupt
    acknowledgement adds one that had arrived meanwhile. *)
Lemma uart_irq_drains_witness :
  let getchar := λ d : list byte, match d with [] => (None, []) | b :: d' => (Some b, d') end in
  let handle_irq := λ d : list byte, d ++ [x5a] in
  let acknowledge := λ d : list byte, (0, d ++ [x0a]) in
  ∃ m', serial_dev_irq_handle demo_cycles demo_sinks getchar handle_irq acknowledge 9
          (demo_mux, [xfe; x01; x41]) = Done tt (m', [x0a]) ∧
    down_ok demo_sinks m' ∧
    down_view m' = foldl (down_byte demo_sinks) (down_view demo_mux) ([xfe; x01; x41] ++ [x5a]).
Proof.
  intros getchar handle_irq acknowledge.
  apply (uart_irq_drains demo_cycles demo_sinks getchar handle_irq acknowledge 9 demo_mux _ _ [] _ []
    demo_down_ok); reflexivity.
Defined.
