(* ===== verification/HostTx.v ===== *)
(** * Downlink: from the PTYs to the UART

    [write_virtioso_data_to_uart], [write_data_to_uart] and
    [pty_input_handler] of [host/tcu_com.c].  The encoding buffers are lists
    with the capacity they were allocated with; writing past it is undefined.
    Here a call is alone; [TxPar] has the same code with the write lock and
    other threads between its actions.  Messages on [stderr] are not modelled. *)

From S2P Require Import Prelude Proto HostState HostIo.

Definition VIRTIOSO_DOWNLINK_FRAGMENT_PAYLOAD_SIZE : Z := 512.
Definition MAX_WRITE_CHUNK_SIZE : Z := 4096.
Definition temporary_buffer_size : Z := 1024.

Section HostTx.
Context (E : env) (fuel : nat).

(** [buf[idx++] = b] in a buffer of [max] bytes holding [idx] bytes. *)
Definition buf_put (max : Z) (buf : list byte) (b : byte) : HM (list byte) :=
  if Z.of_nat (length buf) <? max then ret (buf ++ [b]) else halt Undefined.

(** The loop that doubles the inner escape byte. *)
Fixpoint put_inner (max : Z) (buf data : list byte) : HM (list byte) :=
  match data with
  | [] => ret buf
  | byte :: data' =>
      buf <- (if bool_decide (byte = VCMUX_PROTO_ESC_START)
              then buf_put max buf VCMUX_PROTO_ESC_ESC else ret buf) ;;
      buf <- buf_put max buf byte ;;
      put_inner max buf data'
  end.

(** The loop that follows each outer escape byte with its complement. *)
Fixpoint put_outer (max : Z) (buf data : list byte) : HM (list byte) :=
  match data with
  | [] => ret buf
  | byte :: data' =>
      buf <- buf_put max buf byte ;;
      buf <- (if bool_decide (byte = UART_PROTO_ESC_START)
              then buf_put max buf UART_PROTO_ESC_ESC else ret buf) ;;
      put_outer max buf data'
  end.

(** The outer encoding of [data] in a buffer of [max] bytes. *)
Definition encode_outer (max : Z) (data : list byte) : HM (list byte) :=
  h <- get ;;
  buf <- buf_put max [] UART_PROTO_ESC_START ;;
  t <- arr_get chip_tags (virtioso_outer_tag_idx (cfg h)) ;;
  buf <- buf_put max buf (tag_value t) ;;
  put_outer max buf data.

(** The inner frame of a chunk in a buffer of [max] bytes. *)
Definition encode_inner (max : Z) (pty_idx : Z) (chunk : list byte) : HM (list byte) :=
  h <- get ;;
  buf <- buf_put max [] VCMUX_PROTO_ESC_START ;;
  t <- arr_get (tags h) pty_idx ;;
  buf <- buf_put max buf (tag_value t) ;;
  buf <- put_inner max buf chunk ;;
  buf <- buf_put max buf VCMUX_PROTO_ESC_START ;;
  buf_put max buf VCMUX_PROTO_ESC_DEFAULT.

(** Raw writes to the physical UART. *)
Definition write_raw_uart (data : list byte) : HM Z :=
  h <- get ;;
  if negb (enable_write_raw_pty (cfg h)) then ret 0
  else if virtioso_outer_mode (cfg h) =? VIRTIOSO_OUTER_NVIDIA_TCU then
    let max := Z.of_nat (length data) * 2 + 2 in
    ok <- alloc E max ;;
    if negb ok then ret (- ENOMEM)
    else
      buf <- encode_outer max data ;;
      putbuf_or_exit E fuel (tty_fd h) buf
  else putbuf_or_exit E fuel (tty_fd h) data.

(** [while (processed < len)] over the bytes still to send. *)
Fixpoint write_fragments (n : nat) (pty_idx : Z) (data : list byte) : HM Z :=
  match data with
  | [] => ret 0
  | _ =>
      match n with
      | O => halt OutOfFuel
      | S n' =>
          let size := Z.to_nat VIRTIOSO_DOWNLINK_FRAGMENT_PAYLOAD_SIZE in
          let chunk := take size data in
          let inner_max := Z.of_nat (length chunk) * 2 + 4 in
          let outer_max := inner_max * 2 + 2 in
          inner_ok <- alloc E inner_max ;;
          outer_ok <- alloc E outer_max ;;
          if negb inner_ok || negb outer_ok then ret (- ENOMEM)
          else
            h <- get ;;
            inner <- encode_inner inner_max pty_idx chunk ;;
            r <- (if virtioso_outer_mode (cfg h) =? VIRTIOSO_OUTER_NVIDIA_TCU then
                    outer <- encode_outer outer_max inner ;;
                    putbuf_or_exit E fuel (tty_fd h) outer
                  else putbuf_or_exit E fuel (tty_fd h) inner) ;;
            if r <? 0 then ret r else write_fragments n' pty_idx (drop size data)
      end
  end.

Definition write_virtioso_data_to_uart (pty_idx : Z) (data : list byte) : HM Z :=
  h <- get ;;
  if pty_max_count h <=? pty_idx then ret (- EINVAL)
  else if (pty_idx =? raw_pty_idx (cfg h)) || (pty_idx =? virtioso_default_pty_idx (cfg h))
  then write_raw_uart data
  else write_fragments (length data) pty_idx data.

(** [WRITE_BYTE_TO_ENCODED_BUF]: a full buffer makes the call fail. *)
Definition encoded_max : Z := MAX_WRITE_CHUNK_SIZE * 4 + 16.
Definition write_byte (buf : list byte) (x : byte) : option (list byte) :=
  if encoded_max <=? Z.of_nat (length buf) then None else Some (buf ++ [x]).

(** The loop over a chunk's bytes. *)
Fixpoint encode_chunk (raw : bool) (buf chunk : list byte) : option (list byte) :=
  match chunk with
  | [] => Some buf
  | b :: chunk' =>
      match write_byte buf b with
      | None => None
      | Some buf =>
          if bool_decide (b = UART_PROTO_ESC_START) && negb raw then
            match write_byte buf UART_PROTO_ESC_ESC with
            | None => None
            | Some buf => encode_chunk raw buf chunk'
            end
          else encode_chunk raw buf chunk'
      end
  end.

(** [while (processed < len)]; [first] is [processed == 0]. *)
Fixpoint write_chunks (n : nat) (first : bool) (pty_idx : Z) (data : list byte) : HM Z :=
  match data with
  | [] => ret 0
  | _ =>
      match n with
      | O => halt OutOfFuel
      | S n' =>
          h <- get ;;
          let raw := pty_idx =? raw_pty_idx (cfg h) in
          let size := Z.to_nat MAX_WRITE_CHUNK_SIZE in
          header <- (if first && negb raw then
                       t <- arr_get (tags h) pty_idx ;;
                       ret match write_byte [] UART_PROTO_ESC_START with
                           | None => None
                           | Some buf => write_byte buf (tag_value t)
                           end
                     else ret (Some [])) ;;
          match header with
          | None => ret (- ENOMEM)
          | Some buf =>
              match encode_chunk raw buf (take size data) with
              | None => ret (- ENOMEM)
              | Some buf =>
                  r <- putbuf_or_exit E fuel (tty_fd h) buf ;;
                  if r <? 0 then ret r else write_chunks n' false pty_idx (drop size data)
              end
          end
      end
  end.

Definition write_data_to_uart (pty_idx : Z) (data : list byte) : HM Z :=
  h <- get ;;
  if virtioso_mode_enabled (cfg h) then write_virtioso_data_to_uart pty_idx data
  else if pty_max_count h <=? pty_idx then ret (- EINVAL)
  else if (pty_idx =? raw_pty_idx (cfg h)) && negb (enable_write_raw_pty (cfg h)) then ret 0
  else
    ok <- alloc E encoded_max ;;
    if negb ok then ret (- ENOMEM) else write_chunks (length data) true pty_idx data.

(** One turn of the loop of [pty_input_handler] for the thread of [t]. *)
Definition pty_input_step (t : thread_data) : HM unit :=
  let pty_idx := td_id t mod 256 (* unsigned char *) in
  p <- sys E (RqPollIn (td_fd t) (-1)) ;;
  if should_retry_io p then ret tt
  else
    assert_c (res p =? 1) ;;;
    assert_c (Z.land (revents p) POLLNVAL =? 0) ;;;
    if Z.land (revents p) POLLIN =? 0 then sys E (RqSleep 1000000) ;;; ret tt
    else
      r <- sys E (RqRead (td_fd t) temporary_buffer_size) ;;
      if 0 <? res r then
        write_data_to_uart pty_idx (take (Z.to_nat (res r)) (res_bytes r)) ;;; ret tt
      else ret tt.

(** The thread: its buffer, then the first [turns] turns of its endless loop. *)
Fixpoint pty_input_loop (turns : nat) (t : thread_data) : HM unit :=
  match turns with
  | O => ret tt
  | S n => pty_input_step t ;;; pty_input_loop n t
  end.

Definition pty_input_handler (turns : nat) (t : thread_data) : HM unit :=
  ok <- alloc E temporary_buffer_size ;;
  if negb ok then ret tt else pty_input_loop turns t.

End HostTx.
