(* ===== verification/HostTxInv.v ===== *)
(** * What the downlink writers put on the UART

    The encoders fill their buffers without leaving them; a write call offers
    the device the encodings of its chunks in order, all of them unless it
    returns an error, a first few of them then.  An encoding is cut short only
    where the device took less of a write than it was given, which the call
    does not report. *)

From S2P Require Import Prelude Proto HostState HostIo HostIoInv HostTx.

(** The data cut into fragments of [size] bytes. *)
Fixpoint cut (size n : nat) (data : list byte) : list (list byte) :=
  match data with
  | [] => []
  | _ => match n with
         | O => []
         | S n' => take size data :: cut size n' (drop size data)
         end
  end.

(** The tag of the NVIDIA TCU client that carries the frames. *)
Definition carrier (h : host) : byte :=
  match chip_tags !! Z.to_nat (virtioso_outer_tag_idx (cfg h)) with
  | Some t => tag_value t
  | None => x00
  end.

(** What is sent for one frame. *)
Definition packet (h : host) (l : list byte) : list byte :=
  if virtioso_outer_mode (cfg h) =? VIRTIOSO_OUTER_NVIDIA_TCU
  then tcu_frame (carrier h) l else l.

Definition packets (h : host) (sid : byte) (data : list byte) : list (list byte) :=
  map (λ c, packet h (frame sid c))
    (cut (Z.to_nat VIRTIOSO_DOWNLINK_FRAGMENT_PAYLOAD_SIZE) (length data) data).

(** What the legacy writer sends for one chunk. *)
Definition legacy_chunk (raw : bool) (chunk : list byte) : list byte :=
  if raw then chunk else tcu_bytes chunk.

(** What it sends for a write, [hdr] being the two bytes that select the
    stream, empty for the raw PTY. *)
Definition legacy_packets (raw : bool) (hdr data : list byte) : list (list byte) :=
  match map (legacy_chunk raw) (cut (Z.to_nat MAX_WRITE_CHUNK_SIZE) (length data) data) with
  | [] => []
  | p :: ps => (hdr ++ p) :: ps
  end.

Definition stream_tag (h : host) (i : Z) : byte :=
  match tags h !! Z.to_nat i with Some t => tag_value t | None => x00 end.

(** What a write to the PTY of an index is to send. *)
Definition downlink_packets (h : host) (i : Z) (data : list byte) : list (list byte) :=
  if virtioso_mode_enabled (cfg h) then
    if (i =? raw_pty_idx (cfg h)) || (i =? virtioso_default_pty_idx (cfg h)) then
      if enable_write_raw_pty (cfg h) then [packet h data] else []
    else packets h (stream_tag h i) data
  else if i =? raw_pty_idx (cfg h) then
    if enable_write_raw_pty (cfg h) then legacy_packets true [] data else []
  else legacy_packets false [UART_PROTO_ESC_START; stream_tag h i] data.

(** The outer tag is one of the table when it is used. *)
Definition carrier_ok (h : host) : Prop :=
  virtioso_outer_mode (cfg h) = VIRTIOSO_OUTER_NVIDIA_TCU →
  0 ≤ virtioso_outer_tag_idx (cfg h) < Z.of_nat (length chip_tags).

(** The outcome of sending [ps] one after the other: [cs] is what the device
    took of them, of each or, after an error, of the first [k]. *)
Definition sends (E : env) (h : host) (ps : list (list byte)) (z : Z) (h' : host) : Prop :=
  ∃ cs, accepts_on h h' (tty_fd h) (concat cs) ∧
    (0 ≤ z ∧ Forall2 (taken E (tty_fd h)) cs ps ∧ (no_short E (tty_fd h) → z = 0) ∨
     z < 0 ∧ ∃ k, Forall2 (taken E (tty_fd h)) cs (take k ps)).

(* ------------------------------------------------------------------ *)
(** ** Lemmas: encoders *)

Lemma concat_cut size n (data : list byte) :
  (0 < size)%nat → (length data ≤ n)%nat → concat (cut size n data) = data.
Proof.
  intros Hs. revert data. induction n as [|n IH]; intros data Hn.
  - by destruct data; cbn in *; [|lia].
  - destruct data as [|b data]; [done|]. cbn [cut concat]. rewrite IH.
    + by rewrite take_drop.
    + rewrite length_drop. cbn in *. lia.
Qed.

Lemma cut_size size n (data : list byte) :
  (0 < size)%nat → Forall (λ c, 1 ≤ length c ≤ size)%nat (cut size n data).
Proof.
  intros Hs. revert data. induction n as [|n IH]; intros [|b data]; cbn [cut]; try constructor.
  - rewrite length_take. cbn. lia.
  - apply IH.
Qed.

(** The fuel of [cut] does not matter once it covers the data. *)
Lemma cut_fuel size n m (data : list byte) :
  (0 < size)%nat → (length data ≤ n)%nat → (length data ≤ m)%nat →
  cut size n data = cut size m data.
Proof.
  intros Hs. revert m data. induction n as [|n IH]; intros m [|b data] Hn Hm.
  1, 3: by destruct m.
  - cbn in Hn. lia.
  - destruct m as [|m]; [cbn in Hm; lia|]. cbn [cut]. cbn in Hn, Hm.
    f_equal. apply IH; rewrite ?length_drop; cbn [length]; lia.
Qed.

Lemma tcu_bytes_length (l : list byte) : (length (tcu_bytes l) ≤ 2 * length l)%nat.
Proof.
  unfold tcu_bytes. induction l as [|b l IH]; [done|]. cbn [map concat length].
  rewrite length_app. unfold tcu_byte at 1. case_bool_decide; cbn [length]; lia.
Qed.

Lemma frame_length sid (l : list byte) : (length (frame sid l) ≤ 2 * length l + 4)%nat.
Proof.
  unfold frame. rewrite !length_app. pose proof (esc_bytes_length l). cbn. lia.
Qed.

Lemma buf_put_run max (buf : list byte) b h :
  Z.of_nat (length buf) < max → buf_put max buf b h = Done (buf ++ [b]) h.
Proof. intros Hl. unfold buf_put. by rewrite (proj2 (Z.ltb_lt _ _)). Qed.

Lemma buf_put_bind {A} max (buf : list byte) b (k : list byte → HM A) h :
  Z.of_nat (length buf) < max → (buf <- buf_put max buf b ;; k buf) h = k (buf ++ [b]) h.
Proof. intros Hl. by rewrite (run_bind _ _ _ _ _ (buf_put_run max buf b h Hl)). Qed.

(** Room in a buffer, from the lengths of its parts. *)
Ltac room := rewrite ?length_app in *; cbn [length app] in *; lia.

Lemma put_inner_run max data buf h :
  Z.of_nat (length (buf ++ esc_bytes data)) ≤ max →
  put_inner max buf data h = Done (buf ++ esc_bytes data) h.
Proof.
  revert buf. induction data as [|b data IH]; intros buf Hl; cbn [put_inner].
  { cbn. by rewrite app_nil_r. }
  unfold esc_bytes in *. cbn [map concat] in *. rewrite !length_app in Hl.
  unfold esc_byte at 1 in Hl. unfold esc_byte at 1. case_bool_decide; cbn [length] in Hl.
  - rewrite !buf_put_bind by room. rewrite IH by room. by rewrite <-!app_assoc.
  - rewrite bind_ret_l, buf_put_bind, IH by room. by rewrite <-!app_assoc.
Qed.

Lemma put_outer_run max data buf h :
  Z.of_nat (length (buf ++ tcu_bytes data)) ≤ max →
  put_outer max buf data h = Done (buf ++ tcu_bytes data) h.
Proof.
  revert buf. induction data as [|b data IH]; intros buf Hl; cbn [put_outer].
  { cbn. by rewrite app_nil_r. }
  unfold tcu_bytes in *. cbn [map concat] in *. rewrite !length_app in Hl.
  unfold tcu_byte at 1 in Hl. unfold tcu_byte at 1.
  case_bool_decide; cbn [length] in Hl; rewrite buf_put_bind by room.
  - rewrite buf_put_bind, IH by room. by rewrite <-!app_assoc.
  - rewrite bind_ret_l, IH by room. by rewrite <-!app_assoc.
Qed.

Lemma encode_inner_run h i t chunk max :
  0 ≤ i → tags h !! Z.to_nat i = Some t →
  Z.of_nat (length chunk) * 2 + 4 ≤ max →
  encode_inner max i chunk h = Done (frame (tag_value t) chunk) h.
Proof.
  intros Hi Ht Hm. pose proof (esc_bytes_length chunk). unfold encode_inner, frame.
  rewrite (run_bind _ _ _ h h) by done.
  rewrite buf_put_bind by room. rewrite (run_bind _ _ _ t h) by (by apply arr_get_run).
  rewrite buf_put_bind by room. cbn [app].
  rewrite (run_bind _ _ _ _ _ (put_inner_run max chunk [VCMUX_PROTO_ESC_START; tag_value t] h
    ltac:(room))).
  rewrite buf_put_bind, buf_put_run by room.
  f_equal. by rewrite <-!app_assoc.
Qed.

Lemma encode_outer_run h data max :
  0 ≤ virtioso_outer_tag_idx (cfg h) < Z.of_nat (length chip_tags) →
  Z.of_nat (length data) * 2 + 2 ≤ max →
  encode_outer max data h = Done (tcu_frame (carrier h) data) h.
Proof.
  intros Hi Hm. pose proof (tcu_bytes_length data). unfold encode_outer, tcu_frame, carrier.
  destruct (lookup_lt_is_Some_2 chip_tags (Z.to_nat (virtioso_outer_tag_idx (cfg h))))
    as [t Ht]; [lia|]. rewrite Ht.
  rewrite (run_bind _ _ _ h h) by done.
  rewrite buf_put_bind by room. rewrite (run_bind _ _ _ t h) by (apply arr_get_run; (done || lia)).
  rewrite buf_put_bind, put_outer_run by room. done.
Qed.

(** The legacy buffer has room for any chunk. *)
Lemma encode_chunk_run raw chunk buf :
  Z.of_nat (length buf) + 2 * Z.of_nat (length chunk) ≤ encoded_max →
  encode_chunk raw buf chunk = Some (buf ++ legacy_chunk raw chunk).
Proof.
  revert buf. induction chunk as [|b chunk IH]; intros buf Hl; cbn [encode_chunk].
  { destruct raw; cbn; by rewrite app_nil_r. }
  cbn [length] in Hl. unfold write_byte at 1. rewrite (proj2 (Z.leb_gt _ _)) by lia.
  destruct raw; cbn [negb]; rewrite ?andb_false_r, ?andb_true_r; cbn [legacy_chunk].
  - rewrite IH by room. by rewrite <-app_assoc.
  - unfold tcu_bytes. cbn [map concat]. unfold tcu_byte at 1. case_bool_decide.
    + unfold write_byte. rewrite (proj2 (Z.leb_gt _ _)) by room.
      rewrite IH by room. by rewrite <-!app_assoc.
    + rewrite IH by room. by rewrite <-app_assoc.
Qed.


(* ------------------------------------------------------------------ *)
(** ** Lemmas: sequences of frames *)

Lemma packet_called h h' l : called h h' → packet h' l = packet h l.
Proof. intros Hc. unfold packet, carrier. by rewrite (called_cfg _ _ Hc). Qed.

Lemma packets_called h h' sid data : called h h' → packets h' sid data = packets h sid data.
Proof. intros Hc. apply map_ext. intros c. by apply packet_called. Qed.

Lemma packets_cons h sid data :
  data ≠ [] →
  packets h sid data =
  packet h (frame sid (take (Z.to_nat VIRTIOSO_DOWNLINK_FRAGMENT_PAYLOAD_SIZE) data)) ::
  packets h sid (drop (Z.to_nat VIRTIOSO_DOWNLINK_FRAGMENT_PAYLOAD_SIZE) data).
Proof.
  intros Hd. unfold packets. destruct data as [|b data]; [done|]. cbn [length cut map]. f_equal.
  f_equal. unfold VIRTIOSO_DOWNLINK_FRAGMENT_PAYLOAD_SIZE.
  apply cut_fuel; rewrite ?length_drop; cbn [length]; lia.
Qed.

Lemma legacy_packets_cons raw hdr data :
  data ≠ [] →
  legacy_packets raw hdr data =
  (hdr ++ legacy_chunk raw (take (Z.to_nat MAX_WRITE_CHUNK_SIZE) data)) ::
  legacy_packets raw [] (drop (Z.to_nat MAX_WRITE_CHUNK_SIZE) data).
Proof.
  intros Hd. unfold legacy_packets. destruct data as [|b data]; [done|]. cbn [length cut map]. f_equal.
  rewrite (cut_fuel _ (length data) (length (drop (Z.to_nat MAX_WRITE_CHUNK_SIZE) (b :: data)))).
  - by destruct (map _ _).
  - unfold MAX_WRITE_CHUNK_SIZE. lia.
  - unfold MAX_WRITE_CHUNK_SIZE. rewrite length_drop. cbn [length]. lia.
  - done.
Qed.

Lemma carrier_ok_called h h' : called h h' → carrier_ok h → carrier_ok h'.
Proof. intros Hc. unfold carrier_ok. by rewrite (called_cfg _ _ Hc). Qed.

Section Sends.
Context (E : env).

Lemma sends_fail h ps z h' :
  z < 0 → accepts_on h h' (tty_fd h) [] → sends E h ps z h'.
Proof. intros Hz Ha. exists []. split; [done|]. right. split; [done|]. by exists 0%nat. Qed.

Lemma sends_done h : sends E h [] 0 h.
Proof. exists []. split; [by apply accepts_nil|]. by left. Qed.

Lemma sends_skip h h1 ps z h' :
  accepts_on h h1 (tty_fd h) [] → sends E h1 ps z h' → sends E h ps z h'.
Proof.
  intros Ha (cs & Hl & Hz). destruct (called_fields _ _ (proj1 Ha)) as (_ & Ht & _).
  rewrite Ht in *. exists cs. split; [by apply (accepts_trans _ _ _ _ [] _ Ha)|done].
Qed.

(** A device that took nothing, or everything, of the last buffer. *)
Lemma sends_last h p ps z h1 :
  putbuf_post E (tty_fd h) p h z h1 → z < 0 → sends E h (p :: ps) z h1.
Proof.
  intros (l & Ha & [[? _]|[_ Hl]]) Hz; [lia|].
  destruct Hl as [-> | ->]; [by apply sends_fail|].
  exists [p]. cbn. rewrite app_nil_r. split; [done|]. right. split; [done|]. exists 1%nat.
  rewrite firstn_cons, take_0. constructor; [by left|constructor].
Qed.

Lemma sends_cons h p ps z h1 z' h' :
  putbuf_post E (tty_fd h) p h z h1 → 0 ≤ z → sends E h1 ps z' h' → sends E h (p :: ps) z' h'.
Proof.
  intros (l & Ha & Hl) Hz (cs & Ha' & Hcs).
  destruct (called_fields _ _ (proj1 Ha)) as (_ & Ht & _). rewrite Ht in *.
  destruct Hl as [(_ & Hl & _)|[? _]]; [|lia].
  exists (l :: cs). split; [by eapply accepts_trans|].
  destruct Hcs as [(Hz' & Hcs & Hns)|[Hz' [k Hcs]]]; [left|right].
  - split; [done|]. split; [by constructor|done].
  - split; [done|]. exists (S k). by constructor.
Qed.

Lemma sends_one h p z h1 : putbuf_post E (tty_fd h) p h z h1 → sends E h [p] z h1.
Proof.
  intros Hp. pose proof Hp as (l & Ha & [(Hz & Hl & Hns)|[Hz _]]); [|by apply sends_last].
  exists [l]. cbn. rewrite app_nil_r. split; [done|]. left. split; [done|]. split; [|done].
  by constructor.
Qed.

End Sends.

(* ------------------------------------------------------------------ *)
(** ** Lemmas: the write calls *)

(** Sending one buffer, under conditions that decide which stops can occur:
    either any, or none on a prompt descriptor. *)
Definition sender (E : env) (fuel : nat) (ok : stop → Prop) (fd : Z) : Prop :=
  ∀ h buf, tty_fd h = fd →
    wp ok (putbuf_or_exit E fuel fd buf)
      (λ z h', putbuf_post E fd buf h z h' ∧ (prompt E fd → z = 0)) h.

Lemma sender_any E fuel fd (ok : stop → Prop) :
  ok OutOfFuel → ok AssertFail → (0 < fuel)%nat → sender E fuel ok fd.
Proof.
  intros Ho Ha Hf h buf _. apply wp_conj; [by apply wp_putbuf|].
  pose proof (wp_putbuf E fuel ok fd buf h Ho Ha) as Hw. revert Hw. unfold wp.
  destruct (putbuf_or_exit E fuel fd buf h) as [z h'|] eqn:Hr; [|done]. intros _ Hp.
  by destruct (wp_done _ _ _ _ _ _ Hr (wp_putbuf_prompt E fuel total fd buf h Hp Hf)).
Qed.

Lemma sender_prompt E fuel fd ok : prompt E fd → (0 < fuel)%nat → sender E fuel ok fd.
Proof.
  intros Hp Hf h buf _. eapply wp_mono; [by apply wp_putbuf_prompt|].
  intros z h' [-> Ha]. split; [|done]. exists buf. split; [done|]. left. by repeat split; [|left].
Qed.

Lemma sender_answers E fuel ok fd : output_answers E → (0 < fuel)%nat → sender E fuel ok fd.
Proof.
  intros Ha Hf h buf Hfd.
  apply wp_combine; [by apply sender_any|by apply wp_putbuf_answers].
Qed.

Section Writers.
Context (E : env) (fuel : nat) (ok : stop → Prop) (fd : Z).
Context (Hput : sender E fuel ok fd).

(** What a write call that was to send [ps] did. *)
Definition written (h : host) (ps : list (list byte)) (z : Z) (h' : host) : Prop :=
  sends E h ps z h' ∧ (prompt E fd → alloc_ok E → z = 0).

Lemma written_cons h h1 h' p ps z z' :
  tty_fd h = fd → putbuf_post E fd p h z h1 → 0 ≤ z → written h1 ps z' h' →
  written h (p :: ps) z' h'.
Proof. intros <- Hp Hz [Hs Hc]. split; [by eapply sends_cons|done]. Qed.

Lemma written_skip h h1 h' ps z :
  tty_fd h = fd → accepts_on h h1 fd [] → written h1 ps z h' → written h ps z h'.
Proof. intros <- Ha [Hs Hc]. split; [by eapply sends_skip|done]. Qed.

(** A failed allocation. *)
Lemma written_nomem h h1 ps :
  tty_fd h = fd → accepts_on h h1 fd [] → (alloc_ok E → False) →
  written h ps (- ENOMEM) h1.
Proof.
  intros <- Ha Hno. split; [by apply sends_fail|]. intros _ Hok. by destruct (Hno Hok).
Qed.

Lemma wp_alloc_fd {A} n (k : bool → HM A) (Q : A → host → Prop) h :
  (∀ b h1, accepts_on h h1 fd [] → (alloc_ok E → b = true) → wp ok (k b) Q h1) →
  wp ok (b <- alloc E n ;; k b) Q h.
Proof.
  intros H. hw_step. hw_step. subst r. apply H; [by apply accepts_other|].
  intros Hok. apply negb_true_iff, Z.eqb_neq, Hok.
Qed.

Lemma wp_put1 h buf ps (K : Z → HM Z) :
  tty_fd h = fd →
  (∀ z h1, putbuf_post E fd buf h z h1 → tty_fd h1 = fd → called h h1 → 0 ≤ z →
     wp ok (K z) (λ z' h', written h (buf :: ps) z' h') h1) →
  wp ok (r <- putbuf_or_exit E fuel fd buf ;; if r <? 0 then ret r else K r)
    (λ z' h', written h (buf :: ps) z' h') h.
Proof.
  intros Hfd HK. wp_step. eapply wp_mono; [by apply Hput|]. intros z h1 [Hp Hz]. cbv beta.
  pose proof (putbuf_called _ _ _ _ _ _ Hp) as Hc. wp_step; z_bool.
  - wp_step. split; [|intros; by apply Hz].
    apply sends_last; [by rewrite Hfd|done].
  - apply HK; try done. by rewrite (proj1 (proj2 (called_fields _ _ Hc))).
Qed.

(** A frame is wrapped as the mode says, and sent. *)
Lemma send_packet_run h (l : list byte) max :
  carrier_ok h → Z.of_nat (length l) * 2 + 2 ≤ max →
  (if virtioso_outer_mode (cfg h) =? VIRTIOSO_OUTER_NVIDIA_TCU then
     outer <- encode_outer max l ;; putbuf_or_exit E fuel (tty_fd h) outer
   else putbuf_or_exit E fuel (tty_fd h) l) h =
  putbuf_or_exit E fuel (tty_fd h) (packet h l) h.
Proof.
  intros Hc Hl. unfold packet. destruct (_ =? _) eqn:Hm; [|done]. z_bool.
  by rewrite (run_bind _ _ _ _ _ (encode_outer_run h l max (Hc Hm) Hl)).
Qed.

Lemma wp_write_fragments n i t data h :
  tty_fd h = fd → 0 ≤ i → tags h !! Z.to_nat i = Some t → carrier_ok h →
  (length data ≤ n)%nat →
  wp ok (write_fragments E fuel n i data) (written h (packets h (tag_value t) data)) h.
Proof.
  intros Hfd Hi Ht Hcar. revert data h Hfd Ht Hcar.
  induction n as [|n IH]; intros data h Hfd Ht Hcar Hn.
  { destruct data; [|cbn in Hn; lia]. split; [apply sends_done|done]. }
  destruct data as [|b data]; [split; [apply sends_done|done]|].
  rewrite packets_cons by done. set (size := Z.to_nat VIRTIOSO_DOWNLINK_FRAGMENT_PAYLOAD_SIZE).
  cbn [write_fragments]. fold size. remember (b :: data) as d eqn:Hd.
  set (chunk := take size d). cbv zeta.
  apply wp_alloc_fd. intros b1 h1 Ha1 Hb1. apply wp_alloc_fd. intros b2 h2 Ha2 Hb2.
  pose proof (accepts_trans _ _ _ _ [] [] Ha1 Ha2) as Ha.
  destruct (b1 && b2) eqn:Hb.
  2:{ replace (negb b1 || negb b2) with true by (by destruct b1, b2). wp_step.
      apply written_nomem; [done|exact Ha|]. intros Hok. by rewrite Hb1, Hb2 in Hb. }
  apply andb_prop in Hb as [-> ->]. cbn [negb orb].
  destruct (called_fields _ _ (proj1 Ha)) as (Htg & Hfd2 & _ & _ & Hc2).
  rewrite <-Hfd2 in Hfd. do 2 wp_step.
  pose proof (carrier_ok_called _ _ (proj1 Ha) Hcar) as Hcar2.
  eapply wp_mono; [|intros z h'; apply written_skip; [by rewrite <-Hfd2|exact Ha]].
  rewrite <-(packet_called _ _ _ (proj1 Ha)), <-(packets_called _ _ _ _ (proj1 Ha)).
  rewrite <-Htg in Ht. clear Ha1 Ha2 Hb1 Hb2 Hcar Htg Hc2 Hfd2 Ha h h1. rename h2 into h.
  eapply wp_bind_run; [apply encode_inner_run; [done|done|lia]|].
  eapply wp_bind_eq; [apply send_packet_run; [done|]|].
  { pose proof (frame_length (tag_value t) chunk). lia. }
  rewrite Hfd. apply wp_put1; [done|]. intros z h1 Hp Hfd1 Hc1 Hz.
  eapply wp_mono.
  - apply IH; [done|by rewrite (proj1 (called_fields _ _ Hc1))|by eapply carrier_ok_called|].
    rewrite length_drop. subst d. cbn [length] in *. unfold size, VIRTIOSO_DOWNLINK_FRAGMENT_PAYLOAD_SIZE. lia.
  - intros z' h' Hw. rewrite (packets_called _ _ _ _ Hc1) in Hw. by eapply written_cons.
Qed.

(** Raw writes: one packet, or none when they are not enabled. *)
Lemma wp_write_raw data h :
  tty_fd h = fd → carrier_ok h →
  wp ok (write_raw_uart E fuel data)
    (written h (if enable_write_raw_pty (cfg h) then [packet h data] else [])) h.
Proof.
  intros Hfd Hcar. unfold write_raw_uart. eapply wp_bind_run; [done|]. cbv beta.
  destruct (enable_write_raw_pty (cfg h)); cbn [negb].
  2:{ wp_step. split; [apply sends_done|done]. }
  assert (Hsend : ∀ h1, tty_fd h1 = fd →
    wp ok (putbuf_or_exit E fuel fd (packet h data)) (written h1 [packet h data]) h1).
  { intros h1 Hfd1. eapply wp_mono; [by apply Hput|]. intros z h' [Hp Hz].
    split; [apply sends_one; by rewrite Hfd1|auto]. }
  destruct (_ =? _) eqn:Hm.
  - apply wp_alloc_fd. intros b h1 Ha Hb.
    destruct (called_fields _ _ (proj1 Ha)) as (_ & Hf & _). destruct b; cbn [negb].
    + eapply wp_bind_run.
      { apply encode_outer_run; [|lia]. rewrite (called_cfg _ _ (proj1 Ha)).
        apply Hcar. by z_bool. }
      cbv beta. replace (tcu_frame (carrier h1) data) with (packet h data).
      2:{ unfold packet, carrier. by rewrite Hm, (called_cfg _ _ (proj1 Ha)). }
      rewrite Hfd. eapply wp_mono; [apply Hsend; congruence|].
      intros z h'. by apply written_skip.
    + wp_step. apply written_nomem; [done..|]. intros Hok. by specialize (Hb Hok).
  - rewrite Hfd. replace data with (packet h data) at 1 by (unfold packet; by rewrite Hm).
    by apply Hsend.
Qed.

Lemma wp_write_chunks n first i t data h :
  tty_fd h = fd → 0 ≤ i → tags h !! Z.to_nat i = Some t → (length data ≤ n)%nat →
  let raw := i =? raw_pty_idx (cfg h) in
  wp ok (write_chunks E fuel n first i data)
    (written h (legacy_packets raw
      (if first && negb raw then [UART_PROTO_ESC_START; tag_value t] else []) data)) h.
Proof.
  intros Hfd Hi Ht. revert first data h Hfd Ht.
  induction n as [|n IH]; intros first data h Hfd Ht Hn raw.
  { destruct data; [|cbn in Hn; lia]. split; [apply sends_done|done]. }
  destruct data as [|b data]; [split; [apply sends_done|done]|].
  set (hdr := if first && negb raw then [UART_PROTO_ESC_START; tag_value t] else []).
  rewrite legacy_packets_cons by done. set (size := Z.to_nat MAX_WRITE_CHUNK_SIZE).
  cbn [write_chunks]. fold size. remember (b :: data) as d eqn:Hd.
  eapply wp_bind_run; [done|]. cbv zeta. fold raw.
  eapply (wp_bind_run _ _ _ _ _ (Some hdr)).
  { unfold hdr. destruct (first && negb raw); [|done].
    by rewrite (run_bind _ _ _ _ _ (arr_get_run _ _ _ _ Hi Ht)). }
  cbv beta iota. rewrite encode_chunk_run.
  2:{ rewrite length_take. unfold hdr, encoded_max, size, MAX_WRITE_CHUNK_SIZE.
      destruct (first && negb raw); cbn [length]; lia. }
  rewrite Hfd. apply wp_put1; [done|]. intros z h1 Hp Hfd1 Hc1 Hz.
  assert (Hraw : (i =? raw_pty_idx (cfg h1)) = raw) by (by rewrite (called_cfg _ _ Hc1)).
  eapply wp_mono.
  - apply IH; [done|by rewrite (proj1 (called_fields _ _ Hc1))|].
    rewrite length_drop. subst d. cbn [length] in *. unfold size, MAX_WRITE_CHUNK_SIZE. lia.
  - cbn [andb]. intros z' h' Hw. rewrite Hraw in Hw. by eapply written_cons.
Qed.

Lemma wp_legacy i t data h :
  tty_fd h = fd → 0 ≤ i → tags h !! Z.to_nat i = Some t →
  let raw := i =? raw_pty_idx (cfg h) in
  wp ok (b <- alloc E encoded_max ;;
         if negb b then ret (- ENOMEM) else write_chunks E fuel (length data) true i data)
    (written h (legacy_packets raw (if raw then [] else [UART_PROTO_ESC_START; tag_value t]) data)) h.
Proof.
  intros Hfd Hi Ht raw. apply wp_alloc_fd. intros b h1 Ha Hb.
  destruct (called_fields _ _ (proj1 Ha)) as (Htg & Hf & _). destruct b; cbn [negb].
  - eapply wp_mono; [apply (wp_write_chunks _ true i t); (congruence || done)|]. intros z h'.
    rewrite (called_cfg _ _ (proj1 Ha)). fold raw.
    replace (if raw then _ else _) with
      (if true && negb raw then [UART_PROTO_ESC_START; tag_value t] else []) by (by destruct raw).
    by apply written_skip.
  - wp_step. apply written_nomem; [done..|]. intros Hok. by specialize (Hb Hok).
Qed.

(** A write call sends the packets of its data. *)
Lemma wp_write_data_to_uart i data h :
  tty_fd h = fd → 0 ≤ i < pty_max_count h → pty_max_count h ≤ Z.of_nat (length (tags h)) →
  carrier_ok h →
  wp ok (write_data_to_uart E fuel i data) (written h (downlink_packets h i data)) h.
Proof.
  intros Hfd Hi Hlen Hcar.
  destruct (lookup_lt_is_Some_2 (tags h) (Z.to_nat i)) as [t Ht]; [lia|].
  unfold write_data_to_uart, downlink_packets, stream_tag. rewrite Ht.
  eapply wp_bind_run; [done|]. cbv beta. destruct (virtioso_mode_enabled (cfg h)).
  - unfold write_virtioso_data_to_uart. eapply wp_bind_run; [done|]. cbv beta.
    rewrite (proj2 (Z.leb_gt _ _)) by lia.
    destruct (_ || _); [by apply wp_write_raw|].
    apply wp_write_fragments; (done || lia).
  - rewrite (proj2 (Z.leb_gt _ _)) by lia.
    destruct (i =? raw_pty_idx (cfg h)) eqn:Hraw; cbn [andb].
    + destruct (enable_write_raw_pty (cfg h)); cbn [negb].
      * eapply wp_mono; [apply (wp_legacy i t); (done || lia)|]. by rewrite Hraw.
      * wp_step. split; [apply sends_done|done].
    + eapply wp_mono; [apply (wp_legacy i t); (done || lia)|]. by rewrite Hraw.
Qed.

End Writers.
