(* ===== verification/TxPar.v ===== *)
(** * The downlink writers with their lock

    The writers and the PTY threads of [host/tcu_com.c] again, as trees of
    actions with the write lock where the code takes and releases it.  Alone,
    a thread does what [HostTx] says ([alone_pty_thread]). *)

From S2P Require Import Prelude Proto HostState HostIo HostTx HostIoInv HostTxInv Par.

Section TxPar.
Context (fuel : nat).

Fixpoint retry_call (n : nat) (rq : sysreq) : proc sysres :=
  match n with
  | O => Halt OutOfFuel
  | S n' => r ← call rq; if should_retry_io r then retry_call n' rq else Ret r
  end.

Definition putbuf (fd : Z) (buf : list byte) : proc Z :=
  h ← look;
  p ← retry_call fuel (RqPollOut fd (poll_output_timeout (cfg h)));
  if res p =? 0 then Ret (-1)
  else
    _ ← check (res p =? 1);
    _ ← check (Z.land (revents p) POLLNVAL =? 0);
    r ← retry_call fuel (RqWrite fd buf);
    if res r <? 0 then Ret (res r)
    else if negb (res r =? Z.of_nat (length buf)) then Ret (res r)
    else d ← call (RqDrain fd); if res d <? 0 then Ret (-1) else Ret 0.

(** [putbuf_or_exit(tty_data.fd, buf, len)]. *)
Definition put_uart (buf : list byte) : proc Z := h ← look; putbuf (tty_fd h) buf.

Definition locked_raw (data : list byte) : proc Z :=
  h ← look;
  if negb (enable_write_raw_pty (cfg h)) then Ret 0
  else
    Lock (
      h ← look;
      if virtioso_outer_mode (cfg h) =? VIRTIOSO_OUTER_NVIDIA_TCU then
        let max := Z.of_nat (length data) * 2 + 2 in
        ok ← call_alloc max;
        if negb ok then Unlock (Ret (- ENOMEM))
        else
          buf ← glance (encode_outer max data);
          r ← put_uart buf;
          Unlock (Ret r)
      else r ← put_uart data; Unlock (Ret r)).

(** The loop under the lock. *)
Fixpoint locked_fragments (n : nat) (pty_idx : Z) (data : list byte) : proc Z :=
  match data with
  | [] => Unlock (Ret 0)
  | _ =>
      match n with
      | O => Halt OutOfFuel
      | S n' =>
          let size := Z.to_nat VIRTIOSO_DOWNLINK_FRAGMENT_PAYLOAD_SIZE in
          let chunk := take size data in
          let inner_max := Z.of_nat (length chunk) * 2 + 4 in
          let outer_max := inner_max * 2 + 2 in
          inner_ok ← call_alloc inner_max;
          outer_ok ← call_alloc outer_max;
          if negb inner_ok || negb outer_ok then Unlock (Ret (- ENOMEM))
          else
            h ← look;
            inner ← glance (encode_inner inner_max pty_idx chunk);
            r ← (if virtioso_outer_mode (cfg h) =? VIRTIOSO_OUTER_NVIDIA_TCU
                 then outer ← glance (encode_outer outer_max inner); put_uart outer
                 else put_uart inner);
            if r <? 0 then Unlock (Ret r) else locked_fragments n' pty_idx (drop size data)
      end
  end.

Definition locked_virtioso (pty_idx : Z) (data : list byte) : proc Z :=
  h ← look;
  if pty_max_count h <=? pty_idx then Ret (- EINVAL)
  else if (pty_idx =? raw_pty_idx (cfg h)) || (pty_idx =? virtioso_default_pty_idx (cfg h))
  then locked_raw data
  else Lock (locked_fragments (length data) pty_idx data).

(** The legacy loop.  A full buffer makes the macro return without unlocking. *)
Fixpoint locked_chunks (n : nat) (first : bool) (pty_idx : Z) (data : list byte) : proc Z :=
  match data with
  | [] => Unlock (Ret 0)
  | _ =>
      match n with
      | O => Halt OutOfFuel
      | S n' =>
          h ← look;
          let raw := pty_idx =? raw_pty_idx (cfg h) in
          let size := Z.to_nat MAX_WRITE_CHUNK_SIZE in
          header ← (if first && negb raw then
                      glance (t <- arr_get (tags h) pty_idx ;;
                              ret match write_byte [] UART_PROTO_ESC_START with
                                  | None => None
                                  | Some buf => write_byte buf (tag_value t)
                                  end)
                    else Ret (Some []));
          match header with
          | None => Ret (- ENOMEM)
          | Some buf =>
              match encode_chunk raw buf (take size data) with
              | None => Ret (- ENOMEM)
              | Some buf =>
                  r ← put_uart buf;
                  if r <? 0 then Unlock (Ret r) else locked_chunks n' false pty_idx (drop size data)
              end
          end
      end
  end.

Definition locked_write (pty_idx : Z) (data : list byte) : proc Z :=
  h ← look;
  if virtioso_mode_enabled (cfg h) then locked_virtioso pty_idx data
  else if pty_max_count h <=? pty_idx then Ret (- EINVAL)
  else if (pty_idx =? raw_pty_idx (cfg h)) && negb (enable_write_raw_pty (cfg h)) then Ret 0
  else
    ok ← call_alloc encoded_max;
    if negb ok then Ret (- ENOMEM) else Lock (locked_chunks (length data) true pty_idx data).

(** A turn of a PTY's thread, its loop, the thread. *)
Definition pty_turn (t : thread_data) : proc unit :=
  let pty_idx := td_id t mod 256 in
  p ← call (RqPollIn (td_fd t) (-1));
  if should_retry_io p then Ret tt
  else
    _ ← check (res p =? 1);
    _ ← check (Z.land (revents p) POLLNVAL =? 0);
    if Z.land (revents p) POLLIN =? 0 then _ ← call (RqSleep 1000000); Ret tt
    else
      r ← call (RqRead (td_fd t) temporary_buffer_size);
      if 0 <? res r then
        _ ← locked_write pty_idx (take (Z.to_nat (res r)) (res_bytes r)); Ret tt
      else Ret tt.

Fixpoint pty_turns (turns : nat) (t : thread_data) : proc unit :=
  match turns with
  | O => Ret tt
  | S n => _ ← pty_turn t; pty_turns n t
  end.

Definition pty_thread (turns : nat) (t : thread_data) : proc unit :=
  ok ← call_alloc temporary_buffer_size;
  if negb ok then Ret tt else pty_turns turns t.

End TxPar.

(* ------------------------------------------------------------------ *)
(** ** Alone, a thread is the sequential code *)

Section Alone.
Context (E : env) (fuel : nat).

Lemma alone_bind {A B} (p : proc A) (f : A → proc B) h :
  alone E (p ≫= f) h = bind (alone E p) (λ a, alone E (f a)) h.
Proof.
  revert h. induction p as [a|w|k IH|rq k IH|k IH|k IH]; intros h; try done; cbn.
  - unfold bind at 1. cbn. by rewrite IH.
  - unfold bind at 1 2. cbn. by rewrite IH.
  - by rewrite IH.
  - by rewrite IH.
Qed.

(** [p] alone is [m]. *)
Definition is_alone {A} (p : proc A) (m : HM A) : Prop := ∀ h, alone E p h = m h.

Lemma is_alone_bind {A B} (p : proc A) (m : HM A) (f : A → proc B) (k : A → HM B) :
  is_alone p m → (∀ a, is_alone (f a) (k a)) → is_alone (p ≫= f) (bind m k).
Proof.
  intros Hp Hf h. rewrite alone_bind. unfold bind. rewrite Hp. destruct (m h); [apply Hf|done].
Qed.

Lemma is_alone_look {B} (f : host → proc B) (k : host → HM B) :
  (∀ a, is_alone (f a) (k a)) → is_alone (look ≫= f) (bind get k).
Proof. intros Hf h. apply Hf. Qed.

Lemma is_alone_ret {A} (a : A) : is_alone (Ret a) (ret a).
Proof. done. Qed.

Lemma is_alone_unlock {A} (a : A) : is_alone (Unlock (Ret a)) (ret a).
Proof. done. Qed.

Lemma is_alone_call rq : is_alone (call rq) (sys E rq).
Proof. done. Qed.

Lemma is_alone_check b : is_alone (check b) (assert_c b).
Proof. by destruct b. Qed.

Lemma is_alone_alloc n : is_alone (call_alloc n) (alloc E n).
Proof. done. Qed.

(** A computation that only reads the globals. *)
Definition readonly {A} (m : HM A) : Prop := ∀ h, (∃ a, m h = Done a h) ∨ ∃ w, m h = Stop w h.

Lemma readonly_bind {A B} (m : HM A) (k : A → HM B) :
  readonly m → (∀ a, readonly (k a)) → readonly (bind m k).
Proof.
  intros Hm Hk h. unfold bind. destruct (Hm h) as [[a ->]|[w ->]]; [apply Hk|right; by eexists].
Qed.

Lemma readonly_ret {A} (a : A) : readonly (ret a).
Proof. intros h. left. by eexists. Qed.

Lemma readonly_get : readonly get.
Proof. intros h. left. by eexists. Qed.

Lemma readonly_arr_get {A} (l : list A) i : readonly (arr_get l i).
Proof.
  intros h. unfold arr_get. destruct (i <? 0); [right; by eexists|].
  destruct (l !! _); [left|right]; by eexists.
Qed.

Lemma readonly_buf_put max buf b : readonly (buf_put max buf b).
Proof. intros h. unfold buf_put. destruct (_ <? _); [left|right]; by eexists. Qed.

Hint Resolve readonly_ret readonly_get readonly_arr_get readonly_buf_put : core.
Ltac read_only := repeat first [by auto | apply readonly_bind; [|intros ?] | case_match].

Lemma readonly_put_inner max data buf : readonly (put_inner max buf data).
Proof. revert buf. induction data; intros buf; cbn [put_inner]; read_only. Qed.

Lemma readonly_put_outer max data buf : readonly (put_outer max buf data).
Proof. revert buf. induction data; intros buf; cbn [put_outer]; read_only. Qed.

Hint Resolve readonly_put_inner readonly_put_outer : core.

Lemma readonly_encode_outer max data : readonly (encode_outer max data).
Proof. unfold encode_outer. read_only. Qed.

Lemma readonly_encode_inner max i chunk : readonly (encode_inner max i chunk).
Proof. unfold encode_inner. read_only. Qed.

Hint Resolve readonly_encode_inner readonly_encode_outer : core.

(** Code that only reads, before code that depends on the state it is in. *)
Lemma alone_readonly {A B} (p : proc A) (m : HM A) (f : A → proc B) (k : A → HM B) h :
  readonly m → alone E p h = m h → (∀ a, alone E (f a) h = k a h) →
  alone E (p ≫= f) h = bind m k h.
Proof.
  intros Hm Hp Hf. rewrite alone_bind. unfold bind. rewrite Hp.
  destruct (Hm h) as [[a ->]|[w ->]]; [apply Hf|done].
Qed.

Lemma alone_glance {A B} (m : HM A) (f : A → proc B) (k : A → HM B) h :
  readonly m → (∀ a, alone E (f a) h = k a h) →
  alone E (glance m ≫= f) h = bind m k h.
Proof.
  intros Hm. apply alone_readonly; [done|]. cbn. by destruct (Hm h) as [[a ->]|[w ->]].
Qed.

(** Through code whose steps correspond one by one. *)
Ltac by_itself :=
  lazymatch goal with
  | H : ∀ x, is_alone (?f x) _ |- is_alone (?f _) _ => apply H
  | |- is_alone (Ret _) (ret _) => apply is_alone_ret
  | |- is_alone (Unlock (Ret _)) (ret _) => apply is_alone_unlock
  | |- is_alone (Halt _) (halt _) => intros ?; reflexivity
  | |- is_alone (call _) (sys _ _) => apply is_alone_call
  | |- is_alone (call_alloc _) (alloc _ _) => apply is_alone_alloc
  | |- is_alone (check _) (assert_c _) => apply is_alone_check
  | |- is_alone (mbind _ look) (bind get _) => apply is_alone_look; intros ?; by_itself
  | |- is_alone (mbind _ _) (bind _ _) => apply is_alone_bind; [by_itself|intros ?; by_itself]
  | |- is_alone (if ?b then _ else _) _ => destruct b; by_itself
  | _ => idtac
  end.

Lemma alone_retry n rq : is_alone (retry_call n rq) (retry_io E n rq).
Proof. induction n as [|n IH]; cbn [retry_call retry_io]; by_itself. exact IH. Qed.

Lemma alone_poll fd : is_alone (h ← look; retry_call fuel (RqPollOut fd (poll_output_timeout (cfg h))))
  (poll_output E fuel fd).
Proof. unfold poll_output. by_itself. apply alone_retry. Qed.

Lemma alone_putbuf fd buf : is_alone (putbuf fuel fd buf) (putbuf_or_exit E fuel fd buf).
Proof.
  intros h. unfold putbuf, putbuf_or_exit, poll_output. rewrite bind_assoc.
  revert h. match goal with |- ∀ h, alone E ?p h = ?m h => change (is_alone p m) end.
  by_itself; apply alone_retry.
Qed.

(** Writes of a buffer, the descriptor being read in the same state. *)
Lemma alone_put_uart buf h : alone E (put_uart fuel buf) h = putbuf_or_exit E fuel (tty_fd h) buf h.
Proof. apply alone_putbuf. Qed.

Lemma alone_put_last buf h :
  alone E (r ← put_uart fuel buf; Unlock (Ret r)) h = putbuf_or_exit E fuel (tty_fd h) buf h.
Proof.
  rewrite alone_bind. unfold bind. rewrite alone_put_uart. by destruct (putbuf_or_exit _ _ _ _ _).
Qed.

Lemma alone_look_at {B} (f : host → proc B) h : alone E (look ≫= f) h = alone E (f h) h.
Proof. done. Qed.

Lemma alone_alloc_at {B} n (f : bool → proc B) (k : bool → HM B) h :
  (∀ ok r, let h' := set_trace ((RqMalloc n, r) :: trace h) h in alone E (f ok) h' = k ok h') →
  alone E (call_alloc n ≫= f) h = bind (alloc E n) k h.
Proof. intros Hf. apply Hf. Qed.

(** The rest of the code after a part. *)
Lemma alone_bind_at {A B} (p : proc A) (m : HM A) (f : A → proc B) (k : A → HM B) h :
  alone E p h = m h → (∀ a h', alone E (f a) h' = k a h') → alone E (p ≫= f) h = bind m k h.
Proof.
  intros Hp Hf. rewrite alone_bind. unfold bind. rewrite Hp. destruct (m h); [apply Hf|done].
Qed.

Lemma alone_raw data h : alone E (locked_raw fuel data) h = write_raw_uart E fuel data h.
Proof.
  unfold locked_raw, write_raw_uart. rewrite alone_look_at, (run_bind get _ h h h) by done.
  destruct (negb _); [done|]. cbn [alone]. rewrite alone_look_at.
  destruct (_ =? _); [|apply alone_put_last]. apply alone_alloc_at. intros ok r h'.
  destruct (negb ok); [done|]. apply alone_glance; [done|]. intros buf. by rewrite alone_put_last.
Qed.

Lemma alone_fragments n i data : is_alone (locked_fragments fuel n i data) (write_fragments E fuel n i data).
Proof.
  revert data. induction n as [|n IH]; intros [|b data] h; [done..|].
  cbn [locked_fragments write_fragments]. cbv zeta.
  apply alone_alloc_at. intros o1 r1 h1. apply alone_alloc_at. intros o2 r2 h2.
  destruct (_ || _); [done|]. rewrite alone_look_at, (run_bind get _ h2 h2 h2) by done.
  apply alone_glance; [done|]. intros inner. apply alone_bind_at.
  - destruct (_ =? _); [|by rewrite alone_put_uart].
    apply alone_glance; [done|]. intros outer. apply alone_put_uart.
  - intros r h'. destruct (r <? 0); [done|]. apply IH.
Qed.

Lemma alone_chunks n first i data :
  is_alone (locked_chunks fuel n first i data) (write_chunks E fuel n first i data).
Proof.
  revert first data. induction n as [|n IH]; intros first [|b data] h; [done..|].
  cbn [locked_chunks write_chunks]. rewrite alone_look_at, (run_bind get _ h h h) by done. cbv zeta.
  apply alone_readonly.
  - destruct (first && _); [|apply readonly_ret].
    apply readonly_bind; [apply readonly_arr_get|intros; apply readonly_ret].
  - destruct (first && _); [|done]. cbn. unfold bind, ret.
    by destruct (readonly_arr_get (tags h) i h) as [[t ->]|[w ->]].
  - intros [buf|]; [|done]. destruct (encode_chunk _ _ _) as [buf'|]; [|done].
    apply alone_bind_at; [apply alone_put_uart|]. intros r h'. destruct (r <? 0); [done|]. apply IH.
Qed.

Lemma alone_write i data h : alone E (locked_write fuel i data) h = write_data_to_uart E fuel i data h.
Proof.
  unfold locked_write, write_data_to_uart. rewrite alone_look_at, (run_bind get _ h h h) by done.
  destruct (virtioso_mode_enabled _).
  - unfold locked_virtioso, write_virtioso_data_to_uart.
    rewrite alone_look_at, (run_bind get _ h h h) by done.
    destruct (_ <=? _); [done|]. destruct (_ || _); [apply alone_raw|]. apply alone_fragments.
  - destruct (_ <=? _); [done|]. destruct (_ && _); [done|].
    apply alone_alloc_at. intros ok r h'. destruct (negb ok); [done|]. apply alone_chunks.
Qed.

Lemma alone_turn t : is_alone (pty_turn fuel t) (pty_input_step E fuel t).
Proof.
  unfold pty_turn, pty_input_step. by_itself. intros h. apply alone_write.
Qed.

Lemma alone_turns n t : is_alone (pty_turns fuel n t) (pty_input_loop E fuel n t).
Proof.
  induction n as [|n IH]; cbn [pty_turns pty_input_loop]; by_itself; [apply alone_turn|exact IH].
Qed.

(** A PTY's thread alone does what the sequential code does. *)
Lemma alone_pty_thread turns t h :
  alone E (pty_thread fuel turns t) h = pty_input_handler E fuel turns t h.
Proof.
  revert h. change (is_alone (pty_thread fuel turns t) (pty_input_handler E fuel turns t)).
  unfold pty_thread, pty_input_handler. by_itself. apply alone_turns.
Qed.

End Alone.
