(* ===== verification/HostTxSpec.v ===== *)
(** * What the downlink writers guarantee

    For every mode and every channel: what goes on the UART for a write, which
    failures are reported and which are not, and that a PTY's thread forwards
    exactly what it reads where the UART takes it. *)

From S2P Require Import Prelude Proto HostState HostIo HostIoInv HostTx HostTxInv Startup StartupInv RegistryInv Demo.

(** The state the PTY threads run in. *)
Record tx_ok (h : host) : Prop := TxOk {
  tx_tags : pty_max_count h ≤ Z.of_nat (length (tags h));
  tx_carrier : carrier_ok h
}.

(** What a complete write puts on the UART. *)
Definition downlink_wire (h : host) (i : Z) (data : list byte) : list byte :=
  if virtioso_mode_enabled (cfg h) then
    if (i =? raw_pty_idx (cfg h)) || (i =? virtioso_default_pty_idx (cfg h)) then
      if enable_write_raw_pty (cfg h) then packet h data else []
    else concat (packets h (stream_tag h i) data)
  else if i =? raw_pty_idx (cfg h) then
    if enable_write_raw_pty (cfg h) then data else []
  else match data with [] => [] | _ => tcu_frame (stream_tag h i) data end.

(** The poll on a PTY answers, as [poll] with one descriptor does. *)
Definition pty_polls (E : env) (fd : Z) : Prop := ∀ tr,
  let p := E tr (RqPollIn fd (-1)) in
  should_retry_io p = true ∨ res p = 1 ∧ Z.land (revents p) POLLNVAL = 0.

(* ------------------------------------------------------------------ *)
(** ** Lemmas *)

Lemma concat_legacy hdr raw data :
  concat (legacy_packets raw hdr data) =
  match data with [] => [] | _ => hdr ++ (if raw then data else tcu_bytes data) end.
Proof.
  assert (Hmap : ∀ l : list (list byte), concat (map (legacy_chunk raw) l) =
    if raw then concat l else tcu_bytes (concat l)).
  { intros l. induction l as [|c l IH]; [by destruct raw|]. cbn [map concat]. rewrite IH.
    destruct raw; cbn [legacy_chunk]; [done|]. by rewrite tcu_bytes_app. }
  destruct data as [|b data]; [done|]. unfold legacy_packets.
  set (size := Z.to_nat MAX_WRITE_CHUNK_SIZE). specialize (Hmap (cut size (length (b :: data)) (b :: data))).
  rewrite concat_cut in Hmap by (unfold size, MAX_WRITE_CHUNK_SIZE; lia).
  cbn [length cut map concat] in Hmap |- *. rewrite <-app_assoc. by rewrite Hmap.
Qed.

Lemma downlink_packets_wire h i data :
  concat (downlink_packets h i data) = downlink_wire h i data.
Proof.
  unfold downlink_packets, downlink_wire.
  repeat case_match; rewrite ?concat_legacy; cbn [concat]; rewrite ?app_nil_r; by try destruct data.
Qed.

Lemma downlink_wire_called h h' i data :
  called h h' → downlink_wire h' i data = downlink_wire h i data.
Proof.
  intros Hc. destruct (called_fields _ _ Hc) as (Ht & _ & _ & _ & Hcfg).
  unfold downlink_wire, stream_tag. rewrite (packets_called _ _ _ _ Hc), (packet_called _ _ _ Hc).
  by rewrite Hcfg, Ht.
Qed.

Lemma tx_ok_called h h' : called h h' → tx_ok h → tx_ok h'.
Proof.
  intros Hc [Ht Hk]. destruct (called_fields _ _ Hc) as (Htg & _ & Hm & _).
  constructor; [by rewrite Htg, Hm|by eapply carrier_ok_called].
Qed.

Lemma prompt_no_short E fd : prompt E fd → no_short E fd.
Proof. intros [_ Hw _] tr d. right. apply Hw. Qed.

(** Where no write is cut short, whole packets are sent. *)
Lemma sends_whole E h ps z h' :
  sends E h ps z h' → no_short E (tty_fd h) →
  ∃ k, accepts_on h h' (tty_fd h) (concat (take k ps)) ∧ (z < 0 ∨ z = 0 ∧ k = length ps).
Proof.
  intros (cs & Ha & Hcs) Hns. destruct Hcs as [(_ & Hcs & Hz)|[Hz [k Hcs]]].
  - exists (length ps). rewrite firstn_all, <-(pieces_whole _ _ _ _ Hns Hcs). auto.
  - exists k. rewrite <-(pieces_whole _ _ _ _ Hns Hcs). auto.
Qed.

(** A complete write. *)
Lemma wp_write_complete E fuel ok i data h :
  prompt E (tty_fd h) → alloc_ok E → (0 < fuel)%nat → tx_ok h → 0 ≤ i < pty_max_count h →
  wp ok (write_data_to_uart E fuel i data)
    (λ z h', z = 0 ∧ accepts_on h h' (tty_fd h) (downlink_wire h i data)) h.
Proof.
  intros Hp Ha Hf [Ht Hc] Hi.
  eapply wp_mono; [apply (wp_write_data_to_uart E fuel ok (tty_fd h)); try done|].
  { by apply sender_prompt. }
  intros z h' [(cs & Hl & Hs) Hz]. specialize (Hz Hp Ha). subst z. split; [done|].
  destruct Hs as [(_ & Hs & _)|[? _]]; [|lia].
  by rewrite (pieces_whole _ _ _ _ (prompt_no_short _ _ Hp) Hs), downlink_packets_wire in Hl.
Qed.

Lemma reads_called fd h h' : called h h' → reads fd (trace h') = reads fd (trace h).
Proof. intros Hc. unfold reads. by rewrite (ca_inputs _ _ Hc). Qed.

Lemma good_env_prompt fd : prompt good_env fd.
Proof. constructor; intros; cbn; (split; reflexivity) || lia. Qed.

Lemma wf_tx_ok h : wf h → carrier_ok h → tx_ok h.
Proof.
  intros [Hs _ Hm _] Hc. constructor; [|done]. rewrite Hm, (sh_tags _ _ Hs).
  pose proof (sh_n _ _ Hs) as [_ Hn]. unfold NPTY, VIRTIOSO_MAX_PTY_COUNT in *. lia.
Qed.

(** The wire of a PTY thread's turn. *)
Record forwarded (fd i : Z) (h h' : host) (new : list (list byte)) : Prop := Forwarded {
  fw_state : h' = set_trace (trace h') h;
  fw_reads : reads fd (trace h') = reads fd (trace h) ++ new;
  fw_uart : ∀ fd', accepted fd' (trace h') = accepted fd' (trace h) ++
    (if fd' =? tty_fd h then concat (map (downlink_wire h i) new) else [])
}.

Lemma same_but_trace h h1 : h1 = set_trace (trace h1) h → tx_ok h →
  tx_ok h1 ∧ tty_fd h1 = tty_fd h ∧ pty_max_count h1 = pty_max_count h.
Proof. intros -> []. by split; [constructor|]. Qed.

Section Thread.
Context (E : env) (fuel : nat) (t : thread_data).
Context (i : Z) (Hi : i = td_id t mod 256).

Lemma forwarded_refl h : forwarded (td_fd t) i h h [].
Proof.
  constructor; [by destruct h|by rewrite app_nil_r|]. intros fd'. cbn.
  by case_match; rewrite app_nil_r.
Qed.

Lemma forwarded_wire h h1 d :
  h1 = set_trace (trace h1) h → downlink_wire h1 i d = downlink_wire h i d.
Proof. intros ->. done. Qed.

Lemma forwarded_trans h1 h2 h3 a b :
  forwarded (td_fd t) i h1 h2 a → forwarded (td_fd t) i h2 h3 b →
  forwarded (td_fd t) i h1 h3 (a ++ b).
Proof.
  intros [S1 R1 U1] [S2 R2 U2]. constructor.
  - rewrite S2, S1. by destruct h1.
  - by rewrite R2, R1, app_assoc.
  - intros fd'. rewrite U2, U1, map_app, concat_app.
    replace (tty_fd h2) with (tty_fd h1) by (by rewrite S1).
    rewrite (map_ext (downlink_wire h2 i) (downlink_wire h1 i)) by (intros d; by apply forwarded_wire).
    case_match; by rewrite <-app_assoc.
Qed.

(** A call that neither writes nor reads. *)
Lemma forwarded_call h rq r :
  (∀ fd d, rq ≠ RqWrite fd d) → not_read rq = true →
  forwarded (td_fd t) i h (set_trace ((rq, r) :: trace h) h) [].
Proof.
  intros Hw Hr. destruct (accepts_other h rq r (tty_fd h) Hw Hr) as [Hc Ha].
  constructor; [done|by rewrite app_nil_r, (reads_called _ _ _ Hc)|].
  intros fd'. rewrite Ha. by case_match.
Qed.

(** A read, and the write of its bytes. *)
Lemma forwarded_write h r count h' :
  let d := take (Z.to_nat (res r)) (res_bytes r) in
  let h1 := set_trace ((RqRead (td_fd t) count, r) :: trace h) h in
  0 < res r → accepts_on h1 h' (tty_fd h) (downlink_wire h i d) →
  forwarded (td_fd t) i h h' [d].
Proof.
  intros d h1 Hr [Hc Ha]. constructor.
  - destruct Hc as [-> _ _]. by destruct h.
  - rewrite (reads_called _ _ _ Hc). unfold reads. cbn.
    rewrite (proj2 (Z.ltb_lt _ _)), filter_app, fmap_app by done. f_equal. cbn.
    by rewrite decide_True.
  - intros fd'. rewrite Ha. cbn. case_match; by rewrite ?app_nil_r.
Qed.

Lemma forwarded_read_none h r count :
  res r ≤ 0 →
  forwarded (td_fd t) i h (set_trace ((RqRead (td_fd t) count, r) :: trace h) h) [].
Proof.
  intros Hr. constructor; [done| |intros fd'; cbn; by case_match; rewrite app_nil_r].
  unfold reads. cbn. rewrite (proj2 (Z.ltb_ge _ _)) by done. by rewrite !app_nil_r.
Qed.

Lemma wp_pty_input_step ok h :
  prompt E (tty_fd h) → alloc_ok E → (0 < fuel)%nat → pty_polls E (td_fd t) → tx_ok h →
  0 ≤ i < pty_max_count h →
  wp ok (pty_input_step E fuel t) (λ _ h', ∃ new, forwarded (td_fd t) i h h' new) h.
Proof.
  intros Hp Ha Hf Hpoll Htx Hid. unfold pty_input_step. rewrite <-Hi. cbv zeta.
  hw_step. apply wp_sys. intros p ->. cbv beta. set (h1 := set_trace _ h).
  assert (H1 : forwarded (td_fd t) i h h1 []) by (by apply forwarded_call).
  destruct (Hpoll (trace h)) as [-> | [Hres Hnv]]; [wp_step; by exists []|].
  destruct (should_retry_io _); [wp_step; by exists []|].
  rewrite Hres, Hnv. change (1 =? 1) with true. change (0 =? 0) with true.
  do 4 wp_step. destruct (_ =? 0).
  { hw_steps. exists []. apply (forwarded_trans h h1 _ [] [] H1). by apply forwarded_call. }
  hw_step. apply wp_sys. intros r Hr. cbv beta. wp_step; z_bool.
  2:{ wp_step. exists []. apply (forwarded_trans h h1 _ [] [] H1). by apply forwarded_read_none. }
  wp_step. eapply wp_mono.
  { apply (wp_write_complete E fuel); try done. destruct Htx. by constructor. }
  intros z h' [_ Hacc]. wp_step. exists [take (Z.to_nat (res r)) (res_bytes r)].
  apply (forwarded_trans h h1 _ [] _ H1). by eapply forwarded_write.
Qed.

Lemma wp_pty_input_loop ok turns h :
  prompt E (tty_fd h) → alloc_ok E → (0 < fuel)%nat → pty_polls E (td_fd t) → tx_ok h →
  0 ≤ i < pty_max_count h →
  wp ok (pty_input_loop E fuel turns t) (λ _ h', ∃ new, forwarded (td_fd t) i h h' new) h.
Proof.
  intros Hp Ha Hf Hpoll. revert h Hp. induction turns as [|n IH]; intros h Hp Htx Hid; cbn [pty_input_loop].
  { wp_step. exists []. apply forwarded_refl. }
  wp_step. eapply wp_mono; [by apply wp_pty_input_step|]. intros _ h1 [a H1]. cbv beta.
  destruct (same_but_trace _ _ (fw_state _ _ _ _ _ H1) Htx) as (Htx1 & Htty & Hmax).
  eapply wp_mono; [apply IH; [by rewrite Htty|done|by rewrite Hmax]|].
  intros _ h' [b H2]. exists (a ++ b). by eapply forwarded_trans.
Qed.

End Thread.

(* ------------------------------------------------------------------ *)
(** ** Properties *)



(** C18: the bytes of a complete write.  On a UART that is ready and takes what
    it is given, with memory available, every write returns 0 and the UART
    receives exactly its encoding: the data of a stream in escaped frames of
    at most 512 bytes (inside the selected TCU client's escaped stream in TCU
    mode), or one escaped TCU frame in the legacy mode however the data is
    cut into chunks, or the raw data; nothing when raw writes are disabled. *)
Theorem downlink_complete E fuel i data h :
  prompt E (tty_fd h) → alloc_ok E → (0 < fuel)%nat → tx_ok h → 0 ≤ i < pty_max_count h →
  ∃ h', write_data_to_uart E fuel i data h = Done 0 h' ∧
    accepts_on h h' (tty_fd h) (downlink_wire h i data).
Proof.
  intros Hp Ha Hf Ht Hi.
  destruct (wp_total_done _ _ _ (wp_write_complete E fuel total i data h Hp Ha Hf Ht Hi))
    as (z & h' & Hrun & -> & Hacc). by exists h'.
Qed.

(** C18 inside the TCU layer, with both escape bytes in the data. *)
Lemma downlink_complete_witness :
  downlink_wire demo_streams_tcu 3 [x61; xfe; xff] =
    [xff; xe1; xfe; x01; x61; xfe; xfe; xff; xff; xfe; x00] ∧
  ∃ h', write_data_to_uart good_env 1 3 [x61; xfe; xff] demo_streams_tcu = Done 0 h' ∧
    accepts_on demo_streams_tcu h' (tty_fd demo_streams_tcu)
      (downlink_wire demo_streams_tcu 3 [x61; xfe; xff]).
Proof.
  split; [vm_compute; reflexivity|].
  apply (downlink_complete good_env 1 3 [x61; xfe; xff] demo_streams_tcu).
  - apply good_env_prompt.
  - intros tr n. cbn. discriminate.
  - lia.
  - apply wf_tx_ok; [exact demo_streams_tcu_wf|]. intros _. vm_compute. intuition congruence.
  - vm_compute. intuition congruence.
Defined.

(** One PTY thread by itself loses nothing.  After any number of turns of the thread's
    loop, the UART received the encodings of exactly the chunks the thread
    read from its PTY, each once and in order; nothing else was read from it
    or written anywhere. *)
Theorem pty_thread_forwards E fuel turns t h :
  prompt E (tty_fd h) → alloc_ok E → (0 < fuel)%nat → pty_polls E (td_fd t) → tx_ok h →
  td_id t mod 256 < pty_max_count h →
  ∃ h' new, pty_input_handler E fuel turns t h = Done tt h' ∧
    forwarded (td_fd t) (td_id t mod 256) h h' new.
Proof.
  intros Hp Ha Hf Hpoll Htx Hid.
  assert (Hw : wp total (pty_input_handler E fuel turns t)
    (λ _ h', ∃ new, forwarded (td_fd t) (td_id t mod 256) h h' new) h).
  { unfold pty_input_handler. do 2 hw_step. subst r. rewrite (proj2 (Z.eqb_neq _ _)) by apply Ha.
    cbn [negb]. eapply wp_mono; [apply (wp_pty_input_loop E fuel t _ eq_refl); try done|].
    - destruct Htx. by constructor.
    - pose proof (Z.mod_pos_bound (td_id t) 256 eq_refl). split; [lia|exact Hid].
    - intros _ h' [new Hn]. exists new.
      eapply (forwarded_trans t _ _ _ _ []); [|exact Hn]. by apply forwarded_call. }
  destruct (wp_total_done _ _ _ Hw) as ([] & h' & Hrun & new & Hn). by exists h', new.
Qed.

(** On a PTY that delivers a line. *)
Lemma pty_thread_forwards_witness :
  let E := λ tr rq, match rq with RqRead _ _ => SysRes 3 0 0 (bs "ls!") [] | _ => good_env tr rq end in
  let t := ThreadData 16 (-1) 3 (bs "/dev/pts/16") x00 in
  ∃ h' new, pty_input_handler E 1 2 t demo_streams = Done tt h' ∧
    forwarded (td_fd t) (td_id t mod 256) demo_streams h' new.
Proof.
  intros E t. apply (pty_thread_forwards E 1 2 t demo_streams).
  - constructor; intros; cbn; (split; reflexivity) || lia.
  - intros tr n. cbn. discriminate.
  - lia.
  - intros tr. right. split; reflexivity.
  - apply wf_tx_ok; [exact demo_streams_wf|]. intros H. vm_compute in H. discriminate H.
  - vm_compute. congruence.
Defined.
