(* ===== verification/Reader.v ===== *)
(** * The UART reader thread

    [tty_input_handler] of [host/tcu_com.c]: the poll loop, the raw log, the
    legacy TCU demultiplexer, and the dispatch to the Virtioso feeders of
    [Demux.v], with which it shares the line-ending flags. *)

From S2P Require Import Prelude Proto CString HostState HostIo Flush Registry Demux HostTx Startup Tty.

(** The locals of the thread. *)
Record locals : Type := Locals {
  lo_rx : rx;
  lo_in_escape : bool;
  lo_cur_rx_guest : Z
}.

Definition set_lo_rx (v : rx) (l : locals) : locals :=
  Locals v (lo_in_escape l) (lo_cur_rx_guest l).
Definition set_lo_in_escape (v : bool) (l : locals) : locals :=
  Locals (lo_rx l) v (lo_cur_rx_guest l).
Definition set_lo_cur_rx_guest (v : Z) (l : locals) : locals :=
  Locals (lo_rx l) (lo_in_escape l) v.

Definition locals_init : locals := Locals rx_init false 0.

Section Reader.
Context (E : env) (fuel : nat).

(** [patch2flush_stream] for an index, its result ignored. *)
Definition deliver_to (i : Z) (ch : byte) (l : locals) : HM locals :=
  let* (_, r) := deliver E i ch (lo_rx l) in ret (set_lo_rx r l).

(** [not_escape_ch:] *)
Definition legacy_payload (ch : byte) (l : locals) : HM locals :=
  h <- get ;;
  assert_c (lo_cur_rx_guest l <? pty_max_count h) ;;;
  deliver_to (lo_cur_rx_guest l) ch l.

(** A byte in the legacy mode: to the raw PTY, then to the demultiplexer. *)
Definition legacy_byte (ch : byte) (l : locals) : HM locals :=
  h <- get ;;
  l <- deliver_to (raw_pty_idx (cfg h)) ch l ;;
  if lo_in_escape l then
    let l := set_lo_in_escape false l in
    if bool_decide (ch = UART_PROTO_ESC_ESC) then legacy_payload UART_PROTO_ESC_START l
    else
      h <- get ;;
      if bool_decide (ch = UART_PROTO_ESC_RESET) then
        ret (set_lo_cur_rx_guest (default_tag_idx h) l)
      else
        let tag_idx := find_tag_value (active_tags h) ch 0 in
        ret (if 0 <=? tag_idx then set_lo_cur_rx_guest tag_idx l else l)
  else if bool_decide (ch = UART_PROTO_ESC_START) then ret (set_lo_in_escape true l)
  else legacy_payload ch l.

(** The body of the loop over a read's bytes; [None] is [goto out]. *)
Definition tty_byte (ch : byte) (l : locals) : HM (option locals) :=
  h <- get ;;
  if virtioso_mode_enabled (cfg h) then
    let* (z, r) := feed_nvidia_outer_or_virtioso_raw E ch (lo_rx l) in
    ret (if z <? 0 then None else Some (set_lo_rx r l))
  else l <- legacy_byte ch l ;; ret (Some l).

Fixpoint tty_bytes (buf : list byte) (l : locals) : HM (option locals) :=
  match buf with
  | [] => ret (Some l)
  | ch :: buf' =>
      r <- tty_byte ch l ;;
      match r with None => ret None | Some l => tty_bytes buf' l end
  end.

(** One turn of [while (tcu_muxer_started)]. *)
Definition tty_turn (l : locals) : HM (option locals) :=
  h <- get ;;
  p <- sys E (RqPollIn (tty_fd h) (-1)) ;;
  if should_retry_io p then ret (Some l)
  else
    assert_c (res p =? 1) ;;;
    assert_c (Z.land (revents p) POLLNVAL =? 0) ;;;
    if negb (Z.land (revents p) (Z.lor POLLHUP POLLERR) =? 0) then
      fd <- reopen_tty_device E fuel (tty_fd h) ;;
      modify (set_tty_fd fd) ;;;
      if 0 <=? fd then ret (Some l) else halt (Exited (-1))
    else
      r <- sys E (RqRead (tty_fd h) temporary_buffer_size) ;;
      if res r <? 0 then ret None
      else
        let buf := take (Z.to_nat (res r)) (res_bytes r) in
        logged <- (if 0 <=? tty_log_fd h then
                     w <- sys E (RqWrite (tty_log_fd h) buf) ;; ret (negb (res w <? 0))
                   else ret true) ;;
        if negb logged then ret None else tty_bytes buf l.

(** The first [turns] turns: the locals, or [None] when the thread ended. *)
Fixpoint tty_loop (turns : nat) (l : locals) : HM (option locals) :=
  match turns with
  | O => ret (Some l)
  | S n =>
      r <- tty_turn l ;;
      match r with None => ret None | Some l => tty_loop n l end
  end.

Definition tty_input_handler (turns : nat) : HM (option locals) :=
  ok <- alloc E temporary_buffer_size ;;
  if negb ok then ret None else tty_loop turns locals_init.

End Reader.
