(* ===== verification/TxParSpec.v ===== *)
(** * The PTY threads side by side

    However the scheduler interleaves the actions of the PTY threads and of
    the other threads, the UART receives the writes of the threads one after
    the other, never mixed: the write lock serialises them.  What the device
    does not take of a packet is lost; it loses nothing where its writes are
    never cut short. *)

From S2P Require Import Prelude Proto HostState HostIo HostIoInv HostTx HostTxInv HostTxSpec Startup StartupInv RegistryInv Demux DemuxInv Route Demo Reader Par TxPar.
From stdpp Require Import relations.
#[local] Open Scope Z_scope.
#[local] Open Scope list_scope.

(** What the PTY threads rely on: the configuration, the UART and the tags of
    the streams that were there stay as they are; streams may be added. *)
Record steady (h0 h : host) : Prop := Steady {
  sd_cfg : cfg h = cfg h0;
  sd_tty : tty_fd h = tty_fd h0;
  sd_max : pty_max_count h0 ≤ pty_max_count h;
  sd_tags j : Z.of_nat j < pty_max_count h0 → tags h !! j = tags h0 !! j
}.

(** May the channel of an index be written to? *)
Definition writable (h : host) (i : Z) : bool :=
  enable_write_raw_pty (cfg h) ||
  negb ((i =? raw_pty_idx (cfg h)) ||
        (virtioso_mode_enabled (cfg h) && (i =? virtioso_default_pty_idx (cfg h)))).

(** [s] is what the device took of the first of the packets [ps]; [rest] are
    the others. *)
Definition parts (E : env) (fd : Z) (ps : list (list byte)) (s : list byte)
    (rest : list (list byte)) : Prop :=
  ∃ first cs, ps = first ++ rest ∧ Forall2 (taken E fd) cs first ∧ s = concat cs.

Lemma parts_start E fd ps : parts E fd ps [] ps.
Proof. by exists [], []. Qed.

Lemma parts_next E fd ps s c p rest :
  parts E fd ps s (p :: rest) → taken E fd c p → parts E fd ps (s ++ c) rest.
Proof.
  intros (first & cs & -> & Hcs & ->) Hc. exists (first ++ [p]), (cs ++ [c]).
  rewrite <-app_assoc, concat_app. cbn. rewrite app_nil_r. split_and!; [done| |done].
  apply Forall2_app; [done|]. by constructor.
Qed.

Lemma parts_all E fd ps s : no_short E fd → parts E fd ps s [] → s = concat ps.
Proof.
  intros Hns (first & cs & -> & Hcs & ->). by rewrite app_nil_r, (pieces_whole _ _ _ _ Hns Hcs).
Qed.

(** Where no write is cut short these are whole packets. *)
Lemma parts_whole E fd ps s rest :
  no_short E fd → parts E fd ps s rest → ∃ first, ps = first ++ rest ∧ s = concat first.
Proof.
  intros Hns (first & cs & -> & Hcs & ->). exists first. by rewrite (pieces_whole _ _ _ _ Hns Hcs).
Qed.

Lemma after_quiet rq r l :
  free_call rq = true → after rq r l = l.
Proof.
  intros Hf. unfold after. destruct l as [rd st [s|]]; destruct rq; try done; cbn; by rewrite !app_nil_r.
Qed.

Section Threads.
Context (E : env) (fuel : nat) (ok : stop → Prop) (h0 : host) (calm : Prop).
Context (t : thread_data) (i : Z) (Hi : i = td_id t mod 256).
Context (Hidx : i < pty_max_count h0) (Htx : tx_ok h0).
Context (Hcalm : calm → prompt E (tty_fd h0) ∧ alloc_ok E ∧ (0 < fuel)%nat ∧ pty_polls E (td_fd t)).
Context (Hok : calm ∨ (ok OutOfFuel ∧ ok AssertFail)).

Local Abbreviation packets_of d := (downlink_packets h0 i d).
Local Abbreviation parts := (parts E (tty_fd h0)).

(** What a finished write of [d] put on the UART. *)
Definition whole (d s : list byte) : Prop :=
  (∃ rest, parts (packets_of d) s rest) ∧ (calm → s = concat (packets_of d)).

(** Where a thread is: [x] is the chunk it has read and not finished, [c] what
    it put on the UART for it since it holds the lock. *)
Record here (x : list (list byte)) (c : option (list byte)) (l : local) : Prop := Here {
  he_cur : lc_cur l = c;
  he_log : ∃ rs rs', lc_read l = rs' ++ x ∧ sublist rs rs' ∧ Forall2 whole rs (lc_sent l) ∧
    (calm → writable h0 i = true → rs = rs');
  he_part : match c with
    | Some s => ∃ d rest, x = [d] ∧ parts (packets_of d) s rest
    | None => (length x ≤ 1)%nat
    end
}.

Definition thread_inv (l : local) : Prop := ∃ x c, here x c l.

Local Abbreviation keeps := (obeys E ok (steady h0) (tty_fd h0) (td_fd t) thread_inv).

(* ------------------------------------------------------------------ *)
(** ** Lemmas: the rule, action by action *)

Lemma here_inv x c l : here x c l → thread_inv l.
Proof. by exists x, c. Qed.
Hint Resolve here_inv : core.

Lemma keeps_ret {A} (a : A) (Q : A → local → Prop) l : thread_inv l → Q a l → keeps (Ret a) Q l.
Proof. by split. Qed.

Lemma keeps_look {B} (f : host → proc B) Q l :
  thread_inv l → (∀ h, steady h0 h → keeps (f h) Q l) → keeps (look ≫= f) Q l.
Proof. by split. Qed.

Lemma keeps_call {B} rq (f : sysres → proc B) Q l :
  free_call rq = true → thread_inv l →
  (∀ tr, keeps (f (E tr rq)) Q l) → keeps (call rq ≫= f) Q l.
Proof.
  intros Hw Hl Hf. split; [done|]. split; [by destruct rq|].
  intros tr. rewrite after_quiet by done. apply Hf.
Qed.

Lemma keeps_alloc {B} n (f : bool → proc B) Q l :
  thread_inv l → (∀ b, (calm → b = true) → keeps (f b) Q l) → keeps (call_alloc n ≫= f) Q l.
Proof.
  intros Hl Hf. apply (keeps_call (RqMalloc n) (λ r, f (negb (res r =? 0)))); try done.
  intros tr. apply Hf. intros Hc. apply negb_true_iff, Z.eqb_neq.
  by apply (proj1 (proj2 (Hcalm Hc))).
Qed.

Lemma keeps_check {B} b (f : unit → proc B) Q l :
  thread_inv l → (calm → b = true) → (b = true → keeps (f tt) Q l) → keeps (check b ≫= f) Q l.
Proof.
  intros Hl Hb Hf. destruct b; [by apply Hf|]. split; [done|].
  destruct Hok as [Hc|[_ Ha]]; [by specialize (Hb Hc)|exact Ha].
Qed.

Lemma keeps_glance {A B} (m : HM A) (f : A → proc B) Q l :
  thread_inv l → (∀ h, steady h0 h → ∃ a, m h = Done a h ∧ keeps (f a) Q l) →
  keeps (glance m ≫= f) Q l.
Proof.
  intros Hl Hm. split; [done|]. intros h Hh. cbn. destruct (Hm h Hh) as (a & -> & Hf). exact Hf.
Qed.

(** A retried call: what counts is the first answer that is no retry. *)
Lemma keeps_retry {B} n rq (f : sysres → proc B) Q l :
  may_call (tty_fd h0) (td_fd t) rq l → not_read rq = true → thread_inv l →
  (calm → (0 < n)%nat ∧ ∀ tr, should_retry_io (E tr rq) = false) →
  (∀ tr, should_retry_io (E tr rq) = false → keeps (f (E tr rq)) Q (after rq (E tr rq) l)) →
  keeps (retry_call n rq ≫= f) Q l.
Proof.
  intros Hm Hr Hl Hc Hf. induction n as [|n IH]; cbn [retry_call].
  { split; [done|]. destruct Hok as [Hk|[Ho _]]; [|exact Ho]. destruct (Hc Hk). lia. }
  split; [done|]. split; [done|]. intros tr. cbn.
  destruct (should_retry_io (E tr rq)) eqn:Hs; [|by apply Hf].
  replace (after rq (E tr rq) l) with l.
  { apply IH. intros Hk. destruct (Hc Hk) as [_ Hno]. by rewrite Hno in Hs. }
  unfold should_retry_io in Hs. apply andb_prop in Hs as [Hs _]. z_bool.
  unfold after. destruct l as [rd st [s|]]; destruct rq; try done; cbn; rewrite ?Hs, ?app_nil_r; done.
Qed.

(** ** Lemmas: the moves of a thread *)

Lemma here_write d s r p x l :
  here [d] (Some s) l → x = take (Z.to_nat (res r)) p →
  (∃ rest, parts (packets_of d) (s ++ x) rest) →
  here [d] (Some (s ++ x)) (after (RqWrite (tty_fd h0) p) r l).
Proof.
  intros [Hc Hl _] -> [rest Hp]. constructor; cbn.
  - by rewrite Hc.
  - by rewrite app_nil_r.
  - by exists d, rest.
Qed.

Lemma here_lock d l : here [d] None l → here [d] (Some []) (Local (lc_read l) (lc_sent l) (Some [])).
Proof.
  intros [Hc Hl _]. constructor; [done|exact Hl|]. exists d, (packets_of d). by split; [|apply parts_start].
Qed.

Lemma here_unlock d s l :
  here [d] (Some s) l → whole d s → here [] None (Local (lc_read l) (lc_sent l ++ [s]) None).
Proof.
  intros [Hc (rs & rs' & Hr & Hs & Hf & He) _] Hw. constructor; [done| |cbn; lia].
  exists (rs ++ [d]), (rs' ++ [d]). split_and!.
  - by rewrite app_nil_r.
  - by apply sublist_app.
  - apply Forall2_app; [done|]. by constructor.
  - intros H1 H2. by rewrite (He H1 H2).
Qed.

Lemma here_read d l :
  here [] None l → here [d] None (Local (lc_read l ++ [d]) (lc_sent l) None).
Proof.
  intros [Hc (rs & rs' & Hr & Hs & Hf & He) _]. constructor; [done| |cbn; lia].
  exists rs, rs'. split_and!; try done. cbn. by rewrite Hr, app_nil_r.
Qed.

(** Giving a chunk up without the lock, when nothing is owed for it. *)
Lemma here_skip d l :
  here [d] None l → (calm → writable h0 i = true → False) → here [] None l.
Proof.
  intros [Hc (rs & rs' & Hr & Hs & Hf & He) _] Hno. constructor; [done| |cbn; lia].
  exists rs, (rs' ++ [d]). split_and!; try done.
  - by rewrite app_nil_r.
  - by apply sublist_inserts_r.
  - intros H1 H2. by destruct (Hno H1 H2).
Qed.

Lemma keeps_lock {A} d (p : proc A) Q l :
  here [d] None l → (∀ l', here [d] (Some []) l' → keeps p Q l') → keeps (Lock p) Q l.
Proof.
  intros Hh Hp. split; [eauto|]. split; [apply Hh|]. by apply Hp, here_lock.
Qed.

Lemma keeps_unlock {A} d s (a : A) (Q : A → local → Prop) l :
  here [d] (Some s) l → whole d s → (∀ l', here [] None l' → Q a l') → keeps (Unlock (Ret a)) Q l.
Proof.
  intros Hh Hw HQ. split; [eauto|]. rewrite (he_cur _ _ _ Hh).
  pose proof (here_unlock d s l Hh Hw) as H. split; [eauto|]. by apply HQ.
Qed.

(** Writing the next packet of [d]. *)
Lemma keeps_put {B} d s p rest (f : Z → proc B) Q l :
  here [d] (Some s) l → parts (packets_of d) s (p :: rest) →
  (∀ z c l', 0 ≤ z → here [d] (Some (s ++ c)) l' → parts (packets_of d) (s ++ c) rest →
     keeps (f z) Q l') →
  (∀ z l' s', z < 0 → here [d] (Some s') l' → whole d s' → keeps (f z) Q l') →
  keeps (put_uart fuel p ≫= f) Q l.
Proof.
  intros Hh Hp Hdone Hfail.
  assert (Hf0 : ∀ z, z < 0 → ¬ calm → keeps (f z) Q l).
  { intros z Hz Hnc. apply (Hfail z l s Hz Hh). split; [by exists (p :: rest)|by intros]. }
  unfold put_uart, putbuf. apply obeys_bind, keeps_look; [eauto|]. intros h Hst.
  rewrite (sd_tty _ _ Hst). apply keeps_look; [eauto|]. clear h Hst. intros h _.
  apply keeps_retry; [done|done|eauto| |].
  { intros Hc. destruct (Hcalm Hc) as ([Hpo _ _] & _ & Hfu & _). split; [done|]. intros tr.
    unfold should_retry_io. by rewrite (proj1 (Hpo tr _)). }
  intros tr Hr. rewrite after_quiet by done.
  assert (Hpc : calm → res (E tr (RqPollOut (tty_fd h0) (poll_output_timeout (cfg h)))) = 1 ∧
      Z.land (revents (E tr (RqPollOut (tty_fd h0) (poll_output_timeout (cfg h))))) POLLNVAL = 0).
  { intros Hc. apply Hcalm in Hc as ([Hpo _ _] & _). apply Hpo. }
  set (q := E tr (RqPollOut _ _)) in *.
  destruct (res q =? 0) eqn:H0; z_bool.
  { apply keeps_ret; [eauto|]. apply Hf0; [lia|]. intros Hc. destruct (Hpc Hc). lia. }
  apply keeps_check; [eauto|intros Hc; apply Z.eqb_eq, Hpc, Hc|]. intros _.
  apply keeps_check; [eauto|intros Hc; apply Z.eqb_eq, Hpc, Hc|]. intros _. clear q Hr Hpc H0 tr.
  apply keeps_retry; [split; [done|by rewrite (he_cur _ _ _ Hh)]|done|eauto| |].
  { intros Hc. destruct (Hcalm Hc) as ([_ Hw _] & _ & Hfu & _). split; [done|]. intros tr.
    unfold should_retry_io. rewrite Hw. apply andb_false_intro1, Z.eqb_neq. lia. }
  intros tr _. set (r := E tr (RqWrite (tty_fd h0) p)).
  assert (Hwhole : calm → res r = Z.of_nat (length p)).
  { intros Hc. destruct (Hcalm Hc) as ([_ Hw _] & _). apply Hw. }
  destruct (res r <? 0) eqn:Hneg; z_bool.
  { pose proof (here_write d s r p [] l Hh) as Hw. rewrite app_nil_r in Hw.
    assert (Hh' : here [d] (Some s) (after (RqWrite (tty_fd h0) p) r l)).
    { apply Hw; [|by exists (p :: rest)]. by replace (Z.to_nat (res r)) with 0%nat by lia. }
    apply keeps_ret; [eauto|]. apply (Hfail _ _ s); [done|done|]. split; [by exists (p :: rest)|].
    intros Hc. specialize (Hwhole Hc). lia. }
  set (c := take (Z.to_nat (res r)) p).
  assert (Ht : taken E (tty_fd h0) c p).
  { destruct (decide (Z.of_nat (length p) ≤ res r)); [left; apply take_ge; lia|].
    right. exists tr. cbv zeta. fold r. split; [lia|done]. }
  pose proof (parts_next _ _ _ _ c _ _ Hp Ht) as Hp'.
  assert (Hw : here [d] (Some (s ++ c)) (after (RqWrite (tty_fd h0) p) r l)).
  { by apply here_write; [done..|exists rest]. }
  destruct (negb _) eqn:Hall; [apply keeps_ret; [eauto|]; by eapply Hdone|].
  apply keeps_call; [done|eauto|]. intros tr'.
  destruct (_ <? 0) eqn:Hd; z_bool; (apply keeps_ret; [eauto|]); [|by eapply Hdone].
  apply (Hfail _ _ (s ++ c)); [lia|done|]. split; [by exists rest|].
  intros Hc. destruct (Hcalm Hc) as ([_ _ Hdr] & _). specialize (Hdr tr'). lia.
Qed.

(* ------------------------------------------------------------------ *)
(** ** Lemmas: the writers keep to the rule *)

(** The end of a write: its chunk is done with. *)
Definition done_with (z : Z) (l : local) : Prop := here [] None l.

Lemma keeps_stop d s z l : here [d] (Some s) l → whole d s → keeps (Unlock (Ret z)) done_with l.
Proof. intros Hh Hw. by eapply keeps_unlock. Qed.

Lemma keeps_last d s z l :
  here [d] (Some s) l → parts (packets_of d) s [] → keeps (Unlock (Ret z)) done_with l.
Proof.
  intros Hh Hp. eapply keeps_stop; [done|]. split; [by exists []|]. intros Hc.
  eapply parts_all; [|exact Hp]. by apply prompt_no_short, Hcalm.
Qed.

Lemma keeps_put_last d s p l :
  here [d] (Some s) l → parts (packets_of d) s [p] →
  keeps (r ← put_uart fuel p; Unlock (Ret r)) done_with l.
Proof.
  intros Hh Hp. eapply keeps_put; [done|done| |].
  - intros z c l' _ Hh' Hp'. by eapply keeps_last.
  - intros z l' s' _ Hh' Hw. by eapply keeps_stop.
Qed.

Lemma steady_packet h l : steady h0 h → packet h l = packet h0 l.
Proof. intros Hs. unfold packet, carrier. by rewrite (sd_cfg _ _ Hs). Qed.

Lemma steady_carrier h : steady h0 h → carrier_ok h.
Proof. intros Hs. unfold carrier_ok. rewrite (sd_cfg _ _ Hs). apply Htx. Qed.

(** The outer encoding, where there is one. *)
Lemma keeps_outer {B} max data (f : list byte → proc B) Q l :
  thread_inv l → virtioso_outer_mode (cfg h0) = VIRTIOSO_OUTER_NVIDIA_TCU →
  Z.of_nat (length data) * 2 + 2 ≤ max →
  keeps (f (packet h0 data)) Q l → keeps (glance (encode_outer max data) ≫= f) Q l.
Proof.
  intros Hl Hm Hmax Hf. apply keeps_glance; [done|]. intros h Hs. exists (packet h0 data).
  split; [|done]. rewrite <-(steady_packet h data Hs), (encode_outer_run h data max); [| |done].
  - unfold packet. by rewrite (sd_cfg _ _ Hs), Hm.
  - apply (steady_carrier h Hs). by rewrite (sd_cfg _ _ Hs).
Qed.

Lemma packet_bare data :
  (virtioso_outer_mode (cfg h0) =? VIRTIOSO_OUTER_NVIDIA_TCU) = false → packet h0 data = data.
Proof. unfold packet. by intros ->. Qed.

Lemma index_range : 0 ≤ i.
Proof. pose proof (Z.mod_pos_bound (td_id t) 256 eq_refl). lia. Qed.

(** The tag of the thread's stream. *)
Lemma stream_has_tag : ∃ tg, tags h0 !! Z.to_nat i = Some tg ∧ tag_value tg = stream_tag h0 i.
Proof.
  pose proof index_range. pose proof (tx_tags _ Htx).
  destruct (lookup_lt_is_Some_2 (tags h0) (Z.to_nat i)) as [tg Htg]; [lia|].
  exists tg. split; [done|]. unfold stream_tag. by rewrite Htg.
Qed.

(** The inner frame of a chunk. *)
Lemma keeps_inner {B} max chunk (f : list byte → proc B) Q l :
  thread_inv l → Z.of_nat (length chunk) * 2 + 4 ≤ max →
  keeps (f (frame (stream_tag h0 i) chunk)) Q l → keeps (glance (encode_inner max i chunk) ≫= f) Q l.
Proof.
  intros Hl Hmax Hf. apply keeps_glance; [done|]. intros h Hs. exists (frame (stream_tag h0 i) chunk).
  split; [|done]. pose proof index_range. destruct stream_has_tag as (tg & Htg & <-).
  apply encode_inner_run; [done| |done]. rewrite (sd_tags _ _ Hs); [done|lia].
Qed.

Lemma keeps_raw d l :
  here [d] None l → virtioso_mode_enabled (cfg h0) = true →
  (i =? raw_pty_idx (cfg h0)) || (i =? virtioso_default_pty_idx (cfg h0)) = true →
  keeps (locked_raw fuel d) done_with l.
Proof.
  intros Hh Hv Hraw. unfold locked_raw. apply keeps_look; [eauto|]. intros h Hs.
  rewrite (sd_cfg _ _ Hs). destruct (enable_write_raw_pty (cfg h0)) eqn:Hw; cbn [negb].
  2:{ apply keeps_ret; [eauto|]. eapply here_skip; [done|]. intros _ Hwr.
      unfold writable in Hwr. by rewrite Hw, Hv, andb_true_l, Hraw in Hwr. }
  assert (Hpk : packets_of d = [packet h0 d]) by (unfold downlink_packets; by rewrite Hv, Hraw, Hw).
  eapply keeps_lock; [done|]. clear h Hs l Hh. intros l Hh.
  assert (Hp : parts (packets_of d) [] [packet h0 d]) by (rewrite Hpk; apply parts_start).
  apply keeps_look; [eauto|]. intros h Hs. rewrite (sd_cfg _ _ Hs).
  destruct (_ =? VIRTIOSO_OUTER_NVIDIA_TCU) eqn:Hm.
  - apply keeps_alloc; [eauto|]. intros b Hb. destruct b; cbn [negb].
    + z_bool. apply keeps_outer; [eauto|done|lia|]. by eapply keeps_put_last.
    + eapply keeps_stop; [done|]. split; [by eexists|]. intros Hc. by specialize (Hb Hc).
  - eapply keeps_put_last; [done|]. by rewrite packet_bare in Hp.
Qed.

Lemma keeps_fragments n d s data l :
  (length data ≤ n)%nat → here [d] (Some s) l →
  parts (packets_of d) s (packets h0 (stream_tag h0 i) data) →
  keeps (locked_fragments fuel n i data) done_with l.
Proof.
  revert s data l. induction n as [|n IH]; intros s data l Hn Hh Hp.
  { destruct data; [|cbn in Hn; lia]. by eapply keeps_last. }
  destruct data as [|b data]; [by eapply keeps_last|].
  cbn [locked_fragments]. set (all := b :: data) in *. cbv zeta.
  set (size := Z.to_nat VIRTIOSO_DOWNLINK_FRAGMENT_PAYLOAD_SIZE). set (chunk := take size all).
  rewrite packets_cons in Hp by done. fold size chunk in Hp.
  assert (Hnomem : ∀ z, ¬ calm → keeps (Unlock (Ret z)) done_with l).
  { intros z Hc. eapply keeps_stop; [done|]. split; [by eexists|done]. }
  apply keeps_alloc; [eauto|]. intros b1 Hb1. apply keeps_alloc; [eauto|]. intros b2 Hb2.
  destruct (negb b1 || negb b2) eqn:Hb.
  { apply Hnomem. intros Hc. by rewrite (Hb1 Hc), (Hb2 Hc) in Hb. }
  apply keeps_look; [eauto|]. intros h Hs. rewrite (sd_cfg _ _ Hs). clear h Hs.
  apply keeps_inner; [eauto|lia|].
  assert (Hlen : Z.of_nat (length (frame (stream_tag h0 i) chunk)) ≤ Z.of_nat (length chunk) * 2 + 4).
  { pose proof (frame_length (stream_tag h0 i) chunk). lia. }
  assert (Hdrop : (length (drop size all) ≤ n)%nat).
  { rewrite length_drop. unfold size, VIRTIOSO_DOWNLINK_FRAGMENT_PAYLOAD_SIZE, all. cbn in Hn |- *. lia. }
  assert (Hput : keeps (r ← put_uart fuel (packet h0 (frame (stream_tag h0 i) chunk));
      if r <? 0 then Unlock (Ret r) else locked_fragments fuel n i (drop size all)) done_with l).
  { eapply keeps_put; [done|done| |].
    - intros z c l' Hz Hh' Hp'. rewrite (proj2 (Z.ltb_ge _ _)) by done. by eapply IH.
    - intros z l' s' Hz Hh' Hw. rewrite (proj2 (Z.ltb_lt _ _)) by done. by eapply keeps_stop. }
  destruct (_ =? VIRTIOSO_OUTER_NVIDIA_TCU) eqn:Hm.
  - z_bool. apply obeys_bind. apply keeps_outer; [eauto|done|lia|]. by apply obeys_unbind.
  - by rewrite packet_bare in Hput.
Qed.

Local Abbreviation is_raw := (i =? raw_pty_idx (cfg h0)).

(** The bytes before a write's first chunk, which select the stream. *)
Definition header (first : bool) : list byte :=
  if first && negb is_raw then [UART_PROTO_ESC_START; stream_tag h0 i] else [].

Lemma keeps_header {B} h first (f : option (list byte) → proc B) Q l :
  steady h0 h → thread_inv l → keeps (f (Some (header first))) Q l →
  keeps ((if first && negb is_raw then
            glance (t <- arr_get (tags h) i ;;
                    ret match write_byte [] UART_PROTO_ESC_START with
                        | None => None
                        | Some buf => write_byte buf (tag_value t)
                        end)
          else Ret (Some [])) ≫= f) Q l.
Proof.
  intros Hs Hl Hf. unfold header in Hf. destruct (first && _); [|exact Hf].
  apply keeps_glance; [done|]. intros h' _. eexists. split; [|exact Hf].
  pose proof index_range. destruct stream_has_tag as (tg & Htg & <-).
  rewrite <-(sd_tags _ _ Hs) in Htg by lia.
  by rewrite (run_bind _ _ _ _ _ (arr_get_run _ _ _ h' index_range Htg)).
Qed.

Lemma keeps_chunks n first d s data l :
  (length data ≤ n)%nat → here [d] (Some s) l →
  parts (packets_of d) s (legacy_packets is_raw (header first) data) →
  keeps (locked_chunks fuel n first i data) done_with l.
Proof.
  revert first s data l. induction n as [|n IH]; intros first s data l Hn Hh Hp.
  { destruct data; [|cbn in Hn; lia]. by eapply keeps_last. }
  destruct data as [|b data]; [by eapply keeps_last|].
  cbn [locked_chunks]. set (all := b :: data) in *. cbv zeta.
  rewrite legacy_packets_cons in Hp by done. set (size := Z.to_nat MAX_WRITE_CHUNK_SIZE) in *.
  apply keeps_look; [eauto|]. intros h Hs. rewrite (sd_cfg _ _ Hs).
  apply keeps_header; [done|eauto|].
  assert (Hhdr : (length (header first) ≤ 2)%nat) by (unfold header; case_match; cbn; lia).
  rewrite encode_chunk_run.
  2:{ rewrite length_take. unfold encoded_max, size, MAX_WRITE_CHUNK_SIZE. lia. }
  eapply keeps_put; [done|done| |].
  - intros z c l' Hz Hh' Hp'. rewrite (proj2 (Z.ltb_ge _ _)) by done.
    eapply IH; [|exact Hh'|exact Hp'].
    rewrite length_drop. unfold size, MAX_WRITE_CHUNK_SIZE, all. cbn in Hn |- *. lia.
  - intros z l' s' Hz Hh' Hw. rewrite (proj2 (Z.ltb_lt _ _)) by done. by eapply keeps_stop.
Qed.

Lemma keeps_write d l : here [d] None l → keeps (locked_write fuel i d) done_with l.
Proof.
  intros Hh. pose proof index_range.
  assert (Hrange : ∀ h, steady h0 h → (pty_max_count h <=? i) = false).
  { intros h Hs. apply Z.leb_gt. pose proof (sd_max _ _ Hs). lia. }
  apply keeps_look; [eauto|]. intros h Hs. rewrite (sd_cfg _ _ Hs), (Hrange h Hs). clear h Hs.
  destruct (virtioso_mode_enabled (cfg h0)) eqn:Hv.
  - apply keeps_look; [eauto|]. intros h Hs. rewrite (sd_cfg _ _ Hs), (Hrange h Hs). clear h Hs.
    destruct (_ || _) eqn:Hraw; [by apply keeps_raw|].
    eapply keeps_lock; [done|]. intros l' Hh'. eapply keeps_fragments; [done|done|].
    unfold downlink_packets. rewrite Hv, Hraw. apply parts_start.
  - destruct (is_raw && _) eqn:Hoff.
    { apply keeps_ret; [eauto|]. eapply here_skip; [done|]. intros _ Hw. unfold writable in Hw.
      rewrite Hv in Hw. apply andb_prop in Hoff as [Hraw Hen]. rewrite Hraw in Hw. apply negb_true_iff in Hen.
      by rewrite Hen in Hw. }
    apply keeps_alloc; [eauto|]. intros b Hb. destruct b; cbn [negb].
    2:{ apply keeps_ret; [eauto|]. eapply here_skip; [done|]. intros Hc. by specialize (Hb Hc). }
    eapply keeps_lock; [done|]. intros l' Hh'. eapply keeps_chunks; [done|done|].
    unfold downlink_packets, header. rewrite Hv.
    destruct (i =? raw_pty_idx (cfg h0)); cbn [andb negb] in *.
    + destruct (enable_write_raw_pty _); [apply parts_start|done].
    + apply parts_start.
Qed.

Lemma keeps_read {B} count (f : sysres → proc B) Q l :
  here [] None l →
  (∀ tr, let r := E tr (RqRead (td_fd t) count) in
    ∀ l', here (if 0 <? res r then [take (Z.to_nat (res r)) (res_bytes r)] else []) None l' →
    keeps (f r) Q l') →
  keeps (call (RqRead (td_fd t) count) ≫= f) Q l.
Proof.
  intros Hh Hf. split; [eauto|]. split; [done|]. intros tr. apply Hf.
  pose proof (he_cur _ _ _ Hh) as Hc. unfold after, got. rewrite Hc.
  destruct (0 <? _); [by apply here_read|]. rewrite app_nil_r. by destruct l; cbn in Hc; subst.
Qed.

Lemma keeps_turn l : here [] None l → keeps (pty_turn fuel t) (λ _ l, here [] None l) l.
Proof.
  intros Hh. unfold pty_turn. cbv zeta. rewrite <-Hi.
  apply keeps_call; [done|eauto|]. intros tr.
  assert (Hp : calm → should_retry_io (E tr (RqPollIn (td_fd t) (-1))) = true ∨
    (res (E tr (RqPollIn (td_fd t) (-1))) =? 1) = true ∧
    (Z.land (revents (E tr (RqPollIn (td_fd t) (-1)))) POLLNVAL =? 0) = true).
  { intros Hc. destruct (Hcalm Hc) as (_ & _ & _ & Hpoll). destruct (Hpoll tr) as [?|[Hr Hn]]; [by left|].
    right. split; by apply Z.eqb_eq. }
  destruct (should_retry_io _); [by apply keeps_ret; eauto|].
  apply keeps_check; [eauto|intros Hc; by destruct (Hp Hc) as [?|[? ?]]|]. intros _.
  apply keeps_check; [eauto|intros Hc; by destruct (Hp Hc) as [?|[? ?]]|]. intros _.
  clear Hp. destruct (_ =? 0).
  { apply keeps_call; [done|eauto|]. intros tr'. by apply keeps_ret; eauto. }
  apply keeps_read; [done|]. intros tr'. cbv zeta. destruct (0 <? _); intros l' Hh'.
  - apply obeys_bind. eapply obeys_mono; [|by apply keeps_write].
    intros z l1 _ Hd. by apply keeps_ret; eauto.
  - by apply keeps_ret; eauto.
Qed.

(** The thread keeps to the rule from its start on. *)
Lemma keeps_thread turns : keeps (pty_thread fuel turns t) (λ _, here [] None) local_init.
Proof.
  assert (H0 : here [] None local_init).
  { constructor; [done| |cbn; lia]. exists [], []. by split_and!. }
  assert (Hloop : ∀ n l, here [] None l → keeps (pty_turns fuel n t) (λ _, here [] None) l).
  { induction n as [|n IH]; intros l Hh; cbn [pty_turns].
    - by apply keeps_ret; eauto.
    - apply obeys_bind. eapply obeys_mono; [|by apply keeps_turn]. intros [] l' _ Hh'. by apply IH. }
  unfold pty_thread. apply keeps_alloc; [eauto|]. intros [] _; cbn [negb]; [by apply Hloop|].
  by apply keeps_ret; eauto.
Qed.

End Threads.

(** The index a thread serves. *)
Definition serves_idx (t : thread_data) : Z := td_id t mod 256.

(** What the other threads may do meanwhile: anything that leaves the UART,
    the reads of these PTYs and the streams that are there alone. *)
Record bystander (h0 : host) (fds : list Z) (h h' : host) : Prop := Bystander {
  bs_cfg : cfg h' = cfg h;
  bs_tty : tty_fd h' = tty_fd h;
  bs_max : pty_max_count h ≤ pty_max_count h';
  bs_tags j : Z.of_nat j < pty_max_count h0 → tags h' !! j = tags h !! j;
  bs_uart : accepted (tty_fd h0) (trace h') = accepted (tty_fd h0) (trace h);
  bs_reads fd : fd ∈ fds → reads fd (trace h') = reads fd (trace h)
}.

(** The PTY threads of [ts], about to start. *)
Definition writers (fuel turns : nat) (ts : list thread_data) (h : host) : par :=
  Par None h (pty_thread fuel turns <$> ts).

(** The steps of the program with them. *)
Definition steps (E : env) (h : host) (ts : list thread_data) : par → par → Prop :=
  rtc (pstep E (bystander h (td_fd <$> ts))).

(** Threads of channels there are, each with its own PTY. *)
Record threads_of (h : host) (ts : list thread_data) : Prop := ThreadsOf {
  tf_idx : Forall (λ t, serves_idx t < pty_max_count h) ts;
  tf_own : NoDup (td_fd <$> ts)
}.

(** From [h] to [s] the thread [t] read [new]; it has finished [rs] of these
    chunks, having put [sent] on the UART for them. *)
Record handled (E : env) (h : host) (s : par) (t : thread_data) (new rs sent : list (list byte)) : Prop := Handled {
  hd_reads : reads (td_fd t) (trace (pr_host s)) = reads (td_fd t) (trace h) ++ new;
  hd_order : sublist rs new;
  hd_whole : Forall2 (λ d x, ∃ rest, parts E (tty_fd h) (downlink_packets h (serves_idx t) d) x rest) rs sent
}.

(** From [h] to [s] the UART received whole writes one after the other, the
    last one perhaps unfinished: those of a thread that may write are the
    encodings of what it read, in order, up to one chunk it works on. *)
Definition written (h : host) (ts : list thread_data) (s : par) : Prop :=
  ∃ ws cur,
    accepted (tty_fd h) (trace (pr_host s)) = accepted (tty_fd h) (trace h) ++ concat ws.*2 ++ cur ∧
    (pr_owner s = None → cur = []) ∧
    ∀ k t, ts !! k = Some t → writable h (serves_idx t) = true → ∃ rs x,
      reads (td_fd t) (trace (pr_host s)) = reads (td_fd t) (trace h) ++ rs ++ x ∧
      (filter (λ w, w.1 = k) ws).*2 = map (downlink_wire h (serves_idx t)) rs ∧
      (length x ≤ 1)%nat ∧ (forallb final (pr_procs s) = true → x = []).

(* ------------------------------------------------------------------ *)
(** ** Lemmas: the threads together *)

Lemma steady_refl h : steady h h.
Proof. by constructor. Qed.

Lemma steady_blind E h0 : call_blind E (λ _, true) (steady h0).
Proof. intros h rq _ []. by constructor. Qed.

#[global] Instance bystander_lets_be h0 fds :
  lets_be (steady h0) (tty_fd h0) fds (bystander h0 fds).
Proof.
  constructor.
  - intros h h' [H1 H2 H3 H4] [B1 B2 B3 B4 _ _]. constructor; try congruence; [lia|].
    intros j Hj. by rewrite B4, H4.
  - intros h h' _ Hb. apply Hb.
  - intros h h' fd _ Hb. apply Hb.
Qed.

(** What is known of a thread at any time. *)
Definition inv_of (E : env) (h : host) (calm : Prop) (ts : list thread_data) (k : nat) : local → Prop :=
  match ts !! k with
  | Some t => thread_inv E h calm (serves_idx t)
  | None => λ _, True
  end.

Definition done_of (E : env) (h : host) (calm : Prop) (ts : list thread_data) (k : nat) : local → Prop :=
  match ts !! k with
  | Some t => here E h calm (serves_idx t) [] None
  | None => λ _, False
  end.

Lemma done_of_free E h calm ts k l : done_of E h calm ts k l → lc_cur l = None.
Proof. unfold done_of. destruct (ts !! k); [|done]. intros Hh. apply Hh. Qed.

Lemma writers_together E fuel turns ts h ok calm s :
  tx_ok h → threads_of h ts →
  (calm → prompt E (tty_fd h) ∧ alloc_ok E ∧ (0 < fuel)%nat ∧ ∀ t, t ∈ ts → pty_polls E (td_fd t)) →
  calm ∨ (ok OutOfFuel ∧ ok AssertFail) →
  steps E h ts (writers fuel turns ts h) s →
  ∃ ls ws, together E ok (steady h) (tty_fd h) (td_fd <$> ts) (inv_of E h calm ts) (done_of E h calm ts) h s ls ws.
Proof.
  intros Htx [Hidx Hown] Hcalm Hok Hr.
  apply (par_sound E ok (steady h) (tty_fd h) (td_fd <$> ts) (inv_of E h calm ts)
    (done_of E h calm ts) (bystander h (td_fd <$> ts)) Hown (steady_blind E h) h (pty_thread fuel turns <$> ts) s);
    [apply steady_refl|by rewrite !length_fmap| |exact Hr].
  intros k p fd Hp Hfd. rewrite list_lookup_fmap in Hp. rewrite list_lookup_fmap in Hfd. unfold inv_of, done_of.
  destruct (ts !! k) as [t|] eqn:Ht; [|done]. cbn in Hp, Hfd. simplify_eq.
  apply keeps_thread; try done.
  - by apply (Forall_lookup_1 _ _ _ _ Hidx) in Ht.
  - intros Hc. destruct (Hcalm Hc) as (? & ? & ? & Hpoll). split_and!; try done.
    apply Hpoll. by eapply list_elem_of_lookup_2.
Qed.

(** The calls the threads make. *)
Lemma writers_call E fuel turns ts h s k rq c :
  tx_ok h → threads_of h ts → steps E h ts (writers fuel turns ts h) s →
  pr_procs s !! k = Some (Call rq c) →
  ∃ t l, ts !! k = Some t ∧ may_call (tty_fd h) (td_fd t) rq l.
Proof.
  intros Htx Hth Hst Hk.
  destruct (writers_together E fuel turns ts h (λ _, True) False s) as (ls & ws & Ht); [done..|by right|done|].
  pose proof (lookup_lt_Some _ _ _ Hk) as Hlt. rewrite (to_procs _ _ _ _ _ _ _ _ _ _ _ Ht), length_fmap in Hlt.
  destruct (lookup_lt_is_Some_2 ts k Hlt) as [t Htk].
  destruct (lookup_lt_is_Some_2 ls k) as [l Hl]; [by rewrite (to_locals _ _ _ _ _ _ _ _ _ _ _ Ht), length_fmap|].
  exists t, l. split; [done|].
  assert (Hfd : (td_fd <$> ts) !! k = Some (td_fd t)) by (by rewrite list_lookup_fmap, Htk).
  by destruct (to_obeys _ _ _ _ _ _ _ _ _ _ _ Ht k _ _ _ Hk Hfd Hl) as (_ & ? & _).
Qed.

Lemma whole_parts E h calm i rs sent :
  Forall2 (whole E h calm i) rs sent →
  Forall2 (λ d x, ∃ rest, parts E (tty_fd h) (downlink_packets h i d) x rest) rs sent.
Proof. intros H. eapply Forall2_impl; [exact H|]. by intros d x [? _]. Qed.

Lemma whole_calm E h (calm : Prop) i rs sent :
  calm → Forall2 (whole E h calm i) rs sent → sent = map (downlink_wire h i) rs.
Proof.
  intros Hc H. induction H as [|d x rs sent [_ Hx] _ IH]; [done|]. cbn.
  by rewrite IH, (Hx Hc), downlink_packets_wire.
Qed.

(** One thread of the pool. *)
Lemma together_thread E ok calm h ts s ls ws k t :
  threads_of h ts →
  together E ok (steady h) (tty_fd h) (td_fd <$> ts) (inv_of E h calm ts) (done_of E h calm ts) h s ls ws →
  ts !! k = Some t →
  ∃ p l x c, pr_procs s !! k = Some p ∧ ls !! k = Some l ∧ here E h calm (serves_idx t) x c l ∧
    (∀ a, p = Ret a → here E h calm (serves_idx t) [] None l) ∧ (∀ w, p = Halt w → ok w) ∧
    reads (td_fd t) (trace (pr_host s)) = reads (td_fd t) (trace h) ++ lc_read l ∧
    lc_sent l = (filter (λ w, w.1 = k) ws).*2 ∧
    (pr_owner s = Some k → c = Some (held s ls)).
Proof.
  intros Hth [Hs Hp Hl Ho Hw Hh Hu Hr Hn] Ht. rewrite length_fmap in Hp, Hl.
  pose proof (lookup_lt_Some _ _ _ Ht) as Hlt.
  destruct (lookup_lt_is_Some_2 (pr_procs s) k) as [p Hpk]; [lia|].
  destruct (lookup_lt_is_Some_2 ls k) as [l Hlk]; [lia|].
  assert (Hfd : (td_fd <$> ts) !! k = Some (td_fd t)) by (by rewrite list_lookup_fmap, Ht).
  pose proof (Ho k p _ l Hpk Hfd Hlk) as Hob. pose proof (obeys_inv _ _ _ _ _ _ _ _ _ Hob) as Hinv.
  unfold inv_of in Hinv. unfold done_of in Hob. rewrite Ht in Hinv, Hob.
  destruct Hinv as (x & c & Hxc). exists p, l, x, c. split_and!; try done.
  - intros a ->. apply Hob.
  - intros w ->. apply Hob.
  - by apply (Hr k).
  - by apply Hn.
  - intros Hown. unfold held. rewrite Hown, Hlk. cbn. rewrite (he_cur _ _ _ _ _ _ _ Hxc).
    pose proof (proj2 (Hw k l Hlk) Hown) as Hne. rewrite (he_cur _ _ _ _ _ _ _ Hxc) in Hne.
    by destruct c.
Qed.

(** The threads of the pool on a working UART. *)
Lemma writers_work E fuel turns ts h s :
  tx_ok h → threads_of h ts →
  prompt E (tty_fd h) → alloc_ok E → (0 < fuel)%nat → (∀ t, t ∈ ts → pty_polls E (td_fd t)) →
  steps E h ts (writers fuel turns ts h) s →
  written h ts s ∧ (∀ k w, pr_procs s !! k ≠ Some (Halt w)) ∧
  ((∃ k s', advance E k s = Some s') ∨ forallb final (pr_procs s) = true).
Proof.
  intros Htx Hth Hp Ha Hfu Hpoll Hst.
  destruct (writers_together E fuel turns ts h Prelude.total True s) as (ls & ws & Ht);
    [done..|by left|done|].
  assert (Hno : ∀ k w, pr_procs s !! k ≠ Some (Halt w)).
  { intros k w Hk. pose proof (to_procs _ _ _ _ _ _ _ _ _ _ _ Ht) as Hl.
    pose proof (lookup_lt_Some _ _ _ Hk) as Hlt. rewrite length_fmap in Hl.
    destruct (lookup_lt_is_Some_2 ts k) as [t Htk]; [lia|].
    destruct (together_thread _ _ _ _ _ _ _ _ _ _ Hth Ht Htk)
      as (p & l & x & c & Hpk & _ & _ & _ & Hh & _). apply (Hh w). congruence. }
  split; [|split; [done|]].
  - exists ws, (held s ls). split; [apply Ht|]. split; [unfold held; by intros ->|].
    intros k t Hk Hwr. destruct (together_thread _ _ _ _ _ _ _ _ _ _ Hth Ht Hk)
      as (p & l & x & c & Hpk & _ & Hxc & Hret & _ & Hrd & Hsn & _).
    assert (Hfin : forallb final (pr_procs s) = true → here E h True (serves_idx t) [] None l).
    { intros Hf. rewrite forallb_forall in Hf. specialize (Hf p).
      destruct p; try (by eapply Hret); try (by edestruct Hno);
        exfalso; assert (H : false = true) by (apply Hf, list_elem_of_In; by eapply list_elem_of_lookup_2);
        done. }
    destruct (forallb final (pr_procs s)) eqn:Hf.
    + destruct (Hfin eq_refl) as [_ (rs & rs' & Hr & Hsub & Hfw & He) _].
      exists rs, []. rewrite Hrd, Hr, (He I Hwr). split_and!; try done; [|cbn; lia].
      rewrite <-Hsn, <-(He I Hwr). by apply (whole_calm E h True).
    + destruct Hxc as [_ (rs & rs' & Hr & Hsub & Hfw & He) Hx].
      exists rs, x. rewrite Hrd, Hr, (He I Hwr). split_and!; try done.
      * rewrite <-Hsn, <-(He I Hwr). by apply (whole_calm E h True).
      * destruct c; [|done]. by destruct Hx as (d & rest & -> & _).
  - destruct (par_progress E Prelude.total (steady h) (tty_fd h) (td_fd <$> ts) (inv_of E h True ts)
      (done_of E h True ts) (done_of_free E h True ts) h s ls ws Ht) as [?|[?|(k & _ & w & _ & [])]]; auto.
Qed.

(* ------------------------------------------------------------------ *)
(** ** Lemmas: a concrete run *)

(** Two PTYs that deliver lines, and a UART that delivers a frame. *)
Definition two_ptys : env := λ tr rq,
  match rq with
  | RqRead 16 _ => SysRes 3 0 0 (bs "ls!") []
  | RqRead 18 _ => SysRes 2 0 0 [xfe; x0a] []
  | RqRead _ _ => SysRes 6 0 0 (frame x01 (bs "hi")) []
  | _ => good_env tr rq
  end.

Definition two_threads : list thread_data :=
  [ThreadData 16 (-1) 3 (bs "/dev/pts/16") x00; ThreadData 18 (-1) 4 (bs "/dev/pts/18") x00].

(** The threads by turns, a turn of the UART's reader, the threads again. *)
Local Abbreviation before_turn :=
  (schedule two_ptys (concat (replicate 9 [0; 1; 1]%nat)) (writers 1 2 two_threads demo_streams)).
Definition after_turn : host := run (tty_turn two_ptys 1 locals_init) (pr_host before_turn).
Local Abbreviation side_by_side :=
  (schedule two_ptys (concat (replicate 60 [0; 1]%nat))
    (Par (pr_owner before_turn) after_turn (pr_procs before_turn))).

Example side_by_side_runs :
  pr_owner before_turn = Some 0%nat ∧ forallb final (pr_procs side_by_side) = true ∧
  accepted (tty_fd demo_streams) (trace (pr_host side_by_side)) =
  accepted (tty_fd demo_streams) (trace demo_streams) ++
    frame x02 [xfe; x0a] ++ frame x01 (bs "ls!") ++ frame x02 [xfe; x0a] ++ frame x01 (bs "ls!").
Proof. by vm_compute. Qed.

Lemma schedule_steps E other ks s : rtc (pstep E other) s (schedule E ks s).
Proof.
  revert s. induction ks as [|k ks IH]; intros s; cbn; [done|].
  destruct (advance E k s) as [s'|] eqn:Ha; cbn; [|apply IH].
  eapply rtc_l; [by eapply pstep_thread|apply IH].
Qed.

(** A schedule, a step of another thread, a schedule. *)
Lemma schedule_with E (other : host → host → Prop) ks1 ks2 s h' :
  other (pr_host (schedule E ks1 s)) h' →
  rtc (pstep E other) s
    (schedule E ks2 (Par (pr_owner (schedule E ks1 s)) h' (pr_procs (schedule E ks1 s)))).
Proof.
  intros Ho. etrans; [apply (schedule_steps _ _ ks1)|]. destruct (schedule E ks1 s) as [o h ps].
  eapply rtc_l; [by apply pstep_other|apply schedule_steps].
Qed.

Lemma two_threads_of : threads_of demo_streams two_threads.
Proof. 
  constructor; [do 2 (apply Forall_cons; split; [vm_compute; reflexivity|]); by apply Forall_nil|].
  apply (bool_decide_unpack (NoDup _)). vm_compute. exact I.
Qed.

Lemma demo_tx_ok : tx_ok demo_streams.
Proof. apply wf_tx_ok; [exact demo_streams_wf|]. intros H. vm_compute in H. discriminate H. Qed.

(** The turn of the reader is one of a bystander. *)
Lemma turn_bystander :
  bystander demo_streams (td_fd <$> two_threads) (pr_host before_turn) after_turn.
Proof.
  assert (Ht : tags after_turn = tags (pr_host before_turn)) by (vm_compute; reflexivity).
  constructor.
  - vm_compute; reflexivity.
  - vm_compute; reflexivity.
  - vm_compute. discriminate.
  - intros j _. by rewrite Ht.
  - vm_compute; reflexivity.
  - assert (Hr : Forall (λ fd, reads fd (trace after_turn) = reads fd (trace (pr_host before_turn)))
      [16; 18]) by (do 2 (apply Forall_cons; split; [vm_compute; reflexivity|]); by apply Forall_nil).
    rewrite Forall_forall in Hr. exact Hr.
Qed.

Lemma side_by_side_steps :
  steps two_ptys demo_streams two_threads (writers 1 2 two_threads demo_streams) side_by_side.
Proof.
  apply schedule_with, turn_bystander.
Qed.

(** A UART that is gone once the reader has closed it. *)
Definition closing : env := λ tr rq,
  match rq with
  | RqPollOut fd _ =>
      if existsb (λ c, match c.1 with RqClose fd' => fd' =? fd | _ => false end) tr
      then SysRes 1 0 POLLNVAL [] [] else two_ptys tr rq
  | _ => two_ptys tr rq
  end.

Local Abbreviation at_hangup :=
  (schedule closing (concat (replicate 9 [0; 1; 1]%nat)) (writers 1 2 two_threads demo_streams)).

(** The reader has closed the UART to open it again ([reopen_tty_device]). *)
Definition close_tty (h : host) : host :=
  set_trace ((RqClose (tty_fd h), SysRes 0 0 0 [] []) :: trace h) h.

Local Abbreviation after_hangup :=
  (schedule closing (concat (replicate 60 [0; 1]%nat))
    (Par (pr_owner at_hangup) (close_tty (pr_host at_hangup)) (pr_procs at_hangup))).

Lemma close_bystander h0 fds h : bystander h0 fds h (close_tty h).
Proof. by constructor. Qed.

Lemma after_hangup_steps :
  steps closing demo_streams two_threads (writers 1 2 two_threads demo_streams) after_hangup.
Proof. apply schedule_with, close_bystander. Qed.

(** The reader reopens the UART without the write lock: the thread that writes
    meanwhile polls a closed descriptor, and its assertion stops the program. *)
Example hangup_aborts_writer :
  pr_owner at_hangup = Some 0%nat ∧ pr_procs after_hangup !! 0%nat = Some (Halt AssertFail) ∧
  accepted (tty_fd demo_streams) (trace (pr_host after_hangup)) =
  accepted (tty_fd demo_streams) (trace demo_streams) ++ frame x02 [xfe; x0a].
Proof. by vm_compute. Qed.

(** A UART that takes five bytes of a longer write. *)
Definition cutting : env := λ tr rq,
  match rq with
  | RqWrite 9 d => SysRes (Z.min 5 (Z.of_nat (length d))) 0 0 [] []
  | _ => two_ptys tr rq
  end.

(** Short writes tear the packets of both threads, but do not mix them. *)
Example short_writes_tear :
  tty_fd demo_streams = 9 ∧
  let s := schedule cutting (concat (replicate 60 [0; 1]%nat)) (writers 1 2 two_threads demo_streams) in
  forallb final (pr_procs s) = true ∧
  accepted (tty_fd demo_streams) (trace (pr_host s)) =
  accepted (tty_fd demo_streams) (trace demo_streams) ++
    concat (replicate 2 (take 5 (frame x01 (bs "ls!")) ++ take 5 (frame x02 [xfe; x0a]))).
Proof. by vm_compute. Qed.

(* ------------------------------------------------------------------ *)
(** ** Properties *)



(** On a working UART the PTY threads lose nothing and never block each
    other for good.  For the same schedules, with a UART that is ready and
    takes what it is given: every write is complete, the writes of a thread
    are the encodings of exactly the chunks it read, in order, up to one it
    is working on; no thread stops; and in every reachable state some thread
    can go on, unless all have returned, and then every chunk that was read
    has been written. *)
Theorem writers_deliver E fuel turns ts h s :
  tx_ok h → threads_of h ts →
  prompt E (tty_fd h) → alloc_ok E → (0 < fuel)%nat → (∀ t, t ∈ ts → pty_polls E (td_fd t)) →
  steps E h ts (writers fuel turns ts h) s →
  written h ts s ∧ (∀ k w, pr_procs s !! k ≠ Some (Halt w)) ∧
  ((∃ k s', advance E k s = Some s') ∨ forallb final (pr_procs s) = true).
Proof. apply writers_work. Qed.

(** The same on two threads, with a turn of the reader between their actions. *)
Lemma writers_deliver_witness :
  let s := side_by_side in
  written demo_streams two_threads s ∧
  (∀ k w, pr_procs s !! k ≠ Some (Halt w)) ∧
  ((∃ k s', advance two_ptys k s = Some s') ∨ forallb final (pr_procs s) = true).
Proof.
  intros s. apply (writers_deliver two_ptys 1 2 two_threads demo_streams s).
  - exact demo_tx_ok.
  - exact two_threads_of.
  - constructor; intros; cbn; (split; reflexivity) || lia.
  - intros tr n. cbn. discriminate.
  - lia.
  - intros t _ tr. right. split; reflexivity.
  - exact side_by_side_steps.
Defined.
