(* ===== verification/ReaderInv.v ===== *)
(** * The legacy demultiplexer and the reader thread's loop

    The legacy demultiplexer as a routing machine: every byte goes to the raw
    PTY and, decoded, to the current guest's. *)

From S2P Require Import Prelude Proto CString HostState HostIo Flush Registry RegistryInv Demux DemuxInv HostTx Startup Tty Route RouteSpec Reader.

(** The globals of the legacy mode, as start-up leaves them. *)
Record legacy (h : host) : Prop := Legacy {
  lg_mode : virtioso_mode_enabled (cfg h) = false;
  lg_tags : tags h = chip_tags;
  lg_num : num_proc h = Z.of_nat (length chip_tags);
  lg_default : default_tag_idx h = Z.of_nat (length chip_tags) - 1;
  lg_max : pty_max_count h = Z.of_nat (length chip_tags) + 1;
  lg_raw : raw_pty_idx (cfg h) = Z.of_nat (length chip_tags);
  lg_pty : Z.of_nat (length (pty_data h)) = Z.of_nat (length chip_tags) + 1
}.

(** The locals the legacy mode relies on. *)
Record locals_ok (h : host) (l : locals) : Prop := LocalsOk {
  lk_cur : 0 ≤ lo_cur_rx_guest l < num_proc h;
  lk_n : length (seen_n (lo_rx l)) = NPTY;
  lk_r : length (seen_r (lo_rx l)) = NPTY
}.

(** The machine. *)
Definition legacy_payload_event (s : route) (b : byte) : list event := [(rt_cur s, b)].

Definition legacy_route (h : host) (s : route) (b : byte) : option (route * list event) :=
  let raw := (raw_pty_idx (cfg h), b) in
  if rt_esc s then
    if bool_decide (b = UART_PROTO_ESC_ESC) then
      Some (Route false (rt_cur s), raw :: legacy_payload_event s b)
    else if bool_decide (b = UART_PROTO_ESC_RESET) then
      Some (Route false (default_tag_idx h), [raw])
    else
      let i := find_tag_value (active_tags h) b 0 in
      Some (Route false (if 0 <=? i then i else rt_cur s), [raw])
  else if bool_decide (b = UART_PROTO_ESC_START) then Some (Route true (rt_cur s), [raw])
  else Some (s, raw :: legacy_payload_event s b).

Definition legacy_at (l : locals) : route := Route (lo_in_escape l) (lo_cur_rx_guest l).

(** The state between two bytes, for an environment that fails softly. *)
Record legacy_ready (E : env) (h : host) (l : locals) : Prop := LegacyReady {
  lr_legacy : legacy h;
  lr_locals : locals_ok h l;
  lr_fds : own_fds h;
  lr_tolerates : tolerates E h
}.

(** What a step promises for any environment, and for one that fails softly. *)
Definition stepped (E : env) (h : host) (l : locals) (s : route) (evs : list event)
    (l' : locals) (h' : host) : Prop :=
  stable h h' ∧ locals_ok h' l' ∧ legacy_at l' = s ∧ inputs (trace h') = inputs (trace h) ∧
  (own_fds h → tolerates E h → routed h (lo_rx l) evs h' (lo_rx l')).

(** What each PTY receives for a sequence of TCU frames. *)
Definition legacy_recv (h : host) (segs : list (nat * list byte)) (j : nat) : list byte :=
  if Z.of_nat j =? raw_pty_idx (cfg h) then segments segs else selected (Z.of_nat j) segs.

(* ------------------------------------------------------------------ *)
(** ** Lemmas: steps *)

Lemma stable_legacy h h' : stable h h' → legacy h → legacy h'.
Proof.
  intros Hs []. pose proof (stable_length _ _ Hs). destruct Hs. constructor; congruence.
Qed.

Lemma legacy_bounds h : legacy h →
  num_proc h = 15 ∧ pty_max_count h = 16 ∧ raw_pty_idx (cfg h) = 15 ∧ default_tag_idx h = 14 ∧
  length (pty_data h) = 16%nat.
Proof. intros []. cbn in *. lia. Qed.

Lemma stepped_refl E h l l' :
  locals_ok h l' → lo_rx l' = lo_rx l → stepped E h l (legacy_at l') [] l' h.
Proof. intros Hl Hr. split_and!; try done. intros _ _. rewrite Hr. apply routed_refl. Qed.

Lemma stepped_trans E h1 l1 s2 e1 l2 h2 s3 e2 l3 h3 :
  stepped E h1 l1 s2 e1 l2 h2 → stepped E h2 l2 s3 e2 l3 h3 →
  stepped E h1 l1 s3 (e1 ++ e2) l3 h3.
Proof.
  intros (Hs1 & Hl1 & Ha1 & Hi1 & Hr1) (Hs2 & Hl2 & Ha2 & Hi2 & Hr2).
  split_and!; try done; [by etrans|congruence|].
  intros Hf Ht. eapply routed_trans; [by apply Hr1|].
  apply Hr2; [by eapply own_fds_stable|by eapply stable_tolerates].
Qed.

(** Only routing locals change after a step. *)
Lemma stepped_locals E h l s e l1 l2 s2 h' :
  stepped E h l s e l1 h' → lo_rx l2 = lo_rx l1 → legacy_at l2 = s2 → 0 ≤ rt_cur s2 < num_proc h →
  stepped E h l s2 e l2 h'.
Proof.
  intros (Hs & [] & Ha & Hi & Hr) Hx <- Hc. split_and!; [done| |done|done|by rewrite Hx].
  constructor; rewrite ?Hx; try done. by rewrite (st_num_proc _ _ Hs).
Qed.

Section Legacy.
Context (E : env) (fuel : nat) (ok : stop → Prop).

Lemma wp_deliver_to i b l h :
  legacy h → locals_ok h l → 0 ≤ i < pty_max_count h →
  wp ok (deliver_to E i b l) (λ l' h', stepped E h l (legacy_at l) [(i, b)] l' h') h.
Proof.
  intros Hg Hl Hi. pose proof (legacy_bounds h Hg) as (Hn & Hm & _ & _ & Hp).
  unfold deliver_to. wp_step. eapply wp_mono.
  { apply wp_deliver_at; unfold NPTY; [lia|lia|apply Hl|apply Hl]. }
  intros [z r] h' Hpost. wp_step. pose proof Hpost as (Hst & _ & Hseen & Hin & _).
  destruct Hseen as (ln & lc & Hr & Hln & Hlc). cbn [snd] in Hr.
  split_and!; [done| |done|done|].
  - destruct Hl. constructor; cbn; [by rewrite (st_num_proc _ _ Hst)|subst r; cbn; congruence..].
  - intros Hf Ht. apply (deliver_routed E h i b (lo_rx l) (z, r)); try done; unfold NPTY; try lia;
      apply Hl.
Qed.

Lemma wp_legacy_payload b l h :
  legacy h → locals_ok h l →
  wp ok (legacy_payload E b l)
    (λ l' h', stepped E h l (legacy_at l) [(lo_cur_rx_guest l, b)] l' h') h.
Proof.
  intros Hg Hl. pose proof (legacy_bounds h Hg) as (Hn & Hm & _). destruct (lk_cur _ _ Hl).
  unfold legacy_payload. do 3 wp_step. apply wp_assert; [intros Hf; z_bool; lia|]. intros _.
  apply wp_deliver_to; [done..|lia].
Qed.

(** A byte is a step of the machine. *)
Lemma wp_legacy_byte b l h s e :
  legacy h → locals_ok h l → legacy_route h (legacy_at l) b = Some (s, e) →
  wp ok (legacy_byte E b l) (stepped E h l s e) h.
Proof.
  intros Hg Hl Hs. pose proof (legacy_bounds h Hg) as (Hn & Hm & Hraw & Hdef & _).
  unfold legacy_byte. do 2 wp_step. wp_step.
  eapply wp_mono; [apply wp_deliver_to; [done..|lia]|]. intros l1 h1 H1. cbv beta.
  pose proof H1 as (Hst & Hl1 & Ha & _). injection Ha as He Hc.
  pose proof (stable_legacy _ _ Hst Hg) as Hg1.
  unfold legacy_route in Hs. cbn [legacy_at rt_esc rt_cur] in Hs. rewrite He.
  assert (Hpay : ∀ b' l2, lo_rx l2 = lo_rx l1 → lo_in_escape l2 = false →
    lo_cur_rx_guest l2 = lo_cur_rx_guest l → 
    wp ok (legacy_payload E b' l2)
      (stepped E h l (Route false (lo_cur_rx_guest l))
         ([(raw_pty_idx (cfg h), b)] ++ [(lo_cur_rx_guest l, b')])) h1).
  { intros b' l2 Hx He2 Hc2. eapply wp_mono.
    - apply wp_legacy_payload; [done|]. destruct Hl1. constructor; rewrite ?Hx; congruence || lia.
    - intros l3 h3 H3. eapply stepped_trans; [|rewrite <-Hc2; unfold legacy_at in H3; by rewrite He2 in H3].
      apply (stepped_locals E h l _ _ l1 l2 _ h1 H1 Hx eq_refl). cbn. rewrite Hc2. apply Hl. }
  destruct (lo_in_escape l) eqn:Hesc.
  - destruct (bool_decide (b = UART_PROTO_ESC_ESC)) eqn:Hb.
    { z_bool. subst b. simplify_eq. by apply Hpay. }
    do 2 wp_step. destruct (bool_decide (b = UART_PROTO_ESC_RESET)); simplify_eq; wp_step.
    + rewrite (st_default _ _ Hst). apply (stepped_locals E h l _ _ l1 _ _ h1 H1); (done || cbn; lia).
    + rewrite (active_tags_stable _ _ Hst).
      pose proof (find_tag_value_bound (active_tags h) b 0 ltac:(lia)) as Hfb.
      assert (Hact : Z.of_nat (length (active_tags h)) ≤ 15).
      { unfold active_tags. rewrite length_take. lia. }
      pose proof (lk_cur _ _ Hl).
      destruct (0 <=? find_tag_value (active_tags h) b 0) eqn:H0; z_bool;
        apply (stepped_locals E h l _ _ l1 _ _ h1 H1); try done; try (cbn; lia).
      unfold legacy_at. cbn. by rewrite Hc.
  - pose proof (lk_cur _ _ Hl). destruct (bool_decide (b = UART_PROTO_ESC_START)) eqn:Hb; simplify_eq.
    + wp_step. apply (stepped_locals E h l _ _ l1 _ _ h1 H1); [done| |cbn; lia].
      unfold legacy_at. cbn. by rewrite Hc.
    + replace (legacy_at l) with (Route false (lo_cur_rx_guest l)) by (unfold legacy_at; by rewrite Hesc).
      by apply Hpay.
Qed.

(** Between two bytes the machine always has a step. *)
Lemma legacy_route_total h s l : ∃ p, run_route (legacy_route h) s l = Some p.
Proof.
  revert s. induction l as [|b l IH]; intros s; [by eexists|]. cbn [run_route].
  assert (∃ p, legacy_route h s b = Some p) as [[s1 e1] ->]
    by (unfold legacy_route; repeat case_match; by eexists).
  destruct (IH s1) as [[s2 e2] ->]. by eexists.
Qed.

Lemma legacy_route_ext h h' s b : stable h h' → legacy_route h' s b = legacy_route h s b.
Proof.
  intros Hs. unfold legacy_route.
  by rewrite (active_tags_stable _ _ Hs), (st_cfg _ _ Hs), (st_default _ _ Hs).
Qed.

Lemma wp_tty_byte_legacy b l h s e :
  legacy h → locals_ok h l → legacy_route h (legacy_at l) b = Some (s, e) →
  wp ok (tty_byte E b l) (λ r h', ∃ l', r = Some l' ∧ stepped E h l s e l' h') h.
Proof.
  intros Hg Hl Hs. unfold tty_byte. do 2 wp_step. rewrite (lg_mode _ Hg). wp_step.
  eapply wp_mono; [by eapply wp_legacy_byte|]. intros l' h' Hst. wp_step. by exists l'.
Qed.

Lemma wp_tty_bytes_legacy buf l h s e :
  legacy h → locals_ok h l → run_route (legacy_route h) (legacy_at l) buf = Some (s, e) →
  wp ok (tty_bytes E buf l) (λ r h', ∃ l', r = Some l' ∧ stepped E h l s e l' h') h.
Proof.
  revert l h s e. induction buf as [|b buf IH]; intros l h s e Hg Hl Hs; cbn [tty_bytes run_route] in *.
  { wp_step. exists l. split; [done|]. injection Hs as <- <-. by apply stepped_refl. }
  destruct (legacy_route h (legacy_at l) b) as [[s1 e1]|] eqn:H1; [|done].
  destruct (run_route (legacy_route h) s1 buf) as [[s2 e2]|] eqn:H2; [|done]. injection Hs as <- <-.
  wp_step. eapply wp_mono; [by apply (wp_tty_byte_legacy b l h s1 e1)|].
  intros r h1 (l1 & -> & Hst). pose proof Hst as (Hs1 & Hl1 & Ha & _).
  eapply wp_mono.
  - apply (IH l1 h1 s2 e2); [by eapply stable_legacy|done|].
    rewrite Ha, <-H2. apply run_route_ext. intros. by apply legacy_route_ext.
  - intros r h' (l' & -> & Hst'). exists l'. split; [done|]. by eapply stepped_trans.
Qed.

End Legacy.

(* ------------------------------------------------------------------ *)
(** ** Lemmas: TCU frames *)

Lemma chip_tag_index k :
  (k < length chip_tags)%nat → find_tag_value chip_tags (tag_byte k) 0 = Z.of_nat k.
Proof.
  intros Hk. cbn in Hk. do 15 (destruct k as [|k]; [vm_compute; reflexivity|]). lia.
Qed.

Lemma chip_tag_plain k :
  (k < length chip_tags)%nat → tag_byte k ≠ UART_PROTO_ESC_ESC ∧ tag_byte k ≠ UART_PROTO_ESC_RESET.
Proof.
  intros Hk. cbn in Hk. do 15 (destruct k as [|k]; [by vm_compute|]). lia.
Qed.

Lemma legacy_active h : legacy h → active_tags h = chip_tags.
Proof. intros [_ Ht Hn _ _ _ _]. unfold active_tags. rewrite Ht, Hn. by vm_compute. Qed.

(** An escape-coded payload goes to the current guest, the wire to the raw PTY. *)
Lemma legacy_payload_run h cur l :
  ∃ e, run_route (legacy_route h) (Route false cur) (tcu_bytes l) = Some (Route false cur, e) ∧
    ∀ j, cur ≠ raw_pty_idx (cfg h) → for_pty j e =
      if j =? raw_pty_idx (cfg h) then tcu_bytes l else if j =? cur then l else [].
Proof.
  induction l as [|b l (e & IHr & IHe)].
  { exists []. split; [done|]. intros j _. by repeat case_match. }
  unfold tcu_bytes in *. cbn [map concat].
  set (raw := raw_pty_idx (cfg h)) in *.
  destruct (decide (b = UART_PROTO_ESC_START)) as [->|Hb].
  - exists ([(raw, UART_PROTO_ESC_START); (raw, UART_PROTO_ESC_ESC); (cur, UART_PROTO_ESC_START)] ++ e).
    rewrite tcu_byte_escape. split.
    + rewrite run_route_app.
      replace (run_route (legacy_route h) (Route false cur) [UART_PROTO_ESC_START; UART_PROTO_ESC_ESC])
        with (Some (Route false cur, [(raw, UART_PROTO_ESC_START); (raw, UART_PROTO_ESC_ESC);
          (cur, UART_PROTO_ESC_START)])) by done.
      by rewrite IHr.
    + intros j Hc. rewrite for_pty_app, IHe by done.
      change [(raw, UART_PROTO_ESC_START); (raw, UART_PROTO_ESC_ESC); (cur, UART_PROTO_ESC_START)]
        with ([(raw, UART_PROTO_ESC_START)] ++ [(raw, UART_PROTO_ESC_ESC)] ++ [(cur, UART_PROTO_ESC_START)]).
      rewrite !for_pty_app, !for_pty_one. unfold event in *.
      destruct (j =? raw) eqn:Hj; z_bool; [subst j; by rewrite !decide_True, decide_False by done|].
      rewrite !(decide_False (P := raw = j)) by congruence.
      destruct (j =? cur) eqn:Hjc; z_bool; [subst; by rewrite decide_True|by rewrite decide_False].
  - exists ([(raw, b); (cur, b)] ++ e). rewrite tcu_byte_plain by done. split.
    + rewrite run_route_app. cbn [run_route].
      replace (legacy_route h (Route false cur) b) with (Some (Route false cur, [(raw, b); (cur, b)])).
      2:{ unfold legacy_route. cbn [rt_esc]. by rewrite bool_decide_eq_false_2. }
      cbn. by rewrite IHr.
    + intros j Hc. rewrite for_pty_app, IHe by done.
      change [(raw, b); (cur, b)] with ([(raw, b)] ++ [(cur, b)]).
      rewrite !for_pty_app, !for_pty_one.
      destruct (j =? raw) eqn:Hj; z_bool; [subst j; by rewrite decide_True, decide_False by done|].
      rewrite !(decide_False (P := raw = j)) by congruence.
      destruct (j =? cur) eqn:Hjc; z_bool; [subst; by rewrite decide_True|by rewrite decide_False].
Qed.
