(* ===== verification/ReaderLoop.v ===== *)
(** * The reader thread's loop, for either demultiplexer

    What the loop needs of a demultiplexer is an interface: a routing machine
    that [tty_byte] implements.  The Virtioso and the legacy demultiplexers
    are its two instances, and the loop is verified once, against it. *)

From S2P Require Import Prelude Proto CString HostState HostIo HostIoInv Flush Registry RegistryInv Demux DemuxInv HostTx Startup Tty Route RouteSpec Reader ReaderInv.

(** A routing machine over the locals of the thread. *)
Class machine (S : Type) : Type := Machine {
  mc_at : locals → S;
  mc_step : host → S → byte → option (S * list event);
  mc_dom : byte → Prop;
  mc_inv : env → host → locals → Prop
}.

(** That [tty_byte] implements it. *)
Class implements (E : env) {S : Type} (M : machine S) : Prop := Implements {
  im_total h s b : mc_dom b → is_Some (mc_step h s b);
  im_ext h h' s b : stable h h' → mc_step h' s b = mc_step h s b;
  im_keep h h' l : stable h h' → mc_inv E h l → mc_inv E h' l;
  im_byte ok h l b s e : mc_inv E h l → mc_step h (mc_at l) b = Some (s, e) →
    wp ok (tty_byte E b l) (λ r h', ∃ l', r = Some l' ∧ mc_inv E h' l' ∧ mc_at l' = s ∧
      inputs (trace h') = inputs (trace h) ∧ routed h (lo_rx l) e h' (lo_rx l')) h
}.

(** The UART answers polls without a hangup, its reads do not fail and return
    bytes the machine routes, and the raw log, if any, can be written. *)
Record tty_healthy (E : env) (dom : byte → Prop) (h : host) : Prop := TtyHealthy {
  th_poll : ∀ tr, let p := E tr (RqPollIn (tty_fd h) (-1)) in
    should_retry_io p = true ∨
    res p = 1 ∧ Z.land (revents p) POLLNVAL = 0 ∧
    Z.land (revents p) (Z.lor POLLHUP POLLERR) = 0;
  th_read : ∀ tr n, let r := E tr (RqRead (tty_fd h) n) in
    0 ≤ res r ∧ Forall dom (res_bytes r);
  th_log : 0 ≤ tty_log_fd h → ∀ tr d, 0 ≤ res (E tr (RqWrite (tty_log_fd h) d));
  th_apart : 0 ≤ tty_log_fd h → ∀ i p, Z.of_nat i < pty_max_count h →
    pty_data h !! i = Some p → td_fd p ≠ tty_log_fd h
}.

(** From [(l, h)] to [(l', h')] the thread read [new] and routed [evs]. *)
Record served (h : host) (l : locals) (new : list (list byte)) (evs : list event)
    (l' : locals) (h' : host) : Prop := Served {
  sv_reads : reads (tty_fd h) (trace h') = reads (tty_fd h) (trace h) ++ new;
  sv_routed : routed h (lo_rx l) evs h' (lo_rx l')
}.

(* ------------------------------------------------------------------ *)
(** ** The two instances *)

#[global] Instance virtioso_machine : machine outer := {|
  mc_at l := outer_of (lo_rx l);
  mc_step := outer_byte;
  mc_dom b := b ≠ VCMUX_PROTO_ESC_CONTROL;
  mc_inv E h l := virtioso_mode_enabled (cfg h) = true ∧ ready E h (lo_rx l)
|}.

#[global] Instance legacy_machine : machine route := {|
  mc_at := legacy_at;
  mc_step := legacy_route;
  mc_dom b := True;
  mc_inv := legacy_ready
|}.

Lemma route_byte_total h s b : b ≠ VCMUX_PROTO_ESC_CONTROL → is_Some (route_byte h s b).
Proof.
  intros Hb. unfold route_byte. rewrite (bool_decide_eq_false_2 (b = VCMUX_PROTO_ESC_CONTROL)) by done.
  repeat case_match; by eexists.
Qed.

Lemma outer_byte_total h o b : b ≠ VCMUX_PROTO_ESC_CONTROL → is_Some (outer_byte h o b).
Proof.
  intros Hb. unfold outer_byte, inner_with.
  pose proof (λ s, route_byte_total h s b Hb) as Hr.
  repeat case_match; try (by eexists); match goal with H : route_byte h ?s b = None |- _ =>
    specialize (Hr s); rewrite H in Hr; by destruct Hr end.
Qed.

Lemma ready_stable E h h' r : stable h h' → ready E h r → ready E h' r.
Proof.
  intros Hs [Hwf Hr Hf Ht Hc]. constructor; [by eapply stable_wf| | | |done].
  - apply (rx_ok_more h); [by rewrite (st_num_proc _ _ Hs)|done].
  - by eapply own_fds_stable.
  - by eapply stable_tolerates.
Qed.

#[global] Instance virtioso_implements E : implements E virtioso_machine.
Proof.
  constructor; cbn.
  - intros h s b. apply outer_byte_total.
  - intros h h' s b Hs. apply outer_byte_ext; [apply Hs|by apply active_tags_stable].
  - intros h h' l Hs [Hm Hr]. split; [by rewrite (st_cfg _ _ Hs)|by eapply ready_stable].
  - intros ok h l b s e [Hm Hrd] Hs. unfold tty_byte. do 2 wp_step. rewrite Hm.
    assert (Hrun : run_route (outer_byte h) (outer_of (lo_rx l)) [b] = Some (s, e ++ [])).
    { cbn. by rewrite Hs. }
    pose proof (wp_feed_outer_all E ok _ _ _ _ _ Hrd Hrun) as Hw.
    rewrite app_nil_r in Hw. wp_step. cbn [feed_all] in Hw. unfold wp, bind in Hw |- *.
    destruct (feed_nvidia_outer_or_virtioso_raw E b (lo_rx l) h) as [[z r] h'|]; [|done].
    destruct (z <? 0) eqn:Hz; rewrite ?Hz in Hw; cbn in Hw |- *; destruct Hw as [Hz0 Had];
      [z_bool; lia|].
    exists (set_lo_rx r l). split; [done|]. split; [|split; [apply Had|split; [apply Had|apply Had]]].
    split; [|by eapply advanced_ready].
    by rewrite (st_cfg _ _ (rd_stable _ _ _ _ _ (ad_routed _ _ _ _ _ _ Had))).
Qed.

#[global] Instance legacy_implements E : implements E legacy_machine.
Proof.
  constructor; cbn.
  - intros h s b _. unfold legacy_route. repeat case_match; by eexists.
  - intros h h' s b Hs. by apply legacy_route_ext.
  - intros h h' l Hs [Hg [Hc Hn Hr] Hf Ht]. constructor; [by eapply stable_legacy| | |].
    + constructor; [by rewrite (st_num_proc _ _ Hs)|done..].
    + by eapply own_fds_stable.
    + by eapply stable_tolerates.
  - intros ok h l b s e [Hg Hl Hf Ht] Hs.
    eapply wp_mono; [by apply wp_tty_byte_legacy|].
    intros r h' (l' & -> & Hst & Hl' & Ha & Hin & Hr). exists l'.
    split; [done|]. split; [|by auto].
    constructor; [by eapply stable_legacy|done|by eapply own_fds_stable|by eapply stable_tolerates].
Qed.

(* ------------------------------------------------------------------ *)
(** ** Lemmas: the loop *)

Lemma healthy_stable E dom h h' : stable h h' → tty_healthy E dom h → tty_healthy E dom h'.
Proof.
  intros Hs [Hp Hr Hl Ha].
  constructor; rewrite ?(st_tty _ _ Hs), ?(st_tty_log _ _ Hs); try done.
  intros H0 i p' Hi Hp'. rewrite (st_max _ _ Hs) in Hi.
  pose proof (st_pty _ _ Hs) as Hm. apply (f_equal (.!! i)) in Hm.
  rewrite !list_lookup_fmap, Hp' in Hm. destruct (pty_data h !! i) as [p|] eqn:Hpi; [|done].
  assert (td_fd p' = td_fd p) as -> by (cbn in Hm; unfold ident in Hm; congruence). eauto.
Qed.

Section Loop.
Context (E : env) (fuel : nat) {S : Type} (M : machine S) {I : implements E M}.

Lemma wp_tty_bytes ok buf l h :
  mc_inv E h l → Forall mc_dom buf →
  wp ok (tty_bytes E buf l)
    (λ r h', ∃ l' s e, r = Some l' ∧ mc_inv E h' l' ∧ mc_at l' = s ∧
      run_route (mc_step h) (mc_at l) buf = Some (s, e) ∧
      inputs (trace h') = inputs (trace h) ∧ routed h (lo_rx l) e h' (lo_rx l')) h.
Proof.
  intros Hi Hd. revert l h Hi. induction Hd as [|b buf Hb _ IH]; intros l h Hi; cbn [tty_bytes run_route].
  { wp_step. exists l, (mc_at l), []. split_and!; try done. apply routed_refl. }
  destruct (im_total h (mc_at l) b Hb) as [[s1 e1] H1]. rewrite H1.
  wp_step. eapply wp_mono; [by eapply im_byte|].
  intros r h1 (l1 & -> & Hi1 & <- & Hin1 & Hr1). eapply wp_mono; [by apply IH|].
  intros r h' (l' & s & e & -> & Hi' & Hs & Hrun & Hin & Hr).
  exists l', s, (e1 ++ e). split_and!; try done; [|congruence|by eapply routed_trans].
  rewrite (run_route_ext _ (mc_step h1)); [by rewrite Hrun|].
  intros. symmetry. apply im_ext. apply Hr1.
Qed.

(** A call other than a write to a PTY in use. *)
Lemma routed_call h rq r0 r :
  (∀ fd d, rq = RqWrite fd d → ∀ i p, Z.of_nat i < pty_max_count h →
     pty_data h !! i = Some p → td_fd p ≠ fd) →
  routed h r [] (set_trace ((rq, r0) :: trace h) h) r.
Proof.
  intros Hw. constructor; [apply stable_sys|done..|].
  intros j p n c Hj Hp Hn Hc. cbn. rewrite app_nil_r. split_and!; try done.
  destruct rq; try done. rewrite (proj2 (Z.eqb_neq _ _)), app_nil_r; [done|].
  intros ->. by eapply Hw.
Qed.

Lemma served_trans h1 l1 a e1 l2 h2 b e2 l3 h3 :
  served h1 l1 a e1 l2 h2 → served h2 l2 b e2 l3 h3 → served h1 l1 (a ++ b) (e1 ++ e2) l3 h3.
Proof.
  intros [R1 H1] [R2 H2]. constructor; [|by eapply routed_trans].
  rewrite <-(st_tty _ _ (rd_stable _ _ _ _ _ H1)) at 1.
  rewrite R2, (st_tty _ _ (rd_stable _ _ _ _ _ H1)), R1. by rewrite app_assoc.
Qed.

Lemma served_call h l rq r0 :
  not_read rq = true →
  (∀ fd d, rq = RqWrite fd d → ∀ i p, Z.of_nat i < pty_max_count h →
     pty_data h !! i = Some p → td_fd p ≠ fd) →
  served h l [] [] l (set_trace ((rq, r0) :: trace h) h).
Proof.
  intros Hr Hw. constructor; [|by apply routed_call].
  rewrite app_nil_r. unfold reads. do 2 f_equal. cbn. by destruct rq.
Qed.

(** A read from another descriptor. *)
Lemma served_read h l fd n r0 :
  fd ≠ tty_fd h → served h l [] [] l (set_trace ((RqRead fd n, r0) :: trace h) h).
Proof.
  intros Hfd. constructor; [|by apply routed_call].
  rewrite app_nil_r. unfold reads. cbn. rewrite filter_app, fmap_app. destruct (0 <? res r0); [|by rewrite app_nil_r].
  rewrite filter_cons_False by done. by rewrite app_nil_r.
Qed.

(** A turn: what was read is routed; the machine moves accordingly. *)
Definition turn_post (h : host) (l : locals) (r : option locals) (h' : host) : Prop :=
  ∃ l' new e, r = Some l' ∧ mc_inv E h' l' ∧
    run_route (mc_step h) (mc_at l) (concat new) = Some (mc_at l', e) ∧ served h l new e l' h'.

Lemma turn_post_refl h l : mc_inv E h l → turn_post h l (Some l) h.
Proof.
  intros Hi. exists l, [], []. split_and!; try done.
  constructor; [by rewrite app_nil_r|apply routed_refl].
Qed.

Lemma turn_post_trans h l l1 h1 r h2 :
  turn_post h l (Some l1) h1 → turn_post h1 l1 r h2 → turn_post h l r h2.
Proof.
  intros (l1' & a & e1 & [= <-] & Hi1 & Hr1 & H1) (l' & b & e2 & -> & Hi' & Hr2 & H2).
  pose proof (rd_stable _ _ _ _ _ (sv_routed _ _ _ _ _ _ H1)) as Hs1.
  exists l', (a ++ b), (e1 ++ e2). split; [done|]. split; [done|].
  split; [|by eapply served_trans]. rewrite concat_app, run_route_app, Hr1.
  rewrite (run_route_ext _ (mc_step h1)); [by rewrite Hr2|]. intros. symmetry. by apply im_ext.
Qed.

Lemma wp_tty_turn ok l h :
  mc_inv E h l → tty_healthy E mc_dom h → wp ok (tty_turn E fuel l) (turn_post h l) h.
Proof.
  intros Hi [Hp Hr Hl Ha]. unfold tty_turn. do 3 hw_step. apply wp_sys. intros p ->. cbv beta.
  set (h1 := set_trace _ h).
  assert (H1 : served h l [] [] l h1) by (by apply served_call).
  assert (Hi1 : mc_inv E h1 l) by (eapply im_keep; [apply stable_sys|done]).
  destruct (Hp (trace h)) as [-> | (Hres & Hnv & Hup)].
  { wp_step. exists l, [], []. by split_and!. }
  destruct (should_retry_io _).
  { wp_step. exists l, [], []. by split_and!. }
  rewrite Hres, Hnv, Hup. change (1 =? 1) with true. change (0 =? 0) with true.
  cbn [negb assert_c]. do 4 wp_step. cbv iota.
  wp_step. apply wp_sys. intros r Hreq. cbv beta. set (h2 := set_trace _ h1).
  destruct (Hr (trace h1) temporary_buffer_size) as [Hr0 Hdom]. rewrite <-Hreq in Hr0, Hdom.
  rewrite (proj2 (Z.ltb_ge _ _)) by done. cbv zeta. set (buf := take (Z.to_nat (res r)) (res_bytes r)).
  assert (H2 : served h1 l (if 0 <? res r then [buf] else []) [] l h2).
  { constructor; [|by apply routed_call]. unfold reads. cbn.
    rewrite filter_app, fmap_app. f_equal. destruct (0 <? res r); [|done]. cbn.
    by rewrite decide_True. }
  assert (Hi2 : mc_inv E h2 l) by (eapply im_keep; [apply stable_sys|done]).
  wp_step. eapply (wp_mono ok _ (λ b h3, b = true ∧ mc_inv E h3 l ∧ served h2 l [] [] l h3)).
  { destruct (0 <=? tty_log_fd h) eqn:Hlog; z_bool; wp_step; [|split_and!; try done].
    2:{ constructor; [by rewrite app_nil_r|apply routed_refl]. }
    apply wp_sys. intros w ->. cbv beta. wp_step. split_and!.
    - rewrite (proj2 (Z.ltb_ge _ _)); [done|by apply Hl].
    - eapply im_keep; [apply stable_sys|done].
    - apply served_call; [done|]. intros fd d [= <- <-] i q Hq Hpq. by apply (Ha Hlog i q). }
  intros b h3 (-> & Hi3 & H3). cbn [negb]. eapply wp_mono.
  { apply wp_tty_bytes; [done|]. by apply Forall_take. }
  intros o h' (l' & s & e & -> & Hi' & <- & Hrun & Hin & Hro).
  exists l', (if 0 <? res r then [buf] else []), e. split; [done|]. split; [done|].
  pose proof (served_trans _ _ _ _ _ _ _ _ _ _ H1 (served_trans _ _ _ _ _ _ _ _ _ _ H2 H3)) as H13.
  rewrite app_nil_r in H13. cbn [app] in H13. split.
  - replace (concat (if 0 <? res r then [buf] else [])) with buf.
    + rewrite <-Hrun. apply run_route_ext. intros. symmetry. apply im_ext. apply H13.
    + destruct (0 <? res r) eqn:Hz; z_bool; cbn; [by rewrite app_nil_r|].
      unfold buf. by replace (Z.to_nat (res r)) with 0%nat by lia.
  - rewrite <-(app_nil_r (if 0 <? res r then _ else _)). change e with ([] ++ e).
    eapply served_trans; [exact H13|]. constructor; [|done].
    unfold reads. by rewrite Hin, app_nil_r.
Qed.

Lemma wp_tty_loop ok turns l h :
  mc_inv E h l → tty_healthy E mc_dom h → wp ok (tty_loop E fuel turns l) (turn_post h l) h.
Proof.
  revert l h. induction turns as [|n IH]; intros l h Hi Hh; cbn [tty_loop].
  { wp_step. by apply turn_post_refl. }
  wp_step. eapply wp_mono; [by apply wp_tty_turn|].
  intros o h1 H1. pose proof H1 as (l1 & a & e1 & -> & Hi1 & _ & Hs1).
  eapply wp_mono; [apply IH; [done|eapply healthy_stable; [apply Hs1|done]]|].
  intros o h' H2. by eapply turn_post_trans.
Qed.

Lemma wp_tty_input_handler ok turns h :
  alloc_ok E → mc_inv E h locals_init → tty_healthy E mc_dom h →
  wp ok (tty_input_handler E fuel turns) (turn_post h locals_init) h.
Proof.
  intros Hok Hi Hh. unfold tty_input_handler. do 2 hw_step. subst r.
  rewrite (proj2 (Z.eqb_neq _ _)) by apply Hok. cbn [negb].
  set (h1 := set_trace _ h). assert (Hs : stable h h1) by apply stable_sys.
  eapply wp_mono; [apply wp_tty_loop; [by eapply im_keep|by eapply healthy_stable]|].
  intros o h' (l' & b & e2 & -> & Hi' & Hr2 & H2).
  exists l', b, e2. split; [done|]. split; [done|]. split.
  - rewrite <-Hr2. apply run_route_ext. intros. symmetry. by apply im_ext.
  - change b with ([] ++ b). change e2 with ([] ++ e2). eapply served_trans; [|exact H2].
    by apply served_call.
Qed.

End Loop.
