(* ===== verification/ReaderSpec.v ===== *)
(** * What the reader thread guarantees

    The legacy demultiplexer separates the TCU clients; in both modes the
    thread routes exactly what it reads. *)

From S2P Require Import Prelude Proto CString HostState HostIo HostIoInv Flush Registry RegistryInv Startup StartupInv Demux DemuxInv HostTx Tty Route RouteSpec Demo Reader ReaderInv ReaderLoop HostTxSpec.

(** The host started without [-A]. *)
Definition demo_legacy : host :=
  run (main_start good_env 1 default_options) (host_boot default_options).

(** A UART that delivers [l] at every read. *)
Definition uart_of (l : list byte) : env := λ tr rq,
  match rq with
  | RqRead _ _ => SysRes (Z.of_nat (length l)) 0 0 l []
  | _ => good_env tr rq
  end.

(* ------------------------------------------------------------------ *)
(** ** Lemmas *)

Lemma legacy_segments_run h cur segs :
  legacy h → Forall (λ g, (g.1 < length chip_tags)%nat) segs →
  ∃ cur' e, run_route (legacy_route h) (Route false cur) (segments segs) =
      Some (Route false cur', e) ∧
    ∀ j, for_pty (Z.of_nat j) e = legacy_recv h segs j.
Proof.
  intros Hg Hs. pose proof (legacy_bounds h Hg) as (_ & _ & Hraw & _). revert cur.
  induction Hs as [|[k l] segs Hk _ IH]; intros cur.
  { exists cur, []. split; [done|]. intros j. unfold legacy_recv. by case_match. }
  cbn [fst] in Hk. destruct (legacy_payload_run h (Z.of_nat k) l) as (e1 & H1 & Hp1).
  destruct (IH (Z.of_nat k)) as (cur' & e2 & H2 & Hp2).
  set (raw := raw_pty_idx (cfg h)) in *.
  exists cur', ([(raw, UART_PROTO_ESC_START); (raw, tag_byte k)] ++ e1 ++ e2).
  unfold segments in *. cbn [map concat fst snd]. unfold tcu_frame at 1. split.
  - rewrite <-!app_assoc, run_route_app.
    replace (run_route (legacy_route h) (Route false cur) [UART_PROTO_ESC_START; tag_byte k])
      with (Some (Route false (Z.of_nat k), [(raw, UART_PROTO_ESC_START); (raw, tag_byte k)])).
    2:{ destruct (chip_tag_plain k Hk) as [Hn1 Hn2]. cbn [run_route].
        change (legacy_route h (Route false cur) UART_PROTO_ESC_START)
          with (Some (Route true cur, [(raw, UART_PROTO_ESC_START)])). cbv iota beta.
        unfold legacy_route. cbn [rt_esc rt_cur]. rewrite !bool_decide_eq_false_2 by done.
        rewrite (legacy_active h Hg), chip_tag_index by done. cbv zeta.
        by rewrite (proj2 (Z.leb_le 0 _)) by lia. }
    rewrite run_route_app, H1, H2. done.
  - intros j.
    change [(raw, UART_PROTO_ESC_START); (raw, tag_byte k)]
      with ([(raw, UART_PROTO_ESC_START)] ++ [(raw, tag_byte k)]).
    rewrite !for_pty_app, !for_pty_one, Hp2, Hp1 by (cbn in Hk; lia).
    unfold legacy_recv, selected, segments. fold raw. cbn [map concat fst snd].
    destruct (Z.of_nat j =? raw) eqn:Hj; z_bool.
    + by rewrite !decide_True by done.
    + rewrite !decide_False by done. by rewrite (Z.eqb_sym (Z.of_nat k)).
Qed.

Lemma legacy_ready_start E h :
  legacy h → own_fds h → tolerates E h → legacy_ready E h locals_init.
Proof.
  intros Hg Hf Ht. pose proof (legacy_bounds h Hg) as (Hn & _).
  constructor; try done. constructor; [cbn; lia|by vm_compute|by vm_compute].
Qed.

Lemma demo_legacy_host : legacy demo_legacy.
Proof. by constructor; vm_compute. Qed.

Lemma demo_legacy_fds : own_fds demo_legacy.
Proof.
  apply own_fds_b_sound; [|vm_compute; reflexivity].
  pose proof (legacy_bounds _ demo_legacy_host). lia.
Qed.

(** The header's commands that select a guest by its number, select the
    hypervisor or ask for names are ignored: none of them is a tag. *)
Example legacy_ignores_commands :
  Forall (λ b, find_tag_value chip_tags b 0 = -1)
    (map (λ n, z2b (Z.of_nat n)) (seq 0 16) ++
     [UART_PROTO_ESC_ID_HYP; UART_PROTO_ESC_NAME_QUERY; UART_PROTO_ESC_NAME_REPLY;
      UART_PROTO_ESC_NAME_DELIM]).
Proof. by repeat (apply Forall_cons; split; [vm_compute; reflexivity|]). Qed.

Lemma uart_of_tolerates l h : tolerates (uart_of l) h.
Proof. intros p _. split; [intros tr d Hr|intros _ tr d]; cbn in *; lia. Qed.

Lemma uart_of_healthy l dom h : tty_log_fd h < 0 → Forall dom l → tty_healthy (uart_of l) dom h.
Proof.
  intros Hl Hd. constructor; [| |lia|lia].
  - intros tr. right. split_and!; reflexivity.
  - intros tr n. cbn. split; [lia|done].
Qed.

(* ------------------------------------------------------------------ *)
(** ** Properties *)

(** C25: the legacy demultiplexer separates the TCU clients.  For any sequence
    of TCU segments (a tag and escaped data each), every client's PTY receives
    exactly the data of its segments, in order, and the raw PTY the bytes as
    they came; the demultiplexer ends outside an escape sequence.  This is the
    inverse of the legacy downlink encoding. *)
Theorem legacy_frames E h l segs :
  legacy_ready E h l → lo_in_escape l = false →
  Forall (λ g, (g.1 < length chip_tags)%nat) segs →
  ∃ l' h', tty_bytes E (segments segs) l h = Done (Some l') h' ∧
    legacy_ready E h' l' ∧ lo_in_escape l' = false ∧
    receives h (lo_rx l) (legacy_recv h segs) h' (lo_rx l').
Proof.
  intros [Hg Hl Hf Ht] He Hs.
  destruct (legacy_segments_run h (lo_cur_rx_guest l) segs Hg Hs) as (cur' & e & Hrun & Hp).
  rewrite <-He in Hrun at 1. 
  destruct (wp_total_done _ _ _ (wp_tty_bytes_legacy E total _ l h _ _ Hg Hl Hrun))
    as (r & h' & Hdone & l' & -> & Hst & Hl' & Ha & _ & Hr).
  exists l', h'. split; [done|]. split.
  - constructor; [by eapply stable_legacy|done|by eapply own_fds_stable|by eapply stable_tolerates].
  - split; [by injection Ha|]. eapply routed_receives; [by apply Hr|done].
Qed.

(** C25 on two clients, with escape bytes and a line end in the data. *)
Lemma legacy_frames_witness :
  let segs := [(0, [x61; xff; xfd]); (3, bs "SatMC"); (0, [x0a])]%nat in
  ∃ l' h', tty_bytes good_env (segments segs) locals_init demo_legacy = Done (Some l') h' ∧
    legacy_ready good_env h' l' ∧ lo_in_escape l' = false ∧
    receives demo_legacy (lo_rx locals_init) (legacy_recv demo_legacy segs) h' (lo_rx l').
Proof.
  intros segs. apply (legacy_frames good_env demo_legacy locals_init segs).
  - apply legacy_ready_start; [exact demo_legacy_host|exact demo_legacy_fds|apply good_env_tolerates].
  - reflexivity.
  - repeat constructor; vm_compute; lia.
Defined.

(** The reader thread in Virtioso mode.  While the UART does not hang up,
    after any number of turns the thread is still running, and the PTYs have
    been offered exactly what the routing machine makes of all the bytes read
    so far, however they were cut into reads (for traffic without control
    records, whose effect is stated by the token semantics). *)
Theorem reader_virtioso E fuel turns h :
  alloc_ok E → virtioso_mode_enabled (cfg h) = true → ready E h rx_init →
  tty_healthy E (λ b, b ≠ VCMUX_PROTO_ESC_CONTROL) h →
  ∃ l' h' new e, tty_input_handler E fuel turns h = Done (Some l') h' ∧
    run_route (outer_byte h) (outer_of rx_init) (concat new) = Some (outer_of (lo_rx l'), e) ∧
    served h locals_init new e l' h'.
Proof.
  intros Ha Hm Hrd Hh.
  destruct (wp_total_done _ _ _ (wp_tty_input_handler E fuel virtioso_machine total turns h
    Ha (conj Hm Hrd) Hh)) as (r & h' & Hrun & l' & new & e & -> & _ & Hroute & Hs).
  by exists l', h', new, e.
Qed.

(** [reader_virtioso] on three reads of a frame. *)
Lemma reader_virtioso_witness :
  let E := uart_of (frame x01 (bs "hi")) in
  ∃ l' h' new e, tty_input_handler E 1 3 demo_streams = Done (Some l') h' ∧
    run_route (outer_byte demo_streams) (outer_of rx_init) (concat new) =
      Some (outer_of (lo_rx l'), e) ∧
    served demo_streams locals_init new e l' h'.
Proof.
  intros E. apply (reader_virtioso E 1 3 demo_streams).
  - intros tr n. cbn. discriminate.
  - vm_compute. reflexivity.
  - destruct demo_streams_ready as [H1 H2 H3 _ H5]. constructor; try assumption.
    apply uart_of_tolerates.
  - apply uart_of_healthy; [vm_compute; reflexivity|]. repeat constructor; vm_compute; discriminate.
Defined.

(** The reader thread in the legacy mode.  The same for any bytes at all:
    no input ends the thread or trips its assertion, and the PTYs are offered
    what the legacy machine makes of the bytes read. *)
Theorem reader_legacy E fuel turns h :
  alloc_ok E → legacy h → own_fds h → tolerates E h → tty_healthy E (λ _, True) h →
  ∃ l' h' new e, tty_input_handler E fuel turns h = Done (Some l') h' ∧
    run_route (legacy_route h) (Route false 0) (concat new) = Some (legacy_at l', e) ∧
    served h locals_init new e l' h'.
Proof.
  intros Ha Hg Hf Ht Hh.
  destruct (wp_total_done _ _ _ (wp_tty_input_handler E fuel legacy_machine total turns h
    Ha (legacy_ready_start E h Hg Hf Ht) Hh)) as (r & h' & Hrun & l' & new & e & -> & _ & Hroute & Hs).
  by exists l', h', new, e.
Qed.

(** [reader_legacy] on noise: an unknown tag, a reset and a dangling escape. *)
Lemma reader_legacy_witness :
  let E := uart_of [xff; x41; x62; xff; xfd; x63; xff] in
  ∃ l' h' new e, tty_input_handler E 1 2 demo_legacy = Done (Some l') h' ∧
    run_route (legacy_route demo_legacy) (Route false 0) (concat new) = Some (legacy_at l', e) ∧
    served demo_legacy locals_init new e l' h'.
Proof.
  intros E. apply (reader_legacy E 1 2 demo_legacy).
  - intros tr n. cbn. discriminate.
  - exact demo_legacy_host.
  - exact demo_legacy_fds.
  - apply uart_of_tolerates.
  - apply uart_of_healthy; [vm_compute; reflexivity|]. repeat constructor.
Defined.
