(* ===== verification/Main.v ===== *)
(** * The host program as a whole

    [main] of [host/tcu_com.c]: start-up, the threads taking turns, the joins
    and the clean-up, and the error exit.  A schedule says which thread takes
    each turn; a turn is one whole pass through a thread's loop (the first one
    is the allocation of its buffer), and turns begin when start-up is over.
    The threads share the state.  This is coarser than the program, whose
    threads interleave inside their passes and may begin while [main] still
    starts the others: [TxPar] and [Duplex] interleave the single actions of
    the PTY threads with each other and with the turns of the reader.  What
    no schedule of whole turns shows is there: while the reader opens the UART
    again, between its [close] and its assignment of the descriptor, a writer
    may poll the closed descriptor, and its assertion stops the program
    ([TxParSpec.hangup_aborts_writer]).  A stream announced while [main] is in
    the loop that starts the PTY threads, whose bound is the growing count of
    channels, is not modelled. *)

From S2P Require Import Prelude Proto CString HostState HostIo Flush Registry Tty Startup Demux HostTx Reader.
From stdpp Require Import gmap.
From Stdlib Require Import Ascii.
#[local] Open Scope Z_scope.
#[local] Open Scope list_scope.

(** A thread: not yet run, in its loop, or ended. *)
Inductive thread : Type :=
| NotRun
| TtyLoop (l : locals)
| PtyLoop
| Ended.

(** The threads by the order in which they were started. *)
Definition threads : Type := gmap nat thread.
Definition thread_at (ths : threads) (k : nat) : thread := default NotRun (ths !! k).

Definition ended (t : thread) : bool := match t with Ended => true | _ => false end.

(** The last thread started for an index: the one its handle names. *)
Fixpoint last_started (i : Z) (l : list Z) (k : nat) : option nat :=
  match l with
  | [] => None
  | j :: l' =>
      match last_started i l' (S k) with
      | Some k' => Some k'
      | None => if j =? i then Some k else None
      end
  end.

Section Main.
Context (E : env) (fuel : nat).

(** One turn of a thread that serves the index [i]: a whole pass of its loop,
    which no action of another thread divides. *)
Definition thread_turn (i : Z) (t : thread) : HM thread :=
  match t with
  | NotRun =>
      ok <- alloc E temporary_buffer_size ;;
      ret (if negb ok then Ended
           else if i =? -1 then TtyLoop locals_init else PtyLoop)
  | TtyLoop l =>
      r <- tty_turn E fuel l ;;
      ret (match r with Some l => TtyLoop l | None => Ended end)
  | PtyLoop =>
      h <- get ;;
      p <- arr_get (pty_data h) i ;;
      pty_input_step E fuel p ;;;
      ret PtyLoop
  | Ended => ret Ended
  end.

Definition turn (k : nat) (ths : threads) : HM threads :=
  h <- get ;;
  match spawned (trace h) !! k with
  | None => ret ths
  | Some i => t <- thread_turn i (thread_at ths k) ;; ret (<[k := t]> ths)
  end.

Fixpoint turns (sched : list nat) (ths : threads) : HM threads :=
  match sched with
  | [] => ret ths
  | k :: sched' => ths <- turn k ths ;; turns sched' ths
  end.

(** [pthread_join] on the handles of indices: do they all return?  Joining a
    thread that was never started is undefined. *)
Fixpoint main_join (ths : threads) (l : list Z) : HM bool :=
  match l with
  | [] => ret true
  | i :: l' =>
      h <- get ;;
      match last_started i (spawned (trace h)) 0 with
      | None => halt Undefined
      | Some k => if ended (thread_at ths k) then main_join ths l' else ret false
      end
  end.

(** [for_each_pty] closing the PTYs and their logs, from index [i] on. *)
Fixpoint main_close (n : nat) (i : Z) : HM unit :=
  match n with
  | O => ret tt
  | S n' =>
      h <- get ;;
      p <- arr_get (pty_data h) i ;;
      sys E (RqClose (td_fd p)) ;;;
      (match save_output_path (cfg h) with
       | Some _ => if 0 <=? td_log_fd p then sys E (RqClose (td_log_fd p)) ;;; ret tt else ret tt
       | None => ret tt
       end) ;;;
      main_close n' (i + 1)
  end.

(** After the joins. *)
Definition main_end (raw_log : option (list byte)) : HM Z :=
  h <- get ;;
  sys E (RqClose (tty_fd h)) ;;;
  (match raw_log with
   | Some _ => if 0 <=? tty_log_fd h then sys E (RqClose (tty_log_fd h)) ;;; ret tt else ret tt
   | None => ret tt
   end) ;;;
  main_close (Z.to_nat (pty_max_count h)) 0 ;;;
  uucp_unlock_tty_device E ;;;
  ret 0.

(** [err:] *)
Definition main_err : HM Z := uucp_unlock_tty_device E ;;; ret (-1).

(** [main] after option parsing, for the turns of a schedule: its result, or
    [None] while it waits for its threads.  The schedule names the thread of
    each whole turn, in the order of the turns. *)
Definition main_run (o : options) (sched : list nat) : HM (option Z) :=
  e <- main_start E fuel o ;;
  if negb (e =? 0) then z <- main_err ;; ret (Some z)
  else
  ths <- turns sched ∅ ;;
  h <- get ;;
  joined <- main_join ths (-1 :: seqZ 0 (pty_max_count h)) ;;
  if joined then z <- main_end (opt_raw_log o) ;; ret (Some z)
  else ret None.

Definition main (args : list (ascii * list byte)) (sched : list nat) : outcome host (option Z) :=
  match main_options default_options args with
  | Stop w _ => Stop w (host_boot default_options)
  | Done o _ => main_run o sched (host_boot o)
  end.

End Main.
