(* ===== verification/MainInv.v ===== *)
(** * Invariants of the whole host program

    An invariant that does not look at the stream table goes through every
    operation of the host: start-up, both demultiplexers, the downlink
    writers, the threads' turns.  The UUCP lock file is followed that way:
    the program knows of the lock file it has created, and removes it before
    [main] returns. *)

From S2P Require Import Prelude Proto CString HostState HostIo HostIoInv Flush Registry RegistryInv Tty Startup TtySpec StartupInv Demux DemuxInv HostTx Reader Main.
From stdpp Require Import gmap.
#[local] Open Scope Z_scope.
#[local] Open Scope list_scope.

(** The lock file the program has created and not asked to remove. *)
Fixpoint our_lock (tr : history) : option (list byte) :=
  match tr with
  | [] => None
  | (RqOpen p OpenLockCreate, r) :: tr' => if 0 <=? res r then Some p else our_lock tr'
  | (RqUnlink p, _) :: tr' =>
      match our_lock tr' with
      | Some p' => if bool_decide (p = p') then None else Some p'
      | None => None
      end
  | _ :: tr' => our_lock tr'
  end.

(** The variables know of it. *)
Definition lock_known (h : host) : Prop :=
  ∀ p, our_lock (trace h) = Some p → filelock h = p ∧ uucp_locked h = true ∧ p ≠ [].

(** The process id can be written to a lock file that was just created. *)
Definition lock_writes (E : env) : Prop := ∀ tr p r q d,
  0 ≤ res r → 0 ≤ res (E ((RqGetpid, q) :: (RqOpen p OpenLockCreate, r) :: tr) (RqWrite (res r) d)).

(** The calls of the downlink and of a byte's delivery. *)
Definition io_call (rq : sysreq) : bool :=
  match rq with RqOpen _ _ | RqOpenpt | RqClose _ | RqThread _ | RqUnlink _ | RqStdout _ => false | _ => true end.

(** An invariant that does not look at what the threads keep in variables,
    the lock's excepted. *)
Class table_blind (I : host → Prop) : Prop := TableBlind {
  tb_tags h v : I h → I (set_tags v h);
  tb_num h v : I h → I (set_num_proc v h);
  tb_default h v : I h → I (set_default_tag_idx v h);
  tb_max h v : I h → I (set_pty_max_count v h);
  tb_pty h v : I h → I (set_pty_data v h);
  tb_input h v : I h → I (set_input_enabled v h);
  tb_registry h v : I h → I (set_registry_json v h);
  tb_pending h v : I h → I (set_pending_ctrl_type v h);
  tb_ack h v : I h → I (set_downlink_ack_count v h)
}.

(** Nor at the UART's descriptors, *)
Class uart_blind (I : host → Prop) : Prop := UartBlind {
  sb_tty h v : I h → I (set_tty_fd v h);
  sb_tty_log h v : I h → I (set_tty_log_fd v h)
}.

(** nor at the configuration. *)
Class start_blind (I : host → Prop) : Prop := StartBlind {
  sb_cfg h v : I h → I (set_cfg v h);
  #[global] sb_uart :: uart_blind I
}.

(* ------------------------------------------------------------------ *)
(** ** Lemmas: through the whole program *)

(** Reading from the UART, given what a byte's delivery and its record do. *)
Lemma preserves_tty_bytes E I buf l :
  (∀ i b r, preserves I (deliver E i b r)) → (∀ b r, preserves I (feed_control E b r)) →
  preserves I (tty_bytes E buf l).
Proof.
  intros Hdel Hctl. pose proof (preserves_feed E I Hdel Hctl).
  assert (Hd : ∀ i b l, preserves I (deliver_to E i b l)) by (intros; unfold deliver_to; preserve).
  assert (Hp : ∀ b l, preserves I (legacy_payload E b l)) by (intros; unfold legacy_payload; preserve).
  assert (Hl : ∀ b l, preserves I (legacy_byte E b l)) by (intros; unfold legacy_byte; preserve).
  assert (Hy : ∀ b l, preserves I (tty_byte E b l)) by (intros; unfold tty_byte; preserve).
  revert l. induction buf as [|b buf IH]; intros l; cbn [tty_bytes]; preserve.
Qed.

(** The assignments. *)
Ltac assigns :=
  apply preserves_modify; intros ? ?;
  solve [apply sb_cfg; done | apply tb_tags; done | apply tb_num; done | apply tb_default; done
        | apply tb_max; done | apply tb_pty; done | apply tb_input; done | apply tb_registry; done
        | apply tb_pending; done | apply tb_ack; done | apply sb_tty; done | apply sb_tty_log; done].
Ltac through := preserve; try assigns.

(** The downlink writers only make calls. *)
Section Writers.
Context (E : env) (fuel : nat) (I : host → Prop) (Hb : call_blind E io_call I).

Lemma io_putbuf fd buf : preserves I (putbuf_or_exit E fuel fd buf).
Proof using Hb.
  pose proof (λ n rq, preserves_retry E io_call I n rq Hb).
  unfold putbuf_or_exit, poll_output. through.
Qed.

Lemma io_write i data : preserves I (write_data_to_uart E fuel i data).
Proof using Hb.
  pose proof io_putbuf.
  assert (Hpb : ∀ m buf b, preserves I (buf_put m buf b)) by (intros; unfold buf_put; through).
  assert (Hin : ∀ m buf d, preserves I (put_inner m buf d)).
  { intros m buf d. revert buf. induction d; intros buf; cbn [put_inner]; through. }
  assert (Hout : ∀ m buf d, preserves I (put_outer m buf d)).
  { intros m buf d. revert buf. induction d; intros buf; cbn [put_outer]; through. }
  assert (Heo : ∀ m d, preserves I (encode_outer m d)) by (intros; unfold encode_outer; through).
  assert (Hei : ∀ m k d, preserves I (encode_inner m k d)) by (intros; unfold encode_inner; through).
  assert (Hr : ∀ d, preserves I (write_raw_uart E fuel d)) by (intros; unfold write_raw_uart; through).
  assert (Hf : ∀ n k d, preserves I (write_fragments E fuel n k d)).
  { induction n as [|n IH]; intros k d; destruct d; cbn [write_fragments]; through. }
  assert (Hc : ∀ n b k d, preserves I (write_chunks E fuel n b k d)).
  { induction n as [|n IH]; intros b k d; destruct d; cbn [write_chunks]; through. }
  unfold write_data_to_uart, write_virtioso_data_to_uart. through.
Qed.

Lemma io_pty_step t : preserves I (pty_input_step E fuel t).
Proof using Hb. pose proof io_write. unfold pty_input_step. through. Qed.

End Writers.

Lemma blind_weaken E (ok ok' : sysreq → bool) I :
  (∀ rq, ok' rq = true → ok rq = true) → call_blind E ok I → call_blind E ok' I.
Proof. intros Hs Hb h rq Hc. by apply Hb, Hs. Qed.


Lemma io_call_silent rq : io_call rq = true → silent rq = true.
Proof. by destruct rq. Qed.

Definition tame (rq : sysreq) : bool :=
  match rq with RqRead _ _ | RqWrite _ _ => false | _ => silent rq end.

(** An invariant that the host's calls keep, but for reads and writes, and what
    it prints. *)
Class quiet (E : env) (I : host → Prop) : Prop := Quiet {
  qt_calls : call_blind E tame I;
  qt_session i name : preserves I (emit_pty_session_record E i name);
  qt_registry : preserves I (emit_virtioso_registry_record E)
}.

Lemma quiet_all E I : call_blind E no_lock I → quiet E I.
Proof.
  intros Hb. constructor.
  - eapply blind_weaken; [|exact Hb]. by intros [].
  - intros i name. unfold emit_pty_session_record. preserve.
  - unfold emit_virtioso_registry_record. preserve.
Qed.

Lemma thr_deliver E I {Ht : table_blind I} (Hb : call_blind E silent I) i b r : preserves I (deliver E i b r).
Proof.
  assert (Hts : ∀ n, preserves I (get_timestamp E n)) by (intros n; unfold get_timestamp; through).
  assert (Hl : ∀ i c, preserves I (set_last_ch i c)) by (intros; unfold set_last_ch; through).
  assert (Hft : ∀ j c, preserves I (flush_timestamp E j c)) by (intros; unfold flush_timestamp; through).
  assert (Hfl : ∀ j c, preserves I (flush_log E j c)) by (intros; unfold flush_log; through).
  assert (Hfs : ∀ fd j c, preserves I (flush_stream E fd j c)) by (intros; unfold flush_stream; through).
  assert (Hp : ∀ fd j c n r, preserves I (patch2flush_stream E fd j c n r))
    by (intros; unfold patch2flush_stream; through).
  unfold deliver. through.
Qed.


Section Through.
Context (E : env) (fuel : nat) (I : host → Prop) {Ht : table_blind I}.
Context (Hq : quiet E I).
Let Hb : call_blind E tame I := qt_calls.

Lemma thr_thread i : preserves I (create_thread_with_stack E i).
Proof using Hb. unfold create_thread_with_stack. through. Qed.

Lemma thr_create_pty i name b : preserves I (create_pty_at_index E i name b).
Proof using Hb Ht.
  pose proof thr_thread. pose proof (qt_session (E := E) (I := I)). unfold create_pty_at_index. through.
Qed.

Lemma thr_append l n c id name : preserves I (append_virtioso_stream E l n c id name).
Proof using Hb.
  assert (Hd : ∀ n l i id name, preserves I (duplicate_stream n l i id name)).
  { clear. induction n as [|n IH]; intros; cbn [duplicate_stream]; preserve. }
  assert (Hx : ∀ l, preserves I (xstrndup E l)) by (intros; unfold xstrndup; preserve).
  unfold append_virtioso_stream. through.
Qed.

Lemma thr_loop n s pos stop c : preserves I (registry_loop E n s pos stop c).
Proof using Hb Ht.
  assert (Hx : ∀ l, preserves I (xstrndup E l)) by (intros; unfold xstrndup; preserve).
  pose proof thr_append. revert pos c. induction n as [|n IH]; intros pos c; cbn [registry_loop]; through.
Qed.

Lemma thr_fail b n : preserves I (registry_fail b n).
Proof using Ht.
  assert (Hc : ∀ m i, preserves I (clear_tags m i)).
  { induction m as [|m IH]; intros i; cbn [clear_tags]; through. }
  unfold registry_fail. through.
Qed.

Lemma thr_create_ptys m i : preserves I (create_ptys E m i).
Proof using Hb Ht.
  pose proof thr_create_pty. revert i. induction m as [|m IH]; intros i; cbn [create_ptys]; through.
Qed.

Lemma thr_registry json : preserves I (apply_virtioso_registry_json E json).
Proof using Hb Ht.
  pose proof thr_loop. pose proof thr_fail. pose proof thr_create_ptys.
  unfold apply_virtioso_registry_json. through.
Qed.

Lemma thr_connected sid name : preserves I (apply_virtioso_stream_connected E sid name).
Proof using Hb Ht.
  assert (Hx : ∀ l, preserves I (xstrndup E l)) by (intros; unfold xstrndup; preserve).
  pose proof thr_create_pty.
  unfold apply_virtioso_stream_connected, find_virtioso_pty_idx_by_stream_id. through.
Qed.

Lemma thr_feed_control b r : preserves I (feed_control E b r).
Proof using Hb Ht.
  apply preserves_feed_control; [eapply blind_weaken; [|exact Hb]; by intros []|apply tb_registry|apply tb_pending|apply tb_ack|
    exact qt_registry|exact thr_registry|exact thr_connected].
Qed.

(** *** Start-up, with the UART open *)

Lemma thr_launch o : (∀ h v, I h → I (set_tty_log_fd v h)) → preserves I (main_launch E o).
Proof using Hb Ht.
  intros Hlog. pose proof thr_create_pty. pose proof thr_thread.
  assert (Hn : ∀ i, preserves I (pty_name i)) by (intros; unfold pty_name; through).
  assert (Hc : ∀ n i, preserves I (main_create E n i)).
  { induction n as [|n IH]; intros i; cbn [main_create]; through. }
  assert (Hm : ∀ n i, preserves I (main_threads E n i)).
  { induction n as [|n IH]; intros i; cbn [main_threads]; through. }
  assert (Hl : ∀ v, preserves I (modify (set_tty_log_fd v))).
  { intros v. apply preserves_modify. auto. }
  unfold main_launch, main_save_dir, main_raw_log, main_start_threads. through.
Qed.

(** *** Delivering *)

Context (Hs : call_blind E silent I).

Lemma thr_feed b r : preserves I (feed_nvidia_outer_or_virtioso_raw E b r).
Proof using Hb Ht Hs. apply preserves_feed; [exact (thr_deliver E I Hs)|exact thr_feed_control]. Qed.

Lemma thr_tty_bytes buf l : preserves I (tty_bytes E buf l).
Proof using Hb Ht Hs. apply preserves_tty_bytes; [exact (thr_deliver E I Hs)|exact thr_feed_control]. Qed.

(** *** What opens the UART *)

Context (Hopen : preserves I (open_tty_device E fuel)) {Hu : uart_blind I}.

Lemma thr_tty_turn l : preserves I (tty_turn E fuel l).
Proof using Hb Ht Hopen Hu Hs.
  pose proof thr_tty_bytes.
  assert (Hre : ∀ fd, preserves I (reopen_tty_device E fuel fd))
    by (intros; unfold reopen_tty_device; through).
  unfold tty_turn. through.
Qed.

Lemma thr_turns sched ths : preserves I (turns E fuel sched ths).
Proof using Hb Ht Hopen Hu Hs.
  pose proof thr_tty_turn.
  pose proof (io_pty_step E fuel I (blind_weaken E _ _ I io_call_silent Hs)).
  assert (Htt : ∀ i t, preserves I (thread_turn E fuel i t)) by (intros; unfold thread_turn; through).
  assert (Htn : ∀ k ths, preserves I (turn E fuel k ths)) by (intros; unfold turn; through).
  revert ths. induction sched as [|k sched IH]; intros ths; cbn [turns]; through.
Qed.

Lemma thr_main_start o : start_blind I → preserves I (main_start E fuel o).
Proof using Hb Ht Hopen.
  clear Hu Hs. intros Hs.
  pose proof (thr_launch o sb_tty_log).
  assert (Hi : preserves I (init_virtioso_tags E)) by (unfold init_virtioso_tags; through).
  assert (Hsu : ∀ n, preserves I (main_setup E n)).
  { intros. unfold main_setup, main_tags, main_counts, main_arrays. through. }
  unfold main_start, main_open_tty. through.
Qed.

Lemma thr_close n i : preserves I (main_close E n i).
Proof using Hb. clear Hs. revert i. induction n as [|n IH]; intros i; cbn [main_close]; through. Qed.

End Through.

(* ------------------------------------------------------------------ *)
(** ** Lemmas: the lock file *)

#[global] Instance lock_known_table : table_blind lock_known.
Proof. by constructor. Qed.
#[global] Instance lock_known_start : start_blind lock_known.
Proof. constructor; [done|by constructor]. Qed.

Lemma our_lock_call E h rq p :
  no_lock rq = true → our_lock ((rq, E (trace h) rq) :: trace h) = Some p → our_lock (trace h) = Some p.
Proof.
  intros Hc. destruct rq; try done; [by destruct mode|]. cbn.
  destruct (our_lock (trace h)) as [p'|]; [|done]. by destruct (bool_decide _).
Qed.

Lemma lock_known_blind E : call_blind E no_lock lock_known.
Proof. intros h rq Hc Hk p Hp. by apply Hk, (our_lock_call E _ rq). Qed.

Lemma lock_known_silent E : call_blind E silent lock_known.
Proof. eapply blind_weaken; [|apply lock_known_blind]. by intros []. Qed.

(** No lock file of ours exists. *)
Definition no_our_lock (h : host) : Prop := our_lock (trace h) = None.

Lemma no_our_lock_blind E : call_blind E no_lock no_our_lock.
Proof.
  intros h rq Hc Hn. unfold no_our_lock in *. cbn [set_trace trace].
  destruct (our_lock (_ :: _)) eqn:Hl; [|done]. apply our_lock_call in Hl; [|done]. congruence.
Qed.

Lemma no_our_lock_known h : no_our_lock h → lock_known h.
Proof. intros Hn p Hp. unfold no_our_lock in Hn. congruence. Qed.

Lemma unlocked_no_lock h : lock_known h → uucp_locked h = false → no_our_lock h.
Proof.
  intros Hk Hu. unfold no_our_lock. destruct (our_lock (trace h)) as [p|] eqn:Hl; [|done].
  destruct (Hk p Hl) as (_ & ? & _). congruence.
Qed.

Section Lock.
Context (E : env) (Hw : lock_writes E).

Lemma wp_lock_known h :
  no_our_lock h → filelock h ≠ [] → wp partial (uucp_lock_tty_device E) (λ _, lock_known) h.
Proof using Hw.
  intros Hn Hf. unfold uucp_lock_tty_device. apply wp_bind, wp_get, wp_bind, wp_sys. intros r Hr.
  destruct (res r <? 0) eqn:Hneg; z_bool.
  { apply wp_ret. intros p Hp. cbn in Hp. rewrite (proj2 (Z.leb_gt _ _)) in Hp by done.
    unfold no_our_lock in Hn. congruence. }
  apply wp_bind, wp_sys. intros q Hq. cbv zeta.
  assert (Hlen : Z.of_nat (length (pad_left x20 10 (fmt_d (res q)) ++ [x0a])) < MAX_PATH).
  { pose proof (length_fmt_d (res q)). unfold pad_left, MAX_PATH.
    rewrite !length_app, length_replicate. cbn [length]. lia. }
  rewrite (proj2 (Z.leb_gt _ _)) by done. apply wp_bind, wp_sys. intros w ->.
  apply wp_bind, wp_sys. intros c _. rewrite (proj2 (Z.ltb_ge _ _)) by (apply Hw; lia).
  apply wp_bind, wp_sys. intros s _. apply wp_bind, wp_modify, wp_ret.
  intros p Hp. cbn in Hp |- *. rewrite (proj2 (Z.leb_le _ _)) in Hp by done.
  injection Hp as <-. done.
Qed.

Lemma preserves_acquire_known : preserves lock_known (uucp_acquire E).
Proof using Hw.
  intros h Hk. unfold uucp_acquire. apply wp_bind, wp_get.
  destruct (disable_uucp_lock (cfg h)); [by apply wp_ret|].
  apply wp_bind, wp_sys. intros r ->. set (h1 := set_trace _ h).
  assert (Hk1 : lock_known h1) by by apply lock_known_blind.
  change (uucp_locked h) with (uucp_locked h1). clearbody h1.
  destruct (_ || _) eqn:Hl; [by apply wp_ret|]. apply orb_false_elim in Hl as [_ Hl].
  pose proof (unlocked_no_lock _ Hk1 Hl) as Hn1.
  apply wp_bind. apply (wp_mono _ _ (λ _ h2, no_our_lock h2 ∧ filelock h2 ≠ [])).
  { unfold uucp_set_filelock_name. apply wp_bind, wp_get.
    destruct (tty_device (cfg h1)) as [|c rest]; [done|]. cbv zeta. destruct (_ <=? _); [done|].
    apply wp_bind, wp_modify, wp_ret. split; [done|]. cbn. discriminate. }
  intros e h2 [Hn2 Hf2]. destruct (negb _); [apply wp_ret; by apply no_our_lock_known|].
  set (I h := no_our_lock h ∧ filelock h ≠ []).
  assert (Hb : call_blind E no_lock I).
  { intros h3 rq Hc [Hn Hf]. split; [by apply no_our_lock_blind|done]. }
  assert (Hc : preserves I (uucp_check_is_locked E)) by (unfold uucp_check_is_locked; preserve).
  apply wp_bind. eapply wp_mono; [by apply Hc|]. intros locked h3 [Hn3 Hf3].
  destruct locked; [apply wp_ret; by apply no_our_lock_known|].
  apply wp_bind. eapply wp_mono; [by apply wp_lock_known|]. intros z h4 Hk4. by apply wp_ret.
Qed.

Lemma lock_known_open fuel : preserves lock_known (open_tty_device E fuel).
Proof using Hw. apply preserves_open_tty; [apply lock_known_silent|apply preserves_acquire_known]. Qed.

(** The lock is released: by [main], or when the program is interrupted. *)
Lemma unlock_releases ok h :
  lock_known h → wp ok (uucp_unlock_tty_device E) (λ _ h', no_our_lock h') h.
Proof using.
  intros Hk. unfold uucp_unlock_tty_device. do 2 hw_step.
  destruct (our_lock (trace h)) as [p|] eqn:Hl.
  - destruct (Hk p Hl) as (Hf & Hu & Hp). rewrite Hf, Hu, bool_decide_eq_false_2 by done.
    cbn [negb andb]. hw_steps. unfold no_our_lock. cbn. by rewrite Hl, bool_decide_eq_true_2.
  - hw_step; hw_steps; unfold no_our_lock; [|done]. cbn. by rewrite Hl.
Qed.

End Lock.
