(* ===== verification/MainSpec.v ===== *)
(** * What the host program as a whole guarantees

    For every sequence of whole turns of its threads and every input: the program
    never does anything undefined, its channels' descriptors stay apart from each
    other and from the UART's, also when the UART hangs up and is opened
    again, and the UUCP lock file it created is gone when [main] returns. *)

From S2P Require Import Prelude Proto CString HostState HostIo HostIoInv Flush Registry RegistryInv Tty Startup TtySpec StartupInv Demux DemuxInv Route Fds HostTx HostTxInv HostTxSpec Demo Reader Main MainInv.
From stdpp Require Import gmap.
From Stdlib Require Import Ascii.
#[local] Open Scope Z_scope.
#[local] Open Scope list_scope.

(** [poll] on a descriptor that is open answers, and not with [POLLNVAL]. *)
Definition polls_open (E : env) : Prop := ∀ tr fd t,
  produced E tr → is_open fd tr = true →
  let p := E tr (RqPollIn fd t) in
  should_retry_io p = true ∨ res p = 1 ∧ Z.land (revents p) POLLNVAL = 0.

(** Only calls were made, and the lock's variables changed. *)
Record tabled (h h' : host) : Prop := Tabled {
  ta_cfg : cfg h' = cfg h;
  ta_tags : tags h' = tags h;
  ta_num : num_proc h' = num_proc h;
  ta_max : pty_max_count h' = pty_max_count h;
  ta_pty : pty_data h' = pty_data h;
  ta_input : virtioso_stream_input_enabled h' = virtioso_stream_input_enabled h;
  ta_log : tty_log_fd h' = tty_log_fd h
}.

(** A thread between two of its turns. *)
Definition thread_ok (h : host) (k : nat) (t : thread) : Prop :=
  match t with
  | NotRun => True
  | TtyLoop l => rx_ok h (lo_rx l) ∧ spawned (trace h) !! k = Some (-1)
  | PtyLoop => ∃ i, spawned (trace h) !! k = Some i ∧ i ≠ -1
  | Ended => spawned (trace h) !! k = Some (-1)
  end.

(** The host while its threads run. *)
Record running (E : env) (logs : Z → bool) (c : config) (h : host) (ths : threads) : Prop := Running {
  rn_wf : wf h;
  rn_own : own E logs h;
  rn_tty : 0 < tty_fd h;
  rn_cfg : cfg h = c;
  rn_started : -1 ∈ spawned (trace h) ∧ 0 ∈ spawned (trace h);
  rn_threads : ∀ k t, ths !! k = Some t → thread_ok h k t
}.

(* ------------------------------------------------------------------ *)
(** ** Lemmas: descriptors *)

Lemma tabled_blind E h : call_blind E (λ _, true) (tabled h).
Proof. intros h1 rq _ []. by constructor. Qed.

Lemma tabled_wf h h' : tabled h h' → wf h → wf h'.
Proof. intros [] Hwf. by apply (wf_same h). Qed.

Lemma tabled_open E fuel h : preserves (tabled h) (open_tty_device E fuel).
Proof.
  apply preserves_open_tty; [intros h1 rq _ []; by constructor|].
  apply preserves_acquire_table; [apply tabled_blind|by intros h1 v []; constructor..].
Qed.

Lemma held_tty h : 0 < tty_fd h → held h = 0 :: tty_fd h :: filter (λ fd, 0 < fd) [tty_log_fd h].
Proof. intros Ht. unfold held. by rewrite filter_cons_True. Qed.

Section Own.
Context (E : env) (logs : Z → bool) (Henv : good_fds E logs) (fuel : nat).

Lemma own_tty_bytes buf l : preserves (own E logs) (tty_bytes E buf l).
Proof using Henv. apply preserves_tty_bytes; [exact (own_deliver E logs)|exact (own_feed_control E logs Henv)]. Qed.

Lemma own_pty_step t : preserves (own E logs) (pty_input_step E fuel t).
Proof using.
  apply (io_pty_step E fuel). eapply blind_weaken; [|apply own_blind]. by intros [].
Qed.

(** The UART is closed and opened again. *)
Lemma wp_reopen_own h (l : locals) :
  own E logs h → 0 < tty_fd h →
  wp partial (fd <- reopen_tty_device E fuel (tty_fd h) ;;
              modify (set_tty_fd fd) ;;;
              if 0 <=? fd then ret (Some l) else halt (Exited (-1)))
    (λ _ h', own E logs h' ∧ 0 < tty_fd h') h.
Proof using Henv.
  intros Ho Ht. set (rest := filter (λ fd, 0 < fd) [tty_log_fd h]).
  pose proof (held_tty h Ht) as Hh. fold rest in Hh.
  pose proof (fd_nodup _ _ _ _ _ _ Ho) as Hnd. rewrite Hh in Hnd.
  apply NoDup_cons in Hnd as [Hn0 Hnd]. apply NoDup_cons in Hnd as [Hnt Hnd].
  rewrite not_elem_of_cons in Hn0. destruct Hn0 as [_ Hn0].
  assert (Hu : unused (tty_fd h) (0 :: rest) (pty_data h)).
  { eapply (fds_held E logs (held h)); [exact Ho|rewrite Hh; right; by left|lia|].
    rewrite not_elem_of_cons. split; [lia|done]. }
  unfold reopen_tty_device. apply wp_bind, wp_bind.
  rewrite (proj2 (Z.leb_le _ _)) by lia. apply wp_bind, wp_sys. intros r ->. apply wp_ret.
  set (h1 := set_trace _ h).
  assert (H1 : fds E logs (0 :: rest) (num_proc h) (trace h1) (pty_data h1)).
  { apply fds_close; [done..|]. apply (fds_release E logs (held h)); [| |exact Ho].
    - rewrite Hh. intros x. rewrite !elem_of_cons. tauto.
    - by constructor. }
  eapply wp_mono.
  { apply wp_conj; [apply (wp_spare_open_tty E logs Henv fuel (0 :: rest) (num_proc h) h1); split; [done|lia]|].
    by apply (tabled_open E fuel h). }
  intros fd h2 [[H2 Hfd] Hta]. apply wp_bind, wp_modify.
  destruct (0 <=? fd) eqn:Hneg; z_bool; [|done]. apply wp_ret. destruct (Hfd Hneg) as [Hop Hun].
  assert (Hpos : 0 < fd).
  { destruct Hun as [Hun _]. rewrite not_elem_of_cons in Hun. lia. }
  split; [|done]. unfold own, fds_ok. rewrite held_tty by done. cbn.
  rewrite (ta_num _ _ Hta). pose proof (fds_hold _ _ _ _ _ _ _ Hop Hun H2) as H3.
  assert (Hlog : filter (λ fd, 0 < fd) [tty_log_fd h2] = rest) by (unfold rest; by rewrite (ta_log _ _ Hta)).
  cbn in Hlog. rewrite Hlog. eapply (fds_release E logs (fd :: 0 :: rest)); [| |exact H3].
  - intros x. rewrite !elem_of_cons. tauto.
  - destruct Hun as [Hun _]. rewrite not_elem_of_cons in Hun. destruct Hun as [_ Hun].
    apply NoDup_cons. split; [rewrite not_elem_of_cons; split; [lia|exact Hn0]|].
    apply NoDup_cons. split; [exact Hun|exact Hnd].
Qed.

Lemma wp_tty_turn_own l h :
  own E logs h → 0 < tty_fd h →
  wp partial (tty_turn E fuel l) (λ _ h', own E logs h' ∧ 0 < tty_fd h') h.
Proof using Henv.
  intros Ho Ht. pose proof (own_blind E logs) as Hb. unfold tty_turn.
  set (I h' := own E logs h' ∧ tty_fd h' = tty_fd h).
  assert (Hbi : call_blind E calm I) by (intros h1 rq Hc [H1 H2]; split; [by apply Hb|done]).
  assert (Hwrap : ∀ {A} (m : HM A), preserves I m → ∀ h1, I h1 →
    wp partial m (λ _ h', own E logs h' ∧ 0 < tty_fd h') h1).
  { intros A m Hm h1 H1. eapply wp_mono; [by apply Hm|]. intros a h2 [? ->]. done. }
  assert (Hbytes : ∀ buf l, preserves I (tty_bytes E buf l)).
  { intros buf l' h1 [H1 H2]. apply wp_conj; [by apply own_tty_bytes|].
    assert (table_blind (λ h', tty_fd h' = tty_fd h)) by by constructor.
    apply (thr_tty_bytes E (λ h', tty_fd h' = tty_fd h)); [|by intros h2 rq _|done]. by apply quiet_all; intros h2 rq _. }
  apply wp_bind, wp_get, wp_bind, wp_sys. intros p Hp. set (h1 := set_trace _ h).
  assert (H1 : I h1) by (subst p; apply (Hbi h); [done|by split]).
  destruct (should_retry_io p); [apply wp_ret; by destruct H1 as [? ->]|].
  apply wp_bind. unfold assert_c. destruct (res p =? 1); [|done]. apply wp_ret, wp_bind.
  destruct (_ =? 0); [|done]. apply wp_ret.
  destruct (negb _).
  { destruct H1 as [H1 H2]. replace (tty_fd h) with (tty_fd h1). apply wp_reopen_own; [done|lia]. }
  apply (Hwrap _ _); [|done]. preserve.
Qed.

End Own.

(* ------------------------------------------------------------------ *)
(** ** Lemmas: the turns *)

(** The only way the threads stop the program: the UART is gone. *)
Definition hangup (w : stop) : Prop := w = Exited (-1).

Lemma wp_preserves_partial {A} ok (m : HM A) P Q h :
  wp partial m P h → wp ok m Q h → wp ok m (λ a h', Q a h' ∧ P a h') h.
Proof. unfold wp. by destruct (m h). Qed.

Lemma spawned_extends tr tr' k i :
  extends tr tr' → spawned tr !! k = Some i → spawned tr' !! k = Some i.
Proof.
  intros [new ->] Hk. induction new as [|[rq r] new IH]; [done|].
  destruct rq; try exact IH. cbn. by apply lookup_app_l_Some.
Qed.

Lemma spawned_extends_in tr tr' i : extends tr tr' → i ∈ spawned tr → i ∈ spawned tr'.
Proof.
  intros He [k Hk]%list_elem_of_lookup. eapply list_elem_of_lookup_2. by eapply spawned_extends.
Qed.

Lemma last_started_some i l k m : last_started i l k = Some m → i ∈ l.
Proof.
  revert k m. induction l as [|j l IH]; intros k m Hl; [done|]. cbn [last_started] in Hl.
  destruct (last_started i l (S k)) eqn:Hm; [right; by eapply IH|].
  destruct (j =? i) eqn:Hj; [|done]. z_bool. subst. by left.
Qed.

(** The last thread started for an index exists and serves it. *)
Lemma last_started_in i l k :
  i ∈ l → ∃ k', last_started i l k = Some (k + k')%nat ∧ l !! k' = Some i.
Proof.
  revert k. induction l as [|j l IH]; intros k Hi; [by apply not_elem_of_nil in Hi|]. cbn [last_started].
  destruct (last_started i l (S k)) as [m|] eqn:Hl.
  - pose proof (last_started_some _ _ _ _ Hl) as Hin. destruct (IH (S k) Hin) as (k' & Hk & Hlk). rewrite Hl in Hk. injection Hk as ->.
    exists (S k'). split; [f_equal; lia|done].
  - apply elem_of_cons in Hi as [->|Hi].
    + rewrite Z.eqb_refl. exists 0%nat. split; [f_equal; lia|done].
    + destruct (IH (S k) Hi) as (k' & Hk & _). congruence.
Qed.

Section Turns.
Context (E : env) (logs : Z → bool) (Henv : good_fds E logs) (fuel : nat).
Context (Hans : output_answers E) (Hfuel : (0 < fuel)%nat) (Hpoll : polls_open E) (Halloc : alloc_ok E).
Context (c : config) (Hmode : virtioso_mode_enabled c = true) (Hdev : device_ok c).
Context (Hcar : virtioso_outer_mode c = VIRTIOSO_OUTER_NVIDIA_TCU →
  0 ≤ virtioso_outer_tag_idx c < Z.of_nat (length chip_tags)).

(** A PTY thread's turn. *)
Lemma wp_pty_step_total ok p h :
  wf h → own E logs h → cfg h = c → is_open (td_fd p) (trace h) = true →
  wp ok (pty_input_step E fuel p) (λ _ _, True) h.
Proof using Hans Hfuel Hpoll Hmode Hcar.
  intros Hwf Ho Hc Hop. unfold pty_input_step. cbv zeta.
  hw_step. apply wp_sys. intros r ->. cbv beta. set (h1 := set_trace _ h).
  destruct (Hpoll (trace h) (td_fd p) (-1)) as [-> | [Hres Hnv]]; [apply Ho|done|by wp_step|].
  destruct (should_retry_io _); [by wp_step|]. rewrite Hres, Hnv.
  change (1 =? 1) with true. change (0 =? 0) with true. do 4 wp_step.
  destruct (_ =? 0); [by hw_steps|].
  hw_step. apply wp_sys. intros r Hr. cbv beta. wp_step; [|by wp_step].
  set (h2 := set_trace _ h1). assert (Hwf2 : wf h2) by by do 2 apply wf_trace.
  assert (Hc2 : cfg h2 = c) by done.
  pose proof (Z.mod_pos_bound (td_id p) 256 ltac:(lia)) as Hid.
  wp_step. apply (wp_mono _ _ (λ _ _, True)); [|by intros; wp_step].
  destruct (decide (td_id p mod 256 < pty_max_count h2)) as [Hlt|Hge].
  - destruct (wf_tx_ok h2 Hwf2) as [Ht Hk]; [intros Hm; rewrite Hc2 in *; by apply Hcar|].
    eapply wp_mono; [|by intros].
    apply (wp_write_data_to_uart E fuel ok (tty_fd h2) (sender_answers E fuel ok _ Hans Hfuel)); try done.
    split; [apply Hid|done].
  - unfold write_data_to_uart, write_virtioso_data_to_uart. do 2 wp_step. rewrite Hc2, Hmode.
    do 2 wp_step. rewrite (proj2 (Z.leb_le _ _)) by lia. by wp_step.
Qed.

(** The bytes of a read. *)
Lemma wp_tty_bytes_total ok buf l h :
  wf h → rx_ok h (lo_rx l) → cfg h = c →
  wp ok (tty_bytes E buf l)
    (λ r h', wf h' ∧ cfg h' = c ∧ num_proc h ≤ num_proc h' ∧
       ∀ l', r = Some l' → rx_ok h' (lo_rx l')) h.
Proof using Hmode.
  clear Hans Hfuel. revert l h.
  induction buf as [|b buf IH]; intros l h Hwf Hr Hc; cbn [tty_bytes].
  { wp_step. split_and!; try done. by intros l' [= <-]. }
  wp_step. unfold tty_byte. do 2 wp_step. rewrite Hc, Hmode. wp_step.
  eapply wp_mono.
  { apply (wp_preserves ok (λ h', cfg h' = c)); [|done|by apply wp_feed_outer].
    assert (table_blind (λ h', cfg h' = c)) by by constructor.
    apply (thr_feed E (λ h', cfg h' = c)); [|by intros h1 rq _]. by apply quiet_all; intros h1 rq _. }
  intros [z r] h1 [(Hwf1 & Hz & Hr1 & Hn1) Hc1]. cbn [fst snd] in *. wp_step.
  destruct (z <? 0) eqn:Hneg; z_bool.
  { wp_step. by split_and!. }
  eapply wp_mono; [apply IH; [done| |done]|].
  { apply Hr1. lia. }
  intros o h2 (? & ? & ? & ?). split_and!; (done || lia).
Qed.

(** The UART thread's turn. *)
Lemma wp_tty_turn_total l h :
  wf h → own E logs h → 0 < tty_fd h → rx_ok h (lo_rx l) → cfg h = c →
  wp hangup (tty_turn E fuel l)
    (λ r h', wf h' ∧ cfg h' = c ∧ num_proc h ≤ num_proc h' ∧
       ∀ l', r = Some l' → rx_ok h' (lo_rx l')) h.
Proof using Hans Hfuel Hpoll Hmode Hdev.
  intros Hwf Ho Ht Hr Hc. unfold tty_turn. do 3 hw_step. apply wp_sys. intros p ->. cbv beta.
  set (h1 := set_trace _ h). assert (Hwf1 : wf h1) by by apply wf_trace.
  assert (Hr1 : rx_ok h1 (lo_rx l)) by by apply (rx_ok_more h).
  assert (Hsame : ∀ h', wf h' → rx_ok h' (lo_rx l) → cfg h' = c → num_proc h ≤ num_proc h' →
    wf h' ∧ cfg h' = c ∧ num_proc h ≤ num_proc h' ∧ ∀ l', Some l = Some l' → rx_ok h' (lo_rx l')).
  { intros h' ????. split_and!; try done. by intros l' [= <-]. }
  assert (Htty : is_open (tty_fd h) (trace h) = true).
  { apply (fd_keep _ _ _ _ _ _ Ho). rewrite held_tty by done. right. by left. }
  destruct (Hpoll (trace h) (tty_fd h) (-1)) as [-> | [Hres Hnv]]; [apply Ho|done|wp_step; by apply Hsame|].
  destruct (should_retry_io _); [wp_step; by apply Hsame|]. rewrite Hres, Hnv.
  change (1 =? 1) with true. change (0 =? 0) with true. do 4 wp_step.
  destruct (negb _).
  - unfold reopen_tty_device. wp_step. wp_step. rewrite (proj2 (Z.leb_le _ _)) by lia. do 3 hw_step.
    set (h2 := set_trace _ h1). assert (Hwf2 : wf h2) by by apply wf_trace.
    eapply wp_mono.
    { apply (wp_preserves hangup (tabled h2)); [apply tabled_open|by constructor|].
      apply (wp_open_tty_device E fuel hangup h2); [|by left].
      change (cfg h2) with (cfg h). by rewrite Hc. }
    intros fd h3 [_ Hta]. cbv beta. pose proof (tabled_wf _ _ Hta Hwf2) as Hwf3.
    pose proof (ta_num _ _ Hta) as Hn3. pose proof (ta_cfg _ _ Hta) as Hc3.
    do 2 wp_step. wp_step; [|by apply wp_halt]. wp_step. apply Hsame.
    + by apply (wf_same h3).
    + apply (rx_ok_more h); [|done]. cbn. rewrite Hn3. done.
    + cbn. by rewrite Hc3.
    + cbn. rewrite Hn3. done.
  - hw_step. apply wp_sys. intros r Hreq. cbv beta.
    set (h2 := set_trace _ h1). assert (Hwf2 : wf h2) by by apply wf_trace.
    wp_step; [wp_step; split_and!; try done; cbn; lia|].
    cbv zeta. wp_step. apply (wp_mono _ _ (λ _ h3, wf h3 ∧ cfg h3 = c ∧ num_proc h3 = num_proc h)).
    { destruct (0 <=? tty_log_fd h); hw_steps; (split_and!; [|done..]); by repeat apply wf_trace. }
    intros b h3 (Hwf3 & Hc3 & Hn3). destruct b; cbn [negb]; [|wp_step; split_and!; (done || lia)].
    eapply wp_mono; [apply wp_tty_bytes_total; [done| |done]|].
    { apply (rx_ok_more h); [lia|done]. }
    intros o h4 (? & ? & ? & ?). split_and!; (done || lia).
Qed.

(** A thread's turn; what the others have stays valid. *)
Lemma wp_turn k ths h :
  running E logs c h ths →
  wp hangup (turn E fuel k ths) (λ ths' h', running E logs c h' ths') h.
Proof using Henv Hans Hfuel Hpoll Hmode Hdev Hcar Halloc.
  intros [Hwf Ho Ht Hc Hst Hth]. unfold turn. do 2 wp_step.
  destruct (spawned (trace h) !! k) as [i|] eqn:Hk; [|by wp_step]. wp_step.
  assert (Hlow : -1 ≤ i < Z.of_nat (length (pty_data h))).
  { pose proof (fd_threads _ _ _ _ _ _ Ho) as Hf. rewrite Forall_lookup in Hf. by apply (Hf k). }
  apply (wp_mono _ _ (λ t h', wf h' ∧ own E logs h' ∧ 0 < tty_fd h' ∧ cfg h' = c ∧
    num_proc h ≤ num_proc h' ∧ extends (trace h) (trace h') ∧ thread_ok h' k t)).
  2:{ intros t h' (Hwf' & Ho' & Ht' & Hc' & Hn & He & Hok). wp_step. constructor; try done.
      { destruct Hst. split; by eapply spawned_extends_in. }
      intros j u [[-> <-]|[Hj Hu]]%lookup_insert_Some; [done|]. specialize (Hth j u Hu).
      destruct u; try done; cbn in *; [|..|by eapply spawned_extends].
      - destruct Hth. split; [by eapply rx_ok_more|by eapply spawned_extends].
      - destruct Hth as (i' & Hi' & ?). exists i'. split; [by eapply spawned_extends|done]. }
  unfold thread_turn. assert (Hok : thread_ok h k (thread_at ths k)).
  { unfold thread_at. destruct (ths !! k) as [t|] eqn:Hat; [by apply Hth|done]. }
  assert (Hext : call_blind E (λ _, true) (λ h', extends (trace h) (trace h'))).
  { intros h1 rq _ [new Hnew]. exists ((rq, E (trace h1) rq) :: new). cbn. by rewrite Hnew. }
  destruct (thread_at ths k) as [|l| |].
  - do 2 hw_step. subst r. rewrite (proj2 (Z.eqb_neq _ _)) by apply Halloc. cbn [negb]. wp_step.
    split_and!; try done; [by apply wf_trace|exact (own_blind E logs h (RqMalloc _) eq_refl Ho)|by eexists [_]|].
    destruct (i =? -1) eqn:Hi; z_bool; [|by exists i]. subst i. split; [|done].
    cbn. apply rx_init_ok. cbn. pose proof (sh_n _ _ (wf_shape _ Hwf)). lia.
  - destruct Hok as [Hrx Hki]. wp_step. eapply wp_mono.
    { apply wp_preserves with (I := λ h', extends (trace h) (trace h')).
      - apply thr_tty_turn; [by constructor|by apply quiet_all; eapply blind_weaken; [|exact Hext]|by eapply blind_weaken; [|exact Hext]| |by constructor].
        apply preserves_open_tty; [by eapply blind_weaken; [|exact Hext]|].
        by apply preserves_acquire_table.
      - by exists [].
      - apply wp_preserves_partial; [by apply wp_tty_turn_own|by apply wp_tty_turn_total]. }
    intros r h' [[(Hwf' & Hc' & Hn & Hr) [Ho' Ht']] He]. wp_step. split_and!; try done.
    pose proof (spawned_extends _ _ _ _ He Hki). destruct r; [split; [by apply Hr|done]|done].
  - do 2 wp_step. wp_step. destruct Hok as (i' & Hi' & Hne).
    assert (i' = i) as -> by congruence.
    apply wp_arr_get; [lia|]. intros p Hp. wp_step.
    assert (Hop : is_open (td_fd p) (trace h) = true).
    { apply (fd_open _ _ _ _ _ _ Ho). by eapply list_elem_of_lookup_2. }
    assert (Htab : call_blind E io_call (tabled h)) by (eapply blind_weaken; [|apply tabled_blind]; done).
    eapply wp_mono.
    { apply wp_preserves; [by apply own_pty_step|exact Ho|].
      apply wp_preserves; [by apply (io_pty_step E fuel (tabled h) Htab)|by constructor|].
      apply wp_preserves with (I := λ h', extends (trace h) (trace h') ∧ tty_fd h' = tty_fd h).
      - apply (io_pty_step E fuel). intros h1 rq Hc1 [He1 Ht1]. split; [by apply Hext|done].
      - split; [by exists []|done].
      - by apply wp_pty_step_total. }
    intros [] h' [[[_ [He Ht']] Hta] Ho']. wp_step. pose proof (tabled_wf _ _ Hta Hwf).
    destruct Hta. split_and!; try done; [by rewrite Ht'|congruence|lia|].
    exists i. split; [by eapply spawned_extends|done].
  - wp_step. split_and!; try done.
Qed.

Lemma wp_turns sched ths h :
  running E logs c h ths →
  wp hangup (turns E fuel sched ths) (λ ths' h', running E logs c h' ths') h.
Proof using Henv Hans Hfuel Hpoll Hmode Hdev Hcar Halloc.
  revert ths h. induction sched as [|k sched IH]; intros ths h Hr; cbn [turns]; [by wp_step|].
  wp_step. eapply wp_mono; [by apply wp_turn|]. intros ths1 h1 H1. by apply IH.
Qed.

Lemma wp_unlock ok h : wp ok (uucp_unlock_tty_device E) (λ _ _, True) h.
Proof using. unfold uucp_unlock_tty_device. hw_steps; done. Qed.

(** [main] waits for the first PTY's thread, or for the UART's. *)
Lemma wp_main_join ok ths h :
  running E logs c h ths →
  wp ok (main_join ths (-1 :: seqZ 0 (pty_max_count h))) (λ b h', b = false ∧ h' = h) h.
Proof using.
  clear Hans Hfuel. intros [Hwf _ _ _ [Ht H0] Hth]. cbn [main_join]. do 2 wp_step.
  destruct (last_started_in _ _ 0 Ht) as (k & Hk & Hsk). rewrite Hk. cbn [Nat.add].
  destruct (ended (thread_at ths k)); [|by wp_step].
  assert (Hseq : ∃ l, seqZ 0 (pty_max_count h) = 0 :: l).
  { rewrite (wf_max _ Hwf). pose proof (sh_n _ _ (wf_shape _ Hwf)). rewrite seqZ_cons by lia. by eexists. }
  destruct Hseq as [l ->]. cbn [main_join]. do 2 wp_step.
  destruct (last_started_in _ _ 0 H0) as (j & Hj & Hsj). rewrite Hj. cbn [Nat.add].
  unfold thread_at. destruct (ths !! j) as [t|] eqn:Hat; [|by wp_step]. cbn [default].
  specialize (Hth j t Hat). destruct t; cbn [ended]; try by wp_step. cbn in Hth. congruence.
Qed.

End Turns.

(* ------------------------------------------------------------------ *)
(** ** Lemmas: the whole run *)

Section Run.
Context (E : env) (logs : Z → bool) (Henv : good_fds E logs) (fuel : nat) (o : options).
Context (Hv : opt_virtioso o = true).

(** The UART's descriptor. *)
Lemma wp_start_tty :
  wp partial (main_start E fuel o) (λ z h', z = 0 → 0 < tty_fd h') (host_boot o).
Proof using Henv.
  unfold main_start. apply wp_bind. eapply wp_mono.
  { apply (preserves_setup E). split_and!; [done..|]. by intros p ?%elem_of_nil. }
  intros z h Hc. cbv beta in Hc. destruct (z =? 0); cbn [negb]; [|by apply wp_ret].
  apply wp_bind. eapply wp_mono; [by apply (wp_main_open_tty_fds E logs Henv), (clean_fds E logs Henv)|].
  intros z1 h1 Hc1. cbv beta in Hc1. destruct (z1 =? 0) eqn:Hz1; cbn [negb]; [|by apply wp_ret]. z_bool.
  destruct (Hc1 Hz1) as [_ Ht]. eapply wp_mono; [|by intros z2 h2 H2 _; exact H2].
  assert (table_blind (λ h', 0 < tty_fd h')) by by constructor.
  assert (Hb : call_blind E no_lock (λ h', 0 < tty_fd h')) by (by intros h2 rq _).
  by apply (thr_launch E (λ h', 0 < tty_fd h') (quiet_all _ _ Hb)).
Qed.

(** The threads of the UART and of the first PTY are started. *)
Lemma wp_started i h :
  wp partial (create_thread_with_stack E i) (λ z h', z = 0 → i ∈ spawned (trace h')) h.
Proof using.
  unfold create_thread_with_stack. apply wp_bind, wp_sys. intros r _.
  destruct (res r =? 0) eqn:Hr; cbn [negb]; [|apply wp_ret; intros; z_bool; lia].
  apply wp_bind, wp_sys. intros s _. destruct (res s =? 0) eqn:Hs; cbn [negb].
  2:{ apply wp_bind, wp_sys. intros d _. apply wp_ret. intros; z_bool; lia. }
  apply wp_bind, wp_sys. intros t _. apply wp_bind, wp_sys. intros d _. apply wp_ret.
  destruct (res t =? 0) eqn:Ht; cbn [negb]; [|intros; z_bool; lia]. intros _. cbn. rewrite Ht.
  apply elem_of_app. right. by left.
Qed.

Lemma preserves_started i I : (∀ h rq, I h → I (set_trace ((rq, E (trace h) rq) :: trace h) h)) →
  preserves I (create_thread_with_stack E i).
Proof using.
  intros Hb. assert (call_blind E (λ _, true) I) by (intros h rq _; apply Hb).
  unfold create_thread_with_stack. preserve.
Qed.

Lemma in_spawned_call i h rq :
  i ∈ spawned (trace h) → i ∈ spawned (trace (set_trace ((rq, E (trace h) rq) :: trace h) h)).
Proof using. intros Hi. apply (spawned_extends_in (trace h)); [by exists [(rq, E (trace h) rq)]|done]. Qed.

Lemma wp_start_spawned :
  wp partial (main_start E fuel o)
    (λ z h', z = 0 → -1 ∈ spawned (trace h') ∧ 0 ∈ spawned (trace h')) (host_boot o).
Proof using Hv.
  assert (Hrest : ∀ I, (∀ h rq, I h → I (set_trace ((rq, E (trace h) rq) :: trace h) h)) →
    ∀ n i, preserves I (main_threads E n i)).
  { intros I Hb n. pose proof (λ i, preserves_started i I Hb).
    induction n as [|n IH]; intros i; cbn [main_threads]; preserve. }
  unfold main_start, main_launch. apply wp_bind. eapply wp_mono; [by apply wp_main_setup|].
  intros z h Hb. cbv beta in Hb. destruct (z =? 0) eqn:Hz; cbn [negb]; [|by apply wp_ret]. z_bool.
  specialize (Hb Hz). apply wp_bind.
  eapply wp_mono; [apply (wp_main_open_tty E fuel partial h o); [apply opens_partial|done]|].
  intros z1 h1 [Hb1 _]. destruct (z1 =? 0); cbn [negb]; [|by apply wp_ret].
  apply wp_bind. eapply wp_mono; [by apply (wp_main_save_dir E partial h1 o)|].
  intros z2 h2 [Hb2 _]. destruct (z2 =? 0); cbn [negb]; [|by apply wp_ret].
  apply wp_bind. eapply wp_mono; [by apply (wp_main_raw_log E partial h2 o)|].
  intros u h3 [Hb3 _]. apply wp_bind, wp_get, wp_bind. rewrite (bt_max _ _ Hb3).
  eapply wp_mono; [apply (wp_main_create E partial o); (done || lia)|].
  intros z4 h4 Hb4. cbv beta in Hb4. destruct (z4 =? 0); cbn [negb]; [|by apply wp_ret].
  unfold main_start_threads. apply wp_bind.
  eapply wp_mono; [apply wp_conj; [apply (wp_create_thread E partial (-1) h4)|apply (wp_started (-1))]|].
  intros z5 h5 [Ho5 Hs5]. cbv beta in Ho5, Hs5. destruct (z5 =? 0) eqn:Hz5; cbn [negb]; [|by apply wp_ret].
  z_bool. specialize (Hs5 Hz5). pose proof (booted_opens _ _ _ _ Ho5 Hb4) as Hb5.
  apply wp_bind, wp_get. rewrite (bt_max _ _ Hb5). change (Z.to_nat 3) with 3%nat.
  cbn [main_threads]. apply wp_bind.
  eapply wp_mono.
  { apply wp_preserves_partial; [apply (wp_started 0)|].
    by apply (preserves_started 0 (λ h', -1 ∈ spawned (trace h'))); [apply in_spawned_call|]. }
  intros z6 h6 [Hm6 H06]. cbv beta in Hm6, H06. destruct (z6 =? 0) eqn:Hz6; cbn [negb]; [|by apply wp_ret].
  z_bool. specialize (H06 Hz6).
  set (I h' := -1 ∈ spawned (trace h') ∧ 0 ∈ spawned (trace h')).
  assert (Hp : preserves I (main_threads E 2 1)).
  { apply Hrest. intros h' rq [? ?]. by split; apply in_spawned_call. }
  eapply wp_mono; [by apply Hp|]. by intros z7 h7 H7 _.
Qed.

Lemma booted_running h :
  booted o h → own E logs h → 0 < tty_fd h → -1 ∈ spawned (trace h) ∧ 0 ∈ spawned (trace h) →
  running E logs (cfg h) h ∅.
Proof using.
  intros Hb Ho Ht Hs. constructor; try done. by eapply booted_wf.
Qed.

Lemma wp_main_run :
  0 < Z.of_nat (length (opt_device o)) < MAX_PATH - 1 → output_answers E → (0 < fuel)%nat →
  polls_open E → alloc_ok E → ∀ sched,
  wp hangup (main_run E fuel o sched)
    (λ r h, match r with
            | None => ∃ ths c, running E logs c h ths
            | Some z => z = -1
            end) (host_boot o).
Proof using Henv Hv.
  intros Hd Hans Hf Hp Ha sched. unfold main_run. apply wp_bind.
  eapply wp_mono.
  { eapply wp_preserves_partial; [apply wp_start_spawned|].
    eapply wp_preserves_partial; [apply wp_start_tty|].
    eapply wp_preserves_partial; [by apply (wp_main_start_fds E logs Henv fuel o Hv)|].
    apply (wp_main_start E fuel hangup o Hv), opens_total; done. }
  intros z h [[[Hb Ho] Ht] Hs]. destruct (z =? 0) eqn:Hz; cbn [negb]; z_bool.
  2:{ unfold main_err. do 2 wp_step. eapply wp_mono; [apply wp_unlock|]. intros _ h1 _. by do 2 wp_step. }
  specialize (Hb Hz). specialize (Hs Hz). specialize (Ho Hz). specialize (Ht Hz).
  pose proof (booted_running h Hb Ho Ht Hs) as Hr. wp_step. eapply wp_mono.
  { apply (wp_turns E logs Henv fuel Hans Hf Hp Ha (cfg h)); [apply Hb| |apply Hb|exact Hr].
    unfold device_ok. by rewrite (bt_device _ _ Hb). }
  intros ths h1 Hr1. cbv beta in Hr1. do 3 wp_step.
  eapply wp_mono; [by eapply wp_main_join|]. intros b h2 [-> ->]. wp_step. by exists ths, (cfg h).
Qed.

End Run.

(** The lock through a whole run. *)
Lemma wp_main_lock E fuel o sched :
  lock_writes E →
  wp partial (main_run E fuel o sched)
    (λ r h, lock_known h ∧ (is_Some r → no_our_lock h)) (host_boot o).
Proof.
  intros Hw. pose proof (quiet_all _ _ (lock_known_blind E)) as Hb. pose proof (lock_known_open E Hw fuel) as Ho.
  assert (Hend : ∀ h, lock_known h → wp partial (uucp_unlock_tty_device E) (λ _ h', lock_known h' ∧ no_our_lock h') h).
  { intros h Hk. eapply wp_mono; [by apply unlock_releases|]. intros u h' Hn. cbv beta in Hn.
    split; [by apply no_our_lock_known|done]. }
  unfold main_run. apply wp_bind. eapply wp_mono; [by apply (thr_main_start E fuel lock_known Hb Ho _ _)|].
  intros z h Hk. cbv beta in Hk. destruct (negb _).
  { unfold main_err. apply wp_bind, wp_bind. eapply wp_mono; [by apply Hend|].
    intros u1 h1 [Hk1 Hn1]. apply wp_ret, wp_ret. by split. }
  apply wp_bind. eapply wp_mono; [by apply (thr_turns E fuel lock_known Hb (lock_known_silent E) Ho)|].
  intros ths h1 Hk1. cbv beta in Hk1. apply wp_bind, wp_get, wp_bind.
  assert (Hj : ∀ l, preserves lock_known (main_join ths l)).
  { induction l as [|i l IH]; cbn [main_join]; preserve. }
  eapply wp_mono; [by apply Hj|]. clear h1 Hk1. intros joined h1 Hk1. cbv beta in Hk1. destruct joined.
  2:{ apply wp_ret. split; [done|]. by intros [? ?]. }
  apply wp_bind. unfold main_end. pose proof (thr_close E lock_known Hb) as Hc.
  apply wp_bind, wp_get, wp_bind, wp_sys. intros r ->. apply (lock_known_blind E _ (RqClose (tty_fd h1))) in Hk1; [|done].
  apply wp_bind. eapply (wp_mono _ _ (λ _, lock_known)).
  { match goal with |- wp _ ?m _ _ => assert (Hp : preserves lock_known m) by preserve end. by apply Hp. }
  intros u h2 Hk2. cbv beta in Hk2. apply wp_bind. eapply wp_mono; [by apply Hc|]. intros u3 h3 Hk3. cbv beta in Hk3.
  apply wp_bind. eapply wp_mono; [by apply Hend|]. intros u4 h4 [Hk4 Hn4]. apply wp_ret, wp_ret. by split.
Qed.

(* ------------------------------------------------------------------ *)
(** ** A concrete machine

    Everything succeeds; the UART delivers the announcements of two streams
    at every read, and hangs up once. *)

Definition is_poll_in (e : sysreq * sysres) : bool :=
  match e.1 with RqPollIn _ _ => true | _ => false end.

Definition lively : env := λ tr rq,
  match rq with
  | RqRead _ _ =>
      let l := wires [TConnected (x41 :: bs "shell"); TConnected (x42 :: bs "agent"); TByte x41] in
      SysRes (Z.of_nat (length l)) 0 0 l []
  | RqPollIn _ _ =>
      SysRes 1 0 (if (length (List.filter is_poll_in tr) =? 1)%nat then POLLHUP else POLLIN) [] []
  | _ => good_env tr rq
  end.

Lemma lively_fds : good_fds lively (λ _, true).
Proof. apply like_good_env_fds. by intros tr []. Qed.

Lemma lively_polls : polls_open lively.
Proof. intros tr fd t _ _. right. cbn. by destruct (_ =? _)%nat. Qed.

Lemma lively_answers : output_answers lively.
Proof. destruct good_env_answers as [H1 H2]. constructor; [exact H1|exact H2]. Qed.

Lemma lively_lock : lock_writes lively.
Proof. intros tr p r q d _. cbn. lia. Qed.

(* ------------------------------------------------------------------ *)
(** ** Properties *)

(** C11: the program runs, and cleans up after itself, turn by turn.  In
    Virtioso mode, on an operating system that keeps its promises (memory is
    available, a new descriptor is not open, [poll] answers on open
    descriptors, output to the UART is not interrupted, the process id can be
    written to a fresh lock file), for every start-up, every sequence of whole
    turns of the threads after it (each turn one pass of a thread's loop that
    no other thread divides) and whatever is read: no assertion fails, nothing
    undefined is done and every call returns.  [main] returns only when
    start-up fails, with -1 and the UUCP lock file it created gone; once
    started the program stops by itself only when the UART has hung up and
    cannot be opened again, and an interrupt at any point between two turns
    removes the lock file.  It is not claimed for schedules that divide turns,
    where a writer's assertion can stop the program while the reader opens the
    UART again ([TxParSpec.hangup_aborts_writer]); [Duplex.duplex_runs] is
    what holds of those that divide the writers' turns on a UART that works. *)
Theorem main_runs E logs fuel o sched :
  good_fds E logs → polls_open E → output_answers E → lock_writes E → alloc_ok E →
  (0 < fuel)%nat → opt_virtioso o = true → 0 < Z.of_nat (length (opt_device o)) < MAX_PATH - 1 →
  match main_run E fuel o sched (host_boot o) with
  | Done None h => ∃ h', handle_sigint E h = Stop (Exited 0) h' ∧ our_lock (trace h') = None
  | Done (Some z) h => z = -1 ∧ our_lock (trace h) = None
  | Stop w _ => w = Exited (-1)
  end.
Proof.
  intros Henv Hp Hans Hw Ha Hf Hv Hd.
  pose proof (wp_main_run E logs Henv fuel o Hv Hd Hans Hf Hp Ha sched) as Hr.
  pose proof (wp_main_lock E fuel o sched Hw) as Hl. unfold wp in Hr, Hl.
  destruct (main_run E fuel o sched (host_boot o)) as [[z|] h|]; [|clear Hr|done].
  - destruct Hl as [_ Hl]. split; [done|]. by apply Hl.
  - destruct Hl as [Hk _]. pose proof (unlock_releases E Prelude.total h Hk) as Hu.
    apply wp_total_done in Hu as ([] & h' & Hrun & Hn). exists h'. split; [|exact Hn].
    unfold handle_sigint, bind. by rewrite Hrun.
Qed.

(** C11 with announcements, a hangup, and a PTY that delivers. *)
Lemma main_runs_witness :
  let o := demo_options [("l"%char, bs "/tmp/raw.log")] in
  match main_run lively 1 o [0; 1; 0; 0; 1; 0; 4; 4; 2]%nat (host_boot o) with
  | Done None h => ∃ h', handle_sigint lively h = Stop (Exited 0) h' ∧ our_lock (trace h') = None
  | Done (Some z) h => z = -1 ∧ our_lock (trace h) = None
  | Stop w _ => w = Exited (-1)
  end.
Proof.
  intros o. apply (main_runs lively (λ _, true) 1 o).
  - exact lively_fds.
  - exact lively_polls.
  - exact lively_answers.
  - exact lively_lock.
  - by intros tr n.
  - lia.
  - reflexivity.
  - vm_compute. split; reflexivity.
Defined.

(** C10: no two channels ever share a descriptor.  While the program runs,
    after any sequence of turns of its threads, whatever bytes were received, however
    often channels were added, refused or abandoned and the UART was lost and
    opened again: every channel of the table has a descriptor that is open,
    that no other channel has, and that is not a log file's, the UART's or
    the raw log's; and the UART's is open. *)
Theorem channels_own_descriptors E logs fuel o sched h :
  good_fds E logs → polls_open E → output_answers E → alloc_ok E → (0 < fuel)%nat →
  opt_virtioso o = true → 0 < Z.of_nat (length (opt_device o)) < MAX_PATH - 1 →
  main_run E fuel o sched (host_boot o) = Done None h →
  own_fds h ∧ is_open (tty_fd h) (trace h) = true ∧
  ∀ i p, Z.of_nat i < num_proc h → pty_data h !! i = Some p →
    is_open (td_fd p) (trace h) = true ∧ td_fd p ≠ tty_fd h ∧
    (0 < tty_log_fd h → td_fd p ≠ tty_log_fd h).
Proof.
  intros Henv Hp Hans Ha Hf Hv Hd Hrun.
  pose proof (wp_main_run E logs Henv fuel o Hv Hd Hans Hf Hp Ha sched) as Hr.
  apply (wp_done_inv _ _ _ _ _ _ Hr) in Hrun as (ths & c & [Hwf Ho Ht _ _ _]).
  pose proof (held_tty h Ht) as Hh.
  split; [by apply (own_own_fds E logs)|]. split.
  { apply (fd_keep _ _ _ _ _ _ Ho). rewrite Hh. right. by left. }
  intros i p Hi Hp'. apply list_elem_of_lookup_2 in Hp'. split; [by apply (fd_open _ _ _ _ _ _ Ho)|].
  pose proof (λ fd Hk, fd_kept _ _ _ _ _ _ Ho p fd Hp' Hk) as Hkept. rewrite Hh in Hkept. split.
  - intros Heq. enough (tty_fd h = 0) by lia. apply Hkept; [right; by left|by left].
  - intros Hl Heq. enough (tty_log_fd h = 0) by lia. apply Hkept; [|by left].
    right. right. rewrite filter_cons_True by done. by left.
Qed.

(** C10 with log files, on two announced streams and after a hangup. *)
Lemma channels_own_descriptors_witness :
  let o := demo_options [("s"%char, bs "/tmp/logs/"); ("l"%char, bs "/tmp/raw.log")] in
  let sched := [0; 0; 1; 4; 0; 4; 0; 2]%nat in
  let h := run (main_run lively 1 o sched) (host_boot o) in
  own_fds h ∧ is_open (tty_fd h) (trace h) = true ∧
  ∀ i p, Z.of_nat i < num_proc h → pty_data h !! i = Some p →
    is_open (td_fd p) (trace h) = true ∧ td_fd p ≠ tty_fd h ∧
    (0 < tty_log_fd h → td_fd p ≠ tty_log_fd h).
Proof.
  intros o sched h. apply (channels_own_descriptors lively (λ _, true) 1 o sched).
  - exact lively_fds.
  - exact lively_polls.
  - exact lively_answers.
  - by intros tr n.
  - lia.
  - reflexivity.
  - vm_compute. split; reflexivity.
  - vm_compute. reflexivity.
Defined.

(** The channels, the UART and the raw log in that run. *)
Example lively_descriptors :
  let o := demo_options [("l"%char, bs "/tmp/raw.log")] in
  let h := run (main_run lively 1 o [0; 0; 1; 4; 0; 4; 0; 2]%nat) (host_boot o) in
  (take 6 (td_fd <$> pty_data h), tty_fd h, tty_log_fd h, spawned (trace h)) =
  ([11; 13; 15; 17; 19; 0], 21, 10, [-1; 0; 1; 2]).
Proof. vm_compute. reflexivity. Qed.

(* ------------------------------------------------------------------ *)
(** ** What happens off that path *)

(** The UART hangs up and is gone: the program exits and leaves its lock file. *)
Example hangup_keeps_lock :
  let E := λ tr rq, match rq with
    | RqOpen _ OpenTty => if existsb is_poll_in tr then SysRes (-1) ENOENT 0 [] [] else lively tr rq
    | _ => lively tr rq end in
  let o := demo_options [] in
  match main_run E 1 o [0; 0; 0]%nat (host_boot o) with
  | Stop (Exited (-1)) h => our_lock (trace h) = Some (bs "/var/lock/LCK..ttyUSB3")
  | _ => False
  end.
Proof. vm_compute. reflexivity. Qed.

(** The process id cannot be written: start-up fails and leaves the file. *)
Example failed_lock_stays :
  let E := λ tr rq, match rq with
    | RqWrite _ _ => SysRes (-1) EIO 0 [] [] | _ => good_env tr rq end in
  let o := demo_options [] in
  match main_run E 1 o [] (host_boot o) with
  | Done (Some (-1)) h => our_lock (trace h) = Some (bs "/var/lock/LCK..ttyUSB3")
  | _ => False
  end.
Proof. vm_compute. reflexivity. Qed.

(** The UART's thread ends on a read error and the PTYs' on lack of memory:
    [main] joins a thread that was never started, the one of a stream
    without input. *)
Example joins_unstarted :
  let E := λ tr rq, match rq with
    | RqMalloc n => if (n =? temporary_buffer_size) && existsb is_poll_in tr
                    then SysRes 0 ENOMEM 0 [] [] else lively tr rq
    | RqRead _ _ => if (length (List.filter is_poll_in tr) =? 1)%nat then lively tr rq
                    else SysRes (-1) EIO 0 [] []
    | RqPollIn _ _ => SysRes 1 0 POLLIN [] []
    | _ => lively tr rq end in
  let o := demo_options [] in
  match main_run E 1 o [0; 0; 0; 1; 2; 3]%nat (host_boot o) with
  | Stop Undefined _ => True
  | _ => False
  end.
Proof. vm_compute. exact I. Qed.

(** A registry without streams ends the UART's thread: the program goes on
    and never reads from the UART again. *)
Example refused_registry_ends_reader :
  let E := λ tr rq, match rq with
    | RqRead _ _ => let l := wire (TRegistry (bs "{}")) in SysRes (Z.of_nat (length l)) 0 0 l []
    | RqPollIn _ _ => SysRes 1 0 POLLIN [] []
    | _ => good_env tr rq end in
  let o := demo_options [] in
  match main_run E 1 o [0; 0; 0; 0; 0]%nat (host_boot o) with
  | Done None h => length (reads (tty_fd h) (trace h)) = 1%nat
  | _ => False
  end.
Proof. vm_compute. reflexivity. Qed.
