(* ===== verification/Duplex.v ===== *)
(** * Both directions at once

    The PTY threads' actions among the turns of the UART's reader
    ([tty_turn], each taken whole), in Virtioso mode and whatever the UART
    delivers: the reader never disturbs the writers, nor they it.  This
    discharges the interface [lets_be], which [TxParSpec] assumes of the other
    threads. *)

From S2P Require Import Prelude Proto HostState HostIo HostIoInv Flush Registry RegistryInv Startup Demux DemuxInv Route Fds HostTx HostTxInv HostTxSpec Demo Reader ReaderInv ReaderLoop MainInv MainSpec Par TxPar TxParSpec.
From stdpp Require Import relations.
#[local] Open Scope Z_scope.
#[local] Open Scope list_scope.

(** The pool of the PTY threads, and the reader's variables while it runs. *)
Record duplex : Type := Duplex { dx_par : par; dx_reader : option locals }.

(** An action of a PTY thread, or a turn of the reader. *)
Inductive dstep (E : env) (fuel : nat) : duplex → duplex → Prop :=
| dstep_writer k p p' r : advance E k p = Some p' → dstep E fuel (Duplex p r) (Duplex p' r)
| dstep_reader o h ps l r h' :
    tty_turn E fuel l h = Done r h' →
    dstep E fuel (Duplex (Par o h ps) (Some l)) (Duplex (Par o h' ps) r).

(** By a schedule: the index of a thread, or [None] for the reader. *)
Definition dturn (E : env) (fuel : nat) (who : option nat) (s : duplex) : duplex :=
  let 'Duplex p r := s in
  match who, r with
  | Some k, _ => match advance E k p with Some p' => Duplex p' r | None => s end
  | None, Some l =>
      match tty_turn E fuel l (pr_host p) with
      | Done r' h' => Duplex (Par (pr_owner p) h' (pr_procs p)) r'
      | Stop _ _ => s
      end
  | None, None => s
  end.

Definition dschedule (E : env) (fuel : nat) (whos : list (option nat)) (s : duplex) : duplex :=
  foldl (λ s who, dturn E fuel who s) s whos.

(** The UART never hangs up. *)
Definition line_up (E : env) (fd : Z) : Prop := ∀ tr,
  let p := E tr (RqPollIn fd (-1)) in
  should_retry_io p = true ∨
  res p = 1 ∧ Z.land (revents p) POLLNVAL = 0 ∧ Z.land (revents p) (Z.lor POLLHUP POLLERR) = 0.

(** The table may have grown since [h0]. *)
Record grows (h0 h : host) : Prop := Grows {
  gr_wf : wf h;
  gr_cfg : cfg h = cfg h0;
  gr_num : num_proc h0 ≤ num_proc h;
  gr_tags j : Z.of_nat j < num_proc h0 → tags h !! j = tags h0 !! j;
  gr_tty : tty_fd h = tty_fd h0;
  gr_log : tty_log_fd h = tty_log_fd h0
}.

(** Nothing was written to the UART or read. *)
Record hushed (h0 h : host) : Prop := Hushed {
  hu_uart : accepted (tty_fd h0) (trace h) = accepted (tty_fd h0) (trace h0);
  hu_inputs : inputs (trace h) = inputs (trace h0)
}.

(* ------------------------------------------------------------------ *)
(** ** Lemmas: the reader leaves the UART's output alone *)

Lemma grows_refl h : wf h → grows h h.
Proof. by constructor. Qed.

Lemma grows_blind E h0 : call_blind E (λ _, true) (grows h0).
Proof. intros h rq _ []. constructor; try done. by apply wf_trace. Qed.

Lemma hushed_blind E h0 : call_blind E tame (hushed h0).
Proof. intros h rq Hc []. by destruct rq. Qed.

#[local] Instance hushed_table h0 : table_blind (hushed h0).
Proof. by constructor; intros h v []. Qed.

Lemma grows_keeps h0 h h' :
  grows h0 h → wf h' → keeps (num_proc h) h h' → num_proc h ≤ num_proc h' → grows h0 h'.
Proof.
  intros [] Hwf Hk Hn. constructor; [done|by rewrite (kp_cfg _ _ _ Hk)|lia| |
    by rewrite (kp_tty _ _ _ Hk)|by rewrite (kp_tty_log _ _ _ Hk)].
  intros j Hj. rewrite (kp_tags _ _ _ Hk) by lia. auto.
Qed.

Section Beside.
Context (E : env) (logs : Z → bool) (Henv : good_fds E logs) (h0 : host) (Ht : 0 < tty_fd h0).

Lemma grows_feed_control b r : preserves (grows h0) (feed_control E b r).
Proof using Type.
  apply preserves_feed_control.
  - intros h rq _. by apply grows_blind.
  - intros h v []. by constructor; [apply (wf_same h)|..].
  - intros h v []. by constructor; [apply (wf_same h)|..].
  - intros h v []. by constructor; [apply (wf_same h)|..].
  - pose proof (grows_blind E h0). unfold emit_virtioso_registry_record. preserve.
  - intros json h Hg. eapply wp_mono; [apply wp_apply_registry, Hg|].
    intros z h' (Hwf & Hk & Hz). apply (grows_keeps _ h); (done || lia).
  - intros sid name h Hg. eapply wp_mono; [apply wp_apply_connected, Hg|].
    intros [] h' (Hwf & Hk & Hz). apply (grows_keeps _ h); try done. lia.
Qed.

(** Between the reader's calls, since [h1]. *)
Definition reading (h1 h : host) : Prop := own E logs h ∧ grows h0 h ∧ hushed h1 h.

Section Reading.
Context (h1 : host) (H1 : tty_fd h1 = tty_fd h0).
Local Abbreviation I := (reading h1).

Lemma reading_tame : call_blind E (λ rq, tame rq && calm rq) I.
Proof using Type.
  intros h rq Hc (Ho & Hg & Hh). apply andb_prop in Hc as [Hta Hca].
  split_and!; [by apply own_blind|by apply grows_blind|by apply hushed_blind].
Qed.

Lemma reading_write fd d : fd ≠ tty_fd h0 → preserves I (sys E (RqWrite fd d)).
Proof using H1.
  intros Hfd h (Ho & Hg & [Hu Hi]). apply wp_sys. intros r ->.
  split_and!; [by apply (own_blind E logs h (RqWrite fd d))|by apply (grows_blind E h0 h (RqWrite fd d))|].
  constructor; [|done]. cbn. rewrite H1, (proj2 (Z.eqb_neq _ _)), app_nil_r by done. by rewrite <-H1.
Qed.

(** The descriptors of the channels are not the UART's. *)
Lemma reading_pty h p : I h → p ∈ pty_data h → td_fd p ≠ tty_fd h0 ∧ td_log_fd p ≠ tty_fd h0.
Proof using Ht.
  intros (Ho & Hg & _) Hp. pose proof (fd_kept _ _ _ _ _ _ Ho p (tty_fd h0) Hp) as Hk.
  rewrite held_tty, (gr_tty _ _ Hg) in Hk by (rewrite (gr_tty _ _ Hg); done).
  specialize (Hk ltac:(right; by left)). lia.
Qed.

Lemma reading_get {A} i (k : host → thread_data → HM A) :
  (∀ h p, td_fd p ≠ tty_fd h0 → td_log_fd p ≠ tty_fd h0 → preserves I (k h p)) →
  preserves I (h <- get ;; p <- arr_get (pty_data h) i ;; k h p).
Proof using Ht.
  intros Hk h HI. apply wp_bind, wp_get, wp_bind. unfold arr_get. destruct (i <? 0); [done|].
  destruct (pty_data h !! Z.to_nat i) as [p|] eqn:Hp; [|done]. apply wp_ret.
  destruct (reading_pty h p HI); [by eapply list_elem_of_lookup_2|]. by apply Hk.
Qed.

Lemma reading_last_ch i ch : preserves I (set_last_ch i ch).
Proof using Type.
  apply preserves_last_ch. intros h j p (Ho & Hg & Hh) Hp. split_and!.
  - by apply fds_last_ch.
  - destruct Hg. constructor; try done. destruct gr_wf0 as [[] ? ? ?]. constructor; try done.
    constructor; try done. cbn. by rewrite length_insert.
  - by destruct Hh.
Qed.

Lemma reading_deliver i b r : preserves I (deliver E i b r).
Proof using Ht H1.
  pose proof reading_tame as Hb. pose proof reading_last_ch. pose proof reading_write as Hw.
  assert (Hts : ∀ n, preserves I (get_timestamp E n)) by (intros; unfold get_timestamp; preserve).
  assert (Hft : ∀ j c, preserves I (flush_timestamp E j c)).
  { intros. apply reading_get. intros h p _ Hp. pose proof (λ d, Hw _ d Hp). preserve. }
  assert (Hfl : ∀ j c, preserves I (flush_log E j c)).
  { intros. apply reading_get. intros h p _ Hp. pose proof (λ d, Hw _ d Hp). preserve. }
  assert (Hfs : ∀ fd j c, fd ≠ tty_fd h0 → preserves I (flush_stream E fd j c)).
  { intros fd j c Hfd. pose proof (λ d, Hw _ d Hfd). unfold flush_stream. preserve. }
  apply reading_get. intros h p Hp _. pose proof (λ j c, Hfs _ j c Hp).
  assert (Hpf : ∀ j c n r, preserves I (patch2flush_stream E (td_fd p) j c n r))
    by (intros; unfold patch2flush_stream; preserve).
  preserve.
Qed.

Lemma hushed_feed_control b r : preserves (hushed h1) (feed_control E b r).
Proof using Type.
  apply thr_feed_control; [apply hushed_table|]. constructor.
  - apply hushed_blind.
  - intros i name. assert (Hb : call_blind E (λ rq, match rq with RqStdout _ => true | _ => false end) (hushed h1))
      by (intros h rq Hc []; by destruct rq).
    unfold emit_pty_session_record. preserve.
  - assert (Hb : call_blind E (λ rq, match rq with RqStdout _ => true | _ => false end) (hushed h1))
      by (intros h rq Hc []; by destruct rq).
    unfold emit_virtioso_registry_record. preserve.
Qed.

Lemma reading_tty_bytes buf l : preserves I (tty_bytes E buf l).
Proof using Henv Ht H1.
  apply preserves_tty_bytes; [exact reading_deliver|].
  intros b r h (Ho & Hg & Hh). apply wp_conj; [by apply own_feed_control|].
  apply wp_conj; [by apply grows_feed_control|by apply hushed_feed_control].
Qed.

End Reading.
End Beside.

(* ------------------------------------------------------------------ *)
(** ** Lemmas: a turn of the reader *)

(** The state between steps since [h]. *)
Record beside (E : env) (logs : Z → bool) (h : host) (r : option locals) (h' : host) : Prop := Beside {
  be_grows : grows h h';
  be_own : own E logs h';
  be_rx l : r = Some l → rx_ok h' (lo_rx l)
}.

(** Where the program may be started. *)
Record duplex_ok (E : env) (logs : Z → bool) (fuel : nat) (h : host) (l : locals) (ts : list thread_data) : Prop := DuplexOk {
  do_wf : wf h;
  do_mode : virtioso_mode_enabled (cfg h) = true;
  do_carrier : carrier_ok h;
  do_own : own E logs h;
  do_tty : 0 < tty_fd h;
  do_rx : rx_ok h (lo_rx l);
  do_threads : threads_of h ts;
  do_channels t : t ∈ ts → t ∈ pty_data h;
  do_fds : good_fds E logs;
  do_alloc : alloc_ok E;
  do_fuel : (0 < fuel)%nat;
  do_prompt : prompt E (tty_fd h);
  do_line : line_up E (tty_fd h);
  do_polls t : t ∈ ts → pty_polls E (td_fd t)
}.

Section Runs.
Context (E : env) (logs : Z → bool) (fuel turns : nat) (h0 : host) (l0 : locals) (ts : list thread_data).
Context (Hok : duplex_ok E logs fuel h0 l0 ts).
Let Ht : 0 < tty_fd h0 := do_tty _ _ _ _ _ _ Hok.
Let Henv : good_fds E logs := do_fds _ _ _ _ _ _ Hok.

Lemma channel_tty t : t ∈ ts → td_fd t ≠ tty_fd h0.
Proof using Hok.
  intros Hin. apply (reading_pty E logs h0 Ht h0 h0 t); [|by eapply do_channels].
  split_and!; [apply Hok|apply grows_refl, Hok|done].
Qed.

Lemma reading_bystander h h' :
  grows h0 h → tty_fd h = tty_fd h0 → reading E logs h0 h h' → num_proc h ≤ num_proc h' →
  bystander h0 (td_fd <$> ts) h h'.
Proof using Hok.
  intros Hg Hh (_ & Hg' & [Hu Hi]) Hn. constructor.
  - by rewrite (gr_cfg _ _ Hg), (gr_cfg _ _ Hg').
  - by rewrite (gr_tty _ _ Hg), (gr_tty _ _ Hg').
  - by rewrite (wf_max _ (gr_wf _ _ Hg)), (wf_max _ (gr_wf _ _ Hg')).
  - intros j Hj. rewrite (wf_max _ (do_wf _ _ _ _ _ _ Hok)) in Hj.
    by rewrite (gr_tags _ _ Hg), (gr_tags _ _ Hg').
  - by rewrite <-Hh.
  - intros fd _. unfold reads. by rewrite Hi.
Qed.

Lemma bystander_trans a b c fds :
  bystander h0 fds a b → bystander h0 fds b c → bystander h0 fds a c.
Proof.
  intros [A1 A2 A3 A4 A5 A6] [B1 B2 B3 B4 B5 B6]. constructor; try congruence; [lia|..].
  - intros j Hj. rewrite B4 by done. auto.
  - intros fd Hf. rewrite B6 by done. auto.
Qed.

Lemma bystander_call h rq r :
  (∀ fd d, rq = RqWrite fd d → fd ≠ tty_fd h0) → (∀ fd n, rq = RqRead fd n → fd = tty_fd h0) →
  bystander h0 (td_fd <$> ts) h (set_trace ((rq, r) :: trace h) h).
Proof using Hok.
  intros Hw Hr. constructor; try done.
  - destruct rq; try done. cbn. rewrite (proj2 (Z.eqb_neq _ _)), app_nil_r; [done|]. by eapply Hw.
  - intros fd (t & -> & Hin)%list_elem_of_fmap. destruct rq; try done.
    rewrite (Hr _ _ eq_refl). unfold reads. cbn. rewrite filter_app, fmap_app.
    destruct (0 <? res r); [|by rewrite app_nil_r]. rewrite filter_cons_False; [by rewrite app_nil_r|].
    cbn. intros Heq. by apply (channel_tty t).
Qed.

Lemma beside_call r h rq :
  calm rq = true → beside E logs h0 r h → beside E logs h0 r (set_trace ((rq, E (trace h) rq) :: trace h) h).
Proof using Type.
  intros Hc [Hg Ho Hr]. constructor; [by apply (grows_blind E h0 h rq)|by apply own_blind|].
  intros l Hl. by apply (rx_ok_more h), Hr.
Qed.

(** A turn of the reader comes to its end, and is one of a bystander. *)
Lemma wp_reader_turn ok l h :
  beside E logs h0 (Some l) h →
  wp ok (tty_turn E fuel l) (λ r h', beside E logs h0 r h' ∧ bystander h0 (td_fd <$> ts) h h') h.
Proof using Hok.
  intros Hb. pose proof Hb as [Hg Ho Hr]. specialize (Hr l eq_refl). pose proof (gr_tty _ _ Hg) as Htty.
  assert (Hpos : 0 < tty_fd h) by (rewrite Htty; exact Ht). unfold tty_turn. do 3 hw_step. apply wp_sys. intros p ->. cbv beta.
  set (h1 := set_trace _ h).
  assert (Hb1 : beside E logs h0 (Some l) h1) by by apply (beside_call _ h (RqPollIn _ _)).
  assert (Hs1 : bystander h0 (td_fd <$> ts) h h1) by by apply bystander_call.
  pose proof (do_line _ _ _ _ _ _ Hok) as Hl. rewrite <-Htty in Hl.
  destruct (Hl (trace h)) as [Hre|(Hres & Hnv & Hup)]; clear Hl.
  { rewrite Hre. by wp_step. }
  destruct (should_retry_io _); [by wp_step|]. rewrite Hres, Hnv, Hup.
  change (1 =? 1) with true. change (0 =? 0) with true. cbn [negb assert_c]. do 4 wp_step. cbv iota.
  wp_step. apply wp_sys. intros r ->. cbv beta. set (h2 := set_trace _ h1).
  assert (Hb2 : beside E logs h0 (Some l) h2) by by apply (beside_call _ h1 (RqRead _ _)).
  assert (Hs2 : bystander h0 (td_fd <$> ts) h h2).
  { eapply bystander_trans; [exact Hs1|]. apply bystander_call; [done|]. by intros fd n [= <- _]. }
  set (r := E _ (RqRead _ _)). destruct (res r <? 0).
  { wp_step. split; [|done]. destruct Hb2. by constructor. }
  cbv zeta. wp_step.
  apply (wp_mono _ _ (λ _ h3, beside E logs h0 (Some l) h3 ∧ bystander h0 (td_fd <$> ts) h h3)).
  { destruct (0 <=? tty_log_fd h) eqn:Hlog; wp_step; [|done]. z_bool. apply wp_sys. intros w ->. cbv beta. wp_step.
    split; [by apply (beside_call _ h2 (RqWrite _ _))|]. eapply bystander_trans; [exact Hs2|].
    apply bystander_call; [|done]. intros fd d [= <- _]. rewrite <-Htty.
    pose proof (fd_nodup _ _ _ _ _ _ Ho) as Hnd. rewrite (held_tty h Hpos) in Hnd.
    apply NoDup_cons in Hnd as [_ Hnd]. apply NoDup_cons in Hnd as [Hnt _]. intros Heq. apply Hnt.
    rewrite filter_cons_True by lia. rewrite Heq. by left. }
  intros b h3 [Hb3 Hs3]. destruct b; cbn [negb].
  2:{ wp_step. split; [|done]. destruct Hb3. by constructor. }
  destruct Hb3 as [Hg3 Ho3 Hr3]. eapply wp_mono.
  { apply wp_preserves with (I := reading E logs h0 h3).
    - apply reading_tty_bytes; [exact Henv|exact Ht|apply (gr_tty _ _ Hg3)].
    - by split_and!.
    - apply (wp_tty_bytes_total E (cfg h0) (do_mode _ _ _ _ _ _ Hok)); [apply Hg3|by apply Hr3|apply Hg3]. }
  intros r' h' [(Hwf' & _ & Hn & Hr') Hrd]. pose proof Hrd as (Ho' & Hg' & _). split; [by constructor|].
  eapply bystander_trans; [exact Hs3|]. apply reading_bystander; (done || apply Hg3).
Qed.

(** *** All the steps *)

(** The uplink so far. *)
Definition uplink (r : option locals) (h : host) : Prop :=
  ∃ l new e, r = Some l ∧
    run_route (outer_byte h0) (outer_of (lo_rx l0)) (concat new) = Some (outer_of (lo_rx l), e) ∧
    served h0 l0 new e l h.

(** Between records, with a UART that delivers no control byte. *)
Definition data_only : Prop :=
  tty_healthy E (λ b, b ≠ VCMUX_PROTO_ESC_CONTROL) h0 ∧ control_state (lo_rx l0) = VIRTIOSO_CONTROL_IDLE.

Record going (s : duplex) : Prop := Going {
  go_beside : beside E logs h0 (dx_reader s) (pr_host (dx_par s));
  go_steps : steps E h0 ts (writers fuel turns ts h0) (dx_par s);
  go_uplink : data_only → ReaderLoop.turn_post E virtioso_machine h0 l0 (dx_reader s) (pr_host (dx_par s))
}.

Lemma going_start : going (Duplex (writers fuel turns ts h0) (Some l0)).
Proof using Hok.
  constructor; cbn [dx_par dx_reader writers pr_host].
  - constructor; [apply grows_refl, Hok|apply Hok|]. intros l [= <-]. apply Hok.
  - done.
  - intros [Hh Hc]. apply turn_post_refl. split; [apply Hok|]. eapply own_ready; [apply Hok..|done].
Qed.

(** A call of a PTY thread. *)
Lemma going_call k rq c o h ps r :
  pr_procs (Par o h ps) !! k = Some (Call rq c) → going (Duplex (Par o h ps) r) →
  let h' := set_trace ((rq, E (trace h) rq) :: trace h) h in
  beside E logs h0 r h' ∧ (data_only → ReaderLoop.turn_post E virtioso_machine h0 l0 r h').
Proof using Hok.
  intros Hk [Hb Hs Hu]. cbn [dx_par dx_reader pr_host] in *.
  destruct (writers_call E fuel turns ts h0 (Par o h ps) k rq c) as (t & l & Htk & Hm); try done.
  { apply wf_tx_ok; apply Hok. }
  { apply Hok. }
  apply list_elem_of_lookup_2 in Htk. split.
  { apply beside_call; [by destruct rq|done]. }
  intros Hd. specialize (Hu Hd). pose proof Hu as (l1 & new & e & -> & [Hmode Hrd] & _).
  eapply (turn_post_trans E virtioso_machine); [exact Hu|].
  exists l1, [], []. split; [done|]. split; [by apply (im_keep h); [apply stable_sys|]|]. split; [done|].
  pose proof (be_grows _ _ _ _ _ Hb) as Hg.
  destruct (not_read rq) eqn:Hnr.
  2:{ destruct rq; try done. cbn in Hm. subst. apply served_read. rewrite (gr_tty _ _ Hg). by apply channel_tty. }
  apply served_call; [done|]. intros fd d -> i p _ Hp. destruct Hm as [-> _].
  apply (reading_pty E logs h0 Ht h h p); [|by eapply list_elem_of_lookup_2].
  split_and!; [apply Hb|done|done].
Qed.

Lemma going_step s s' : going s → dstep E fuel s s' → going s'.
Proof using Hok.
  intros Hgo Hst. inversion Hst as [k p p' r Ha|o h ps l r h' Hrun]; subst; clear Hst.
  - destruct p as [o h ps].
    assert (Hst : steps E h0 ts (writers fuel turns ts h0) p').
    { eapply rtc_r; [apply Hgo|by eapply pstep_thread]. }
    unfold advance in Ha. cbn [pr_owner pr_host] in Ha.
    destruct (pr_procs (Par o h ps) !! k) as [[| |c|rq c|c|c]|] eqn:Hk; try done.
    + injection Ha as <-. constructor; [apply Hgo|done|apply Hgo].
    + destruct (going_call _ _ _ _ _ _ _ Hk Hgo) as [Hb Hu]. injection Ha as <-. by constructor.
    + destruct o; [done|]. injection Ha as <-. constructor; [apply Hgo|done|apply Hgo].
    + case_bool_decide; [|done]. injection Ha as <-. constructor; [apply Hgo|done|apply Hgo].
  - destruct Hgo as [Hb Hs Hu]. cbn [dx_par dx_reader pr_host] in *.
    pose proof (wp_reader_turn partial l h Hb) as Hw. unfold wp in Hw. rewrite Hrun in Hw. destruct Hw as [Hb' Hby].
    constructor; cbn [dx_par dx_reader pr_host]; [done|by eapply rtc_r; [exact Hs|apply pstep_other]|].
    intros Hd. specialize (Hu Hd). pose proof Hu as (l1 & new & e & [= <-] & Hi & _ & Hsv).
    eapply (turn_post_trans E virtioso_machine); [exact Hu|].
    pose proof (wp_tty_turn E fuel virtioso_machine partial l h Hi) as Hp.
    unfold wp in Hp. rewrite Hrun in Hp. apply Hp. eapply healthy_stable; [apply Hsv|apply Hd].
Qed.

Lemma going_all s : rtc (dstep E fuel) (Duplex (writers fuel turns ts h0) (Some l0)) s → going s.
Proof using Hok.
  revert s. apply rtc_ind_r; [apply going_start|]. intros s s' _ Hst Hg. by eapply going_step.
Qed.

End Runs.

(* ------------------------------------------------------------------ *)
(** ** Lemmas: a concrete run *)

Lemma dschedule_steps E fuel whos s : rtc (dstep E fuel) s (dschedule E fuel whos s).
Proof.
  unfold dschedule. revert s. induction whos as [|who whos IH]; intros s; cbn [foldl]; [done|].
  etrans; [|apply IH]. destruct s as [p r]. unfold dturn. destruct who as [k|].
  - destruct (advance E k p) as [p'|] eqn:Ha; [|done]. by apply rtc_once, dstep_writer with k.
  - destruct r as [l|]; [|done]. destruct (tty_turn E fuel l (pr_host p)) as [r h'|] eqn:Ht; [|done].
    apply rtc_once. destruct p as [o h ps]. by apply dstep_reader.
Qed.

(** The streams of [demo_streams], with two of their threads. *)
Lemma demo_streams_two_ptys :
  run (apply_virtioso_registry_json two_ptys (Some demo_registry))
    (run (main_start two_ptys 1 (demo_options [])) (host_boot (demo_options []))) = demo_streams.
Proof. vm_compute. reflexivity. Qed.

Lemma two_ptys_fds : good_fds two_ptys (λ _, true).
Proof. apply like_good_env_fds. by intros tr []. Qed.

Lemma wp_run {A} (m : HM A) Q h :
  wp partial m Q h → (match m h with Done _ _ => true | Stop _ _ => false end) = true →
  ∃ a, m h = Done a (run m h) ∧ Q a (run m h).
Proof. unfold wp, run. destruct (m h) as [a h'|]; [by exists a|done]. Qed.

Lemma demo_streams_own : own two_ptys (λ _, true) demo_streams.
Proof.
  rewrite <-demo_streams_two_ptys. set (o := demo_options []).
  destruct (wp_run _ _ _ (wp_main_start_fds two_ptys _ two_ptys_fds 1 o eq_refl)) as (z & Hrun & Hs);
    [vm_compute; reflexivity|].
  assert (Hz : (match main_start two_ptys 1 o (host_boot o) with Done z _ => z =? 0 | Stop _ _ => false end) = true)
    by (vm_compute; reflexivity).
  rewrite Hrun in Hz. z_bool.
  destruct (wp_run _ _ _ (preserves_apply_registry two_ptys _ two_ptys_fds (Some demo_registry) _ (Hs Hz)))
    as (z' & _ & Ho); [vm_compute; reflexivity|exact Ho].
Qed.

Lemma demo_streams_tty : tty_fd demo_streams = 9.
Proof. vm_compute. reflexivity. Qed.

(** The threads and the reader by turns. *)
Definition demo_duplex : duplex :=
  dschedule two_ptys 1 (concat (replicate 60 [Some 0; None; Some 1]%nat))
    (Duplex (writers 1 2 two_threads demo_streams) (Some locals_init)).

Example both_ways :
  let h := pr_host (dx_par demo_duplex) in
  forallb final (pr_procs (dx_par demo_duplex)) = true ∧
  accepted (tty_fd demo_streams) (trace h) =
    accepted (tty_fd demo_streams) (trace demo_streams) ++
    frame x01 (bs "ls!") ++ frame x02 [xfe; x0a] ++ frame x01 (bs "ls!") ++ frame x02 [xfe; x0a] ∧
  offered 16 (trace h) = offered 16 (trace demo_streams) ++ concat (replicate 60 (bs "hi")).
Proof. vm_compute. split_and!; reflexivity. Qed.

Lemma demo_duplex_ok : duplex_ok two_ptys (λ _, true) 1 demo_streams locals_init two_threads.
Proof.
  constructor.
  - exact demo_streams_wf.
  - vm_compute. reflexivity.
  - apply demo_tx_ok.
  - exact demo_streams_own.
  - vm_compute. reflexivity.
  - apply demo_streams_ready.
  - exact two_threads_of.
  - intros t Hin. assert (Hl : two_threads = take 2 (drop 3 (pty_data demo_streams))) by (vm_compute; reflexivity).
    rewrite Hl in Hin. apply elem_of_take in Hin as (i & Hi & _). rewrite lookup_drop in Hi. by eapply list_elem_of_lookup_2.
  - exact two_ptys_fds.
  - intros tr n. cbn. discriminate.
  - lia.
  - constructor; intros; cbn; (split; reflexivity) || lia.
  - intros tr. right. split_and!; reflexivity.
  - intros t _ tr. right. split; reflexivity.
Qed.

(* ------------------------------------------------------------------ *)
(** ** Properties *)

(** C12: both directions at once.  Let the PTY threads of a running host take
    their single actions, and the UART's reader its turns, in any order, on a
    UART that works and delivers any bytes at all: frames, registries,
    announcements, noise.  The downlink is then what [writers_deliver] says of
    the threads among themselves: whole writes, each the encoding of a chunk,
    nothing lost, nobody stopped, nobody blocked for good.  The stream table
    stays well formed, every channel keeps its own descriptor, and a turn of
    the reader always comes to its end.  And while no control record arrives,
    the PTYs are offered exactly what the routing machine makes of the bytes
    read, no matter what the PTY threads do meanwhile.  (The threads of
    channels that are added meanwhile have not yet run.) *)
Theorem duplex_runs E logs fuel turns h l ts s :
  duplex_ok E logs fuel h l ts →
  rtc (dstep E fuel) (Duplex (writers fuel turns ts h) (Some l)) s →
  let p := dx_par s in
  (written h ts p ∧ (∀ k w, pr_procs p !! k ≠ Some (Halt w)) ∧
   ((∃ k p', advance E k p = Some p') ∨ forallb final (pr_procs p) = true)) ∧
  (grows h (pr_host p) ∧ own E logs (pr_host p)) ∧
  (∀ l', dx_reader s = Some l' → ∃ r h', tty_turn E fuel l' (pr_host p) = Done r h') ∧
  (data_only E h l → uplink h l (dx_reader s) (pr_host p)).
Proof.
  intros Hok Hr. cbv zeta. destruct (going_all E logs fuel turns h l ts Hok s Hr) as [Hb Hs Hu].
  split; [|split; [by destruct Hb|split]].
  - apply (writers_work E fuel turns); [apply wf_tx_ok; apply Hok|apply Hok..|exact Hs].
  - intros l' Hl. rewrite Hl in Hb. pose proof (wp_reader_turn E logs fuel h l ts Hok Prelude.total l' _ Hb) as Hw.
    destruct (wp_total_done _ _ _ Hw) as (r & h' & Hrun & _). by exists r, h'.
  - intros Hd. destruct (Hu Hd) as (l1 & new & e & -> & _ & Hrun & Hsv). by exists l1, new, e.
Qed.

Lemma duplex_runs_witness :
  let p := dx_par demo_duplex in
  (written demo_streams two_threads p ∧ (∀ k w, pr_procs p !! k ≠ Some (Halt w)) ∧
   ((∃ k p', advance two_ptys k p = Some p') ∨ forallb final (pr_procs p) = true)) ∧
  (grows demo_streams (pr_host p) ∧ own two_ptys (λ _, true) (pr_host p)) ∧
  (∀ l', dx_reader demo_duplex = Some l' → ∃ r h', tty_turn two_ptys 1 l' (pr_host p) = Done r h') ∧
  uplink demo_streams locals_init (dx_reader demo_duplex) (pr_host p).
Proof.
  pose proof (duplex_runs two_ptys (λ _, true) 1 2 demo_streams locals_init two_threads demo_duplex demo_duplex_ok
    (dschedule_steps _ _ _ _)) as (H1 & H2 & H3 & H4).
  split; [exact H1|split; [exact H2|split; [exact H3|]]]. apply H4. split; [|reflexivity].
  constructor.
  - intros tr. right. split_and!; reflexivity.
  - intros tr n. rewrite demo_streams_tty.
    split; [vm_compute; discriminate|repeat constructor; vm_compute; discriminate].
  - intros Hlog tr d. vm_compute in Hlog. by destruct Hlog.
  - intros Hlog. vm_compute in Hlog. by destruct Hlog.
Defined.
