(* ===== verification/Sinks.v ===== *)
(** * The batch sinks: what they share

    [sel4/PassthruSink/src/console_passthrough_sink.c],
    [sel4/DebugSink/src/console_debug_batch_sink.c] and
    [sel4/NullSink/src/console_null_batch_sink.c] drain a client's dataport to
    the serial port, to the kernel's debug console or to nowhere.  The
    dataport and the loop over it are the same in the first two. *)

From S2P Require Import Prelude.

(** [sizeof(batch->buf)]. *)
Definition SINK_BATCH_SIZE : Z := 4096 - 8.

(** The dataport of a client, the same structure in the three components. *)
Record sink_batch : Type := SinkBatch { sb_head : Z; sb_tail : Z; sb_buf : list byte }.

Definition set_sb_head (v : Z) (b : sink_batch) : sink_batch := SinkBatch v (sb_tail b) (sb_buf b).

(** A dataport the servers refuse. *)
Definition bad_indices (b : sink_batch) : bool :=
  (sb_tail b <? sb_head b) || (SINK_BATCH_SIZE <? sb_tail b).

(** [while (head < tail) { put(buf[head]); head++; }], the dataport being
    updated at each turn; [n] is the number of turns. *)
Fixpoint drain_batch {S : Type} (put : byte → M S unit) (n : nat) (b : sink_batch)
    : M S sink_batch :=
  match n with
  | O => ret b
  | S n' =>
      ch <- arr_get (sb_buf b) (sb_head b) ;;
      put ch ;;;
      drain_batch put n' (set_sb_head (u32 (sb_head b + 1)) b)
  end.

Definition drain_turns (b : sink_batch) : nat := Z.to_nat (sb_tail b - sb_head b).
