(* ===== verification/PassthruSink.v ===== *)
(** * The passthrough sink

    [sel4/PassthruSink/src/console_passthrough_sink.c].  Its two build options
    are parameters, as are the cycle counter and, in the state, whether the
    serial port is there. *)

From S2P Require Import Prelude CString Sinks.

Definition CONSOLE_SINK_RPC_REPORT_INTERVAL : Z := 16.

Record state : Type := State {
  calls : Z;
  payload : Z;
  cycles : Z;
  serial : bool;
  out : list byte;
  debug : list byte;
  clock : nat
}.

Definition set_out (v : list byte) (s : state) : state :=
  State (calls s) (payload s) (cycles s) (serial s) v (debug s) (clock s).
Definition set_debug (v : list byte) (s : state) : state :=
  State (calls s) (payload s) (cycles s) (serial s) (out s) v (clock s).
Definition set_stats (c p y : Z) (s : state) : state :=
  State c p y (serial s) (out s) (debug s) (clock s).
Definition set_clock (v : nat) (s : state) : state :=
  State (calls s) (payload s) (cycles s) (serial s) (out s) (debug s) v.

(** After [pre_init]. *)
Definition state_init : state := State 0 0 0 true [] [] 0.

Section Passthru.
Context (rdtsc_pure : nat → Z) (CONSOLE_SINK_RPC_REPORTS CONSOLE_SINK_DROP_OUTPUT : bool).

Definition console_sink_cycles_now : M state Z :=
  s <- get ;;
  modify (set_clock (S (clock s))) ;;;
  ret (rdtsc_pure (clock s)).

Definition sink_putchar (c : byte) : M state unit :=
  if CONSOLE_SINK_DROP_OUTPUT then ret tt
  else
    s <- get ;;
    if serial s then modify (set_out (out s ++ [c])) else ret tt.

Definition processed_putchar_putchar (c : byte) : M state unit :=
  (if bool_decide (c = x0a) then sink_putchar x0d else ret tt) ;;;
  sink_putchar c.

Definition raw_putchar_putchar (c : byte) : M state unit := sink_putchar c.

Definition console_sink_debug_puts (str : list byte) : M state unit :=
  for_each str (λ c, modify (λ s, set_debug (debug s ++ [c]) s)).

(** The line the report prints, in a buffer of 192 bytes. *)
Definition report_line (s : state) : list byte :=
  snprintf 192 (
    [x0a] ++ bs "[rpcprof] sink srv_calls=" ++ fmt_u (calls s) ++
    bs " srv_bytes=" ++ fmt_u (payload s) ++ bs " srv_cyc=" ++ fmt_u (cycles s) ++
    bs " srv_avg=" ++ fmt_u (if calls s =? 0 then 0 else cycles s / calls s) ++ [x0a]).

Definition console_sink_report_rpc_stats : M state unit :=
  s <- get ;; console_sink_debug_puts (report_line s).

Definition raw_batch_batch (port : option sink_batch) : M state (option sink_batch) :=
  match port with
  | None => ret None
  | Some batch =>
      if bad_indices batch then ret (Some (SinkBatch 0 0 (sb_buf batch)))
      else
        start <- console_sink_cycles_now ;;
        let payload_bytes := Z.of_nat (drain_turns batch) in
        batch <- drain_batch sink_putchar (drain_turns batch) batch ;;
        (if negb (payload_bytes =? 0) then
           modify (λ s, set_stats (u64 (calls s + 1)) (payload s) (cycles s) s) ;;;
           modify (λ s, set_stats (calls s) (u64 (payload s + payload_bytes)) (cycles s) s) ;;;
           now <- console_sink_cycles_now ;;
           modify (λ s, set_stats (calls s) (payload s) (u64 (cycles s + u64 (now - start))) s) ;;;
           s <- get ;;
           if CONSOLE_SINK_RPC_REPORTS && (calls s mod CONSOLE_SINK_RPC_REPORT_INTERVAL =? 0)
           then console_sink_report_rpc_stats else ret tt
         else ret tt) ;;;
        ret (Some batch)
  end.

End Passthru.
