(* ===== verification/DebugSink.v ===== *)
(** * The debug sink

    [sel4/DebugSink/src/console_debug_batch_sink.c]. *)

From S2P Require Import Prelude Sinks.

(** The state is the kernel's debug console. *)
Definition seL4_DebugPutChar (c : byte) : M (list byte) unit := modify (λ out, out ++ [c]).

Definition raw_batch_batch (port : option sink_batch) : M (list byte) (option sink_batch) :=
  match port with
  | None => ret None
  | Some batch =>
      if bad_indices batch then ret (Some (SinkBatch 0 0 (sb_buf batch)))
      else batch <- drain_batch seL4_DebugPutChar (drain_turns batch) batch ;; ret (Some batch)
  end.
