(* ===== verification/NullSink.v ===== *)
(** * The null sink

    [sel4/NullSink/src/console_null_batch_sink.c]. *)

From S2P Require Import Prelude Sinks.

Definition raw_batch_batch (port : option sink_batch) : M unit (option sink_batch) :=
  match port with
  | None => ret None
  | Some batch => ret (Some (set_sb_head (sb_tail batch) batch))
  end.
