(* ===== verification/SinksSpec.v ===== *)
(** * What the batch sinks guarantee

    Whatever a client left in its dataport, a sink neither reads outside it
    nor loops; it drains a well-formed batch completely and in order. *)

From S2P Require Import Prelude CString Sinks PassthruSink DebugSink NullSink.

(** The fields as the C types bound them. *)
Record sink_typed (b : sink_batch) : Prop := SinkTyped {
  st_head : 0 ≤ sb_head b < 2 ^ 32;
  st_last : 0 ≤ sb_tail b < 2 ^ 32;
  st_buf : Z.of_nat (length (sb_buf b)) = SINK_BATCH_SIZE
}.

(** The bytes waiting in a batch. *)
Definition sink_payload (b : sink_batch) : list byte :=
  take (drain_turns b) (drop (Z.to_nat (sb_head b)) (sb_buf b)).

(** A computation that writes one byte to an output of its state. *)
Definition puts {St} (put : byte → M St unit) (emit : list byte → St → St) : Prop :=
  (∀ s, emit [] s = s) ∧
  (∀ a b s, emit b (emit a s) = emit (a ++ b) s) ∧
  ∀ c s, put c s = Done tt (emit [c] s).

Definition demo_sink_batch (head : Z) (l : list byte) : sink_batch :=
  let buf := replicate (Z.to_nat head) x00 ++ l in
  SinkBatch head (head + Z.of_nat (length l))
    (buf ++ replicate (Z.to_nat SINK_BATCH_SIZE - length buf) x00).

(* ------------------------------------------------------------------ *)
(** ** Lemmas *)

Lemma drain_batch_run {St} (put : byte → M St unit) emit n b s :
  puts put emit → 0 ≤ sb_head b →
  sb_head b + Z.of_nat n ≤ Z.of_nat (length (sb_buf b)) → Z.of_nat (length (sb_buf b)) < 2 ^ 32 →
  drain_batch put n b s =
  Done (set_sb_head (sb_head b + Z.of_nat n) b)
    (emit (take n (drop (Z.to_nat (sb_head b)) (sb_buf b))) s).
Proof.
  intros (H0 & Happ & Hput) . revert b s. induction n as [|n IH]; intros b s Hh Hn Hb; cbn [drain_batch].
  { rewrite take_0, H0. unfold set_sb_head. rewrite Z.add_0_r. by destruct b. }
  destruct (lookup_lt_is_Some_2 (sb_buf b) (Z.to_nat (sb_head b))) as [c Hc]; [lia|].
  rewrite (run_bind _ _ _ _ _ (arr_get_run _ _ _ s Hh Hc)).
  rewrite (run_bind _ _ _ _ _ (Hput c s)).
  unfold u32. rewrite Z.mod_small by lia.
  rewrite IH by (cbn; lia). cbn [sb_head sb_buf sb_tail set_sb_head]. rewrite Happ.
  rewrite (drop_S _ _ _ Hc). replace (Z.to_nat (sb_head b + 1)) with (S (Z.to_nat (sb_head b))) by lia.
  unfold set_sb_head. cbn [take sb_tail sb_buf app]. do 2 f_equal. lia.
Qed.

Lemma good_drain {St} (put : byte → M St unit) emit b s :
  puts put emit → sink_typed b → bad_indices b = false →
  drain_batch put (drain_turns b) b s = Done (set_sb_head (sb_tail b) b) (emit (sink_payload b) s).
Proof.
  intros Hp [Hh Ht Hb] Hg. unfold bad_indices in Hg. z_bool. unfold SINK_BATCH_SIZE in *.
  unfold drain_turns. rewrite (drain_batch_run put emit) by (done || lia).
  unfold sink_payload, drain_turns. do 2 f_equal. lia.
Qed.

Lemma good_payload_length b :
  sink_typed b → bad_indices b = false →
  Z.of_nat (length (sink_payload b)) = sb_tail b - sb_head b.
Proof.
  intros [Hh Ht Hb] Hg. unfold bad_indices in Hg. z_bool. unfold sink_payload, drain_turns.
  rewrite length_take, length_drop. lia.
Qed.

(** The serial output of the passthrough sink. *)
Definition serial_out (drop_output : bool) (l : list byte) (s : PassthruSink.state) : PassthruSink.state :=
  if drop_output then s
  else if PassthruSink.serial s then PassthruSink.set_out (PassthruSink.out s ++ l) s else s.

Lemma sink_putchar_puts drop_output : puts (PassthruSink.sink_putchar drop_output) (serial_out drop_output).
Proof.
  unfold PassthruSink.sink_putchar, serial_out. destruct drop_output; [done|]. split_and!.
  - intros s. destruct (PassthruSink.serial s); [|done]. rewrite app_nil_r. by destruct s.
  - intros a b s. destruct (PassthruSink.serial s) eqn:Hs; cbn; rewrite Hs; [|done].
    unfold PassthruSink.set_out. cbn. by rewrite app_assoc.
  - intros c s. unfold bind, get, modify, ret. by destruct (PassthruSink.serial s).
Qed.

Lemma debug_puts : puts DebugSink.seL4_DebugPutChar (λ l out, out ++ l).
Proof.
  split_and!; [intros; apply app_nil_r|intros; by rewrite app_assoc|done].
Qed.

Lemma cycles_now_run tsc s :
  PassthruSink.console_sink_cycles_now tsc s =
  Done (tsc (PassthruSink.clock s)) (PassthruSink.set_clock (S (PassthruSink.clock s)) s).
Proof. done. Qed.

Lemma debug_line_run l s :
  PassthruSink.console_sink_debug_puts l s = Done tt (PassthruSink.set_debug (PassthruSink.debug s ++ l) s).
Proof.
  revert s. induction l as [|c l IH]; intros s.
  - unfold PassthruSink.console_sink_debug_puts. cbn. rewrite app_nil_r. by destruct s.
  - unfold PassthruSink.console_sink_debug_puts in *. cbn [for_each]. unfold bind, modify.
    rewrite IH. unfold PassthruSink.set_debug. cbn. by rewrite <-app_assoc.
Qed.

(** What the passthrough sink does to a well-formed batch. *)
Definition passthru_post (drop_output : bool) (b : sink_batch) (s : PassthruSink.state)
    (p : option sink_batch) (s' : PassthruSink.state) : Prop :=
  p = Some (set_sb_head (sb_tail b) b) ∧
  PassthruSink.out s' = PassthruSink.out s ++
    (if negb drop_output && PassthruSink.serial s then sink_payload b else []) ∧
  PassthruSink.serial s' = PassthruSink.serial s ∧
  if sb_head b =? sb_tail b
  then PassthruSink.calls s' = PassthruSink.calls s ∧ PassthruSink.payload s' = PassthruSink.payload s
  else PassthruSink.calls s' = u64 (PassthruSink.calls s + 1) ∧
       PassthruSink.payload s' = u64 (PassthruSink.payload s + (sb_tail b - sb_head b)).

Lemma wp_report ok b s :
  wp ok (if b : bool then PassthruSink.console_sink_report_rpc_stats else ret tt)
    (λ _ s', ∃ l, s' = PassthruSink.set_debug (PassthruSink.debug s ++ l) s) s.
Proof.
  destruct b; [|wp_step; exists []; rewrite app_nil_r; by destruct s].
  unfold PassthruSink.console_sink_report_rpc_stats. do 2 wp_step.
  unfold wp. rewrite debug_line_run. by eexists.
Qed.

Lemma wp_passthru ok tsc reports drop_output b s :
  sink_typed b → bad_indices b = false →
  wp ok (PassthruSink.raw_batch_batch tsc reports drop_output (Some b)) (passthru_post drop_output b s) s.
Proof.
  intros Hb Hg. unfold PassthruSink.raw_batch_batch. rewrite Hg.
  eapply wp_bind_run; [apply cycles_now_run|]. set (s1 := PassthruSink.set_clock _ s). cbv zeta.
  eapply wp_bind_run; [by apply (good_drain _ _ b s1 (sink_putchar_puts drop_output))|].
  assert (Hturns : Z.of_nat (drain_turns b) = sb_tail b - sb_head b).
  { unfold bad_indices in Hg. z_bool. unfold drain_turns. lia. }
  rewrite Hturns. set (s2 := serial_out drop_output (sink_payload b) s1).
  assert (Hs2 : PassthruSink.out s2 = PassthruSink.out s ++
      (if negb drop_output && PassthruSink.serial s then sink_payload b else []) ∧
    PassthruSink.serial s2 = PassthruSink.serial s ∧ PassthruSink.calls s2 = PassthruSink.calls s ∧
    PassthruSink.payload s2 = PassthruSink.payload s).
  { unfold s2, serial_out, s1. destruct drop_output; cbn; [by rewrite app_nil_r|].
    destruct (PassthruSink.serial s) eqn:Hs; cbn; by rewrite ?Hs, ?app_nil_r. }
  destruct Hs2 as (Ho & Hser & Hc & Hp). unfold passthru_post.
  destruct (sb_head b =? sb_tail b) eqn:He; z_bool.
  - rewrite (proj2 (Z.eqb_eq _ 0)) by lia. cbn [negb]. wp_steps. done.
  - rewrite (proj2 (Z.eqb_neq _ 0)) by lia. cbn [negb]. do 5 wp_step.
    eapply wp_bind_run; [apply cycles_now_run|]. do 4 wp_step.
    eapply wp_mono; [apply wp_report|]. intros _ s' [l ->]. wp_step.
    cbn. by rewrite Ho, Hser, Hc, Hp.
Qed.

(* ------------------------------------------------------------------ *)
(** ** Properties *)

(** C35: the passthrough sink on any dataport.  For all head and tail values,
    valid or not, and every build option, the call finishes without reading
    outside the dataport.  Indices out of range are reset and nothing is sent;
    otherwise the serial port receives exactly the waiting bytes in order,
    the batch is empty afterwards, and the statistics count one call and its
    bytes, unless there were none. *)
Theorem passthru_drains tsc reports drop_output b s :
  sink_typed b →
  ∃ b' s', PassthruSink.raw_batch_batch tsc reports drop_output (Some b) s = Done (Some b') s' ∧
    if bad_indices b then b' = SinkBatch 0 0 (sb_buf b) ∧ s' = s
    else b' = set_sb_head (sb_tail b) b ∧
      PassthruSink.out s' = PassthruSink.out s ++
        (if negb drop_output && PassthruSink.serial s then sink_payload b else []) ∧
      PassthruSink.serial s' = PassthruSink.serial s ∧
      (if sb_head b =? sb_tail b
       then PassthruSink.calls s' = PassthruSink.calls s ∧ PassthruSink.payload s' = PassthruSink.payload s
       else PassthruSink.calls s' = u64 (PassthruSink.calls s + 1) ∧
            PassthruSink.payload s' = u64 (PassthruSink.payload s + (sb_tail b - sb_head b))).
Proof.
  intros Hb. destruct (bad_indices b) eqn:Hg.
  { exists (SinkBatch 0 0 (sb_buf b)), s. unfold PassthruSink.raw_batch_batch. by rewrite Hg. }
  destruct (wp_total_done _ _ _ (wp_passthru total tsc reports drop_output b s Hb Hg))
    as (p & s' & Hrun & -> & Hp). by exists (set_sb_head (sb_tail b) b), s'.
Qed.

(** C35 with the 16th call, which prints the report. *)
Lemma passthru_drains_witness :
  let s := PassthruSink.State 15 100 0 true (bs "> ") [] 0 in
  let b := demo_sink_batch 4080 (bs "end") in
  ∃ b' s', PassthruSink.raw_batch_batch (λ n, Z.of_nat n) true false (Some b) s = Done (Some b') s' ∧
    if bad_indices b then b' = SinkBatch 0 0 (sb_buf b) ∧ s' = s
    else b' = set_sb_head (sb_tail b) b ∧
      PassthruSink.out s' = PassthruSink.out s ++
        (if negb false && PassthruSink.serial s then sink_payload b else []) ∧
      PassthruSink.serial s' = PassthruSink.serial s ∧
      (if sb_head b =? sb_tail b
       then PassthruSink.calls s' = PassthruSink.calls s ∧ PassthruSink.payload s' = PassthruSink.payload s
       else PassthruSink.calls s' = u64 (PassthruSink.calls s + 1) ∧
            PassthruSink.payload s' = u64 (PassthruSink.payload s + (sb_tail b - sb_head b))).
Proof.
  intros s b. apply (passthru_drains (λ n, Z.of_nat n) true false b s).
  constructor; vm_compute; intuition congruence.
Defined.

(** C36: the debug sink prints the same bytes that the passthrough sink sends,
    and the null sink leaves the client's dataport as both of them do: for a
    well-formed batch the three servers are indistinguishable to the client. *)
Theorem sinks_agree tsc reports b s console :
  sink_typed b → bad_indices b = false → PassthruSink.serial s = true →
  ∃ s' sent,
    PassthruSink.raw_batch_batch tsc reports false (Some b) s = Done (Some (set_sb_head (sb_tail b) b)) s' ∧
    PassthruSink.out s' = PassthruSink.out s ++ sent ∧
    DebugSink.raw_batch_batch (Some b) console =
      Done (Some (set_sb_head (sb_tail b) b)) (console ++ sent) ∧
    NullSink.raw_batch_batch (Some b) tt = Done (Some (set_sb_head (sb_tail b) b)) tt ∧
    Z.of_nat (length sent) = sb_tail b - sb_head b.
Proof.
  intros Hb Hg Hs. destruct (wp_total_done _ _ _ (wp_passthru total tsc reports false b s Hb Hg))
    as (p & s' & Hrun & -> & Ho & _). rewrite Hs in Ho.
  exists s', (sink_payload b). split_and!; try done.
  - unfold DebugSink.raw_batch_batch. rewrite Hg.
    by rewrite (run_bind _ _ _ _ _ (good_drain _ _ b console debug_puts Hb Hg)).
  - by apply good_payload_length.
Qed.

Lemma sinks_agree_witness :
  let b := demo_sink_batch 9 (bs "hello") in
  ∃ s' sent,
    PassthruSink.raw_batch_batch (λ n, Z.of_nat n) false false (Some b) PassthruSink.state_init =
      Done (Some (set_sb_head (sb_tail b) b)) s' ∧
    PassthruSink.out s' = PassthruSink.out PassthruSink.state_init ++ sent ∧
    DebugSink.raw_batch_batch (Some b) [] = Done (Some (set_sb_head (sb_tail b) b)) ([] ++ sent) ∧
    NullSink.raw_batch_batch (Some b) tt = Done (Some (set_sb_head (sb_tail b) b)) tt ∧
    Z.of_nat (length sent) = sb_tail b - sb_head b.
Proof.
  intros b. apply (sinks_agree (λ n, Z.of_nat n) false b PassthruSink.state_init []);
    [constructor; vm_compute; intuition congruence|vm_compute; reflexivity|reflexivity].
Defined.
