(* ===== verification/GuestSink.v ===== *)
(** * The guest console sink

    [sel4/GuestSink/src/guest_console_sink.c]: a client of the Mux that
    collects a guest's characters in its dataport and flushes them with the
    [mux_batch] RPC.  The server behind the RPC, the stream id of the instance
    and the cycle counter are parameters, as are the two build options. *)

From S2P Require Import Prelude CString Mux.

Definition GUEST_CONSOLE_SINK_FLUSH_THRESHOLD : Z := 1024.

(** The dataport ([None] when it is not mapped) and the statics. *)
Record gsink : Type := GSink {
  gs_port : option batch_buffer;
  gs_calls : Z;
  gs_payload : Z;
  gs_cycles : Z;
  gs_debug_marked : bool;
  gs_debug : list byte;
  gs_clock : nat
}.

Definition set_gs_port (v : option batch_buffer) (g : gsink) : gsink :=
  GSink v (gs_calls g) (gs_payload g) (gs_cycles g) (gs_debug_marked g) (gs_debug g) (gs_clock g).
Definition set_gs_calls (v : Z) (g : gsink) : gsink :=
  GSink (gs_port g) v (gs_payload g) (gs_cycles g) (gs_debug_marked g) (gs_debug g) (gs_clock g).
Definition set_gs_payload (v : Z) (g : gsink) : gsink :=
  GSink (gs_port g) (gs_calls g) v (gs_cycles g) (gs_debug_marked g) (gs_debug g) (gs_clock g).
Definition set_gs_cycles (v : Z) (g : gsink) : gsink :=
  GSink (gs_port g) (gs_calls g) (gs_payload g) v (gs_debug_marked g) (gs_debug g) (gs_clock g).
Definition set_gs_debug_marked (v : bool) (g : gsink) : gsink :=
  GSink (gs_port g) (gs_calls g) (gs_payload g) (gs_cycles g) v (gs_debug g) (gs_clock g).
Definition set_gs_debug (v : list byte) (g : gsink) : gsink :=
  GSink (gs_port g) (gs_calls g) (gs_payload g) (gs_cycles g) (gs_debug_marked g) v (gs_clock g).
Definition set_gs_clock (v : nat) (g : gsink) : gsink :=
  GSink (gs_port g) (gs_calls g) (gs_payload g) (gs_cycles g) (gs_debug_marked g) (gs_debug g) v.

Definition gsink_init (port : option batch_buffer) : gsink := GSink port 0 0 0 false [] 0.

(** A refused dataport. *)
Definition bad_batch (b : batch_buffer) : bool :=
  (bb_tail b <? bb_head b) || (BATCH_SIZE <? bb_tail b).

Section GuestSink.
Context {W : Type} (mux_batch : option batch_buffer → M W (option batch_buffer)).
Context (stream_id : Z) (cycles : nat → Z).
Context (RPC_REPORTS DEBUGPUTCHAR_REPORTS : bool).

(** The component next to the server's state. *)
Definition GM (A : Type) : Type := M (gsink * W) A.

Definition upd (f : gsink → gsink) : GM unit := modify (λ s, (f s.1, s.2)).

Definition GUEST_CONSOLE_SINK_RPC_REPORT_INTERVAL : Z := if DEBUGPUTCHAR_REPORTS then 1 else 16.

Definition guest_console_sink_cycles_now : GM Z :=
  s <- get ;;
  upd (set_gs_clock (S (gs_clock s.1))) ;;;
  ret (cycles (gs_clock s.1)).

(** [*batch], and storing it. *)
Definition load : GM batch_buffer :=
  s <- get ;; match gs_port s.1 with Some b => ret b | None => halt Undefined end.
Definition store (b : batch_buffer) : GM unit := upd (set_gs_port (Some b)).

(** The RPC: the server works on the shared dataport. *)
Definition mux_batch_batch : GM unit := λ s,
  match mux_batch (gs_port s.1) s.2 with
  | Done p w => Done tt (set_gs_port p s.1, w)
  | Stop e w => Stop e (s.1, w)
  end.

Definition guest_console_sink_reset : GM unit :=
  b <- load ;; store (BatchBuffer (u32 stream_id) 0 0 (bb_buf b)).

Definition guest_console_sink_append_byte (byte : byte) : GM Z :=
  b <- load ;;
  if BATCH_SIZE <=? bb_tail b then ret (-1)
  else
    buf <- arr_set (bb_buf b) (bb_tail b) byte ;;
    store (BatchBuffer (bb_stream_id b) (bb_head b) (u32 (bb_tail b + 1)) buf) ;;;
    ret 0.

(** [seL4_DebugPutChar] *)
Definition debug_put (c : byte) : GM unit := upd (λ g, set_gs_debug (gs_debug g ++ [c]) g).

Section Flush.
Context (guest_console_sink_flush : GM unit).

Definition append_or_flush (byte : byte) : GM unit :=
  r <- guest_console_sink_append_byte byte ;;
  if r =? 0 then ret tt
  else guest_console_sink_flush ;;; guest_console_sink_append_byte byte ;;; ret tt.

Definition guest_console_sink_emit_report_line (line : list byte) : GM unit :=
  if DEBUGPUTCHAR_REPORTS then for_each line debug_put
  else for_each line append_or_flush ;;; guest_console_sink_flush.

Definition rpc_report (g : gsink) : list byte :=
  let per (n : Z) := fmt_u (if n =? 0 then 0 else gs_cycles g / n) in
  snprintf 160 (
    [x0a] ++ bs "[rpcprof] gcs caller calls=" ++ fmt_u (gs_calls g) ++
    bs " payload=" ++ fmt_u (gs_payload g) ++ bs " cyc=" ++ fmt_u (gs_cycles g) ++
    bs " avg_call=" ++ per (gs_calls g) ++ bs " avg_byte=" ++ per (gs_payload g) ++ [x0a]).

Definition guest_console_sink_report_rpc_stats : GM unit :=
  s <- get ;; guest_console_sink_emit_report_line (rpc_report s.1).

End Flush.

(** [guest_console_sink_flush]: its report may flush again, so it takes fuel. *)
Fixpoint guest_console_sink_flush (fuel : nat) : GM unit :=
  match fuel with
  | O => halt OutOfFuel
  | S n =>
      s <- get ;;
      match gs_port s.1 with
      | None => ret tt
      | Some batch =>
          if bb_head batch =? bb_tail batch then ret tt
          else if bad_batch batch then guest_console_sink_reset
          else
            let payload_bytes := u32 (bb_tail batch - bb_head batch) in
            start <- guest_console_sink_cycles_now ;;
            mux_batch_batch ;;;
            upd (λ g, set_gs_calls (u64 (gs_calls g + 1)) g) ;;;
            upd (λ g, set_gs_payload (u64 (gs_payload g + payload_bytes)) g) ;;;
            now <- guest_console_sink_cycles_now ;;
            upd (λ g, set_gs_cycles (u64 (gs_cycles g + u64 (now - start))) g) ;;;
            s <- get ;;
            (if RPC_REPORTS && (gs_calls s.1 mod GUEST_CONSOLE_SINK_RPC_REPORT_INTERVAL =? 0)
             then guest_console_sink_report_rpc_stats (guest_console_sink_flush n)
             else ret tt) ;;;
            guest_console_sink_reset
      end
  end.

(** The characters that end a batch. *)
Definition flush_char (c : byte) : bool :=
  bool_decide (c = x0a) || bool_decide (c = x0d) || bool_decide (c = x3a).

Definition guest_console_sink_emit_byte (fuel : nat) (byte : byte) : GM unit :=
  s <- get ;;
  match gs_port s.1 with
  | None => ret tt
  | Some batch =>
      (if bad_batch batch then guest_console_sink_reset else ret tt) ;;;
      batch <- load ;;
      (if negb (s32 (bb_stream_id batch) =? stream_id) then guest_console_sink_reset
       else ret tt) ;;;
      append_or_flush (guest_console_sink_flush fuel) byte ;;;
      batch <- load ;;
      if flush_char byte || (GUEST_CONSOLE_SINK_FLUSH_THRESHOLD <=? bb_tail batch)
      then guest_console_sink_flush fuel else ret tt
  end.

Definition guest_putchar_putchar (fuel : nat) (c : Z) : GM unit :=
  s <- get ;;
  (if DEBUGPUTCHAR_REPORTS && negb (gs_debug_marked s.1) then
     upd (set_gs_debug_marked true) ;;;
     for_each ([x0a] ++ bs "[gcs first-call]" ++ [x0a]) debug_put
   else ret tt) ;;;
  guest_console_sink_emit_byte fuel (z2b c).

End GuestSink.
