(* ===== verification/GuestInv.v ===== *)
(** * The guest sink against any batch server

    The sink is verified against an interface: a server that accepts every
    batch whose indices lie in its buffer.  Whatever the guest prints is
    either pending in the dataport or was handed over, once and in order. *)

From S2P Require Import Prelude CString Mux MuxUplink MuxBatch GuestSink.

(** What a client may rely on, and what it must respect. *)
Class batch_server {W : Type} (mux_batch : option batch_buffer → M W (option batch_buffer))
    (inv : W → Prop) : Prop :=
  serves w b : inv w → batch_typed b → bb_head b ≤ bb_tail b ≤ BATCH_SIZE →
    ∃ b' w', mux_batch (Some b) w = Done (Some b') w' ∧ inv w' ∧ batch_typed b'.

(** From [w] to [w'] the server was called with these batches. *)
Inductive calls {W : Type} (mux_batch : option batch_buffer → M W (option batch_buffer))
    : W → list batch_buffer → W → Prop :=
| calls_nil w : calls mux_batch w [] w
| calls_cons w b b' w1 bs w' :
    mux_batch (Some b) w = Done (Some b') w1 → calls mux_batch w1 bs w' →
    calls mux_batch w (b :: bs) w'.

(** A batch of a stream, not empty, inside its buffer. *)
Record batch_of (sid : Z) (b : batch_buffer) : Prop := BatchOf {
  bo_typed : batch_typed b;
  bo_id : bb_stream_id b = u32 sid;
  bo_range : bb_head b < bb_tail b ≤ BATCH_SIZE
}.

(** The dataport between two characters. *)
Record port_ok (sid : Z) (b : batch_buffer) : Prop := PortOk {
  po_typed : batch_typed b;
  po_id : bb_stream_id b = u32 sid;
  po_range : bb_head b ≤ bb_tail b ≤ BATCH_SIZE;
  po_room : bb_head b = bb_tail b → bb_tail b < BATCH_SIZE
}.

(** What the first character finds worth keeping in a dataport. *)
Definition kept (sid : Z) (b : batch_buffer) : list byte :=
  if bad_batch b || negb (s32 (bb_stream_id b) =? sid) then [] else batch_payload b.

(** The dataport it may find: anything but an exhausted batch of the stream. *)
Record start_ok (sid : Z) (b : batch_buffer) : Prop := StartOk {
  so_typed : batch_typed b;
  so_room : bb_head b = bb_tail b → bb_tail b < BATCH_SIZE
}.

(** From [s] to [s'] the guest printed [l]; [old] was pending before. *)
Definition printed {W : Type} (mux_batch : option batch_buffer → M W (option batch_buffer))
    (sid : Z) (old l : list byte) (s s' : gsink * W) : Prop :=
  ∃ bs b', calls mux_batch s.2 bs s'.2 ∧ Forall (batch_of sid) bs ∧
    gs_port s'.1 = Some b' ∧ port_ok sid b' ∧
    concat (map batch_payload bs) ++ batch_payload b' = old ++ l.

(* ------------------------------------------------------------------ *)
(** ** Lemmas *)

Lemma calls_app {W} (rpc : option batch_buffer → M W (option batch_buffer)) w1 a w2 b w3 :
  calls rpc w1 a w2 → calls rpc w2 b w3 → calls rpc w1 (a ++ b) w3.
Proof. intros H1 H2. induction H1; [done|]. cbn. econstructor; eauto. Qed.

Lemma u32_s32 z : 0 ≤ z < 2 ^ 32 → u32 (s32 z) = z.
Proof.
  intros Hz. unfold u32, s32. rewrite Zminus_mod_idemp_l, Z.add_simpl_r. by apply Z.mod_small.
Qed.

Lemma payload_empty b : bb_head b = bb_tail b → batch_payload b = [].
Proof. intros Hb. unfold batch_payload, slice. by rewrite Hb, Z.sub_diag, take_0. Qed.

Lemma port_ok_start sid b : port_ok sid b → start_ok sid b.
Proof. intros []. by constructor. Qed.

Lemma port_ok_good sid b : port_ok sid b → bad_batch b = false.
Proof.
  intros [_ _ Hr _]. unfold bad_batch. apply orb_false_intro; apply Z.ltb_ge; lia.
Qed.

Lemma s32_u32 sid : - 2 ^ 31 ≤ sid < 2 ^ 31 → s32 (u32 sid) = sid.
Proof.
  intros Hs. unfold s32, u32. rewrite Zplus_mod_idemp_l, Z.mod_small; lia.
Qed.

Lemma port_ok_kept sid b :
  - 2 ^ 31 ≤ sid < 2 ^ 31 → port_ok sid b → kept sid b = batch_payload b.
Proof.
  intros Hs Hp. unfold kept. rewrite (port_ok_good sid b Hp), (po_id _ _ Hp), s32_u32 by done.
  by rewrite Z.eqb_refl.
Qed.

(** Appending a byte to the batch. *)
Lemma append_payload b c :
  batch_typed b → bb_head b ≤ bb_tail b < BATCH_SIZE →
  batch_payload (BatchBuffer (bb_stream_id b) (bb_head b) (u32 (bb_tail b + 1))
    (<[Z.to_nat (bb_tail b) := c]> (bb_buf b))) = batch_payload b ++ [c].
Proof.
  intros [_ [Hh _] _ Hb] Hr. unfold BATCH_SIZE in *. unfold batch_payload, slice. cbn [bb_buf bb_head bb_tail].
  unfold u32. rewrite Z.mod_small by lia.
  replace (Z.to_nat (bb_tail b + 1 - bb_head b)) with (S (Z.to_nat (bb_tail b - bb_head b))) by lia.
  set (k := Z.to_nat (bb_tail b - bb_head b)). set (hd := Z.to_nat (bb_head b)).
  replace (Z.to_nat (bb_tail b)) with (hd + k)%nat by (unfold hd, k; lia).
  rewrite (take_S_r _ _ c).
  - f_equal. apply list_eq. intros i. destruct (decide (i < k)%nat).
    + rewrite !lookup_take_lt, !lookup_drop by done. by rewrite list_lookup_insert_ne by lia.
    + by rewrite !lookup_take_ge by lia.
  - rewrite lookup_drop. apply list_lookup_insert_eq. unfold hd, k. lia.
Qed.

Section Guest.
Context {W : Type} (mux_batch : option batch_buffer → M W (option batch_buffer)) (inv : W → Prop).
Context {Hserver : batch_server mux_batch inv}.
Context (sid : Z) (Hsid : - 2 ^ 31 ≤ sid < 2 ^ 31) (cycles : nat → Z).
Context (reports debug : bool) (Hrep : reports = true → debug = true).
Context (ok : stop → Prop).

Local Abbreviation flush := (guest_console_sink_flush mux_batch sid cycles reports debug).

(** A state whose dataport is [b]. *)
Definition at_port (b : batch_buffer) (s : gsink * W) : Prop := gs_port s.1 = Some b ∧ inv s.2.

(** One part of a step: the server called with [bs], the dataport now [b']. *)
Definition moved (bs : list batch_buffer) (b' : batch_buffer) (s s' : gsink * W) : Prop :=
  calls mux_batch s.2 bs s'.2 ∧ Forall (batch_of sid) bs ∧ at_port b' s'.

Lemma moved_trans a b1 c b2 s1 s2 s3 :
  moved a b1 s1 s2 → moved c b2 s2 s3 → moved (a ++ c) b2 s1 s3.
Proof.
  intros (C1 & F1 & _) (C2 & F2 & P2). split; [by eapply calls_app|].
  split; [by apply Forall_app|done].
Qed.

(** Only the sink's own fields change. *)
Lemma moved_here b b' s g :
  at_port b s → gs_port g = Some b' → moved [] b' s (g, s.2).
Proof. intros [_ Hi] Hg. split; [constructor|]. by split. Qed.

Lemma moved_refl b s : at_port b s → moved [] b s s.
Proof. intros Hp. split; [constructor|]. by split. Qed.

Lemma wp_load b s Q : at_port b s → Q b s → wp ok load Q s.
Proof. intros [Hb _] HQ. unfold load. do 2 wp_step. by rewrite Hb. Qed.

Lemma wp_reset b s :
  at_port b s →
  wp ok (guest_console_sink_reset sid)
    (λ _ s', moved [] (BatchBuffer (u32 sid) 0 0 (bb_buf b)) s s') s.
Proof.
  intros Hp. unfold guest_console_sink_reset. wp_step. apply (wp_load b); [done|].
  unfold store, upd. wp_step. by apply (moved_here b).
Qed.

Lemma reset_port_ok b : batch_typed b → port_ok sid (BatchBuffer (u32 sid) 0 0 (bb_buf b)).
Proof.
  intros []. unfold BATCH_SIZE in *. constructor; cbn; try done; try lia.
  constructor; cbn; try lia; [|done]. unfold u32. apply Z.mod_pos_bound. lia.
Qed.

(** Characters for the kernel's console. *)
Lemma wp_debug_line l b s :
  at_port b s → wp ok (for_each l debug_put) (λ _ s', moved [] b s s') s.
Proof.
  intros Hp. assert (H1 : moved [] b s s) by (by apply moved_refl).
  revert H1. generalize s at 2 4 as s1. induction l as [|d l IH]; intros s1 H1; [done|].
  cbn [for_each]. unfold debug_put at 1, upd. do 2 wp_step. apply IH.
  eapply (moved_trans [] b []); [exact H1|]. by apply (moved_here b); apply H1.
Qed.

Lemma wp_append b c s :
  at_port b s → port_ok sid b → bb_tail b < BATCH_SIZE →
  wp ok (guest_console_sink_append_byte c)
    (λ r s', r = 0 ∧ ∃ b', moved [] b' s s' ∧ port_ok sid b' ∧
       batch_payload b' = batch_payload b ++ [c]) s.
Proof.
  intros Hp Hok Ht. pose proof Hok as [Hty Hid Hr Hrm]. pose proof Hty as [? ? ? Hb].
  unfold guest_console_sink_append_byte. wp_step. apply (wp_load b); [done|].
  rewrite (proj2 (Z.leb_gt _ _)) by done. wp_step. apply wp_arr_set; [lia|].
  unfold store, upd. do 3 wp_step. split; [done|]. eexists. split; [by apply (moved_here b)|].
  split; [|apply append_payload; [done|lia]]. unfold u32, BATCH_SIZE in *.
  rewrite Z.mod_small by lia.
  constructor; cbn; [constructor; cbn; rewrite ?length_insert|exact Hid|..]; unfold BATCH_SIZE; intros; lia.
Qed.

(** Flushing hands the pending bytes over and leaves room. *)
Lemma wp_flush n b s :
  at_port b s → port_ok sid b →
  wp ok (flush (S n))
    (λ _ s', ∃ bs b', moved bs b' s s' ∧ port_ok sid b' ∧ bb_tail b' < BATCH_SIZE ∧
       batch_payload b' = [] ∧ concat (map batch_payload bs) = batch_payload b) s.
Proof.
  intros Hp Hok. pose proof Hok as [Hty Hid Hr Hrm]. destruct Hp as [Hb Hi].
  cbn [guest_console_sink_flush]. do 2 wp_step. rewrite Hb. wp_step; z_bool.
  { wp_step. exists [], b. split; [by apply moved_refl|].
    rewrite (payload_empty b) by done. by auto. }
  rewrite (port_ok_good sid b Hok). unfold guest_console_sink_cycles_now, upd. cbv zeta.
  do 6 wp_step.
  destruct (serves s.2 b Hi Hty Hr) as (b1 & w1 & Hrun & Hi1 & Hty1).
  wp_step. unfold wp at 1, mux_batch_batch. cbn [fst snd gs_port set_gs_clock]. rewrite Hb, Hrun.
  do 14 wp_step. cbn [fst snd]. match goal with |- wp _ _ _ ?t => set (s1 := t) end.
  assert (Hp1 : at_port b1 s1) by (by split). assert (Hs1 : s1.2 = w1) by done. clearbody s1.
  wp_step. eapply (wp_mono ok _ (λ _ s', moved [] b1 s1 s')).
  { destruct (_ && _) eqn:Hr1; [|by apply moved_refl]. apply andb_prop in Hr1 as [Hr1 _].
    unfold guest_console_sink_report_rpc_stats, guest_console_sink_emit_report_line.
    do 2 wp_step. rewrite (Hrep Hr1). by apply wp_debug_line. }
  intros [] s2 (C2 & _ & Hp2). cbv beta.
  eapply wp_mono; [by apply (wp_reset b1)|]. intros [] s' (C3 & _ & Hp3).
  assert (Hm : moved [] (BatchBuffer (u32 sid) 0 0 (bb_buf b1)) s1 s').
  { split; [exact (calls_app _ _ _ _ _ _ C2 C3)|]. by split; [constructor|]. }
  rewrite <-Hs1 in Hrun.
  exists [b], (BatchBuffer (u32 sid) 0 0 (bb_buf b1)). split.
  - split; [|split].
    + econstructor; [exact Hrun|]. apply Hm.
    + constructor; [|constructor]. constructor; [done..|]. lia.
    + apply Hm.
  - split; [by apply reset_port_ok|]. split; [done|]. split; [by apply payload_empty|].
    cbn. apply app_nil_r.
Qed.

Lemma wp_append_or_flush n b c s :
  at_port b s → port_ok sid b →
  wp ok (append_or_flush (flush (S n)) c)
    (λ _ s', ∃ bs b', moved bs b' s s' ∧ port_ok sid b' ∧
       concat (map batch_payload bs) ++ batch_payload b' = batch_payload b ++ [c]) s.
Proof.
  intros Hp Hok. unfold append_or_flush. wp_step.
  destruct (Z.lt_ge_cases (bb_tail b) BATCH_SIZE) as [Ht|Ht].
  - eapply wp_mono; [by apply (wp_append b)|]. intros r s' (-> & b' & Hm & Hok' & Hpay). cbv beta.
    change (0 =? 0) with true. cbv iota. wp_step. by exists [], b'.
  - unfold guest_console_sink_append_byte at 1. wp_step. apply (wp_load b); [done|].
    rewrite (proj2 (Z.leb_le _ _)) by lia. wp_step. change (-1 =? 0) with false. cbv iota.
    wp_step. eapply wp_mono; [by apply wp_flush|].
    intros _ s1 (bs & b1 & Hm1 & Hok1 & Ht1 & Hpay1 & Hbs). cbv beta. wp_step.
    eapply wp_mono; [apply (wp_append b1); [apply Hm1|done..]|].
    intros r s' (-> & b' & Hm & Hok' & Hpay). cbv beta. wp_step. exists bs, b'.
    split; [rewrite <-(app_nil_r bs); by eapply moved_trans|]. split; [done|].
    by rewrite Hbs, Hpay, Hpay1.
Qed.

(** The resets before the first append. *)
Lemma wp_start b s :
  at_port b s → start_ok sid b →
  wp ok ((if bad_batch b then guest_console_sink_reset sid else ret tt) ;;;
         b' <- load ;;
         (if negb (s32 (bb_stream_id b') =? sid) then guest_console_sink_reset sid else ret tt))
    (λ _ s', ∃ b', moved [] b' s s' ∧ port_ok sid b' ∧ batch_payload b' = kept sid b) s.
Proof.
  intros Hp [Hty Hrm]. unfold kept. wp_step.
  destruct (bad_batch b) eqn:Hbad; cbn [orb].
  - eapply wp_mono; [by apply (wp_reset b)|]. intros [] s1 Hm. cbv beta in Hm |- *. wp_step.
    apply (wp_load (BatchBuffer (u32 sid) 0 0 (bb_buf b))); [apply Hm|]. cbn [bb_stream_id].
    rewrite s32_u32, Z.eqb_refl by done. cbn [negb]. wp_step. eexists. split; [exact Hm|].
    split; [by apply reset_port_ok|]. by apply payload_empty.
  - wp_step. wp_step. apply (wp_load b); [done|]. unfold bad_batch in Hbad. z_bool.
    destruct (s32 (bb_stream_id b) =? sid) eqn:Hs; cbn [negb]; z_bool.
    + wp_step. exists b. split; [by apply moved_refl|]. split; [|done].
      constructor; [done| |lia|done]. rewrite <-Hs. by rewrite u32_s32 by apply Hty.
    + eapply wp_mono; [by apply (wp_reset b)|]. intros [] s1 Hm. cbv beta in Hm. eexists. split; [exact Hm|].
      split; [by apply reset_port_ok|]. by apply payload_empty.
Qed.

Lemma wp_emit_byte n b c s :
  at_port b s → start_ok sid b →
  wp ok (guest_console_sink_emit_byte mux_batch sid cycles reports debug (S n) c)
    (λ _ s', ∃ bs b', moved bs b' s s' ∧ port_ok sid b' ∧
       concat (map batch_payload bs) ++ batch_payload b' = kept sid b ++ [c] ∧
       (flush_char c = true → batch_payload b' = [])) s.
Proof.
  intros Hp Hst. unfold guest_console_sink_emit_byte. do 2 wp_step. rewrite (proj1 Hp).
  pose proof (wp_start b s Hp Hst) as Hw. apply wp_bind_inv in Hw. wp_step.
  eapply wp_mono; [exact Hw|]. intros [] s0 Hw0. cbv beta in Hw0 |- *.
  apply wp_bind_inv in Hw0. wp_step. eapply wp_mono; [exact Hw0|]. intros b0 s0' Hw1.
  cbv beta in Hw1 |- *. wp_step. eapply wp_mono; [exact Hw1|].
  intros [] s1 (b1 & Hm1 & Hok1 & Hpay1). cbv beta. wp_step.
  eapply wp_mono; [apply (wp_append_or_flush n b1); [apply Hm1|done]|].
  intros [] s2 (bs & b2 & Hm2 & Hok2 & Hpay2). cbv beta.
  pose proof (moved_trans _ _ _ _ _ _ _ Hm1 Hm2) as Hm12. cbn [app] in Hm12.
  wp_step. apply (wp_load b2); [apply Hm2|].
  destruct (flush_char c || _) eqn:Hf.
  - eapply wp_mono; [apply (wp_flush n b2); [apply Hm2|done]|].
    intros [] s3 (bs' & b3 & Hm3 & Hok3 & _ & Hpay3 & Hbs'). exists (bs ++ bs'), b3.
    split; [by eapply moved_trans|]. split; [done|]. split; [|done].
    rewrite map_app, concat_app, Hbs', Hpay3, app_nil_r. by rewrite Hpay2, Hpay1.
  - wp_step. apply orb_false_elim in Hf as [Hf _]. exists bs, b2.
    split; [done|]. split; [done|]. split; [by rewrite Hpay2, Hpay1|]. congruence.
Qed.

Lemma wp_putchar n b c s :
  at_port b s → start_ok sid b →
  wp ok (guest_putchar_putchar mux_batch sid cycles reports debug (S n) c)
    (λ _ s', ∃ bs b', moved bs b' s s' ∧ port_ok sid b' ∧
       concat (map batch_payload bs) ++ batch_payload b' = kept sid b ++ [z2b c] ∧
       (flush_char (z2b c) = true → batch_payload b' = [])) s.
Proof.
  intros Hp Hst. unfold guest_putchar_putchar. do 3 wp_step.
  eapply (wp_mono ok _ (λ _ s1, moved [] b s s1)).
  { destruct (_ && _); [|by apply moved_refl]. unfold upd. do 2 wp_step.
    set (s1 := (_, s.2)). assert (H1 : moved [] b s s1) by (by apply (moved_here b); [|apply Hp]).
    eapply wp_mono; [apply (wp_debug_line _ b s1), H1|]. intros [] s2 H2.
    exact (moved_trans [] b [] _ _ _ _ H1 H2). }
  intros [] s1 Hm1. cbv beta in Hm1. eapply wp_mono; [apply (wp_emit_byte n b); [apply Hm1|done]|].
  intros [] s' (bs & b' & Hm & Hr). exists bs, b'. split; [|done].
  change bs with ([] ++ bs). by eapply moved_trans.
Qed.

(** A guest printing a text. *)
Lemma wp_guest_print n text b s :
  at_port b s → start_ok sid b →
  wp ok (for_each text (guest_putchar_putchar mux_batch sid cycles reports debug (S n)))
    (λ _ s', ∃ bs b', moved bs b' s s' ∧ start_ok sid b' ∧
       concat (map batch_payload bs) ++ kept sid b' = kept sid b ++ map z2b text ∧
       match last text with
       | None => bs = [] ∧ b' = b
       | Some c => port_ok sid b' ∧ (flush_char (z2b c) = true → kept sid b' = [])
       end) s.
Proof.
  revert b s. induction text as [|c text IH]; intros b s Hp Hst; cbn [for_each map].
  { wp_step. exists [], b. split; [by apply moved_refl|]. split; [done|].
    by rewrite app_nil_r. }
  wp_step. eapply wp_mono; [by apply (wp_putchar n b)|].
  intros [] s1 (bs1 & b1 & Hm1 & Hok1 & Hpay1 & Hfl1). cbv beta.
  eapply wp_mono; [apply (IH b1); [apply Hm1|by apply port_ok_start]|].
  intros [] s' (bs2 & b2 & Hm2 & Hok2 & Hpay2 & Hlast).
  exists (bs1 ++ bs2), b2. split; [by eapply moved_trans|]. split; [done|]. split.
  { rewrite map_app, concat_app, <-app_assoc, Hpay2, (port_ok_kept sid b1) by done.
    by rewrite app_assoc, Hpay1, <-app_assoc. }
  destruct text as [|d text].
  2:{ rewrite last_cons_cons. destruct (last (d :: text)) eqn:Hl; [exact Hlast|]. by apply last_None in Hl. }
  destruct Hlast as [-> ->]. split; [done|]. intros Hf. rewrite port_ok_kept by done. auto.
Qed.

End Guest.
