(* ===== verification/GuestReport.v ===== *)
(** * The guest sink that reports through its own dataport

    With [GUEST_CONSOLE_SINK_RPC_REPORTS] and without the debug console, every
    16th batch is followed by one with a line of statistics, which the sink
    appends to the dataport behind the batch it has just handed over and
    flushes by calling itself.  Verified against the class of servers that
    consume a stream's batches. *)

From S2P Require Import Prelude Proto CString Mux MuxUplink MuxBatch MuxSpec GuestSink GuestInv.

(** A server that takes every batch of the stream. *)
Class batch_consumer {W : Type} (mux_batch : option batch_buffer → M W (option batch_buffer))
    (inv : W → Prop) (sid : Z) : Prop :=
  consumes w b : inv w → batch_of sid b →
    ∃ w', mux_batch (Some b) w = Done (Some (set_bb_head (bb_tail b) b)) w' ∧ inv w'.

(** Does a report follow the call that makes the counter [c]? *)
Definition due (c : Z) : bool := c mod 16 =? 0.

(** The payloads handed over, reports marked, between two values of the
    counters: a report follows exactly the batches for which it is due, is a
    batch of its own, and its line has the counters of the moment. *)
Inductive transcript : Z → Z → list (bool * list byte) → Z → Z → Prop :=
| tr_none c p : transcript c p [] c p
| tr_text c p l tr c' p' :
    due (u64 (c + 1)) = false →
    transcript (u64 (c + 1)) (u64 (p + Z.of_nat (length l))) tr c' p' →
    transcript c p ((false, l) :: tr) c' p'
| tr_report c p l g tr c' p' :
    let line := rpc_report g in
    gs_calls g = u64 (c + 1) → gs_payload g = u64 (p + Z.of_nat (length l)) →
    due (u64 (c + 1)) = true →
    transcript (u64 (u64 (c + 1) + 1))
      (u64 (u64 (p + Z.of_nat (length l)) + Z.of_nat (length line))) tr c' p' →
    transcript c p ((false, l) :: (true, line) :: tr) c' p'.

(** The text of a transcript, without the reports. *)
Definition texts (tr : list (bool * list byte)) : list byte :=
  concat (map (λ e, if e.1 : bool then [] else e.2) tr).

(** The dataport after a byte, and after a line. *)
Definition pushed (b : batch_buffer) (c : byte) : batch_buffer :=
  BatchBuffer (bb_stream_id b) (bb_head b) (u32 (bb_tail b + 1))
    (<[Z.to_nat (bb_tail b) := c]> (bb_buf b)).

(** The dataport after the resets a character starts with. *)
Definition opened (sid : Z) (b : batch_buffer) : batch_buffer :=
  if bad_batch b || negb (s32 (bb_stream_id b) =? sid)
  then BatchBuffer (u32 sid) 0 0 (bb_buf b) else b.

(** The dataport between two characters: below the threshold. *)
Record port_low (sid : Z) (b : batch_buffer) : Prop := PortLow {
  pl_ok : port_ok sid b;
  pl_low : bb_tail b < GUEST_CONSOLE_SINK_FLUSH_THRESHOLD
}.

(* ------------------------------------------------------------------ *)
(** ** Lemmas *)

Lemma transcript_app c p a c1 p1 b c2 p2 :
  transcript c p a c1 p1 → transcript c1 p1 b c2 p2 → transcript c p (a ++ b) c2 p2.
Proof.
  intros Ha Hb. induction Ha; cbn; [done|by constructor; auto|]. apply tr_report; auto.
Qed.

Lemma texts_app a b : texts (a ++ b) = texts a ++ texts b.
Proof. unfold texts. by rewrite map_app, concat_app. Qed.

(** Two calls in a row are never both due. *)
Lemma due_next c : 0 ≤ c < 2 ^ 64 → due c = true → due (u64 (c + 1)) = false.
Proof.
  unfold due, u64. intros Hc H. z_bool. apply Z.eqb_neq.
  assert (c < 2 ^ 64 - 1).
  { destruct (Z.eq_dec c (2 ^ 64 - 1)) as [->|]; [done|lia]. }
  rewrite (Z.mod_small (c + 1)) by lia. by rewrite Z.add_mod, H by lia.
Qed.

Lemma rpc_report_length g : (0 < length (rpc_report g) ≤ 159)%nat.
Proof.
  unfold rpc_report, snprintf. rewrite length_take. split; [|lia].
  rewrite length_app. cbn [length]. lia.
Qed.

Lemma pushed_facts sid b c :
  port_ok sid b → bb_tail b < BATCH_SIZE →
  port_ok sid (pushed b c) ∧ batch_payload (pushed b c) = batch_payload b ++ [c] ∧
  bb_tail (pushed b c) = bb_tail b + 1 ∧ bb_head (pushed b c) = bb_head b.
Proof.
  intros [Hty Hid Hr Hrm] Ht. pose proof Hty as [? ? ? Hb].
  split_and!; [|apply append_payload; [done|lia]| |done]; unfold pushed, u32, BATCH_SIZE in *; cbn.
  - rewrite Z.mod_small by lia.
    constructor; cbn; [constructor; cbn; rewrite ?length_insert|exact Hid|..]; unfold BATCH_SIZE; intros; lia.
  - by rewrite Z.mod_small by lia.
Qed.

Lemma append_byte_run {W} sid b c (s : gsink * W) :
  gs_port s.1 = Some b → port_ok sid b → bb_tail b < BATCH_SIZE →
  guest_console_sink_append_byte c s = Done 0 (set_gs_port (Some (pushed b c)) s.1, s.2).
Proof.
  intros Hp [[Hid Hh Ht Hb] _ Hr _] Hlt. unfold guest_console_sink_append_byte.
  rewrite (run_bind _ _ _ b s) by (unfold load, bind, get; cbn; by rewrite Hp).
  rewrite (proj2 (Z.leb_gt _ _)) by done.
  rewrite (run_bind _ _ _ _ _ (arr_set_run (bb_buf b) (bb_tail b) c s ltac:(lia))). done.
Qed.

Lemma append_or_flush_run {W} (flush : GM unit) sid b c (s : gsink * W) :
  gs_port s.1 = Some b → port_ok sid b → bb_tail b < BATCH_SIZE →
  append_or_flush flush c s = Done tt (set_gs_port (Some (pushed b c)) s.1, s.2).
Proof. intros Hp Hok Hlt. unfold append_or_flush. by rewrite (run_bind _ _ _ _ _ (append_byte_run sid b c s Hp Hok Hlt)). Qed.

(** A line that fits. *)
Lemma append_line_run {W} (flush : GM unit) sid l b (s : gsink * W) :
  gs_port s.1 = Some b → port_ok sid b → bb_tail b + Z.of_nat (length l) ≤ BATCH_SIZE →
  ∃ b', for_each l (append_or_flush flush) s = Done tt (set_gs_port (Some b') s.1, s.2) ∧
    port_ok sid b' ∧ batch_payload b' = batch_payload b ++ l ∧
    bb_tail b' = bb_tail b + Z.of_nat (length l) ∧ bb_head b' = bb_head b.
Proof.
  revert b s. induction l as [|c l IH]; intros b s Hp Hok Hfit; cbn [for_each].
  { exists b. split_and!; try done; [|by rewrite app_nil_r|cbn; lia].
    unfold ret. do 2 f_equal. destruct s as [[] ?]. cbn in *. by rewrite Hp. }
  cbn [length] in Hfit.
  rewrite (run_bind _ _ _ _ _ (append_or_flush_run flush sid b c s Hp Hok ltac:(lia))).
  destruct (pushed_facts sid b c Hok ltac:(lia)) as (Hok1 & Hpay & Ht & Hh).
  destruct (IH (pushed b c) (set_gs_port (Some (pushed b c)) s.1, s.2) eq_refl Hok1 ltac:(lia))
    as (b' & Hrun & Hok' & Hpay' & Ht' & Hh').
  exists b'. split; [exact Hrun|]. split; [done|].
  split; [by rewrite Hpay', Hpay, <-app_assoc|]. cbn [length]. lia.
Qed.

Section Reports.
Context {W : Type} (mux_batch : option batch_buffer → M W (option batch_buffer)) (inv : W → Prop).
Context (sid : Z) (Hsid : - 2 ^ 31 ≤ sid < 2 ^ 31) {Hserver : batch_consumer mux_batch inv sid}.
Context (cycles : nat → Z) (ok : stop → Prop).

Local Abbreviation flush := (guest_console_sink_flush mux_batch sid cycles true false).

(** The counters are 64 bits wide. *)
Definition counters_ok (g : gsink) : Prop := 0 ≤ gs_calls g < 2 ^ 64.

(** From [s] to [s'] the batches of the transcript were handed over. *)
Definition reported (tr : list (bool * list byte)) (b' : batch_buffer) (s s' : gsink * W) : Prop :=
  (∃ bs, moved mux_batch inv sid bs b' s s' ∧ map batch_payload bs = map snd tr) ∧
  transcript (gs_calls s.1) (gs_payload s.1) tr (gs_calls s'.1) (gs_payload s'.1) ∧
  counters_ok s'.1.

Lemma reported_trans a b1 c b2 s1 s2 s3 :
  reported a b1 s1 s2 → reported c b2 s2 s3 → reported (a ++ c) b2 s1 s3.
Proof.
  intros ((x & Hx & Hxa) & Ta & _) ((y & Hy & Hyc) & Tc & Hc).
  split; [|split; [by eapply transcript_app|done]].
  exists (x ++ y). split; [by eapply moved_trans|]. by rewrite !map_app, Hxa, Hyc.
Qed.

Lemma reported_port tr b s s' : reported tr b s s' → at_port inv b s'.
Proof. intros ((bs & Hm & _) & _). apply Hm. Qed.

(** Nothing handed over, the counters unchanged. *)
Lemma reported_none b b' s g :
  at_port inv b s → counters_ok s.1 → gs_port g = Some b' →
  gs_calls g = gs_calls s.1 → gs_payload g = gs_payload s.1 → reported [] b' s (g, s.2).
Proof.
  intros Hp Hc Hg Hgc Hgp. split; [exists []; split; [by apply (moved_here mux_batch inv sid b)|done]|].
  unfold counters_ok. cbn. rewrite Hgc, Hgp. by split; [constructor|].
Qed.

(** A batch is handed over and counted; then the rest of the flush. *)
Lemma wp_flush_call n b s Q :
  at_port inv b s → port_ok sid b → bb_head b < bb_tail b →
  (∀ s1, gs_port s1.1 = Some (set_bb_head (bb_tail b) b) → inv s1.2 →
     mux_batch (Some b) s.2 = Done (Some (set_bb_head (bb_tail b) b)) s1.2 →
     gs_calls s1.1 = u64 (gs_calls s.1 + 1) →
     gs_payload s1.1 = u64 (gs_payload s.1 + Z.of_nat (length (batch_payload b))) →
     wp ok ((if due (gs_calls s1.1)
             then guest_console_sink_report_rpc_stats (W := W) false (flush n) else ret tt) ;;;
            guest_console_sink_reset sid) Q s1) →
  wp ok (flush (S n)) Q s.
Proof.
  intros [Hb Hi] Hok Hlt HQ. pose proof Hok as [Hty Hid Hr Hrm]. pose proof Hty as [_ Hh Ht Hbuf].
  cbn [guest_console_sink_flush]. do 2 wp_step. rewrite Hb.
  rewrite (proj2 (Z.eqb_neq _ _)) by lia.
  rewrite (port_ok_good sid b Hok). unfold guest_console_sink_cycles_now, upd. cbv zeta.
  do 6 wp_step.
  destruct (consumes s.2 b Hi) as (w1 & Hrun & Hi1); [by constructor; [| |lia]|].
  wp_step. unfold wp at 1, mux_batch_batch. cbn [fst snd gs_port set_gs_clock]. rewrite Hb, Hrun.
  do 14 wp_step. cbn [fst snd andb]. match goal with |- wp _ _ _ ?t => set (s1 := t) end.
  assert (Hlen : u32 (bb_tail b - bb_head b) = Z.of_nat (length (batch_payload b))).
  { unfold u32, batch_payload, slice, BATCH_SIZE in *.
    rewrite length_take, length_drop, Z.mod_small by lia. lia. }
  specialize (HQ s1 eq_refl Hi1 Hrun eq_refl). rewrite <-Hlen in HQ. exact (HQ eq_refl).
Qed.
(** What every flush leaves. *)
Record flushed (b' : batch_buffer) : Prop := Flushed {
  fl_low : port_low sid b';
  fl_empty : batch_payload b' = []
}.

Lemma wp_reset_flushed b s :
  at_port inv b s → batch_typed b →
  wp ok (guest_console_sink_reset sid)
    (λ _ s', ∃ b' g, s' = (g, s.2) ∧ gs_port g = Some b' ∧ flushed b' ∧
       gs_calls g = gs_calls s.1 ∧ gs_payload g = gs_payload s.1) s.
Proof.
  intros Hp Hty. unfold guest_console_sink_reset. wp_step. apply (wp_load inv ok b); [done|].
  unfold store, upd. wp_step. do 2 eexists. split_and!; try reflexivity.
  constructor; [|by apply payload_empty]. constructor; [by apply reset_port_ok|done].
Qed.

(** A flush after which no report is due. *)
Lemma wp_flush_quiet n b s :
  at_port inv b s → port_ok sid b → bb_head b < bb_tail b → due (u64 (gs_calls s.1 + 1)) = false →
  wp ok (flush (S n))
    (λ _ s', ∃ b', moved mux_batch inv sid [b] b' s s' ∧ flushed b' ∧
       gs_calls s'.1 = u64 (gs_calls s.1 + 1) ∧
       gs_payload s'.1 = u64 (gs_payload s.1 + Z.of_nat (length (batch_payload b)))) s.
Proof.
  intros Hp Hok Hlt Hdue. apply (wp_flush_call n b); [done..|].
  intros s1 Hb1 Hi1 Hrun Hc Hpl. rewrite Hc, Hdue. do 2 wp_step.
  pose proof (po_typed _ _ Hok) as [? ? ? ?].
  eapply wp_mono; [apply (wp_reset_flushed (set_bb_head (bb_tail b) b)); [by split|by constructor]|].
  intros [] s' (b' & g & -> & Hg & Hf & Hgc & Hgp). exists b'. split; [|by rewrite <-Hc, <-Hpl].
  split; [econstructor; [exact Hrun|constructor]|].
  split; [|by split]. constructor; [|constructor]. destruct Hok. constructor; [done..|lia].
Qed.

(** A flush, with the report when it is due. *)
Lemma wp_flush_report n b s :
  at_port inv b s → counters_ok s.1 → port_ok sid b → bb_head b < bb_tail b →
  bb_tail b ≤ GUEST_CONSOLE_SINK_FLUSH_THRESHOLD →
  wp ok (flush (S (S n)))
    (λ _ s', ∃ tr b', reported tr b' s s' ∧ flushed b' ∧ texts tr = batch_payload b) s.
Proof.
  intros Hp Hcn Hok Hlt Hlow. pose proof (Z.mod_pos_bound (gs_calls s.1 + 1) (2 ^ 64) eq_refl) as Hcb.
  destruct (due (u64 (gs_calls s.1 + 1))) eqn:Hdue.
  2:{ eapply wp_mono; [by apply (wp_flush_quiet (S n) b)|].
      intros [] s' (b' & Hm & Hf & Hc & Hpl). exists [(false, batch_payload b)], b'.
      split; [|split; [done|by apply app_nil_r]].
      split; [exists [b]; by split|]. unfold counters_ok. rewrite Hc, Hpl.
      split; [|exact Hcb]. by apply tr_text; [|constructor]. }
  apply (wp_flush_call (S n) b); [done..|]. intros s1 Hb1 Hi1 Hrun Hc Hpl. rewrite Hc, Hdue.
  set (b1 := set_bb_head (bb_tail b) b) in *.
  assert (Hok1 : port_ok sid b1).
  { destruct Hok as [[] ? ? ?]. unfold GUEST_CONSOLE_SINK_FLUSH_THRESHOLD, BATCH_SIZE in *.
    by constructor; [constructor|done|unfold BATCH_SIZE; cbn; lia|unfold BATCH_SIZE; cbn; lia]. }
  unfold guest_console_sink_report_rpc_stats, guest_console_sink_emit_report_line.
  pose proof (rpc_report_length s1.1) as Hlen. set (line := rpc_report s1.1) in *.
  destruct (append_line_run (flush (S n)) sid line b1 s1 Hb1 Hok1) as (b2 & Hline & Hok2 & Hpay2 & Ht2 & Hh2).
  { change (bb_tail b1) with (bb_tail b).
    unfold GUEST_CONSOLE_SINK_FLUSH_THRESHOLD, BATCH_SIZE in *. lia. }
  rewrite (payload_empty b1 eq_refl) in Hpay2. cbn [app] in Hpay2.
  do 3 wp_step. eapply wp_bind_run; [exact Hline|]. set (s2 := (_, s1.2)).
  assert (Hp2 : at_port inv b2 s2) by (by split).
  eapply wp_mono; [apply (wp_flush_quiet n b2 s2 Hp2 Hok2)|].
  { rewrite Hh2, Ht2. cbn. lia. }
  { change (gs_calls s2.1) with (gs_calls s1.1). rewrite Hc. by apply due_next. }
  intros [] s3 (b3 & Hm3 & Hf3 & Hc3 & Hpl3). cbv beta.
  change (gs_calls s2.1) with (gs_calls s1.1) in Hc3. change (gs_payload s2.1) with (gs_payload s1.1) in Hpl3.
  pose proof Hm3 as (C3 & F3 & Hp3).
  eapply wp_mono; [apply (wp_reset_flushed b3 s3 Hp3); apply Hf3|].
  intros [] s' (b' & g & -> & Hg & Hf & Hgc & Hgp).
  exists [(false, batch_payload b); (true, line)], b'. split; [|split; [done|cbn; by rewrite app_nil_r]].
  split; [|split].
  - exists [b; b2]. split; [|cbn; by rewrite Hpay2]. split; [|split; [|split; [done|apply Hp3]]].
    + econstructor; [exact Hrun|exact C3].
    + constructor; [|done]. destruct Hok. constructor; [done|done|lia].
  - cbn [fst]. rewrite Hgc, Hgp, Hc3, Hpl3, Hpay2, Hc, Hpl.
    by apply tr_report; [..|constructor].
  - unfold counters_ok. cbn. rewrite Hgc, Hc3. apply Z.mod_pos_bound. lia.
Qed.

(** The resets, as one step. *)
Lemma wp_opened {A} b s (k : M (gsink * W) A) Q :
  gs_port s.1 = Some b → batch_typed b →
  (∀ g, gs_port g = Some (opened sid b) → gs_calls g = gs_calls s.1 → gs_payload g = gs_payload s.1 →
     wp ok k Q (g, s.2)) →
  wp ok ((if bad_batch b then guest_console_sink_reset (W := W) sid else ret tt) ;;;
         b' <- load ;;
         (if negb (s32 (bb_stream_id b') =? sid) then guest_console_sink_reset sid else ret tt) ;;;
         k) Q s.
Proof using Hsid.
  intros Hp Hty HQ. unfold opened in HQ. destruct s as [g w]. cbn [fst snd] in *.
  assert (Hreset : ∀ b g', gs_port g' = Some b → guest_console_sink_reset (W := W) sid (g', w) =
    Done tt (set_gs_port (Some (BatchBuffer (u32 sid) 0 0 (bb_buf b))) g', w)).
  { intros b0 g' Hg. unfold guest_console_sink_reset, load, bind, get. cbn. by rewrite Hg. }
  assert (Hload : ∀ b g', gs_port g' = Some b → load (W := W) (g', w) = Done b (g', w)).
  { intros b0 g' Hg. unfold load, bind, get. cbn. by rewrite Hg. }
  destruct (bad_batch b); cbn [orb] in HQ.
  - eapply wp_bind_run; [by apply Hreset|]. eapply wp_bind_run; [by apply Hload|].
    cbn [bb_stream_id]. rewrite s32_u32, Z.eqb_refl by done. eapply wp_bind_run; [reflexivity|]. by apply HQ.
  - eapply wp_bind_run; [reflexivity|]. eapply wp_bind_run; [by apply Hload|]. destruct (negb _).
    + eapply wp_bind_run; [by apply Hreset|]. by apply HQ.
    + eapply wp_bind_run; [reflexivity|]. by apply HQ.
Qed.

(** What a character finds. *)
Record start_low (b : batch_buffer) : Prop := StartLow {
  sl_typed : batch_typed b;
  sl_low : port_low sid (opened sid b)
}.

Lemma wp_putchar_report n b c s :
  at_port inv b s → counters_ok s.1 → start_low b →
  wp ok (guest_putchar_putchar mux_batch sid cycles true false (S (S n)) c)
    (λ _ s', ∃ tr b', reported tr b' s s' ∧ port_low sid b' ∧
       texts tr ++ batch_payload b' = batch_payload (opened sid b) ++ [z2b c] ∧
       (flush_char (z2b c) = true → batch_payload b' = [])) s.
Proof.
  intros [Hp Hi] Hcn [Hty [Hok Hlow]]. unfold guest_putchar_putchar. do 2 wp_step. cbn [andb].
  wp_step. wp_step. unfold guest_console_sink_emit_byte. do 2 wp_step. rewrite Hp.
  apply (wp_opened b); [done..|]. intros g Hg Hgc Hgp. set (b0 := opened sid b) in *.
  assert (Hroom : bb_tail b0 < BATCH_SIZE)
    by (unfold GUEST_CONSOLE_SINK_FLUSH_THRESHOLD, BATCH_SIZE in *; lia).
  eapply wp_bind_run; [by apply (append_or_flush_run _ sid b0)|]. cbn [fst snd].
  destruct (pushed_facts sid b0 (z2b c) Hok Hroom) as (Hok1 & Hpay1 & Ht1 & Hh1).
  set (b1 := pushed b0 (z2b c)) in *. set (s1 := (_, s.2)).
  assert (Hp1 : at_port inv b1 s1) by (by split).
  assert (H1 : reported [] b1 s s1) by (by eapply reported_none).
  wp_step. apply (wp_load inv ok b1); [done|].
  destruct (flush_char (z2b c) || _) eqn:Hf.
  - eapply wp_mono; [apply (wp_flush_report n b1 s1 Hp1)|].
    + apply H1.
    + done.
    + rewrite Ht1, Hh1. destruct Hok as [_ _ ? _]. lia.
    + rewrite Ht1. lia.
    + intros [] s' (tr & b' & Htr & [Hlow' He] & Htx). exists tr, b'.
      split; [by apply (reported_trans [] b1 tr _ _ _ _ H1)|]. split; [done|].
      split; [|done]. by rewrite He, app_nil_r, Htx.
  - wp_step. apply orb_false_elim in Hf as [Hf Hth]. z_bool. exists [], b1.
    split; [exact H1|]. split; [by split|]. split; [exact Hpay1|]. congruence.
Qed.

Lemma low_opened b : port_low sid b → opened sid b = b.
Proof using Hsid.
  intros [Hok _]. unfold opened. rewrite (port_ok_good sid b Hok), (po_id _ _ Hok), s32_u32 by done.
  by rewrite Z.eqb_refl.
Qed.

Lemma wp_print_report n text b s :
  at_port inv b s → counters_ok s.1 → start_low b →
  wp ok (for_each text (guest_putchar_putchar mux_batch sid cycles true false (S (S n))))
    (λ _ s', ∃ tr b', reported tr b' s s' ∧ start_low b' ∧
       texts tr ++ batch_payload (opened sid b') = batch_payload (opened sid b) ++ map z2b text ∧
       (text = [] → b' = b) ∧
       (∀ c, last text = Some c → flush_char (z2b c) = true → batch_payload (opened sid b') = [])) s.
Proof.
  revert b s. induction text as [|c text IH]; intros b s Hp Hcn Hst; cbn [for_each map].
  { wp_step. exists [], b. destruct s as [g w]. split; [by apply (reported_none b b (g, w) g Hp Hcn (proj1 Hp))|].
    split; [done|]. split; [by rewrite app_nil_r|done]. }
  wp_step. eapply wp_mono; [by apply (wp_putchar_report n b)|].
  intros [] s1 (tr1 & b1 & H1 & Hlow1 & Htx1 & Hfl1). cbv beta.
  assert (Hst1 : start_low b1) by (split; [apply Hlow1|by rewrite low_opened]).
  eapply wp_mono; [apply (IH b1)|].
  - by eapply reported_port.
  - apply H1.
  - done.
  - intros [] s' (tr2 & b2 & H2 & Hst2 & Htx2 & Hnil & Hlast). rewrite (low_opened b1 Hlow1) in Htx2.
    exists (tr1 ++ tr2), b2. split; [by eapply reported_trans|]. split; [done|]. split.
    { by rewrite texts_app, <-app_assoc, Htx2, app_assoc, Htx1, <-app_assoc. }
    split; [done|].
    destruct text as [|d text]; [|exact Hlast]. intros c' [= <-] Hf.
    rewrite (Hnil eq_refl), low_opened by done. auto.
Qed.

End Reports.

(** The Mux consumes the batches of a valid stream. *)
#[global] Instance mux_consumes cycles json sid :
  console_mux_valid_stream_id sid = true →
  batch_consumer (Mux.mux_batch_batch cycles json) (λ m, Z.of_nat (length (mx_frame m)) = FRAME_SIZE) sid.
Proof.
  intros Hv m b Hm [Hb Hid Hr]. pose proof (valid_stream_id_range _ Hv).
  destruct (wp_total_done _ _ _ (wp_mux_batch cycles json total b m Hb ltac:(lia) Hm))
    as (p & m' & Hrun & Hp).
  assert (Hlive : batch_live b = true).
  { unfold batch_live. rewrite Hid, s32_u32, Hv by lia. apply Z.ltb_lt. lia. }
  rewrite Hlive in Hp. destruct Hp as (-> & _ & _ & _ & Hf & _). exists m'. split; [done|]. by rewrite Hf.
Qed.

(* ------------------------------------------------------------------ *)
(** ** Properties *)

(** C21: the guest sink that reports through its dataport.  Against any server
    that consumes the stream's batches, printing any text hands over the text
    in order, or keeps it pending (nothing after a line end or a colon); in
    between, after exactly the calls whose number is a multiple of 16, a batch
    of its own has the report with the counters of that moment.  A report
    never loses, splits or reorders the text, never triggers another one, and
    two units of fuel suffice: the flush calls itself at most once. *)
Theorem guest_reports {W} (rpc : option batch_buffer → M W (option batch_buffer)) inv sid
    {Hserver : batch_consumer rpc inv sid} cycles n text g b w :
  - 2 ^ 31 ≤ sid < 2 ^ 31 → inv w → gs_port g = Some b → start_low sid b → counters_ok g →
  ∃ g' w' bs b' tr,
    for_each text (guest_putchar_putchar rpc sid cycles true false (S (S n))) (g, w) = Done tt (g', w') ∧
    calls rpc w bs w' ∧ Forall (batch_of sid) bs ∧ map batch_payload bs = map snd tr ∧
    transcript (gs_calls g) (gs_payload g) tr (gs_calls g') (gs_payload g') ∧
    gs_port g' = Some b' ∧ start_low sid b' ∧
    texts tr ++ batch_payload (opened sid b') = batch_payload (opened sid b) ++ map z2b text ∧
    (∀ c, last text = Some c → flush_char (z2b c) = true → batch_payload (opened sid b') = []).
Proof.
  intros Hs Hi Hp Hst Hc.
  destruct (wp_total_done _ _ _ (wp_print_report rpc inv sid Hs cycles total n text b (g, w)
    (conj Hp Hi) Hc Hst)) as ([] & [g' w'] & Hrun & tr & b' & ((bs & (Hcl & Hb & [Hp' _]) & Hm) & Htr & _)
      & Hst' & Htx & _ & Hl).
  by exists g', w', bs, b', tr.
Qed.

(** C21 with the Mux as the server: the 16th batch brings a report. *)
Lemma guest_reports_witness :
  let rpc := Mux.mux_batch_batch demo_cycles demo_json in
  let b := demo_batch 9 0 (bs "other") in
  let g := set_gs_calls 14 (gsink_init (Some b)) in
  let text := map b2z (bs "login: root" ++ [x0a] ++ bs "# ") in
  ∃ g' w' bs b' tr,
    for_each text (guest_putchar_putchar rpc 1 demo_cycles true false 2) (g, demo_mux) = Done tt (g', w') ∧
    calls rpc demo_mux bs w' ∧ Forall (batch_of 1) bs ∧ map batch_payload bs = map snd tr ∧
    transcript (gs_calls g) (gs_payload g) tr (gs_calls g') (gs_payload g') ∧
    gs_port g' = Some b' ∧ start_low 1 b' ∧
    texts tr ++ batch_payload (opened 1 b') = batch_payload (opened 1 b) ++ map z2b text ∧
    (∀ c, last text = Some c → flush_char (z2b c) = true → batch_payload (opened 1 b') = []).
Proof.
  intros rpc b g text.
  apply (guest_reports rpc (λ m, Z.of_nat (length (mx_frame m)) = FRAME_SIZE) 1
    (Hserver := mux_consumes demo_cycles demo_json 1 eq_refl) demo_cycles 0 text g b demo_mux).
  - lia.
  - exact demo_frame_size.
  - reflexivity.
  - constructor; [constructor; vm_compute; intuition congruence|].
    constructor; [constructor|]; [constructor| | |intros _|]; vm_compute; intuition congruence.
  - unfold counters_ok. cbn. lia.
Defined.
