(* ===== verification/System.v ===== *)
(** * The system end to end

    The components joined through the bytes they exchange: a guest's
    characters through its sink and the Mux to the host's PTY, and data typed
    at a PTY through the host's writer and the Mux to a client's ring. *)

From S2P Require Import Prelude Proto CString HostState HostIo HostIoInv Flush Registry RegistryInv Startup StartupInv Demux DemuxInv Route RouteSpec Demo HostTx HostTxInv HostTxSpec Mux MuxUplink MuxBatch MuxDown MuxSpec GuestSink GuestInv.

(** What the Mux sends for payloads of streams, the registry sent already. *)
Definition uplinks (l : list (byte * list byte)) : list byte :=
  concat (map (λ f, wires (uplink_tokens f.1 f.2)) l).

(** The payloads of the batches that are sent. *)
Definition sent (l : list batch_buffer) : list (byte * list byte) :=
  map (λ b, (batch_sid b, batch_payload b)) (filter (λ b, batch_live b = true) l).

(** What the channels of the host receive: the raw PTY the bytes, the others
    their payloads. *)
Definition uplink_recv (h : host) (l : list (byte * list byte)) : nat → list byte :=
  frames_recv h (uplinks l) l.

(** The host between frames, in raw mode. *)
Record host_idle (E : env) (h : host) (r : rx) : Prop := HostIdle {
  hi_ready : ready E h r;
  hi_raw : virtioso_outer_mode (cfg h) = VIRTIOSO_OUTER_RAW;
  hi_escape : in_escape r = false;
  hi_stream : cur_rx_stream r = -1
}.

(** The Mux with its UART and the registry sent. *)
Record mux_up (m : mux) : Prop := MuxUp {
  mu_frame : Z.of_nat (length (mx_frame m)) = FRAME_SIZE;
  mu_serial : mx_serial m = true;
  mu_registry : mx_registry_emitted m = true
}.

(* ------------------------------------------------------------------ *)
(** ** Lemmas: routing what the Mux sends *)

Lemma route_payload_tokens h sid pos l cur :
  selectable sid = true → 0 ≤ index_of h sid → cur = index_of h sid →
  run_route (route_byte h) (Route false cur) (wires (payload_tokens sid pos l)) =
  Some (Route false (index_of h sid), map (pair (index_of h sid)) l).
Proof.
  intros Hsel Hi ->. revert pos. induction l as [|b l IH]; intros pos; [done|].
  pose proof (route_payload h (index_of h sid) [b] Hi) as Hb.
  unfold esc_bytes in Hb. cbn [map concat] in Hb. rewrite app_nil_r in Hb.
  cbn [payload_tokens]. destruct (FRAME_SIZE <=? pos + 4).
  - rewrite !wires_cons, run_route_app.
    assert (run_route (route_byte h) (Route false (index_of h sid)) (wire (TSelect sid)) =
      Some (Route false (index_of h sid), [])) as ->.
    { apply selectable_spec in Hsel as (? & ? & ?). cbn [wire run_route].
      rewrite route_byte_start, route_byte_select by done. done. }
    rewrite run_route_app. cbn [wire]. rewrite Hb, IH. done.
  - rewrite wires_cons, run_route_app. cbn [wire]. rewrite Hb, IH. done.
Qed.

Lemma route_uplink h s sid l :
  rt_esc s = false → known h sid →
  run_route (route_byte h) s (wires (uplink_tokens sid l)) =
  Some (Route false (-1), map (pair (index_of h sid)) l).
Proof.
  intros Hs [Hsel Hi]. destruct s as [e cur]. cbn in Hs. subst e. unfold uplink_tokens.
  rewrite wires_cons, run_route_app.
  assert (run_route (route_byte h) (Route false cur) (wire (TSelect sid)) =
    Some (Route false (index_of h sid), [])) as ->.
  { pose proof Hsel as Hs. apply selectable_spec in Hs as (? & ? & ?). cbn [wire run_route].
    rewrite route_byte_start, route_byte_select by done. done. }
  rewrite wires_app, run_route_app, route_payload_tokens by done.
  change (run_route (route_byte h) (Route false ?c) (wires [TDefault]))
    with (Some (Route false (-1), @nil event)). cbv iota beta. by rewrite app_nil_r.
Qed.

Lemma route_uplinks h s l :
  rt_esc s = false → Forall (λ f, known h f.1) l →
  run_route (route_byte h) s (uplinks l) =
  Some (if l is [] then s else Route false (-1), frame_events h l).
Proof.
  intros Hs Hl. revert s Hs. induction Hl as [|f l Hk _ IH]; intros s Hs; [done|].
  unfold uplinks, frame_events in *. cbn [map concat].
  rewrite run_route_app, route_uplink by done. rewrite IH by done. by destruct l.
Qed.

(** The host demultiplexes what the Mux sends. *)
Lemma host_takes_uplinks E h r l :
  host_idle E h r → Forall (λ f, known h f.1) l →
  ∃ r' h', feed_all (feed_nvidia_outer_or_virtioso_raw E) (uplinks l) r h = Done (0, r') h' ∧
    host_idle E h' r' ∧ receives h r (uplink_recv h l) h' r'.
Proof.
  intros [Hrd Hm He Hc] Hl.
  assert (Hrun : run_route (route_byte h) (route_of r) (uplinks l) =
    Some (Route false (-1), frame_events h l)).
  { rewrite (idle_route r He Hc), route_uplinks by done. by destruct l. }
  destruct (raw_mode_run h (outer_of r) (uplinks l) (Route false (-1)) (frame_events h l))
    as (e' & Hout & Hw); [apply Hrd|done|cbn; lia|exact Hrun|].
  pose proof (wp_feed_outer_all E total _ _ _ _ _ Hrd Hout) as Hwp.
  apply wp_total_done in Hwp as ([z r'] & h' & Hdone & Hz & Had). cbn in Hz. subst z.
  exists r', h'. split; [done|].
  pose proof (ad_at _ _ _ _ _ _ Had) as Hat. injection Hat as _ _ He' Hc'.
  split.
  - constructor; [by eapply advanced_ready| |done..].
    by rewrite (st_cfg _ _ (rd_stable _ _ _ _ _ (ad_routed _ _ _ _ _ _ Had))).
  - eapply routed_receives; [apply Had|]. intros j. by apply with_raw_recv.
Qed.

Lemma serve_wire_uplinks json l : serve_wire json true l = uplinks (sent l).
Proof.
  unfold uplinks, sent. induction l as [|b l IH]; [done|]. cbn [serve_wire].
  rewrite filter_cons. destruct (batch_live b) eqn:Hb.
  - rewrite decide_True by done. cbn [map concat]. by rewrite <-IH.
  - by rewrite decide_False by done.
Qed.

(* ------------------------------------------------------------------ *)
(** ** Lemmas: the Mux as a batch server *)

#[global] Instance mux_serves cycles json :
  batch_server (Mux.mux_batch_batch cycles json) (λ m, Z.of_nat (length (mx_frame m)) = FRAME_SIZE).
Proof.
  intros m b Hm Hb Hr.
  destruct (wp_total_done _ _ _ (wp_mux_batch cycles json total b m Hb ltac:(lia) Hm))
    as (p & m' & Hrun & Hp).
  destruct (batch_live b).
  - destruct Hp as (-> & _ & _ & _ & Hf & _). exists (set_bb_head (bb_tail b) b), m'.
    split; [done|]. split; [by rewrite Hf|]. destruct Hb. by constructor.
  - destruct Hp as [-> ->]. by exists b, m.
Qed.

Lemma calls_serve cycles json m l m' :
  calls (Mux.mux_batch_batch cycles json) m l m' → serve cycles json l m = Done tt m'.
Proof.
  induction 1 as [|m b b' m1 bs m' Hrun _ IH]; [done|]. cbn [serve].
  by rewrite (run_bind _ _ _ _ _ Hrun).
Qed.

Lemma batch_of_live sid b :
  console_mux_valid_stream_id sid = true → batch_of sid b →
  batch_live b = true ∧ batch_sid b = z2b sid ∧ batch_typed b ∧ bb_tail b ≤ BATCH_SIZE.
Proof.
  intros Hv [Hty Hid Hr]. pose proof (valid_stream_id_range _ Hv).
  assert (s32 (bb_stream_id b) = sid) as Hs by (rewrite Hid; apply s32_u32; lia).
  unfold batch_live, batch_sid. rewrite Hs, Hv, (proj2 (Z.ltb_lt _ _)) by lia. auto with lia.
Qed.

(** All of one stream. *)
Lemma sent_stream sid l :
  console_mux_valid_stream_id sid = true → Forall (batch_of sid) l →
  sent l = map (λ b, (z2b sid, batch_payload b)) l.
Proof.
  intros Hv Hl. unfold sent. induction Hl as [|b l Hb _ IH]; [done|].
  destruct (batch_of_live sid b Hv Hb) as (Hlive & Hs & _).
  rewrite filter_cons_True by done. cbn [map]. by rewrite IH, Hs.
Qed.

Lemma payload_for_stream h j sid l :
  payload_for h j (map (λ b, (sid, batch_payload b)) l) =
  if index_of h sid =? j then concat (map batch_payload l) else [].
Proof.
  unfold payload_for. induction l as [|b l IH]; [by case_match|]. cbn [map concat fst snd].
  rewrite IH. by case_match.
Qed.

(* ------------------------------------------------------------------ *)
(** ** Lemmas: the downlink *)

Lemma down_one_frame sinks sid k payload d q :
  console_mux_valid_stream_id (b2z sid) = true → accepts sinks (b2z sid) k →
  console_mux_sink_for_stream sinks (-1) = None → dn_cur d = -1 → dn_queues d !! k = Some q →
  foldl (down_byte sinks) (false, d) (frame sid payload) =
  (false, Down (-1) (<[k := q ++ take (Z.to_nat ring_capacity - length q) payload]> (dn_queues d))
    (dn_emits d ++ [b2z sid]) (dn_uart d ++ wire TAck)).
Proof.
  intros Hv Ha Hno Hd Hq.
  pose proof (valid_stream_id_selectable _ Hv) as Hsel. rewrite z2b_b2z in Hsel.
  rewrite frame_wires, down_bytes_tokens by (by apply frame_data_tokens).
  unfold frame_tokens. rewrite !foldl_app. cbn [foldl down_step].
  pose proof Ha as Ha'. unfold accepts, queue_of in Ha'.
  destruct (console_mux_sink_for_stream sinks (b2z sid)) as [s|] eqn:Hsk; [|done].
  assert (Hemit : sk_has_emit s = true) by (by destruct (sk_has_buf s), (sk_has_emit s)).
  unfold down_select, down_ready. rewrite Hd, Hno, Hsk.
  rewrite (down_puts _ _ _ k q); [|cbn; apply b2z_range|done|done].
  cbn [dn_cur dn_queues dn_emits dn_uart]. rewrite Hsk, Hemit.
  unfold down_ack. cbn [dn_cur dn_queues dn_emits dn_uart]. by rewrite Hv.
Qed.

(** Frames of one stream fill its ring, with a notification and an
    acknowledgement each. *)
Lemma down_frames sinks sid k chunks d q :
  console_mux_valid_stream_id (b2z sid) = true → accepts sinks (b2z sid) k →
  console_mux_sink_for_stream sinks (-1) = None → dn_cur d = -1 → dn_queues d !! k = Some q →
  foldl (down_byte sinks) (false, d) (concat (map (frame sid) chunks)) =
  (false, Down (-1)
    (<[k := q ++ take (Z.to_nat ring_capacity - length q) (concat chunks)]> (dn_queues d))
    (dn_emits d ++ replicate (length chunks) (b2z sid))
    (dn_uart d ++ concat (replicate (length chunks) (wire TAck)))).
Proof.
  intros Hv Ha Hno. revert d q. induction chunks as [|c chunks IH]; intros d q Hd Hq; cbn [map concat].
  { cbn. rewrite take_nil, !app_nil_r, list_insert_id by done. destruct d. cbn in *. by subst. }
  rewrite foldl_app, (down_one_frame sinks sid k c d q) by done.
  rewrite (IH (Down _ _ _ _) (q ++ take (Z.to_nat ring_capacity - length q) c)); cbn; [|done|].
  2:{ apply list_lookup_insert_eq. by eapply lookup_lt_Some. }
  rewrite list_insert_insert_eq, <-!app_assoc. do 2 f_equal. f_equal. f_equal.
  rewrite take_app. f_equal. f_equal. rewrite !length_app, length_take. lia.
Qed.

(** The number of fragments. *)
Lemma cut_count (size n : nat) (data : list byte) :
  (0 < size)%nat → (length data ≤ n)%nat →
  Z.of_nat size * (Z.of_nat (length (cut size n data)) - 1) < Z.of_nat (length data) ≤
  Z.of_nat size * Z.of_nat (length (cut size n data)).
Proof.
  intros Hs. revert data. induction n as [|n IH]; intros [|b data] Hn; cbn [cut].
  1, 3: cbn [length]; lia.
  - cbn in Hn. lia.
  - cbn [length] in *. specialize (IH (drop size (b :: data))). rewrite length_drop in IH.
    change (length (b :: data)) with (S (length data)) in IH.
    specialize (IH ltac:(lia)). set (c := length (cut size n (drop size (b :: data)))) in *.
    destruct (Nat.le_gt_cases (S (length data)) size).
    + replace (S (length data) - size)%nat with 0%nat in IH by lia.
      assert (c = 0%nat) as -> by nia. lia.
    + rewrite Nat2Z.inj_sub in IH by lia. nia.
Qed.

Lemma concat_packets_raw h sid data :
  virtioso_outer_mode (cfg h) = VIRTIOSO_OUTER_RAW →
  concat (packets h sid data) =
  concat (map (frame sid) (cut (Z.to_nat VIRTIOSO_DOWNLINK_FRAGMENT_PAYLOAD_SIZE) (length data) data)).
Proof.
  intros Hm. unfold packets. f_equal. apply map_ext. intros c. unfold packet. by rewrite Hm.
Qed.

(* ------------------------------------------------------------------ *)
(** ** Properties *)

(** C20: the guest sink loses nothing.  Against any server that accepts the
    batches whose indices lie in their buffer, printing any text from any
    dataport (but an exhausted batch) finishes without leaving the buffer,
    and every batch handed over is of the instance's stream, not empty and
    inside its buffer.  What was handed over, followed by what is pending, is
    what was pending before followed by the text; nothing is pending after a
    line end or a colon.  (In every build: reports that go to the kernel's
    console included; those that go through the dataport are the subject of
    [guest_reports].) *)
Theorem guest_prints {W} (rpc : option batch_buffer → M W (option batch_buffer)) inv
    {Hserver : batch_server rpc inv} sid cycles reports debug n text g b w :
  (reports = true → debug = true) → - 2 ^ 31 ≤ sid < 2 ^ 31 → inv w → gs_port g = Some b → start_ok sid b →
  ∃ g' w' bs b', for_each text (guest_putchar_putchar rpc sid cycles reports debug (S n)) (g, w) =
      Done tt (g', w') ∧
    calls rpc w bs w' ∧ Forall (batch_of sid) bs ∧ gs_port g' = Some b' ∧ start_ok sid b' ∧
    concat (map batch_payload bs) ++ kept sid b' = kept sid b ++ map z2b text ∧
    (∀ c, last text = Some c → flush_char (z2b c) = true → kept sid b' = []).
Proof.
  intros Hrep Hs Hi Hp Hst.
  destruct (wp_total_done _ _ _ (wp_guest_print rpc inv sid Hs cycles reports debug Hrep total n text b (g, w)
    (conj Hp Hi) Hst)) as ([] & [g' w'] & Hrun & bs & b' & (Hc & Hb & [Hp' _]) & Hst' & Hpay & Hl).
  exists g', w', bs, b'. split_and!; try done.
  intros c Hc'. rewrite Hc' in Hl. by destruct Hl.
Qed.

(** C20 with the Mux as the server, from a dataport full of another stream. *)
Lemma guest_prints_witness :
  let rpc := Mux.mux_batch_batch demo_cycles demo_json in
  let b := demo_batch 9 0 (replicate 4084 x41) in
  let text := map b2z (bs "login: root") in
  ∃ g' w' bs b', for_each text (guest_putchar_putchar rpc 1 demo_cycles true true 1)
      (gsink_init (Some b), demo_mux) = Done tt (g', w') ∧
    calls rpc demo_mux bs w' ∧ Forall (batch_of 1) bs ∧ gs_port g' = Some b' ∧ start_ok 1 b' ∧
    concat (map batch_payload bs) ++ kept 1 b' = kept 1 b ++ map z2b text ∧
    (∀ c, last text = Some c → flush_char (z2b c) = true → kept 1 b' = []).
Proof.
  intros rpc b text.
  apply (guest_prints rpc (λ m, Z.of_nat (length (mx_frame m)) = FRAME_SIZE) 1 demo_cycles true true 0
    text (gsink_init (Some b)) b demo_mux).
  - done.
  - lia.
  - exact demo_frame_size.
  - reflexivity.
  - constructor; [constructor; vm_compute; intuition congruence|].
    intros H. vm_compute in H. discriminate H.
Defined.

(** From the Mux to the host.  Any sequence of batches from any clients
    of known streams, served by the Mux and fed to the host in raw mode,
    reaches the PTYs: each stream's PTY is offered exactly the payloads of its
    batches, in order, however the Mux split them into frames. *)
Theorem mux_to_host E h r cycles json l m :
  host_idle E h r → mux_up m → Forall (λ b, batch_typed b ∧ bb_tail b ≤ BATCH_SIZE) l →
  Forall (λ f, known h f.1) (sent l) →
  ∃ m' out r' h', serve cycles json l m = Done tt m' ∧ mx_uart m' = mx_uart m ++ out ∧
    feed_all (feed_nvidia_outer_or_virtioso_raw E) out r h = Done (0, r') h' ∧
    host_idle E h' r' ∧ receives h r (frames_recv h out (sent l)) h' r'.
Proof.
  intros Hh [Hf Hs Hr] Hl Hk.
  destruct (serve_run cycles json l m Hl Hf Hs) as (m' & Hrun & Hu & _).
  destruct (host_takes_uplinks E h r (sent l) Hh Hk) as (r' & h' & Hfeed & Hidle & Hrec).
  rewrite Hr, serve_wire_uplinks in Hu. by exists m', (uplinks (sent l)), r', h'.
Qed.

(** [mux_to_host] on batches of two streams, one larger than the frame buffer. *)
Lemma mux_to_host_witness :
  let m := set_mx_registry_emitted true demo_mux in
  let l := [demo_batch 1 0 (replicate 3000 xfe); demo_batch 254 0 (bs "bad"); demo_batch 2 5 (bs "ok")] in
  ∃ m' out r' h', serve demo_cycles demo_json l m = Done tt m' ∧ mx_uart m' = mx_uart m ++ out ∧
    feed_all (feed_nvidia_outer_or_virtioso_raw good_env) out rx_init demo_streams = Done (0, r') h' ∧
    host_idle good_env h' r' ∧
    receives demo_streams rx_init (frames_recv demo_streams out (sent l)) h' r'.
Proof.
  intros m l. apply (mux_to_host good_env demo_streams rx_init demo_cycles demo_json l m).
  - constructor; [apply demo_streams_ready|vm_compute; reflexivity|reflexivity|reflexivity].
  - constructor; vm_compute; reflexivity.
  - repeat (constructor; [split; [constructor; vm_compute; intuition congruence|
      vm_compute; congruence]|]). constructor.
  - repeat (constructor; [split; vm_compute; congruence|]). constructor.
Defined.

(** C3: from a guest to its terminal.  What a guest prints through its sink
    and the Mux appears, character for character and in order, on the PTY of
    its stream at the host: all of it after a line end, and otherwise all but
    the characters still pending in the dataport.  No other stream's PTY
    receives anything. *)
Theorem guest_to_pty E h r cycles json gcycles reports debug n sid text g b m :
  (reports = true → debug = true) → host_idle E h r → known h (z2b sid) → console_mux_valid_stream_id sid = true → mux_up m →
  gs_port g = Some b → start_ok sid b →
  ∃ g' m' out b' shown r' h',
    for_each text (guest_putchar_putchar (Mux.mux_batch_batch cycles json) sid gcycles reports debug (S n))
      (g, m) = Done tt (g', m') ∧
    mx_uart m' = mx_uart m ++ out ∧ gs_port g' = Some b' ∧
    shown ++ kept sid b' = kept sid b ++ map z2b text ∧
    (∀ c, last text = Some c → flush_char (z2b c) = true → kept sid b' = []) ∧
    feed_all (feed_nvidia_outer_or_virtioso_raw E) out r h = Done (0, r') h' ∧
    host_idle E h' r' ∧
    receives h r (λ j, if bool_decide (j = 0%nat) then out
                       else if index_of h (z2b sid) =? Z.of_nat j then shown else []) h' r'.
Proof.
  intros Hrep Hh Hk Hv [Hf Hs Hr] Hp Hst. pose proof (valid_stream_id_range _ Hv).
  destruct (wp_total_done _ _ _ (wp_guest_print (Mux.mux_batch_batch cycles json)
    (λ m, Z.of_nat (length (mx_frame m)) = FRAME_SIZE) sid ltac:(lia) gcycles reports debug Hrep total n text b (g, m)
    (conj Hp Hf) Hst)) as ([] & [g' m'] & Hrun & bs & b' & (Hc & Hb & [Hp' _]) & _ & Hpay & Hl).
  assert (Hok : Forall (λ b, batch_typed b ∧ bb_tail b ≤ BATCH_SIZE) bs).
  { eapply Forall_impl; [exact Hb|]. intros c Hbc. by destruct (batch_of_live sid c Hv Hbc) as (_ & _ & ?). }
  destruct (serve_run cycles json bs m Hok Hf Hs) as (m1 & Hserve & Hu & _).
  pose proof (calls_serve _ _ _ _ _ Hc) as Hserve'. cbn [snd] in Hserve'.
  rewrite Hserve in Hserve'. injection Hserve' as ->.
  assert (Hknown : Forall (λ f, known h f.1) (sent bs)).
  { rewrite (sent_stream sid bs Hv Hb). clear -Hk. induction bs; by constructor. }
  destruct (host_takes_uplinks E h r (sent bs) Hh Hknown) as (r' & h' & Hfeed & Hidle & Hrec).
  rewrite Hr, serve_wire_uplinks in Hu.
  exists g', m', (uplinks (sent bs)), b', (concat (map batch_payload bs)), r', h'.
  split_and!; try done.
  - intros c Hc'. rewrite Hc' in Hl. by destruct Hl.
  - destruct Hrec as [Hst' Hrec]. split; [done|]. intros j p nn cc Hj Hpj Hn Hcc.
    specialize (Hrec j p nn cc Hj Hpj Hn Hcc). unfold uplink_recv, frames_recv in Hrec.
    rewrite (sent_stream sid bs Hv Hb), payload_for_stream in Hrec.
    by rewrite <-(sent_stream sid bs Hv Hb) in Hrec.
Qed.

(** C3 on a guest printing a line. *)
Lemma guest_to_pty_witness :
  let m := set_mx_registry_emitted true demo_mux in
  let b := demo_batch 0 0 [] in
  let text := map b2z (bs "hi" ++ [xfe; x0a]) in
  ∃ g' m' out b' shown r' h',
    for_each text (guest_putchar_putchar (Mux.mux_batch_batch demo_cycles demo_json) 1 demo_cycles
      false false 1) (gsink_init (Some b), m) = Done tt (g', m') ∧
    mx_uart m' = mx_uart m ++ out ∧ gs_port g' = Some b' ∧
    shown ++ kept 1 b' = kept 1 b ++ map z2b text ∧
    (∀ c, last text = Some c → flush_char (z2b c) = true → kept 1 b' = []) ∧
    feed_all (feed_nvidia_outer_or_virtioso_raw good_env) out rx_init demo_streams = Done (0, r') h' ∧
    host_idle good_env h' r' ∧
    receives demo_streams rx_init
      (λ j, if bool_decide (j = 0%nat) then out
            else if index_of demo_streams (z2b 1) =? Z.of_nat j then shown else []) h' r'.
Proof.
  intros m b text.
  apply (guest_to_pty good_env demo_streams rx_init demo_cycles demo_json demo_cycles false false 0 1 text
    (gsink_init (Some b)) b m).
  - done.
  - constructor; [apply demo_streams_ready|vm_compute; reflexivity|reflexivity|reflexivity].
  - split; vm_compute; congruence.
  - reflexivity.
  - constructor; vm_compute; reflexivity.
  - reflexivity.
  - constructor; [constructor; vm_compute; intuition congruence|]. intros _. vm_compute. reflexivity.
Defined.

(** C4: from a terminal to a client.  Data written to a stream's PTY at the
    host in raw mode, received by the Mux between frames, is appended to the
    ring of the stream's client, all of it when there is room and to no other
    ring; the client is notified and the host sent an acknowledgement once
    per 512 bytes or part of them. *)
Theorem host_to_ring E fuel i data h cycles sinks k q m :
  prompt E (tty_fd h) → alloc_ok E → (0 < fuel)%nat → tx_ok h → 0 ≤ i < pty_max_count h →
  virtioso_mode_enabled (cfg h) = true → virtioso_outer_mode (cfg h) = VIRTIOSO_OUTER_RAW →
  i ≠ raw_pty_idx (cfg h) → i ≠ virtioso_default_pty_idx (cfg h) →
  down_ok sinks m → mx_rx_escape m = false → mx_rx_stream m = -1 →
  console_mux_sink_for_stream sinks (-1) = None →
  let sid := b2z (stream_tag h i) in
  console_mux_valid_stream_id sid = true → accepts sinks sid k →
  (ring_items <$> mx_rings m) !! k = Some q →
  Z.of_nat (length q + length data) ≤ ring_capacity →
  ∃ h' line m' nf, write_data_to_uart E fuel i data h = Done 0 h' ∧
    accepts_on h h' (tty_fd h) line ∧
    for_each line (console_mux_feed_downlink_byte cycles sinks) m = Done tt m' ∧
    down_ok sinks m' ∧ mx_rx_escape m' = false ∧ mx_rx_stream m' = -1 ∧
    ring_items <$> mx_rings m' = <[k := q ++ data]> (ring_items <$> mx_rings m) ∧
    mx_emits m' = mx_emits m ++ replicate nf sid ∧
    mx_uart m' = mx_uart m ++ concat (replicate nf (wire TAck)) ∧
    512 * (Z.of_nat nf - 1) < Z.of_nat (length data) ≤ 512 * Z.of_nat nf.
Proof.
  intros Hp Ha Hf Htx Hi Hmode Hraw Hn1 Hn2 Hok He Hs Hno sid Hv Hacc Hq Hroom.
  destruct (wp_total_done _ _ _ (wp_write_complete E fuel total i data h Hp Ha Hf Htx Hi))
    as (z & h' & Hrun & -> & Hline).
  unfold downlink_wire in Hline. rewrite Hmode, (proj2 (Z.eqb_neq _ _) Hn1), (proj2 (Z.eqb_neq _ _) Hn2) in Hline.
  cbn [orb] in Hline. rewrite concat_packets_raw in Hline by done.
  set (chunks := cut _ _ data) in Hline.
  destruct (wp_total_done _ _ _ (wp_feed_downlink_all cycles sinks total
    (concat (map (frame (stream_tag h i)) chunks)) m Hok)) as ([] & m' & Hfeed & Hok' & Hd).
  unfold down_view in Hd. rewrite He in Hd.
  rewrite (down_frames sinks (stream_tag h i) k chunks (down_of m) q) in Hd by done.
  injection Hd as He' Hs' Hq' Hem' Hu'.
  exists h', (concat (map (frame (stream_tag h i)) chunks)), m', (length chunks).
  split_and!; try done.
  - rewrite Hq'. cbn [down_of dn_queues]. unfold chunks. rewrite concat_cut, take_ge; [done|lia|..].
    + unfold VIRTIOSO_DOWNLINK_FRAGMENT_PAYLOAD_SIZE. lia.
    + done.
  - apply (cut_count 512 (length data) data); lia.
  - apply (cut_count 512 (length data) data); lia.
Qed.

(** C4 on a payload of two frames. *)
Lemma host_to_ring_witness :
  let data := replicate 600 x2e in
  let h := demo_streams in
  let sid := b2z (stream_tag h 4) in
  ∃ h' line m' nf, write_data_to_uart good_env 1 4 data h = Done 0 h' ∧
    accepts_on h h' (tty_fd h) line ∧
    for_each line (console_mux_feed_downlink_byte demo_cycles demo_sinks) demo_mux = Done tt m' ∧
    down_ok demo_sinks m' ∧ mx_rx_escape m' = false ∧ mx_rx_stream m' = -1 ∧
    ring_items <$> mx_rings m' = <[1%nat := [] ++ data]> (ring_items <$> mx_rings demo_mux) ∧
    mx_emits m' = mx_emits demo_mux ++ replicate nf sid ∧
    mx_uart m' = mx_uart demo_mux ++ concat (replicate nf (wire TAck)) ∧
    512 * (Z.of_nat nf - 1) < Z.of_nat (length data) ≤ 512 * Z.of_nat nf.
Proof.
  intros data h sid.
  apply (host_to_ring good_env 1 4 data h demo_cycles demo_sinks 1 [] demo_mux).
  - apply good_env_prompt.
  - intros tr n. cbn. discriminate.
  - lia.
  - apply wf_tx_ok; [exact demo_streams_wf|]. intros H. vm_compute in H. discriminate H.
  - vm_compute. intuition congruence.
  - vm_compute. reflexivity.
  - vm_compute. reflexivity.
  - vm_compute. discriminate.
  - vm_compute. discriminate.
  - exact demo_down_ok.
  - reflexivity.
  - reflexivity.
  - reflexivity.
  - vm_compute. reflexivity.
  - vm_compute. reflexivity.
  - vm_compute. reflexivity.
  - vm_compute. congruence.
Defined.
