(* ===== verification/ColdStart.v ===== *)
(** * From an assembly to the PTYs

    The whole of the uplink, started cold: the generator's document is sent by
    the Mux before its first frame, the host applies it, and from then on
    every stream's PTY receives its own console. *)

From S2P Require Import Prelude Proto CString Generator HostState HostIo Flush Registry RegistryInv Tty Startup TtySpec Demux DemuxSpec DemuxInv StartupInv Route RouteSpec Records Fds Mux MuxUplink MuxBatch MuxSpec System RegistryParse RegistrySpec.

(** What a stream's clients sent, in order. *)
Definition stream_output (sid : byte) (l : list (byte * list byte)) : list byte :=
  concat (snd <$> filter (λ f, f.1 = sid) l).

(** The host's table once it has the streams. *)
Record knows (h : host) (sts : list stream) : Prop := Knows {
  kn_wf : wf h;
  kn_num : num_proc h = 3 + Z.of_nat (length sts);
  kn_tags : active_tags h = ((λ n, Tag (Some n) x00) <$> builtin_names) ++ (stream_tag <$> sts);
  kn_input : take (Z.to_nat (num_proc h)) (virtioso_stream_input_enabled h) =
    [true; true; true] ++ (reads_console <$> sts)
}.

(* ------------------------------------------------------------------ *)
(** ** Lemmas *)

Lemma apply_terminated E s :
  apply_virtioso_registry_json E (Some (s ++ [x00])) = apply_virtioso_registry_json E (Some s).
Proof.
  assert (Hc : cstr (s ++ [x00]) = cstr s).
  { induction s as [|b s IH]; [done|]. cbn in *. by rewrite IH. }
  unfold apply_virtioso_registry_json. by rewrite Hc.
Qed.

Lemma knows_tag h sts k s :
  knows h sts → sts !! k = Some s → tags h !! (3 + k)%nat = Some (stream_tag s).
Proof.
  intros [_ _ Ht _] Hk. assert (Ha : active_tags h !! (3 + k)%nat = Some (stream_tag s)).
  { rewrite Ht, lookup_app_r by (cbn; lia). change (length _) with 3%nat.
    replace (3 + k - 3)%nat with k by lia. by rewrite list_lookup_fmap, Hk. }
  by apply active_lookup in Ha as [_ ?].
Qed.

Lemma knows_index h sts k s :
  knows h sts → sts !! k = Some s → index_of h (z2b (st_id s)) = Z.of_nat (3 + k).
Proof.
  intros Hkn Hk. pose proof (knows_tag _ _ _ _ Hkn Hk) as Ht. destruct Hkn.
  apply (find_registered h (3 + k) (stream_tag s)); try done; [lia|].
  apply lookup_lt_Some in Hk. lia.
Qed.

Lemma knows_known h sts s :
  knows h sts → s ∈ sts → usable_id (st_id s) → known h (z2b (st_id s)).
Proof.
  intros Hkn [k Hk]%list_elem_of_lookup (Hr & Hd & He). split.
  - assert (Hne : ∀ b, b2z b ≠ st_id s → negb (bool_decide (z2b (st_id s) = b)) = true).
    { intros b Hb. rewrite bool_decide_eq_false_2; [done|]. intros Heq.
      apply Hb. by rewrite <-Heq, b2z_z2b_small by lia. }
    unfold selectable. rewrite !Hne by (cbn; lia). done.
  - rewrite (knows_index _ _ _ _ Hkn Hk). lia.
Qed.

Lemma payload_for_output h sts k s l :
  knows h sts → sts !! k = Some s →
  payload_for h (Z.of_nat (3 + k)) l = stream_output (z2b (st_id s)) l.
Proof.
  intros Hkn Hk. pose proof (knows_index _ _ _ _ Hkn Hk) as Hi.
  unfold payload_for, stream_output. induction l as [|f l IH]; [done|]. cbn [map concat].
  rewrite IH, filter_cons. destruct (decide (f.1 = z2b (st_id s))) as [Heq|Hne].
  - rewrite Heq, Hi, Z.eqb_refl. done.
  - rewrite (proj2 (Z.eqb_neq _ _)); [done|]. intros Hf. apply Hne.
    destruct (find_tag_value_found (active_tags h) f.1 0) as (t & Ht & <-); [lia|fold (index_of h f.1); lia|].
    fold (index_of h f.1) in Ht. rewrite Hf, Z.sub_0_r, Nat2Z.id in Ht.
    apply active_lookup in Ht as [_ Ht]. rewrite (knows_tag _ _ _ _ Hkn Hk) in Ht. by simplify_eq.
Qed.

Lemma serve_wire_first json l :
  (length json ≤ Z.to_nat (FRAME_SIZE - 5))%nat → sent l ≠ [] →
  serve_wire json false l = wire (TRegistry json) ++ uplinks (sent l).
Proof.
  intros Hj Hl. induction l as [|b l IH]; [done|]. cbn [serve_wire]. unfold sent in *.
  rewrite filter_cons in *. destruct (batch_live b) eqn:Hb.
  - rewrite decide_True by done. rewrite serve_wire_uplinks. unfold batch_wire, registry_tokens.
    rewrite !(proj2 (Z.ltb_ge _ _)) by (unfold FRAME_SIZE in *; lia). cbn [orb map].
    unfold wires at 1, uplinks. cbn [map concat fst snd]. rewrite app_nil_r, <-app_assoc. done.
  - rewrite decide_False in * by done. by apply IH.
Qed.

Section ColdStart.
Context (E : env) (logs : Z → bool).
Hypothesis (Henv : good_fds E logs) (Ha : alloc_ok E) (Hpo : ptys_open E).
Context (types : list byte → list interface) (matches : list (list byte * list byte)).
Context (conns : list connection) (name source : list byte) (sts : list stream) (doc : list byte).
Hypothesis (Hok : assembly_ok types matches conns name source = true).
Hypothesis (Hgen : generate types matches conns name source = Some (sts, doc)).
Hypothesis (Hlen : 1 ≤ Z.of_nat (length (routed sts)) ≤ 253).

Lemma generated_ids_usable s : s ∈ routed sts → usable_id (st_id s).
Proof using Hgen Hlen.
  unfold generate in Hgen.
  destruct (component_instances types matches) as [sts'|] eqn:Hci; [|done]. cbn in Hgen.
  destruct (mux_sources conns sts'); [|done]. cbn in Hgen.
  destruct (demux_sinks conns sts' []); [|done]. cbn in Hgen. injection Hgen as -> _.
  apply (generated_usable types matches sts); [by apply component_instances_spec|lia].
Qed.

Lemma generated_nonempty : doc ≠ [].
Proof using Hgen.
  unfold generate in Hgen.
  destruct (component_instances types matches) as [sts'|]; [|done]. cbn in Hgen.
  destruct (mux_sources conns sts'); [|done]. cbn in Hgen.
  destruct (demux_sinks conns sts' []); [|done]. cbn in Hgen. by injection Hgen as _ <-.
Qed.

(** The registry record, received by a host that has just started. *)
Lemma registry_received h r :
  fresh_table h → virtioso_registry_json h = None → own E logs h →
  virtioso_outer_mode (cfg h) = VIRTIOSO_OUTER_RAW → rx_ok h r → synced r → cur_rx_stream r = -1 →
  Z.of_nat (length doc) ≤ 0xffff →
  ∃ r1 h1, feed_all (feed_nvidia_outer_or_virtioso_raw E) (wire (TRegistry doc)) r h = Done (0, r1) h1 ∧
    knows h1 (routed sts) ∧ host_idle E h1 r1.
Proof.
  intros Hft Hreg Hown Hraw Hr Hs Hcur Hdoc. pose proof (ft_wf _ Hft) as Hwf.
  pose proof (own_ready E logs Henv h r Hwf Hr Hown (proj2 Hs)) as Hrd.
  assert (Hb : body_ok doc = true).
  { pose proof generated_nonempty. unfold body_ok. destruct doc; [done|].
    apply andb_true_intro. split; [apply Z.ltb_lt; cbn; lia|by apply Z.leb_le]. }
  set (Q := λ (a : Z * rx) h1, a.1 = 0 ∧ knows h1 (routed sts) ∧
    virtioso_outer_mode (cfg h1) = VIRTIOSO_OUTER_RAW ∧ synced a.2 ∧ cur_rx_stream a.2 = -1).
  assert (Hwp : wp total (feed_all (feed_nvidia_outer_or_virtioso_raw E) (wire (TRegistry doc) ++ []) r) Q h).
  { apply (wp_mirror_record E h r Hrd Hraw total VIRTIOSO_CONTROL_REGISTRY_JSON); try done; [by left|].
    intros h2 r2 [[Hst _ _ _] Hsb _] _ Hj2. unfold body_done. rewrite Z.eqb_refl.
    unfold control_registry_done. apply wp_bind, wp_bind, wp_get. rewrite Hj2, Hreg.
    apply wp_bind, wp_modify, wp_bind. eapply wp_mono; [apply wp_emit_registry|].
    intros u h3 Hst3. cbv beta in Hst3. cbn [control_registry_json with_body set_control_state
      set_control_registry_len set_control_registry_pos set_control_registry_json] in *.
    apply wp_bind. rewrite apply_terminated.
    pose proof (fresh_table_stable _ _ Hst Hft) as Hft2.
    pose proof (st_cfg _ _ Hst) as Hc2. pose proof (st_cfg _ _ Hst3) as Hc3. cbn in Hc2, Hc3.
    assert (Hft3 : fresh_table h3).
    { eapply fresh_table_stable; [exact Hst3|]. destruct Hft2 as [Hw ? ? ?].
      constructor; [by eapply wf_same; [exact Hw|..]|done..]. }
    eapply wp_mono; [by apply (wp_apply_generated E _ _ _ _ _ _ _ h3 Ha Hpo Hft3 Hok Hgen Hlen)|].
    intros z h4 (-> & Hwf4 & Hk & Hn & Ht & Hi). cbn [negb Z.eqb]. apply wp_ret.
    change (0 <? 0) with false. cbv iota. cbn [feed_all]. apply wp_ret.
    destruct Hsb as (n' & c' & -> & _).
    split_and!; [done| |by rewrite (kp_cfg _ _ _ Hk), Hc3, Hc2|by destruct Hs|done].
    constructor; [done|done| |done]. rewrite Ht. by rewrite (ft_tags _ Hft3). }
  rewrite app_nil_r in Hwp.
  pose proof (wp_feed_all total _ (wire (TRegistry doc)) r h (λ c r h, wp_feed_outer E total c r h) Hwf Hr) as Hsafe.
  destruct (wp_total_done _ _ _ (wp_conj _ _ _ _ _ Hsafe Hwp))
    as ([z r1] & h1 & Hrun & (Hwf1 & _ & Hok1) & Hz & Hkn & Hraw1 & Hs1 & Hc1).
  cbn [fst snd] in *. subst z.
  pose proof (own_feed_all E logs Henv (wire (TRegistry doc)) r h Hown) as Hown1.
  unfold wp in Hown1. rewrite Hrun in Hown1.
  exists r1, h1. split; [done|]. split; [done|].
  constructor; [|done|apply Hs1|done]. eapply own_ready; [done|done|by apply Hok1|done|apply Hs1].
Qed.

End ColdStart.

(* ------------------------------------------------------------------ *)
(** ** The property *)

(** C2: from an assembly to the PTYs.  Take an assembly the generator accepts
    (1 to 253 console streams with plain names), a host that started in
    Virtioso raw mode on an operating system that gives it memory, PTYs and
    threads and at most fails softly on the PTYs, and a Mux that has just
    started with that document.  Whatever batches the streams' clients hand to
    the Mux, in any order, what it sends makes the host add exactly the
    generated streams and then offer to each stream's PTY exactly that
    stream's payloads, in order, by its line-ending patch. *)
Theorem cold_start E logs fuel o h types matches conns name source sts doc cycles l m :
  good_fds E logs → alloc_ok E → ptys_open E →
  opt_virtioso o = true → opt_outer_mode o = VIRTIOSO_OUTER_RAW →
  main_start E fuel o (host_boot o) = Done 0 h →
  assembly_ok types matches conns name source = true →
  generate types matches conns name source = Some (sts, doc) →
  1 ≤ Z.of_nat (length (routed sts)) ≤ 253 → Z.of_nat (length doc) ≤ FRAME_SIZE - 5 →
  Z.of_nat (length (mx_frame m)) = FRAME_SIZE → mx_serial m = true → mx_registry_emitted m = false →
  Forall (λ b, batch_typed b ∧ bb_tail b ≤ BATCH_SIZE) l → sent l ≠ [] →
  Forall (λ f, ∃ s, s ∈ routed sts ∧ f.1 = z2b (st_id s)) (sent l) →
  ∃ m' out r1 h1 r' h',
    serve cycles doc l m = Done tt m' ∧ mx_uart m' = mx_uart m ++ wire (TRegistry doc) ++ out ∧
    feed_all (feed_nvidia_outer_or_virtioso_raw E) (wire (TRegistry doc)) rx_init h = Done (0, r1) h1 ∧
    feed_all (feed_nvidia_outer_or_virtioso_raw E) out r1 h1 = Done (0, r') h' ∧
    knows h' (routed sts) ∧ host_idle E h' r' ∧
    ∀ k s, routed sts !! k = Some s →
      ∃ p n c, pty_data h1 !! (3 + k)%nat = Some p ∧
        offered (td_fd p) (trace h') = offered (td_fd p) (trace h1) ++
          (chan h1 n c (stream_output (z2b (st_id s)) (sent l))).1.1.
Proof.
  intros Henv Ha Hpo Hv Hraw Hstart Hok Hgen Hlen Hdoc Hf Hser Hem Hl Hne Hsent.
  pose proof (wp_main_start E fuel partial o Hv (opens_partial _ _ _)) as Hb.
  pose proof (wp_main_start_fds E logs Henv fuel o Hv) as Ho.
  unfold wp in Hb, Ho. rewrite Hstart in Hb, Ho. specialize (Hb eq_refl). specialize (Ho eq_refl).
  destruct (registry_received E logs Henv Ha Hpo _ _ _ _ _ _ _ Hok Hgen Hlen h rx_init)
    as (r1 & h1 & Hrun1 & Hkn & Hidle); try done.
  { by eapply booted_fresh. }
  { by apply Hb. }
  { by rewrite (bt_outer _ _ Hb). }
  { apply rx_init_ok. rewrite (bt_num _ _ Hb). lia. }
  { unfold FRAME_SIZE in *. lia. }
  assert (Hknown : Forall (λ f, known h1 f.1) (sent l)).
  { eapply Forall_impl; [exact Hsent|]. intros f (s & Hs & ->).
    eapply knows_known; [done..|]. by eapply generated_ids_usable. }
  destruct (host_takes_uplinks E h1 r1 (sent l) Hidle Hknown) as (r' & h' & Hrun2 & Hidle2 & Hst & Hrec).
  destruct (serve_run cycles doc l m Hl Hf Hser) as (m' & Hserve & Hu & _).
  rewrite Hem, serve_wire_first in Hu by (done || lia).
  exists m', (uplinks (sent l)), r1, h1, r', h'. split_and!; try done.
  { pose proof (hi_ready _ _ _ Hidle2) as Hrd. destruct Hkn, Hst.
    constructor; [apply Hrd|congruence|unfold active_tags in *; congruence|congruence]. }
  intros k s Hk. pose proof (hi_ready _ _ _ Hidle) as Hrd.
  pose proof (rd_wf _ _ _ Hrd) as Hwf. pose proof (rd_ok _ _ _ Hrd) as Hr.
  pose proof (lookup_lt_Some _ _ _ Hk) as Hkl. pose proof (kn_num _ _ Hkn).
  assert (Hlt : (3 + k < NPTY)%nat) by (unfold NPTY; lia).
  destruct (lookup_lt_is_Some_2 (pty_data h1) (3 + k)) as [p Hp]; [by rewrite (sh_pty _ _ (wf_shape _ Hwf))|].
  destruct (lookup_lt_is_Some_2 (seen_n r1) (3 + k)) as [n Hn]; [by rewrite (ro_seen_n _ _ Hr)|].
  destruct (lookup_lt_is_Some_2 (seen_r r1) (3 + k)) as [c Hc]; [by rewrite (ro_seen_r _ _ Hr)|].
  exists p, n, c. split; [done|].
  destruct (Hrec (3 + k)%nat p n c) as [Hoff _]; [rewrite (wf_max _ Hwf); lia|done..|].
  rewrite Hoff. unfold uplink_recv, frames_recv. rewrite bool_decide_eq_false_2 by done.
  by rewrite (payload_for_output h1 (routed sts) k s).
Qed.

Lemma streams_sent sts (l : list (byte * list byte)) :
  forallb (λ f, existsb (λ s, bool_decide (f.1 = z2b (st_id s))) sts) l = true →
  Forall (λ f, ∃ s, s ∈ sts ∧ f.1 = z2b (st_id s)) l.
Proof.
  intros Hl. apply Forall_forall. intros f Hf. rewrite forallb_forall in Hl.
  apply list_elem_of_In, Hl, existsb_exists in Hf as (s & Hs%list_elem_of_In & Heq).
  exists s. split; [done|by apply bool_decide_eq_true in Heq].
Qed.

(** C2 on two guests and a logger that print, with a registry of 3 streams. *)
Lemma cold_start_witness :
  let sts := demo_generated.1 in
  let doc := demo_generated.2 in
  let l := [demo_batch 1 0 (bs "one"); demo_batch 254 0 (bs "bad"); demo_batch 3 7 [xfe; x0a];
            demo_batch 1 9 (bs "more")] in
  Z.of_nat (length doc) ≤ FRAME_SIZE - 5 ∧
  ∃ m' out r1 h1 r' h',
    serve demo_cycles doc l demo_mux = Done tt m' ∧
    mx_uart m' = mx_uart demo_mux ++ wire (TRegistry doc) ++ out ∧
    feed_all (feed_nvidia_outer_or_virtioso_raw good_env) (wire (TRegistry doc)) rx_init demo_host
      = Done (0, r1) h1 ∧
    feed_all (feed_nvidia_outer_or_virtioso_raw good_env) out r1 h1 = Done (0, r') h' ∧
    knows h' (routed sts) ∧ host_idle good_env h' r' ∧
    ∀ k s, routed sts !! k = Some s →
      ∃ p n c, pty_data h1 !! (3 + k)%nat = Some p ∧
        offered (td_fd p) (trace h') = offered (td_fd p) (trace h1) ++
          (chan h1 n c (stream_output (z2b (st_id s)) (sent l))).1.1.
Proof.
  intros sts doc l. assert (Hd : Z.of_nat (length doc) ≤ FRAME_SIZE - 5) by (vm_compute; congruence).
  split; [exact Hd|].
  apply (cold_start good_env (λ _, true) 1 (demo_options []) demo_host demo_types demo_matches
    demo_conns (bs "vm_multi") (bs "apps/vm_multi/vm_multi.camkes") sts doc demo_cycles l demo_mux
    good_env_fds (λ tr n, ltac:(done)) good_env_ptys);
    [reflexivity|reflexivity|vm_compute; reflexivity|vm_compute; reflexivity|vm_compute; reflexivity
    |vm_compute; split; congruence|exact Hd|exact demo_frame_size|reflexivity|reflexivity|..].
  - repeat (constructor; [split; [constructor; vm_compute; intuition congruence|
      vm_compute; congruence]|]). constructor.
  - vm_compute. discriminate.
  - apply (streams_sent (routed sts) (sent l)). vm_compute. reflexivity.
Defined.
