(* ===== verification/Muxd.v ===== *)
(** * The Linux daemon

    [linux/virtioso-mux-proto] (the frame encoders) and [linux/virtioso-muxd]:
    the pool of stream ids, the task of each client, the bounded channel and
    the sink task, as a step relation whose interleaving points are the
    [await]s of the source.  A panic is an undefined outcome of the pool's
    operations and an absent frame of the encoder's. *)

From S2P Require Import Prelude.

(* ------------------------------------------------------------------ *)
(** ** [virtioso-mux-proto] *)

Definition ESC : byte := xfe.
Definition ESC_DEFAULT : byte := x00.
Definition ESC_CONTROL : byte := xfd.
Definition CTRL_CONNECTED : byte := x01.
Definition CTRL_DISCONNECTED : byte := x04.

Definition U16_MAX : Z := 0xffff.

(** [encode_data_frame(stream_id, payload, out)]; [debug] tells whether
    [debug_assert!] is compiled in, and a failed one panics. *)
Definition encode_data_frame (debug : bool) (stream_id : Z) (payload out : list byte)
    : option (list byte) :=
  if debug && negb ((0x01 <=? stream_id) && (stream_id <=? 0xfc)) then None
  else
    Some (out ++ [ESC] ++ [z2b stream_id] ++
          concat (map (λ b, (if bool_decide (b = ESC) then [ESC] else []) ++ [b]) payload) ++
          [ESC] ++ [ESC_DEFAULT]).

(** [encode_control_frame(ctrl_type, stream_id, name, out)]. *)
Definition encode_control_frame (ctrl_type : byte) (stream_id : Z) (name out : list byte)
    : list byte :=
  let payload_len := 1 + Z.of_nat (length name) in
  let payload_len := Z.min payload_len U16_MAX in
  let len_hi := z2b (Z.shiftr payload_len 8) in
  let len_lo := z2b payload_len in
  let name_len := payload_len - 1 in
  out ++ [ESC] ++ [ESC_CONTROL] ++ [ctrl_type] ++ [len_hi] ++ [len_lo] ++ [z2b stream_id] ++
  take (Z.to_nat name_len) name.

(* ------------------------------------------------------------------ *)
(** ** [IdPool] *)

(** [next: u8] and [used: [bool; 256]]. *)
Record id_pool : Type := IdPool { ip_next : Z; ip_used : list bool }.

Definition set_next (v : Z) (p : id_pool) : id_pool := IdPool v (ip_used p).
Definition set_used (v : list bool) (p : id_pool) : id_pool := IdPool (ip_next p) v.

Definition pool_new : id_pool :=
  let used := replicate 256 false in
  IdPool 1 (<[0xfe%nat := true]> (<[0xfd%nat := true]> (<[0x00%nat := true]> used))).

(** The loop of [alloc]; at most 255 turns, see [alloc_spec]. *)
Fixpoint alloc_loop (fuel : nat) (start : Z) : M id_pool Z :=
  match fuel with
  | O => halt OutOfFuel
  | S fuel' =>
      p <- get ;;
      let id := ip_next p in
      let next := (id + 1) mod 256 in
      let next := if next =? 0 then 1 else next in
      modify (set_next next) ;;;
      used <- arr_get (ip_used p) id ;;
      if negb used then
        l <- arr_set (ip_used p) id true ;;
        modify (set_used l) ;;;
        ret id
      else if next =? start then ret 0
      else alloc_loop fuel' start
  end.

Definition alloc_id : M id_pool Z :=
  p <- get ;;
  alloc_loop 255 (ip_next p).

Definition free_id (id : Z) : M id_pool unit :=
  if negb (id =? 0x00) && negb (id =? 0xfd) && negb (id =? 0xfe) then
    p <- get ;;
    l <- arr_set (ip_used p) id false ;;
    modify (set_used l)
  else ret tt.

(* ------------------------------------------------------------------ *)
(** ** [String::from_utf8_lossy]

    Each maximal invalid part becomes U+FFFD.  [utf8_step] takes one character
    or one invalid part off the front: what is put out and how much is read. *)

Definition in_range (lo hi b : byte) : bool := (b2z lo <=? b2z b) && (b2z b <=? b2z hi).
Definition is_cont (b : byte) : bool := in_range x80 xbf b.
Definition REPLACEMENT : list byte := [xef; xbf; xbd].

(** The second bytes that may follow a lead byte of three or four. *)
Definition second_ok (b c : byte) : bool :=
  if bool_decide (b = xe0) then in_range xa0 xbf c
  else if bool_decide (b = xed) then in_range x80 x9f c
  else if bool_decide (b = xf0) then in_range x90 xbf c
  else if bool_decide (b = xf4) then in_range x80 x8f c
  else is_cont c.

(** [source[i]], or 0 outside. *)
Definition safe_get (l : list byte) (i : nat) : byte := default x00 (l !! i).

Definition utf8_step (b : byte) (l : list byte) : list byte * nat :=
  let good n := (b :: take n l, n) in
  let bad n := (REPLACEMENT, n) in
  if b2z b <? 128 then good 0%nat
  else if in_range xc2 xdf b then
    if is_cont (safe_get l 0) then good 1%nat else bad 0%nat
  else if in_range xe0 xef b then
    if negb (second_ok b (safe_get l 0)) then bad 0%nat
    else if is_cont (safe_get l 1) then good 2%nat else bad 1%nat
  else if in_range xf0 xf4 b then
    if negb (second_ok b (safe_get l 0)) then bad 0%nat
    else if negb (is_cont (safe_get l 1)) then bad 1%nat
    else if is_cont (safe_get l 2) then good 3%nat else bad 2%nat
  else bad 0%nat.

Fixpoint lossy_loop (fuel : nat) (l : list byte) : list byte :=
  match fuel, l with
  | S fuel', b :: l' =>
      let '(out, n) := utf8_step b l' in out ++ lossy_loop fuel' (drop n l')
  | _, _ => []
  end.

Definition from_utf8_lossy (l : list byte) : list byte := lossy_loop (length l) l.

(* ------------------------------------------------------------------ *)
(** ** The channel *)

(** [mpsc::channel(256)]: the frames in it, and whether the receiver lives. *)
Record channel : Type := Channel { ch_queue : list (list byte); ch_open : bool }.
Definition CHANNEL_CAPACITY : nat := 256.

(** [tx.send(frame).await]: nothing while the channel is full; otherwise
    whether it was sent. *)
Definition send (frame : list byte) (ch : channel) : option (bool * channel) :=
  if negb (ch_open ch) then Some (false, ch)
  else if (length (ch_queue ch) <? CHANNEL_CAPACITY)%nat
  then Some (true, Channel (ch_queue ch ++ [frame]) true)
  else None.

(* ------------------------------------------------------------------ *)
(** ** The tasks *)

(** Where the task of a client is in [handle_client]. *)
Inductive client : Type :=
| Enrolling                                   (** reading the name *)
| Replying (id : Z) (name : list byte)        (** about to send the id back *)
| Announcing (id : Z) (name : list byte)      (** about to send CONNECTED *)
| Reading (id : Z) (name : list byte)         (** in the loop *)
| Closing (id : Z) (name : list byte)         (** about to send DISCONNECTED *)
| Freeing (id : Z)                            (** about to give the id back *)
| Gone
| Panicked (id : Z).

(** The records a client's task sends. *)
Inductive msg : Type :=
| Connected (id : Z) (name : list byte)
| Data (id : Z) (payload : list byte)
| Disconnected (id : Z) (name : list byte).

Definition MAX_READ : nat := 4096.

Record daemon : Type := Daemon {
  dm_pool : id_pool;
  dm_chan : channel;
  dm_sink : list byte;
  dm_clients : list client
}.

Definition muxd_init : daemon := Daemon pool_new (Channel [] true) [] [].

(** What a [send] adds to the record of the run. *)
Definition sent_msg (ok : bool) (m : msg) : list msg := if ok then [m] else [].

Section Tasks.
Context (debug : bool).

(** One step of [handle_client] between two [await]s: the client's place, the
    pool and the channel before and after, and what was sent. *)
Inductive handle_client : client → id_pool → channel → client → id_pool → channel → list msg → Prop :=
| hc_enroll_error p ch :
    handle_client Enrolling p ch Gone p ch []
| hc_enroll p ch name_buf id p' :
    (0 < length name_buf ≤ 255)%nat → alloc_id p = Done id p' →
    handle_client Enrolling p ch (Replying id (from_utf8_lossy name_buf)) p' ch []
| hc_reply_error p ch id name p' :
    free_id id p = Done tt p' →
    handle_client (Replying id name) p ch Gone p' ch []
| hc_reply p ch id name :
    handle_client (Replying id name) p ch (Announcing id name) p ch []
| hc_announce p ch id name ok ch' :
    send (encode_control_frame CTRL_CONNECTED id name []) ch = Some (ok, ch') →
    handle_client (Announcing id name) p ch (Reading id name) p ch'
      (sent_msg ok (Connected id name))
| hc_eof p ch id name :
    handle_client (Reading id name) p ch (Closing id name) p ch []
| hc_read p ch id name payload frame ok ch' :
    (0 < length payload ≤ MAX_READ)%nat →
    encode_data_frame debug id payload [] = Some frame →
    send frame ch = Some (ok, ch') →
    handle_client (Reading id name) p ch
      (if ok then Reading id name else Closing id name) p ch' (sent_msg ok (Data id payload))
| hc_read_panic p ch id name payload :
    (0 < length payload ≤ MAX_READ)%nat →
    encode_data_frame debug id payload [] = None →
    handle_client (Reading id name) p ch (Panicked id) p ch []
| hc_disconnect p ch id name ok ch' :
    send (encode_control_frame CTRL_DISCONNECTED id name []) ch = Some (ok, ch') →
    handle_client (Closing id name) p ch (Freeing id) p ch'
      (sent_msg ok (Disconnected id name))
| hc_free p ch id p' :
    free_id id p = Done tt p' →
    handle_client (Freeing id) p ch Gone p' ch [].

(** One step of [sink_task]: a frame written, or an error after a part of it,
    which drops the receiver. *)
Inductive sink_task : channel → list byte → channel → list byte → Prop :=
| st_write frame q sink :
    sink_task (Channel (frame :: q) true) sink (Channel q true) (sink ++ frame)
| st_error frame q sink part rest :
    frame = part ++ rest →
    sink_task (Channel (frame :: q) true) sink (Channel [] false) (sink ++ part).

(** The daemon: a client connects, or a task goes on. *)
Inductive step : daemon → list (nat * msg) → daemon → Prop :=
| step_accept p ch sink cs :
    step (Daemon p ch sink cs) [] (Daemon p ch sink (cs ++ [Enrolling]))
| step_client p ch sink cs c cl cl' p' ch' ms :
    cs !! c = Some cl → handle_client cl p ch cl' p' ch' ms →
    step (Daemon p ch sink cs) (map (pair c) ms) (Daemon p' ch' sink (<[c := cl']> cs))
| step_sink p ch sink cs ch' sink' :
    sink_task ch sink ch' sink' →
    step (Daemon p ch sink cs) [] (Daemon p ch' sink' cs).

(** Runs from the start, with all that was sent, in order. *)
Inductive run_of : list (nat * msg) → daemon → Prop :=
| run_init : run_of [] muxd_init
| run_step log d ms d' : run_of log d → step d ms d' → run_of (log ++ ms) d'.

End Tasks.

(* ------------------------------------------------------------------ *)
(** ** An executable form of the steps

    [act] runs one step that the scheduler, the clients and the sink choose;
    it is equivalent to [step] (MuxdSpec.v). *)

Inductive action : Type :=
| Connect                                   (** [accept] *)
| EnrollError (c : nat)
| Enroll (c : nat) (name_buf : list byte)
| ReplyError (c : nat)
| Proceed (c : nat)                         (** reply, announce, disconnect or free *)
| Eof (c : nat)
| Read (c : nat) (payload : list byte)
| SinkWrite
| SinkError (n : nat).                      (** after [n] bytes of the frame *)

Section Act.
Context (debug : bool).

(** The new place, pool, channel and what was sent. *)
Definition result : Type := client * id_pool * channel * list msg.

Definition act_send (frame : list byte) (m : msg) (p : id_pool) (ch : channel)
    (next : bool → client) : option result :=
  match send frame ch with
  | Some (ok, ch') => Some (next ok, p, ch', sent_msg ok m)
  | None => None
  end.

Definition act_client (a : action) (cl : client) (p : id_pool) (ch : channel) : option result :=
  match a, cl with
  | EnrollError _, Enrolling => Some (Gone, p, ch, [])
  | Enroll _ name_buf, Enrolling =>
      if (0 <? length name_buf)%nat && (length name_buf <=? 255)%nat then
        match alloc_id p with
        | Done id p' => Some (Replying id (from_utf8_lossy name_buf), p', ch, [])
        | Stop _ _ => None
        end
      else None
  | ReplyError _, Replying id _ =>
      match free_id id p with Done _ p' => Some (Gone, p', ch, []) | Stop _ _ => None end
  | Proceed _, Replying id name => Some (Announcing id name, p, ch, [])
  | Proceed _, Announcing id name =>
      act_send (encode_control_frame CTRL_CONNECTED id name []) (Connected id name) p ch
        (λ _, Reading id name)
  | Proceed _, Closing id name =>
      act_send (encode_control_frame CTRL_DISCONNECTED id name []) (Disconnected id name) p ch
        (λ _, Freeing id)
  | Proceed _, Freeing id =>
      match free_id id p with Done _ p' => Some (Gone, p', ch, []) | Stop _ _ => None end
  | Eof _, Reading id name => Some (Closing id name, p, ch, [])
  | Read _ payload, Reading id name =>
      if (0 <? length payload)%nat && (length payload <=? MAX_READ)%nat then
        match encode_data_frame debug id payload [] with
        | Some frame => act_send frame (Data id payload) p ch
                          (λ ok, if ok then Reading id name else Closing id name)
        | None => Some (Panicked id, p, ch, [])
        end
      else None
  | _, _ => None
  end.

(** The client whose task an action runs. *)
Definition actor (a : action) : option nat :=
  match a with
  | EnrollError c | Enroll c _ | ReplyError c | Proceed c | Eof c | Read c _ => Some c
  | Connect | SinkWrite | SinkError _ => None
  end.

Definition act (a : action) (d : daemon) : option (list (nat * msg) * daemon) :=
  match actor a with
  | Some c =>
      cl ← dm_clients d !! c;
      '(cl', p', ch', ms) ← act_client a cl (dm_pool d) (dm_chan d);
      Some (map (pair c) ms, Daemon p' ch' (dm_sink d) (<[c := cl']> (dm_clients d)))
  | None =>
      match a, dm_chan d with
      | Connect, _ => Some ([], Daemon (dm_pool d) (dm_chan d) (dm_sink d) (dm_clients d ++ [Enrolling]))
      | SinkWrite, Channel (frame :: q) true =>
          Some ([], Daemon (dm_pool d) (Channel q true) (dm_sink d ++ frame) (dm_clients d))
      | SinkError n, Channel (frame :: q) true =>
          Some ([], Daemon (dm_pool d) (Channel [] false) (dm_sink d ++ take n frame) (dm_clients d))
      | _, _ => None
      end
  end.

Fixpoint acts (l : list action) (log : list (nat * msg)) (d : daemon)
    : option (list (nat * msg) * daemon) :=
  match l with
  | [] => Some (log, d)
  | a :: l' => '(ms, d') ← act a d; acts l' (log ++ ms) d'
  end.

End Act.
