(* ===== verification/MuxdInv.v ===== *)
(** * The Linux daemon: lemmas

    The pool hands out free ids in turn; the invariant of the daemon's runs:
    what each client has sent, who holds which id, and what is in the channel
    and at the sink. *)

From S2P Require Import Prelude Proto CString Muxd.

(* ------------------------------------------------------------------ *)
(** ** The pool *)

Record pool_ok (p : id_pool) : Prop := PoolOk {
  po_len : length (ip_used p) = 256%nat;
  po_next : 1 ≤ ip_next p ≤ 255;
  po_zero : ip_used p !! 0%nat = Some true;
  po_fd : ip_used p !! 0xfd%nat = Some true;
  po_fe : ip_used p !! 0xfe%nat = Some true
}.

(** The ids in the order in which [alloc] tries them. *)
Definition candidate (start k : Z) : Z := (start - 1 + k) mod 255 + 1.

Definition in_use (p : id_pool) (id : Z) : bool := default true (ip_used p !! Z.to_nat id).

(** What [alloc] does. *)
Definition alloc_post (p : id_pool) (id : Z) (p' : id_pool) : Prop :=
  (∃ k, 0 ≤ k < 255 ∧ id = candidate (ip_next p) k ∧ in_use p id = false ∧
     (∀ j, 0 ≤ j < k → in_use p (candidate (ip_next p) j) = true) ∧
     ip_used p' = <[Z.to_nat id := true]> (ip_used p)) ∨
  (id = 0 ∧ ip_used p' = ip_used p ∧ ∀ i, 1 ≤ i ≤ 255 → in_use p i = true).

(* ------------------------------------------------------------------ *)
(** ** Lemmas: the pool *)

Lemma pool_new_ok : pool_ok pool_new.
Proof. by constructor. Qed.

Lemma candidate_range s k : 1 ≤ candidate s k ≤ 255.
Proof. unfold candidate. pose proof (Z.mod_pos_bound (s - 1 + k) 255). lia. Qed.

Lemma candidate_0 s : 1 ≤ s ≤ 255 → candidate s 0 = s.
Proof. intros Hs. unfold candidate. rewrite Z.add_0_r, Z.mod_small; lia. Qed.

Lemma candidate_255 s : 1 ≤ s ≤ 255 → candidate s 255 = s.
Proof.
  intros Hs. unfold candidate. replace (s - 1 + 255) with (s - 1 + 1 * 255) by lia.
  rewrite Z.mod_add, Z.mod_small; lia.
Qed.

Lemma candidate_next s k :
  (if (candidate s k + 1) mod 256 =? 0 then 1 else (candidate s k + 1) mod 256) = candidate s (k + 1).
Proof.
  pose proof (candidate_range s k) as Hr. unfold candidate in *.
  rewrite (Z.add_assoc (s - 1) k 1), <-(Z.add_mod_idemp_l (s - 1 + k)) by lia.
  set (m := (s - 1 + k) mod 255) in *. destruct (decide (m = 254)) as [->|Hm]; [done|].
  rewrite (Z.mod_small (m + 1) 255), Z.mod_small by lia.
  rewrite (proj2 (Z.eqb_neq _ _)); lia.
Qed.

(** Within a round the first candidate does not come back. *)
Lemma candidate_back s k : 1 ≤ s ≤ 255 → 0 < k < 255 → candidate s k ≠ s.
Proof.
  intros Hs Hk. unfold candidate. destruct (decide (s - 1 + k < 255)).
  - rewrite Z.mod_small by lia. lia.
  - replace (s - 1 + k) with (s - 1 + k - 255 + 1 * 255) by lia. rewrite Z.mod_add, Z.mod_small; lia.
Qed.

Lemma candidate_all s i : 1 ≤ s ≤ 255 → 1 ≤ i ≤ 255 → ∃ k, 0 ≤ k < 255 ∧ i = candidate s k.
Proof.
  intros Hs Hi. exists ((i - s) mod 255). split; [apply Z.mod_pos_bound; lia|].
  unfold candidate. rewrite Z.add_mod_idemp_r by lia. replace (s - 1 + (i - s)) with (i - 1) by lia.
  rewrite Z.mod_small; lia.
Qed.

Lemma in_use_lookup p id : pool_ok p → 0 ≤ id ≤ 255 → ip_used p !! Z.to_nat id = Some (in_use p id).
Proof.
  intros [Hl _ _ _ _] Hi. unfold in_use.
  destruct (lookup_lt_is_Some_2 (ip_used p) (Z.to_nat id)) as [u ->]; [lia|done].
Qed.

(** Setting an entry that is not reserved. *)
Lemma pool_ok_set p id v n :
  pool_ok p → 1 ≤ n ≤ 255 → (v = true ∨ (id ≠ 0 ∧ id ≠ 0xfd ∧ id ≠ 0xfe)) → 0 ≤ id ≤ 255 →
  pool_ok (IdPool n (<[Z.to_nat id := v]> (ip_used p))).
Proof.
  intros [Hl Hn H0 H1 H2] Hn' Hv Hi.
  assert (Hat : ∀ j : nat, (j = 0 ∨ j = 0xfd ∨ j = 0xfe)%nat → ip_used p !! j = Some true →
    <[Z.to_nat id := v]> (ip_used p) !! j = Some true).
  { intros j Hj Hu. destruct (decide (Z.to_nat id = j)) as [<-|Hne].
    - rewrite list_lookup_insert_eq by lia. destruct Hv as [->|?]; [done|lia].
    - by rewrite list_lookup_insert_ne. }
  constructor; cbn [ip_used ip_next]; [by rewrite length_insert|done|apply Hat..]; (done || tauto).
Qed.

Lemma alloc_loop_spec p : pool_ok p → ∀ fuel k,
  Z.of_nat fuel = 255 - k → 0 ≤ k → (0 < fuel)%nat →
  (∀ j, 0 ≤ j < k → in_use p (candidate (ip_next p) j) = true) →
  ∃ id p', alloc_loop fuel (ip_next p) (set_next (candidate (ip_next p) k) p) = Done id p' ∧
    pool_ok p' ∧ alloc_post p id p'.
Proof.
  intros Hp. pose proof (po_next _ Hp) as Hs. set (s := ip_next p) in *.
  induction fuel as [|fuel IH]; intros k Hf Hk H0 Hused; [lia|]. cbn [alloc_loop].
  pose proof (candidate_range s k) as Hr. set (id := candidate s k) in *.
  unfold bind at 1, get. cbn [ip_next ip_used set_next]. fold id. subst id.
  rewrite candidate_next. set (id := candidate s k) in *.
  unfold bind, modify. cbn [ip_used set_next].
  rewrite (arr_get_run _ _ (in_use p id)) by (try apply in_use_lookup; (done || lia)).
  destruct (in_use p id) eqn:Hu; cbn [negb].
  - destruct (candidate s (k + 1) =? s) eqn:Hback; z_bool.
    + assert (k + 1 = 255) as Hk1.
      { destruct (decide (k + 1 = 255)); [done|]. exfalso. apply (candidate_back s (k + 1)); (done || lia). }
      eexists 0, _. split; [reflexivity|]. split.
      * destruct Hp. constructor; try done. cbn. lia.
      * right. split; [done|]. split; [done|]. intros i Hi.
        destruct (candidate_all s i Hs Hi) as (j & Hj & ->). 
        destruct (decide (j = k)) as [->|]; [done|]. apply Hused. lia.
    + destruct (decide (k = 254)) as [->|Hk'].
      { exfalso. apply Hback. by apply candidate_255. }
      apply (IH (k + 1)); [lia|lia|lia|]. intros j Hj.
      destruct (decide (j = k)) as [->|]; [done|]. apply Hused. lia.
  - unfold set_used. cbn [ip_used set_next ip_next].
    rewrite arr_set_run by (rewrite (po_len _ Hp); lia). cbn [ret]. unfold ret.
    eexists id, _. split; [reflexivity|]. split.
    + apply pool_ok_set; [done|apply candidate_range|by left|lia].
    + left. exists k. split_and!; (done || lia).
Qed.

Lemma alloc_id_spec p :
  pool_ok p → ∃ id p', alloc_id p = Done id p' ∧ pool_ok p' ∧ alloc_post p id p'.
Proof.
  intros Hp. pose proof (po_next _ Hp) as Hs. unfold alloc_id, bind, get.
  destruct (alloc_loop_spec p Hp 255 0) as (id & p' & Hrun & Hpost); [lia..|].
  rewrite candidate_0 in Hrun by done. destruct p. eauto.
Qed.

(** An id that was handed out is usable, unless it is 0. *)
Lemma alloc_post_id p id p' :
  pool_ok p → alloc_post p id p' → 0 ≤ id ≤ 255 ∧ id ≠ 0xfd ∧ id ≠ 0xfe.
Proof.
  intros Hp [(k & Hk & -> & Hu & _)|[-> _]]; [|lia].
  pose proof (candidate_range (ip_next p) k). set (id := candidate _ _) in *.
  split; [lia|]. unfold in_use in Hu. destruct Hp as [_ _ _ Hfd Hfe].
  split; intros Heq; rewrite Heq in Hu.
  - change (Z.to_nat 0xfd) with 0xfd%nat in Hu. by rewrite Hfd in Hu.
  - change (Z.to_nat 0xfe) with 0xfe%nat in Hu. by rewrite Hfe in Hu.
Qed.

Lemma free_id_spec id p :
  pool_ok p → 0 ≤ id ≤ 255 → id ≠ 0xfd → id ≠ 0xfe →
  ∃ p', free_id id p = Done tt p' ∧ pool_ok p' ∧
    ip_used p' = if id =? 0 then ip_used p else <[Z.to_nat id := false]> (ip_used p).
Proof.
  intros Hp Hi Hd He. unfold free_id.
  rewrite (proj2 (Z.eqb_neq id 0xfd)), (proj2 (Z.eqb_neq id 0xfe)) by done. cbn [negb andb].
  destruct (id =? 0) eqn:H0; cbn [negb andb]; z_bool; [by exists p|].
  unfold bind, get. rewrite arr_set_run by (rewrite (po_len _ Hp); lia).
  eexists. split; [reflexivity|]. split; [|done].
  apply (pool_ok_set p); [done|apply Hp|by right|lia].
Qed.

(* ------------------------------------------------------------------ *)
(** ** The daemon *)

Definition msg_id (m : msg) : Z :=
  match m with Connected id _ | Data id _ | Disconnected id _ => id end.

(** The id a client's task has, from its allocation to its release. *)
Definition holds (cl : client) : option Z :=
  match cl with
  | Replying id _ | Announcing id _ | Reading id _ | Closing id _ | Freeing id | Panicked id => Some id
  | Enrolling | Gone => None
  end.

Definition id_ok (id : Z) : Prop := 0 ≤ id ≤ 255 ∧ id ≠ 0xfd ∧ id ≠ 0xfe.

(** At most 255 bytes, each of which becomes at most three. *)
Definition NAME_MAX : nat := 765.

Definition client_ok (cl : client) : Prop :=
  match cl with
  | Replying id name | Announcing id name | Reading id name | Closing id name =>
      id_ok id ∧ (length name ≤ NAME_MAX)%nat
  | Freeing id | Panicked id => id_ok id
  | Enrolling | Gone => True
  end.

Definition msg_ok (m : msg) : Prop :=
  match m with
  | Connected id name | Disconnected id name => id_ok id ∧ (length name ≤ NAME_MAX)%nat
  | Data id _ => id_ok id
  end.

(** The ids in use are exactly those that clients hold, each one of its own. *)
Record pool_inv (p : id_pool) (cs : list client) : Prop := PoolInv {
  pi_pool : pool_ok p;
  pi_clients : ∀ c cl, cs !! c = Some cl → client_ok cl;
  pi_used : ∀ c cl id, cs !! c = Some cl → holds cl = Some id → id ≠ 0 → in_use p id = true;
  pi_distinct : ∀ c cl c' cl' id, cs !! c = Some cl → cs !! c' = Some cl' →
    holds cl = Some id → holds cl' = Some id → id ≠ 0 → c = c';
  pi_held : ∀ id, id_ok id → id ≠ 0 → in_use p id = true →
    ∃ c cl, cs !! c = Some cl ∧ holds cl = Some id
}.

(** What a client sent. *)
Definition of_client (c : nat) (log : list (nat * msg)) : list msg :=
  snd <$> filter (λ e, e.1 = c) log.

(** A session: CONNECTED, data, and at the end DISCONNECTED. *)
Definition opened_session (id : Z) (name : list byte) (l : list msg) : Prop :=
  ∃ ds, l = Connected id name :: (Data id <$> ds).
Definition whole_session (id : Z) (name : list byte) (l : list msg) : Prop :=
  ∃ ds, l = Connected id name :: (Data id <$> ds) ++ [Disconnected id name].
Definition session (l : list msg) : Prop :=
  l = [] ∨ ∃ id name, opened_session id name l ∨ whole_session id name l.

(** What a client has sent, by where its task is, while the sink works. *)
Definition session_at (cl : option client) (l : list msg) : Prop :=
  match cl with
  | None | Some Enrolling | Some (Replying _ _) | Some (Announcing _ _) => l = []
  | Some (Reading id name) | Some (Closing id name) => opened_session id name l
  | Some (Freeing id) => ∃ name, whole_session id name l
  | Some Gone => l = [] ∨ ∃ id name, whole_session id name l
  | Some (Panicked id) => ∃ name, opened_session id name l
  end.

Definition sessions_inv (ch : channel) (cs : list client) (log : list (nat * msg)) : Prop :=
  ∀ c, if ch_open ch then session_at (cs !! c) (of_client c log) else session (of_client c log).

(** A record's bytes. *)
Definition encode_msg (debug : bool) (m : msg) : list byte :=
  match m with
  | Connected id name => encode_control_frame CTRL_CONNECTED id name []
  | Data id payload => default [] (encode_data_frame debug id payload [])
  | Disconnected id name => encode_control_frame CTRL_DISCONNECTED id name []
  end.
Definition encode_all (debug : bool) (l : list msg) : list byte := concat (encode_msg debug <$> l).

(** A record that was sent: the encoder did not panic. *)
Definition msg_sent (debug : bool) (m : msg) : Prop :=
  msg_ok m ∧
  match m with
  | Data id payload => (length payload ≤ MAX_READ)%nat ∧ (debug = true → 1 ≤ id ≤ 0xfc)
  | _ => True
  end.

(** The channel holds what was sent and not yet written. *)
Definition chan_inv (debug : bool) (ch : channel) (sink : list byte) (log : list (nat * msg)) : Prop :=
  (length (ch_queue ch) ≤ CHANNEL_CAPACITY)%nat ∧
  if ch_open ch then
    ∃ written pending, log.*2 = written ++ pending ∧
      ch_queue ch = encode_msg debug <$> pending ∧ sink = encode_all debug written
  else ch_queue ch = [] ∧ sink `prefix_of` encode_all debug (log.*2).

(** An id changes hands only after its holder's DISCONNECTED. *)
Definition apart (log : list (nat * msg)) : Prop :=
  ∀ l1 c m l2 c' m' l3, log = l1 ++ (c, m) :: l2 ++ (c', m') :: l3 →
    c ≠ c' → msg_id m = msg_id m' → msg_id m ≠ 0 →
    ∃ name, (c, Disconnected (msg_id m) name) ∈ l1 ++ (c, m) :: l2.

Definition tidy (ch : channel) (cs : list client) (log : list (nat * msg)) : Prop :=
  ch_open ch = true → ∀ c m, (c, m) ∈ log → msg_id m ≠ 0 →
    (∃ cl, cs !! c = Some cl ∧ holds cl = Some (msg_id m)) ∨
    ∃ name, (c, Disconnected (msg_id m) name) ∈ log.

(* ------------------------------------------------------------------ *)
(** ** Lemmas: names *)

Lemma utf8_step_spec b l :
  (length (utf8_step b l).1 ≤ 3 * (1 + Nat.min (utf8_step b l).2 (length l)))%nat.
Proof.
  unfold utf8_step. cbv zeta.
  assert (Hg : ∀ n, (length (b :: take n l) ≤ 3 * (1 + Nat.min n (length l)))%nat).
  { intros n. cbn. rewrite length_take. lia. }
  assert (Hb : ∀ n, (length REPLACEMENT ≤ 3 * (1 + Nat.min n (length l)))%nat) by (intros n; cbn; lia).
  repeat match goal with |- context [if ?c then _ else _] => destruct c end; cbn [fst snd]; auto.
Qed.

Lemma lossy_length fuel l : (length (lossy_loop fuel l) ≤ 3 * length l)%nat.
Proof.
  revert l. induction fuel as [|fuel IH]; intros [|b l]; cbn [lossy_loop]; [cbn; lia..|].
  pose proof (utf8_step_spec b l) as Hs. destruct (utf8_step b l) as [out n]. cbn [fst snd] in Hs.
  rewrite length_app. specialize (IH (drop n l)). rewrite length_drop in IH. cbn [length]. lia.
Qed.

Lemma from_utf8_lossy_length l : (length l ≤ 255)%nat → (length (from_utf8_lossy l) ≤ NAME_MAX)%nat.
Proof. intros Hl. unfold from_utf8_lossy, NAME_MAX. pose proof (lossy_length (length l) l). lia. Qed.

(** Plain text is kept. *)
Lemma from_utf8_lossy_ascii l : forallb (λ b, b2z b <? 128) l = true → from_utf8_lossy l = l.
Proof.
  unfold from_utf8_lossy. intros Hl. induction l as [|b l IH]; [done|]. cbn [forallb length lossy_loop] in *.
  apply andb_prop in Hl as [Hb Hl].
  assert (utf8_step b l = ([b], 0%nat)) as -> by (unfold utf8_step; by rewrite Hb).
  cbn [app]. by rewrite drop_0, IH.
Qed.

(* ------------------------------------------------------------------ *)
(** ** Lemmas: the invariant is kept *)

Lemma of_client_app c l1 l2 : of_client c (l1 ++ l2) = of_client c l1 ++ of_client c l2.
Proof. unfold of_client. by rewrite filter_app, fmap_app. Qed.

Lemma of_client_same c ms : of_client c (map (pair c) ms) = ms.
Proof.
  unfold of_client. induction ms as [|m ms IH]; [done|]. cbn [map]. rewrite filter_cons_True by done.
  cbn. by f_equal.
Qed.

Lemma of_client_other c c' ms : c ≠ c' → of_client c (map (pair c') ms) = [].
Proof.
  intros Hc. unfold of_client. induction ms as [|m ms IH]; [done|]. cbn [map].
  by rewrite filter_cons_False by (cbn; congruence).
Qed.

Lemma elem_of_client c m log : m ∈ of_client c log ↔ (c, m) ∈ log.
Proof.
  unfold of_client. rewrite list_elem_of_fmap. split.
  - intros ([c' m'] & -> & [Hc Hin]%list_elem_of_filter). cbn in *. by subst.
  - intros Hin. exists (c, m). split; [done|]. by apply list_elem_of_filter.
Qed.

Lemma client_update (cs : list client) c cl cl' c' cl2 :
  cs !! c = Some cl → <[c := cl']> cs !! c' = Some cl2 →
  (c' = c ∧ cl2 = cl') ∨ (c' ≠ c ∧ cs !! c' = Some cl2).
Proof.
  intros Hc Hc'. destruct (decide (c' = c)) as [->|Hne].
  - rewrite list_lookup_insert_eq in Hc' by (by eapply lookup_lt_Some). simplify_eq. by left.
  - rewrite list_lookup_insert_ne in Hc' by done. by right.
Qed.

(** Another client's entry is as before, one's own is the new one. *)
Lemma lookup_update (cs : list client) c cl cl' j :
  cs !! c = Some cl → <[c := cl']> cs !! j = if decide (j = c) then Some cl' else cs !! j.
Proof.
  intros Hc. destruct (decide (j = c)) as [->|Hne]; [|by apply list_lookup_insert_ne].
  by eapply list_lookup_insert_eq, lookup_lt_Some.
Qed.

(** A client that keeps its id, or gets none. *)
Lemma pool_inv_keep p cs c cl cl' :
  pool_inv p cs → cs !! c = Some cl → client_ok cl' → holds cl' = holds cl →
  pool_inv p (<[c := cl']> cs).
Proof.
  intros [Hp Ho Hu Hd Hl] Hc Hok Hh. constructor; [done|..].
  - intros j cj Hj. destruct (client_update _ _ _ _ _ _ Hc Hj) as [[-> ->]|[_ ?]]; eauto.
  - intros j cj id Hj. destruct (client_update _ _ _ _ _ _ Hc Hj) as [[-> ->]|[_ ?]]; rewrite ?Hh; eauto.
  - intros j cj k ck id Hj Hk Hij Hik H0.
    destruct (client_update _ _ _ _ _ _ Hc Hj) as [[-> ->]|[? ?]],
      (client_update _ _ _ _ _ _ Hc Hk) as [[-> ->]|[? ?]]; rewrite ?Hh in *; eauto.
  - intros id Hid H0 Huse. destruct (Hl id Hid H0 Huse) as (j & cj & Hj & Hij).
    exists j. rewrite (lookup_update _ _ _ _ _ Hc). destruct (decide (j = c)) as [->|]; [|by exists cj].
    exists cl'. split; [done|congruence].
Qed.

(** A client that gets an id. *)
Lemma pool_inv_alloc p p' cs c cl id cl' :
  pool_inv p cs → cs !! c = Some cl → pool_ok p' → alloc_post p id p' → client_ok cl' →
  holds cl = None → holds cl' = Some id → pool_inv p' (<[c := cl']> cs).
Proof.
  intros [Hp Ho Hu Hd Hl] Hc Hp' Ha Hok Hnone Hh. pose proof (alloc_post_id _ _ _ Hp Ha) as (Hid & _ & _).
  assert (Hmono : ∀ i, in_use p i = true → in_use p' i = true).
  { intros i Hi. unfold in_use in *. destruct Ha as [(k & _ & _ & _ & _ & ->)|(_ & -> & _)]; [|done].
    destruct (decide (Z.to_nat i = Z.to_nat id)) as [->|].
    - rewrite list_lookup_insert_eq; [done|]. rewrite (po_len _ Hp). lia.
    - by rewrite list_lookup_insert_ne. }
  assert (Hnew : id ≠ 0 → in_use p id = false ∧ in_use p' id = true).
  { intros H0. destruct Ha as [(k & _ & _ & ? & _ & Hu')|(-> & _)]; [|done]. split; [done|].
    unfold in_use. rewrite Hu', list_lookup_insert_eq; [done|]. rewrite (po_len _ Hp). lia. }
  constructor; [done|..].
  - intros j cj Hj. destruct (client_update _ _ _ _ _ _ Hc Hj) as [[-> ->]|[_ ?]]; eauto.
  - intros j cj i Hj Hi H0. destruct (client_update _ _ _ _ _ _ Hc Hj) as [[-> ->]|[_ ?]]; eauto.
    rewrite Hh in Hi. simplify_eq. by apply Hnew.
  - intros j cj k ck i Hj Hk Hij Hik H0.
    destruct (client_update _ _ _ _ _ _ Hc Hj) as [[-> ->]|[? ?]],
      (client_update _ _ _ _ _ _ Hc Hk) as [[-> ->]|[? ?]]; eauto.
    + rewrite Hh in Hij. simplify_eq. destruct (Hnew H0) as [Hf _].
      specialize (Hu k ck _ ltac:(done) Hik H0). congruence.
    + rewrite Hh in Hik. simplify_eq. destruct (Hnew H0) as [Hf _].
      specialize (Hu j cj _ ltac:(done) Hij H0). congruence.
  - intros i Hi H0 Huse. destruct (decide (i = id)) as [->|Hne].
    { exists c, cl'. split; [by eapply list_lookup_insert_eq, lookup_lt_Some|done]. }
    assert (in_use p i = true) as Huse'.
    { unfold in_use in *. destruct Ha as [(k & _ & _ & _ & _ & Heq)|(_ & Heq & _)]; rewrite Heq in Huse; [|done].
      rewrite list_lookup_insert_ne in Huse; [done|]. destruct Hi. lia. }
    destruct (Hl i Hi H0 Huse') as (j & cj & Hj & Hij). exists j, cj. split; [|done].
    rewrite (lookup_update _ _ _ _ _ Hc), decide_False; [done|]. intros ->. congruence.
Qed.

(** A client that gives its id back. *)
Lemma pool_inv_free p p' cs c cl id cl' :
  pool_inv p cs → cs !! c = Some cl → holds cl = Some id → id_ok id → free_id id p = Done tt p' →
  holds cl' = None → client_ok cl' → pool_inv p' (<[c := cl']> cs).
Proof.
  intros [Hp Ho Hu Hd Hl] Hc Hh (Hid & Hfd & Hfe) Hf Hh' Hok.
  destruct (free_id_spec id p Hp Hid Hfd Hfe) as (p2 & Hrun & Hp2 & Hu2).
  rewrite Hf in Hrun. injection Hrun as ->. constructor; [done|..].
  - intros j cj Hj. destruct (client_update _ _ _ _ _ _ Hc Hj) as [[-> ->]|[_ ?]]; eauto.
  - intros j cj i Hj Hi H0. destruct (client_update _ _ _ _ _ _ Hc Hj) as [[-> ->]|[Hne Hj']]; [congruence|].
    specialize (Hu j cj i Hj' Hi H0). unfold in_use in *. rewrite Hu2. destruct (id =? 0); [done|].
    destruct (decide (i = id)) as [->|Hii]; [by destruct Hne; eapply Hd|].
    assert (i < 0 ∨ 0 ≤ i) as [Hneg|Hpos] by lia.
    + pose proof (Ho j cj Hj') as Hcj. destruct cj; cbn in Hi, Hcj; simplify_eq; unfold id_ok in *; lia.
    + rewrite list_lookup_insert_ne; [done|]. lia.
  - intros j cj k ck i Hj Hk Hij Hik H0.
    destruct (client_update _ _ _ _ _ _ Hc Hj) as [[-> ->]|[? ?]],
      (client_update _ _ _ _ _ _ Hc Hk) as [[-> ->]|[? ?]]; (congruence || eauto).
  - intros i Hi H0 Huse.
    assert (i ≠ id ∧ in_use p i = true) as [Hne Huse'].
    { unfold in_use in *. rewrite Hu2 in Huse. destruct (id =? 0) eqn:Hz; z_bool; [by subst|].
      destruct (decide (i = id)) as [->|Hii].
      - rewrite list_lookup_insert_eq in Huse by (rewrite (po_len _ Hp); lia). done.
      - rewrite list_lookup_insert_ne in Huse; [done|]. destruct Hi. lia. }
    destruct (Hl i Hi H0 Huse') as (j & cj & Hj & Hij). exists j, cj. split; [|done].
    rewrite (lookup_update _ _ _ _ _ Hc), decide_False; [done|]. intros ->. congruence.
Qed.

Lemma send_spec frame ch ok ch' :
  send frame ch = Some (ok, ch') →
  (ch_open ch = false ∧ ok = false ∧ ch' = ch) ∨
  (ch_open ch = true ∧ ok = true ∧ (length (ch_queue ch) < CHANNEL_CAPACITY)%nat ∧
   ch' = Channel (ch_queue ch ++ [frame]) true).
Proof.
  unfold send. destruct (ch_open ch); cbn [negb]; [|intros [= <- <-]; by left].
  destruct (_ <? _)%nat eqn:Hl; [|done]. intros [= <- <-]. right. by apply Nat.ltb_lt in Hl.
Qed.

Section Invariant.
Context (debug : bool).

(** What a step of a task does to the channel. *)
Lemma hc_sends cl p ch cl' p' ch' ms :
  handle_client debug cl p ch cl' p' ch' ms → client_ok cl →
  (ms = [] ∧ ch' = ch) ∨
  ∃ m, ms = [m] ∧ ch_open ch = true ∧ (length (ch_queue ch) < CHANNEL_CAPACITY)%nat ∧
    ch' = Channel (ch_queue ch ++ [encode_msg debug m]) true ∧
    holds cl = Some (msg_id m) ∧ msg_sent debug m.
Proof.
  intros Hs Hok. destruct Hs; try by left.
  all: match goal with Hx : send _ _ = Some _ |- _ =>
    destruct (send_spec _ _ _ _ Hx) as [(_ & -> & ->)|(? & -> & ? & ->)]; [by left|right] end.
  all: eexists; split; [reflexivity|]; split_and!; try done.
  - cbn [encode_msg]. by match goal with Hx : encode_data_frame _ _ _ _ = Some _ |- _ => rewrite Hx end.
  - split; [apply Hok|]. split; [lia|]. intros ->. match goal with Hx : encode_data_frame _ _ _ _ = Some _ |- _ => unfold encode_data_frame in Hx end.
    destruct (negb _) eqn:Hneg; [done|]. z_bool. lia.
Qed.

Lemma hc_pool cl p ch cl' p' ch' ms cs c :
  handle_client debug cl p ch cl' p' ch' ms → cs !! c = Some cl → pool_inv p cs →
  pool_inv p' (<[c := cl']> cs).
Proof.
  intros Hs Hc Hi. pose proof (pi_clients _ _ Hi _ _ Hc) as Hok. pose proof (pi_pool _ _ Hi) as Hp.
  destruct Hs; try (by apply (pool_inv_keep _ _ _ _ _ Hi Hc); [exact Hok|]);
    try (by apply (pool_inv_keep _ _ _ _ _ Hi Hc); [exact (proj1 Hok)|]).
  - destruct (alloc_id_spec p Hp) as (id2 & p2 & Hrun & Hp2 & Hpost).
    assert (Done id p' = Done id2 p2) as [= <- <-] by congruence.
    eapply pool_inv_alloc; try done. split; [exact (alloc_post_id _ _ _ Hp Hpost)|apply from_utf8_lossy_length; lia].
  - eapply pool_inv_free; try done. apply Hok.
  - destruct ok; by apply (pool_inv_keep _ _ _ _ _ Hi Hc); [exact Hok|].
  - eapply pool_inv_free; try done.
Qed.

Lemma step_pool d ms d' :
  step debug d ms d' → pool_inv (dm_pool d) (dm_clients d) → pool_inv (dm_pool d') (dm_clients d').
Proof.
  intros [p ch sink cs|p ch sink cs c cl cl' p' ch' ms' Hc Hs|p ch sink cs ch' sink' Hs] Hi; cbn in *;
    [|by eapply hc_pool|done].
  assert (Hat : ∀ c cl, (cs ++ [Enrolling]) !! c = Some cl → cs !! c = Some cl ∨ cl = Enrolling).
  { intros c cl [?|[_ Hc]]%lookup_app_Some; [by left|right].
    by apply list_lookup_singleton_Some in Hc as [_ <-]. }
  destruct Hi as [Hp Ho Hu Hd Hl]. constructor; [done|..].
  - intros c cl [?| ->]%Hat; [eauto|done].
  - intros c cl id [?| ->]%Hat; [eauto|done].
  - intros c cl c' cl' id [?| ->]%Hat [?| ->]%Hat; [eauto|done..].
  - intros id Hid H0 Huse. destruct (Hl id Hid H0 Huse) as (c & cl & Hc & Hh).
    exists c, cl. split; [by apply lookup_app_l_Some|done].
Qed.

(** *** Sessions *)

Lemma session_at_session cl l : session_at cl l → session l.
Proof.
  unfold session_at, session. destruct cl as [[]|]; intros Hl; try (by left);
    try (right; eauto; fail); try (right; destruct Hl as (name & Hl); eauto; fail).
  destruct Hl as [->|(id & name & Hl)]; [by left|right; eauto].
Qed.

Lemma hc_session cl p ch cl' p' ch' ms l :
  handle_client debug cl p ch cl' p' ch' ms → ch_open ch = true →
  session_at (Some cl) l → session_at (Some cl') (l ++ ms) ∧ ch_open ch' = true.
Proof.
  intros Hs Ho Hl. destruct Hs; rewrite ?app_nil_r; (try by split; [exact Hl|done]);
    try by split; [by left|done].
  all: try match goal with Hx : send _ _ = Some _ |- _ =>
    destruct (send_spec _ _ _ _ Hx) as [(? & _)|(_ & -> & _ & ->)]; [congruence|]; split; [|done] end.
  - cbn in Hl. subst l. by exists [].
  - destruct Hl as [ds ->]. exists (ds ++ [payload]). cbn. by rewrite fmap_app.
  - split; [by exists name|done].
  - destruct Hl as [ds ->]. exists name, ds. done.
  - destruct Hl as [name Hl]. split; [right; eauto|done].
Qed.

Lemma step_sessions d ms d' log :
  step debug d ms d' → sessions_inv (dm_chan d) (dm_clients d) log →
  pool_inv (dm_pool d) (dm_clients d) →
  sessions_inv (dm_chan d') (dm_clients d') (log ++ ms).
Proof.
  intros [p ch sink cs|p ch sink cs c cl cl' p' ch' ms' Hc Hs|p ch sink cs ch' sink' Hs] Hi Hpi c0;
    specialize (Hi c0); cbn [dm_chan dm_clients] in *.
  - rewrite app_nil_r. destruct (ch_open ch); [|done].
    destruct (decide (c0 < length cs)%nat) as [Hl|Hl]; [by rewrite lookup_app_l|].
    rewrite (lookup_ge_None_2 cs) in Hi by lia. cbn in Hi. rewrite Hi.
    destruct ((cs ++ [Enrolling]) !! c0) as [cl|] eqn:Hat; [|done].
    apply lookup_app_Some in Hat as [Hat|[_ Hat]]; [apply lookup_lt_Some in Hat; lia|].
    by apply list_lookup_singleton_Some in Hat as [_ <-].
  - rewrite of_client_app.
    destruct (hc_sends _ _ _ _ _ _ _ Hs (pi_clients _ _ Hpi _ _ Hc)) as [[Hms Hch]|(m & Hms & Ho & _ & Hch & _)].
    + rewrite Hms in *. cbn [map]. subst ch'. rewrite app_nil_r. destruct (ch_open ch) eqn:Ho; [|done].
      destruct (decide (c0 = c)) as [->|Hne]; [|by rewrite list_lookup_insert_ne].
      rewrite list_lookup_insert_eq by (by eapply lookup_lt_Some). rewrite Hc in Hi.
      destruct (hc_session _ _ _ _ _ _ _ _ Hs Ho Hi) as [Hi' _]. by rewrite app_nil_r in Hi'.
    + rewrite Ho in Hi. destruct (decide (c0 = c)) as [->|Hne].
      * rewrite Hc in Hi. destruct (hc_session _ _ _ _ _ _ _ _ Hs Ho Hi) as [Hi' ->].
        rewrite list_lookup_insert_eq by (by eapply lookup_lt_Some). by rewrite of_client_same.
      * rewrite Hch, of_client_other, app_nil_r, list_lookup_insert_ne by done. exact Hi.
  - rewrite app_nil_r. destruct Hs; cbn [ch_open] in *; [done|by eapply session_at_session].
Qed.

(** *** The channel and the sink *)

Lemma encode_all_app l1 l2 : encode_all debug (l1 ++ l2) = encode_all debug l1 ++ encode_all debug l2.
Proof. unfold encode_all. by rewrite fmap_app, concat_app. Qed.

Lemma pair_snd (c : nat) (ms : list msg) : (map (pair c) ms).*2 = ms.
Proof. induction ms as [|m ms IH]; [done|]. cbn. by f_equal. Qed.

Lemma step_chan d ms d' log :
  step debug d ms d' → pool_inv (dm_pool d) (dm_clients d) →
  chan_inv debug (dm_chan d) (dm_sink d) log → chan_inv debug (dm_chan d') (dm_sink d') (log ++ ms).
Proof.
  intros [p ch sink cs|p ch sink cs c cl cl' p' ch' ms' Hc Hs|p ch sink cs ch' sink' Hs] Hpi Hi;
    cbn [dm_chan dm_sink] in *.
  - by rewrite app_nil_r.
  - destruct (hc_sends _ _ _ _ _ _ _ Hs (pi_clients _ _ Hpi _ _ Hc))
      as [[-> ->]|(m & -> & Ho & Hlen & -> & _)]; [by rewrite app_nil_r|].
    destruct Hi as [_ Hi]. rewrite Ho in Hi. destruct Hi as (w & pd & Hlog & Hq & Hsk).
    split; [cbn; rewrite length_app; cbn; lia|]. cbn [ch_open ch_queue].
    exists w, (pd ++ [m]). rewrite fmap_app, pair_snd, fmap_app, Hlog, Hq, <-app_assoc. done.
  - rewrite app_nil_r. destruct Hi as [Hlen Hi]. destruct Hs as [frame q sink|frame q sink part rest Hf];
      cbn [ch_open ch_queue length] in *; destruct Hi as (w & [|m pd] & Hlog & Hq & ->); try done.
    all: cbn in Hq; injection Hq as -> Hq.
    + split; [cbn in *; lia|]. exists (w ++ [m]), pd. split_and!; [by rewrite <-app_assoc|done|].
      rewrite encode_all_app. unfold encode_all at 3. cbn. by rewrite app_nil_r.
    + split; [cbn; lia|]. split; [done|]. rewrite Hlog, encode_all_app. apply prefix_app.
      unfold encode_all. cbn. rewrite Hf, <-app_assoc. by apply prefix_app_r.
Qed.

(** *** Ids are not shared *)

Lemma step_tidy d ms d' log :
  step debug d ms d' → pool_inv (dm_pool d) (dm_clients d) →
  sessions_inv (dm_chan d) (dm_clients d) log →
  tidy (dm_chan d) (dm_clients d) log → tidy (dm_chan d') (dm_clients d') (log ++ ms).
Proof.
  intros [p ch sink cs|p ch sink cs c cl cl' p' ch' ms' Hc Hs|p ch sink cs ch' sink' Hs] Hpi Hse Hi Ho c0 m0;
    cbn [dm_chan dm_clients] in *.
  - rewrite app_nil_r. intros Hin H0. destruct (Hi Ho c0 m0 Hin H0) as [(cl & Hcl & Hh)|?]; [left|by right].
    exists cl. split; [by apply lookup_app_l_Some|done].
  - assert (Hch : ch_open ch = true).
    { destruct (hc_sends _ _ _ _ _ _ _ Hs (pi_clients _ _ Hpi _ _ Hc)) as [[_ <-]|(m & _ & ? & _)]; done. }
    specialize (Hse c). rewrite Hch, Hc in Hse.
    destruct (hc_session _ _ _ _ _ _ _ _ Hs Hch Hse) as [Hse' _].
    assert (Hown : ∀ m, m ∈ of_client c log ++ ms' → msg_id m ≠ 0 → holds cl' = Some (msg_id m) ∨
      ∃ name, Disconnected (msg_id m) name ∈ of_client c log ++ ms').
    { intros m Hm _. unfold session_at in Hse'. set (l := _ ++ ms') in *. clearbody l.
      assert (Hopen : ∀ id name, opened_session id name l → msg_id m = id).
      { intros id name [ds ->]. apply elem_of_cons in Hm as [->|(b & -> & _)%list_elem_of_fmap]; done. }
      assert (Hwhole : ∀ id name, whole_session id name l → msg_id m = id ∧ Disconnected id name ∈ l).
      { intros id name [ds ->]. split; [|rewrite elem_of_cons, elem_of_app; right; right; left].
        rewrite elem_of_cons, elem_of_app, list_elem_of_singleton in Hm.
        destruct Hm as [->|[(b & -> & _)%list_elem_of_fmap| ->]]; done. }
      destruct cl'; try (by subst l; apply elem_of_nil in Hm).
      - left. cbn. f_equal. symmetry. by eapply Hopen.
      - left. cbn. f_equal. symmetry. by eapply Hopen.
      - destruct Hse' as [name Hw]. destruct (Hwhole _ _ Hw) as [-> ?]. right. eauto.
      - destruct Hse' as [->|(id & name & Hw)]; [by apply elem_of_nil in Hm|].
        destruct (Hwhole _ _ Hw) as [-> ?]. right. eauto.
      - destruct Hse' as [name Hw]. left. cbn. f_equal. symmetry. by eapply Hopen. }
    intros Hin H0. destruct (decide (c0 = c)) as [->|Hne].
    + destruct (Hown m0) as [Hh|[name Hd]]; [|done|left|right].
      * apply elem_of_client in Hin. by rewrite of_client_app, of_client_same in Hin.
      * exists cl'. split; [by eapply list_lookup_insert_eq, lookup_lt_Some|done].
      * exists name. apply elem_of_client. by rewrite of_client_app, of_client_same.
    + apply elem_of_app in Hin as [Hin|Hin]; [|exfalso; apply list_elem_of_In, in_map_iff in Hin as (? & [=] & _); congruence].
      destruct (Hi Hch c0 m0 Hin H0) as [(cl0 & Hcl & Hh)|[name Hd]]; [left|right].
      * exists cl0. by rewrite list_lookup_insert_ne.
      * exists name. rewrite elem_of_app. by left.
  - rewrite app_nil_r. destruct Hs; [|done]. by apply Hi.
Qed.

Lemma step_apart d ms d' log :
  step debug d ms d' → pool_inv (dm_pool d) (dm_clients d) →
  tidy (dm_chan d) (dm_clients d) log → apart log → apart (log ++ ms).
Proof.
  intros Hs Hpi Ht Hi.
  assert (Hms : ms = [] ∨ ∃ c cl m, ms = [(c, m)] ∧ ch_open (dm_chan d) = true ∧
    dm_clients d !! c = Some cl ∧ holds cl = Some (msg_id m)).
  { destruct Hs as [|p ch sink cs c cl cl' p' ch' ms' Hc Hs|]; [by left| |by left].
    destruct (hc_sends _ _ _ _ _ _ _ Hs (pi_clients _ _ Hpi _ _ Hc))
      as [[-> _]|(m & -> & Ho & _ & _ & Hh & _)]; [by left|right]. by exists c, cl, m. }
  destruct Hms as [->|(c' & cl' & m' & -> & Ho & Hc' & Hh')]; [by rewrite app_nil_r|].
  intros l1 c m l2 c2 m2 l3 Heq Hne Hid H0. destruct l3 as [|e l3 _] using rev_ind.
  - assert (log = l1 ++ (c, m) :: l2 ∧ (c', m') = (c2, m2)) as [Hlog [= -> ->]].
    { apply app_inj_tail. by rewrite Heq, <-app_assoc. }
    rewrite <-Hlog. destruct (Ht Ho c m) as [(cl & Hcl & Hh)|?]; [|done| |done].
    { rewrite Hlog, elem_of_app, elem_of_cons. auto. }
    exfalso. apply Hne. eapply (pi_distinct _ _ Hpi); [exact Hcl|exact Hc'|exact Hh|congruence|done].
  - apply (Hi l1 c m l2 c2 m2 l3); [|done..].
    assert (log = l1 ++ (c, m) :: l2 ++ (c2, m2) :: l3 ∧ (c', m') = e) as [-> _]; [|done].
    apply app_inj_tail. rewrite Heq. repeat (rewrite <-app_assoc; cbn [app]). done.
Qed.

(** *** All of it *)

Lemma in_use_new id : id_ok id → id ≠ 0 → in_use pool_new id = false.
Proof.
  intros (Hr & Hd & He) H0. unfold in_use, pool_new. cbn [ip_used].
  rewrite !list_lookup_insert_ne by lia. by rewrite lookup_replicate_2 by lia.
Qed.

Record muxd_inv (d : daemon) (log : list (nat * msg)) : Prop := MuxdInv {
  mi_pool : pool_inv (dm_pool d) (dm_clients d);
  mi_sessions : sessions_inv (dm_chan d) (dm_clients d) log;
  mi_chan : chan_inv debug (dm_chan d) (dm_sink d) log;
  mi_tidy : tidy (dm_chan d) (dm_clients d) log;
  mi_apart : apart log;
  mi_msgs : Forall (λ e, msg_sent debug e.2) log
}.

Lemma muxd_inv_run log d : run_of debug log d → muxd_inv d log.
Proof.
  induction 1 as [|log d ms d' _ [H1 H2 H3 H4 H5 H6] Hs].
  - constructor; try done.
    + constructor; [exact pool_new_ok|done..|]. intros id Hid H0. by rewrite in_use_new.
    + split; [cbn; lia|]. by exists [], [].
    + intros _ c m Hin. by apply elem_of_nil in Hin.
    + intros l1 c m l2 c' m' l3 Heq. by destruct l1.
  - constructor; [by eapply step_pool|by eapply step_sessions|by eapply step_chan|by eapply step_tidy
      |by eapply step_apart|]. apply Forall_app. split; [done|].
    destruct Hs as [|p ch sink cs c cl cl' p' ch' ms' Hc Hs|]; [constructor| |constructor].
    destruct (hc_sends _ _ _ _ _ _ _ Hs (pi_clients _ _ H1 _ _ Hc)) as [[-> _]|(m & -> & Hm)]; [constructor|].
    by repeat constructor; apply Hm.
Qed.

End Invariant.
