(* ===== verification/MuxdSpec.v ===== *)
(** * What the Linux daemon guarantees

    The pool's ids, the sessions on the wire, the encoding, and that the
    daemon always winds down, for all interleavings of its tasks. *)

From S2P Require Import Prelude Proto CString Muxd MuxdInv.
From stdpp Require Import relations.
#[local] Open Scope Z_scope.
#[local] Open Scope list_scope.

(** The tokens of a record.  An exhausted pool gives the id 0, which on the
    wire is not a selection but the way back to the unframed stream. *)
Definition msg_tokens (m : msg) : list token :=
  match m with
  | Connected id name => [TConnected (z2b id :: name)]
  | Data id payload => (if id =? 0 then TDefault else TSelect (z2b id)) :: map TByte payload ++ [TDefault]
  | Disconnected id name => [TDisconnected (z2b id :: name)]
  end.
Definition log_tokens (log : list (nat * msg)) : list token := concat (msg_tokens <$> log.*2).

(** How far a client's task is from its end. *)
Definition stage (cl : client) : nat :=
  match cl with
  | Replying _ _ => 7 | Announcing _ _ => 6 | Reading _ _ => 4 | Closing _ _ => 3
  | Enrolling | Freeing _ => 1 | Gone | Panicked _ => 0
  end.

(** Steps without new clients and input: a task goes on towards its end, or
    the sink takes a frame. *)
Inductive wind (debug : bool) : daemon → daemon → Prop :=
| wind_client p ch sink cs c cl cl' p' ch' ms :
    cs !! c = Some cl → handle_client debug cl p ch cl' p' ch' ms → (stage cl' < stage cl)%nat →
    wind debug (Daemon p ch sink cs) (Daemon p' ch' sink (<[c := cl']> cs))
| wind_sink p ch sink cs ch' sink' :
    sink_task ch sink ch' sink' → wind debug (Daemon p ch sink cs) (Daemon p ch' sink' cs).

(** All tasks have ended and nothing waits to be written. *)
Definition wound_down (d : daemon) : Prop :=
  ch_queue (dm_chan d) = [] ∧ ∀ c cl, dm_clients d !! c = Some cl → cl = Gone ∨ ∃ id, cl = Panicked id.

Definition work (d : daemon) : nat :=
  (sum_list_with stage (dm_clients d) + length (ch_queue (dm_chan d)))%nat.

(* ------------------------------------------------------------------ *)
(** ** Lemmas: the encoding *)

Lemma esc_muxd payload :
  concat (map (λ b, (if bool_decide (b = ESC) then [ESC] else []) ++ [b]) payload) = esc_bytes payload.
Proof.
  unfold esc_bytes. f_equal. apply map_ext. intros b. unfold esc_byte.
  change VCMUX_PROTO_ESC_START with ESC. by case_bool_decide; subst.
Qed.

Lemma encode_data_wires debug i payload :
  (debug = true → 1 ≤ i ≤ 0xfc) →
  encode_data_frame debug i payload [] = Some (wires (msg_tokens (Data i payload))).
Proof.
  intros Hd. unfold encode_data_frame. rewrite esc_muxd.
  assert (debug && negb ((1 <=? i) && (i <=? 0xfc)) = false) as ->.
  { destruct debug; [|done]. specialize (Hd eq_refl).
    by rewrite (proj2 (Z.leb_le 1 i)), (proj2 (Z.leb_le i 0xfc)) by lia. }
  f_equal. unfold msg_tokens. rewrite wires_cons, wires_app, wires_bytes.
  by destruct (i =? 0) eqn:Hz; z_bool; subst.
Qed.

Lemma z2b_land z : z2b (Z.land z 0xff) = z2b z.
Proof.
  unfold z2b. change 0xff with (Z.ones 8). rewrite Z.land_ones by lia. change (2 ^ 8) with 256.
  by rewrite Z.mod_mod by lia.
Qed.

Lemma encode_control_wire ctrl i name :
  Z.of_nat (length name) < U16_MAX →
  encode_control_frame ctrl i name [] = control_record ctrl (z2b i :: name).
Proof.
  unfold U16_MAX. intros Hn. unfold encode_control_frame, control_record. cbv zeta.
  rewrite Z.min_l by (unfold U16_MAX; lia). rewrite !z2b_land, take_ge by lia.
  replace (Z.of_nat (length (z2b i :: name))) with (1 + Z.of_nat (length name)) by (cbn; lia). done.
Qed.

Lemma encode_msg_wires debug m :
  msg_sent debug m → encode_msg debug m = wires (msg_tokens m) ∧ forallb token_ok (msg_tokens m) = true.
Proof.
  assert (Hbody : ∀ i (name : list byte), (length name ≤ NAME_MAX)%nat →
    Z.of_nat (length name) < U16_MAX ∧ body_ok (z2b i :: name) = true).
  { unfold NAME_MAX, U16_MAX, body_ok. intros i name Hn. split; [lia|]. cbn [length].
    apply andb_true_intro. split; [apply Z.ltb_lt|apply Z.leb_le]; lia. }
  intros [Hok Hs]. destruct m as [i name|i payload|i name]; cbn [encode_msg msg_ok] in *.
  - destruct (Hbody i name) as [H1 H2]; [apply Hok|].
    rewrite encode_control_wire by done. cbn [msg_tokens forallb token_ok]. rewrite H2.
    split; [|done]. unfold wires. cbn [map concat]. by rewrite app_nil_r.
  - destruct Hs as [_ Hs]. rewrite (encode_data_wires debug i payload Hs). split; [done|]. destruct Hok as (Hr & Hd & He).
    unfold msg_tokens. cbn [forallb]. rewrite forallb_app. cbn [forallb token_ok].
    rewrite andb_true_r. apply andb_true_intro. split.
    + destruct (i =? 0) eqn:Hz; [done|]. z_bool. cbn [token_ok]. apply selectable_spec.
      assert (Hne : ∀ b, b2z b ≠ i → z2b i ≠ b).
      { intros b Hb <-. apply Hb. apply b2z_z2b_small. lia. }
      split_and!; apply Hne; cbn; lia.
    + apply forallb_forall. by intros t (b & <- & _)%in_map_iff.
  - destruct (Hbody i name) as [H1 H2]; [apply Hok|].
    rewrite encode_control_wire by done. cbn [msg_tokens forallb token_ok]. rewrite H2.
    split; [|done]. unfold wires. cbn [map concat]. by rewrite app_nil_r.
Qed.

Lemma log_wires debug log :
  Forall (λ e, msg_sent debug e.2) log →
  encode_all debug (log.*2) = wires (log_tokens log) ∧ forallb token_ok (log_tokens log) = true.
Proof.
  unfold encode_all, log_tokens. induction 1 as [|[c m] log Hm _ [IH1 IH2]]; [done|].
  destruct (encode_msg_wires _ _ Hm) as [Hw Ht]. cbn [fmap list_fmap concat snd] in *.
  by rewrite wires_app, forallb_app, IH1, IH2, Hw, Ht.
Qed.

(* ------------------------------------------------------------------ *)
(** ** Lemmas: winding down *)

Lemma sum_insert (f : client → nat) (cs : list client) c cl cl' :
  cs !! c = Some cl →
  (sum_list_with f (<[c := cl']> cs) + f cl = sum_list_with f cs + f cl')%nat.
Proof.
  revert c. induction cs as [|x cs IH]; intros [|c] Hc; cbn in *; simplify_eq; [lia|].
  specialize (IH c Hc). unfold insert in *. lia.
Qed.

Section Winding.
Context (debug : bool).

Lemma wind_step d d' : wind debug d d' → ∃ ms, step debug d ms d'.
Proof.
  intros [p ch sink cs c cl cl' p' ch' ms Hc Hs _|p ch sink cs ch' sink' Hs]; eexists.
  - by eapply step_client.
  - by apply step_sink.
Qed.

Lemma wind_work d d' log : muxd_inv debug d log → wind debug d d' → (work d' < work d)%nat.
Proof.
  intros Hi Hw. revert Hi.
  destruct Hw as [p ch sink cs c cl cl' p' ch' ms Hc Hs Hst|p ch sink cs ch' sink' Hs]; intros Hi; unfold work; cbn.
  - pose proof (sum_insert stage cs c cl cl' Hc) as Hsum.
    pose proof (pi_clients _ _ (mi_pool _ _ _ Hi) _ _ Hc) as Hok.
    destruct (hc_sends _ _ _ _ _ _ _ _ Hs Hok) as [[_ ->]|(m & -> & _ & _ & -> & _)]; [lia|].
    cbn [ch_queue]. rewrite length_app. cbn [length].
    assert (stage cl' + 1 < stage cl)%nat; [|lia].
    inversion Hs; subst; try (unfold sent_msg in *; repeat case_match; simplify_eq; cbn in *; lia).
  - destruct Hs; cbn; lia.
Qed.

Lemma hc_progress cl p ch :
  client_ok cl → pool_ok p → (ch_open ch = true → (length (ch_queue ch) < CHANNEL_CAPACITY)%nat) →
  cl = Gone ∨ (∃ i, cl = Panicked i) ∨
  ∃ cl' p' ch' ms, handle_client debug cl p ch cl' p' ch' ms ∧ (stage cl' < stage cl)%nat.
Proof.
  intros Hok Hp Hroom.
  assert (Hsend : ∀ frame, ∃ ok ch', send frame ch = Some (ok, ch')).
  { intros frame. unfold send. destruct (ch_open ch); cbn [negb]; [|eauto].
    rewrite (proj2 (Nat.ltb_lt _ _)) by auto. eauto. }
  assert (Hfree : ∀ i, id_ok i → ∃ p', free_id i p = Done tt p').
  { intros i (Hi & Hd & He). destruct (free_id_spec i p Hp Hi Hd He) as (p' & Hrun & _). eauto. }
  destruct cl as [|i name|i name|i name|i name|i| |i]; [..|by left|right; left; eauto]; right; right.
  - exists Gone, p, ch, []. split; [constructor|cbn; lia].
  - exists (Announcing i name), p, ch, []. split; [constructor|cbn; lia].
  - destruct (Hsend (encode_control_frame CTRL_CONNECTED i name [])) as (ok & ch' & Hs).
    eexists _, _, _, _. split; [by apply hc_announce|cbn; lia].
  - exists (Closing i name), p, ch, []. split; [constructor|cbn; lia].
  - destruct (Hsend (encode_control_frame CTRL_DISCONNECTED i name [])) as (ok & ch' & Hs).
    eexists _, _, _, _. split; [by apply hc_disconnect|cbn; lia].
  - destruct (Hfree i Hok) as [p' Hrun]. exists Gone, p', ch, []. split; [by constructor|cbn; lia].
Qed.

Lemma wind_progress d log : muxd_inv debug d log → wound_down d ∨ ∃ d', wind debug d d'.
Proof.
  intros Hi. destruct d as [p ch sink cs]. destruct Hi as [Hpi _ [_ Hch] _ _ _]; cbn in *.
  destruct (ch_queue ch) as [|frame q] eqn:Hq.
  - destruct (list_find (λ cl, stage cl ≠ 0%nat) cs) as [[c cl]|] eqn:Hf.
    + right. apply list_find_Some in Hf as (Hc & Hst & _).
      destruct (hc_progress cl p ch (pi_clients _ _ Hpi _ _ Hc) (pi_pool _ _ Hpi))
        as [->|[[i ->]|(cl' & p' & ch' & ms & Hs & Hlt)]]; [|done|done|].
      { intros _. rewrite Hq. cbn. unfold CHANNEL_CAPACITY. lia. }
      eexists. by eapply wind_client.
    + left. split; [done|]. intros c cl Hc. cbn in Hc. apply list_find_None in Hf.
      rewrite Forall_forall in Hf. pose proof (Hf cl (list_elem_of_lookup_2 _ _ _ Hc)) as Hst.
      destruct cl; cbn in Hst; try (exfalso; apply Hst; lia); [by left|by right; eauto].
  - right. destruct ch as [q' open]. cbn in *. subst q'. destruct open; [|by destruct Hch].
    eexists. by apply wind_sink, st_write.
Qed.

Lemma wind_acc d log : run_of debug log d → Acc (λ a b, wind debug b a) d.
Proof.
  remember (work d) as n eqn:Hn. revert d log Hn. induction (lt_wf n) as [n _ IH]. intros d log -> Hrun.
  constructor. intros d' Hw. destruct (wind_step _ _ Hw) as [ms Hs].
  eapply (IH (work d')); [|done|by eapply run_step].
  eapply wind_work; [by apply muxd_inv_run|done].
Qed.
End Winding.

(* ------------------------------------------------------------------ *)
(** ** Lemmas: the executable form *)

Section Executable.
Context (debug : bool).

Lemma act_send_some frame m p ch next cl' p' ch' ms :
  act_send frame m p ch next = Some (cl', p', ch', ms) →
  ∃ ok, send frame ch = Some (ok, ch') ∧ cl' = next ok ∧ p' = p ∧ ms = sent_msg ok m.
Proof. unfold act_send. destruct (send frame ch) as [[ok ?]|]; [|done]. intros [= <- <- <- <-]. by exists ok. Qed.

Lemma act_client_sound a cl p ch cl' p' ch' ms :
  act_client debug a cl p ch = Some (cl', p', ch', ms) →
  handle_client debug cl p ch cl' p' ch' ms.
Proof.
  destruct a as [| |c nm| |c| |c pl| |], cl as [|i name|i name|i name|i name|i| |i]; cbn [act_client]; try done.
  - intros [= <- <- <- <-]. constructor.
  - destruct (_ && _) eqn:Hl; [|done]. z_bool. destruct (alloc_id p) eqn:Ha; [|done].
    intros [= <- <- <- <-]. apply hc_enroll; [lia|done].
  - destruct (free_id i p) as [[] ?|] eqn:Hf; [|done]. intros [= <- <- <- <-]. by constructor.
  - intros [= <- <- <- <-]. constructor.
  - intros (ok & Hs & -> & -> & ->)%act_send_some. by constructor.
  - intros (ok & Hs & -> & -> & ->)%act_send_some. by constructor.
  - destruct (free_id i p) as [[] ?|] eqn:Hf; [|done]. intros [= <- <- <- <-]. by constructor.
  - intros [= <- <- <- <-]. constructor.
  - destruct (_ && _) eqn:Hl; [|done]. z_bool.
    destruct (encode_data_frame debug i pl []) as [frame|] eqn:He.
    + intros (ok & Hs & -> & -> & ->)%act_send_some. by apply hc_read with frame.
    + intros [= <- <- <- <-]. by apply hc_read_panic with pl.
Qed.

Lemma act_client_complete c cl p ch cl' p' ch' ms :
  handle_client debug cl p ch cl' p' ch' ms →
  ∃ a, actor a = Some c ∧ act_client debug a cl p ch = Some (cl', p', ch', ms).
Proof.
  assert (Hb : ∀ (n m : nat), (0 < n ≤ m)%nat → (0 <? n)%nat && (n <=? m)%nat = true).
  { intros n m Hn. by rewrite (proj2 (Nat.ltb_lt _ _)), (proj2 (Nat.leb_le _ _)) by lia. }
  intros []; [exists (EnrollError c)|exists (Enroll c name_buf)|exists (ReplyError c)|exists (Proceed c)
    |exists (Proceed c)|exists (Eof c)|exists (Read c payload)|exists (Read c payload)|exists (Proceed c)
    |exists (Proceed c)]; (split; [done|]); cbn [act_client]; rewrite ?Hb by done; unfold act_send;
    repeat match goal with Hx : _ = _ |- _ => rewrite Hx; clear Hx end; done.
Qed.

Lemma act_sound a d ms d' : act debug a d = Some (ms, d') → step debug d ms d'.
Proof.
  destruct d as [p ch sink cs]. unfold act. cbn [dm_clients dm_pool dm_chan dm_sink].
  destruct (actor a) as [c|] eqn:Ha.
  - destruct (cs !! c) as [cl|] eqn:Hc; [|done]. cbn.
    destruct (act_client debug a cl p ch) as [[[[cl' p'] ch'] ms']|] eqn:Hac; [|done]. cbn.
    intros [= <- <-]. apply act_client_sound in Hac. by apply step_client with cl.
  - destruct a, ch as [[|frame q] []]; try done; intros [= <- <-]; try by apply step_accept.
    + apply step_sink, st_write.
    + by apply step_sink, (st_error _ _ _ _ (drop n frame)); rewrite take_drop.
Qed.

Lemma act_complete d ms d' : step debug d ms d' → ∃ a, act debug a d = Some (ms, d').
Proof.
  intros [p ch sink cs|p ch sink cs c cl cl' p' ch' ms' Hc Hs|p ch sink cs ch' sink' Hs].
  - by exists Connect.
  - destruct (act_client_complete c _ _ _ _ _ _ _ Hs) as (a & Ha & Hac). exists a.
    unfold act. cbn [dm_clients dm_pool dm_chan dm_sink]. rewrite Ha, Hc. cbn. by rewrite Hac.
  - destruct Hs as [frame q sink|frame q sink part rest ->]; [by exists SinkWrite|].
    exists (SinkError (length part)). unfold act. cbn. by rewrite take_app_length.
Qed.

Lemma acts_run l log d log' d' :
  run_of debug log d → acts debug l log d = Some (log', d') → run_of debug log' d'.
Proof.
  revert log d. induction l as [|a l IH]; intros log d Hr; cbn [acts]; [by intros [= <- <-]|].
  destruct (act debug a d) as [[ms d1]|] eqn:Ha; [|done]. cbn. apply IH.
  by eapply run_step, act_sound.
Qed.
End Executable.

(** The ids of a new pool, in the order in which it gives them. *)
Example pool_gives_in_turn :
  match (fix go (n : nat) : M id_pool (list Z) :=
           match n with
           | O => ret []
           | S n' => i <- alloc_id ;; l <- go n' ;; ret (i :: l)
           end) 254%nat pool_new with
  | Done l _ => l = seqZ 1 0xfc ++ [0xff; 0]
  | Stop _ _ => False
  end.
Proof. vm_compute. reflexivity. Qed.

(** The pool hands out 0xff, which the protocol crate takes for reserved: in a
    debug build the client's first data stops its task, whose id is never
    given back and whose end is never announced. *)
Example pool_gives_ff :
  match alloc_id (set_next 0xff pool_new) with
  | Done i p => i = 0xff ∧ ip_next p = 1 ∧ encode_data_frame true i [x41] [] = None
  | Stop _ _ => False
  end.
Proof. vm_compute. done. Qed.

(** An exhausted pool gives 0, and the client is announced all the same. *)
Example exhausted_pool_announces :
  let p := IdPool 9 (replicate 256 true) in
  match alloc_id p with
  | Done i _ => i = 0 ∧ handle_client true (Announcing i (bs "sh")) p (Channel [] true)
      (Reading i (bs "sh")) p (Channel [[xfe; xfd; x01; x00; x03; x00; x73; x68]] true)
      [Connected 0 (bs "sh")]
  | Stop _ _ => False
  end.
Proof.
  intros p. assert (Ha : alloc_id p = Done 0 p) by (vm_compute; reflexivity). rewrite Ha.
  split; [done|]. apply (hc_announce true p (Channel [] true) 0 (bs "sh") true). vm_compute. reflexivity.
Qed.

(** A free id at which the search begins is the one it gives. *)
Lemma alloc_post_first p i p' :
  pool_ok p → alloc_post p i p' → in_use p (ip_next p) = false → i = ip_next p.
Proof.
  intros Hp Ha Hfree. pose proof (po_next _ Hp) as Hn. rewrite <-(candidate_0 (ip_next p) Hn).
  destruct Ha as [(k & Hk & -> & _ & Hused & _)|(_ & _ & Hall)].
  - destruct (decide (k = 0)) as [->|Hk0]; [done|]. specialize (Hused 0 ltac:(lia)).
    by rewrite candidate_0, Hfree in Hused.
  - by rewrite Hall in Hfree.
Qed.

(** A client gets the id 0 only while every other id is held. *)
Lemma gets_zero debug d ms d' c cl' :
  pool_inv (dm_pool d) (dm_clients d) → step debug d ms d' →
  dm_clients d !! c = Some Enrolling → dm_clients d' !! c = Some cl' → holds cl' = Some 0 →
  ∀ i, id_ok i → i ≠ 0 → ∃ c' cl, dm_clients d !! c' = Some cl ∧ holds cl = Some i.
Proof.
  intros Hp Hst Hc Hc' Hh i Hi H0. apply (pi_held _ _ Hp); [done..|].
  destruct Hst as [p ch sink cs|p ch sink cs k cl cl2 p' ch' ms Hk Hs|p ch sink cs ch' sink' _];
    cbn [dm_clients dm_pool] in *.
  - rewrite lookup_app_l in Hc' by (by eapply lookup_lt_Some). by simplify_eq.
  - destruct (client_update _ _ _ _ _ _ Hk Hc') as [[-> ->]|[Hne Hcs]]; [|by simplify_eq].
    simplify_eq. inversion Hs; subst; [done|]. cbn in Hh. simplify_eq.
    destruct (alloc_id_spec p (pi_pool _ _ Hp)) as (id & p2 & Hrun & _ & Ha). simplify_eq.
    destruct Ha as [(n & _ & Hn & _)|(_ & _ & Hall)]; [|apply Hall; destruct Hi; lia].
    pose proof (candidate_range (ip_next p) n). assert (id = 0) by congruence. lia.
  - by simplify_eq.
Qed.

(* ------------------------------------------------------------------ *)
(** ** Properties *)

(** C38: which ids the pool gives, and where they leave the protocol.  From
    any state of the pool [alloc] finishes within its 255 turns: it returns
    the next free id in cyclic order and marks it, or 0 when every id is
    taken; freeing the id restores the set of ids in use.  The id is never 0xfd
    or 0xfe, but the range is not the documented one (0x01 to 0xfc): the pool
    does not reserve 0xff, and gives it when the search comes to it.  The
    encoder's [debug_assert] panics on 0xff and on the 0 of an exhausted pool,
    and on no other id that [alloc] returns. *)
Theorem id_alloc p :
  pool_ok p →
  ∃ i p', alloc_id p = Done i p' ∧ pool_ok p' ∧ alloc_post p i p' ∧
    (i ≠ 0 → 1 ≤ i ≤ 255 ∧ i ≠ 0xfd ∧ i ≠ 0xfe ∧
       ∃ p2, free_id i p' = Done tt p2 ∧ pool_ok p2 ∧ ip_used p2 = ip_used p) ∧
    (0x01 ≤ i ≤ 0xfc ∨ i = 0xff ∨ i = 0) ∧
    (ip_next p = 0xff → in_use p 0xff = false → i = 0xff) ∧
    (∀ payload out, encode_data_frame true i payload out = None ↔ i = 0xff ∨ i = 0).
Proof.
  intros Hp. destruct (alloc_id_spec p Hp) as (i & p' & Hrun & Hp' & Ha).
  pose proof (alloc_post_id _ _ _ Hp Ha) as (Hr & Hd & He).
  exists i, p'. split_and!; [done..| | | |].
  - intros H0. split_and!; [lia..|done|done|].
    destruct (free_id_spec i p' Hp' Hr Hd He) as (p2 & Hrun2 & Hp2 & Hu).
    exists p2. split_and!; [done..|]. rewrite Hu, (proj2 (Z.eqb_neq i 0)) by done.
    destruct Ha as [(k & _ & _ & Hfree & _ & ->)|[? _]]; [|done].
    rewrite list_insert_insert_eq. apply list_insert_id.
    by rewrite (in_use_lookup p i Hp), Hfree by lia.
  - lia.
  - intros Hn Hfree. rewrite <-Hn in Hfree |- *. by apply (alloc_post_first p i p').
  - intros payload out. unfold encode_data_frame. cbn [andb].
    destruct (1 <=? i) eqn:H1, (i <=? 0xfc) eqn:H2; cbn [andb negb]; z_bool; split; intros; (done || lia).
Qed.

(** C38 on a new pool whose search has come to 0xfc. *)
Lemma id_alloc_witness :
  let p := set_next 0xfc pool_new in
  (∃ i p', alloc_id p = Done i p' ∧ pool_ok p' ∧ alloc_post p i p' ∧
    (i ≠ 0 → 1 ≤ i ≤ 255 ∧ i ≠ 0xfd ∧ i ≠ 0xfe ∧
       ∃ p2, free_id i p' = Done tt p2 ∧ pool_ok p2 ∧ ip_used p2 = ip_used p) ∧
    (0x01 ≤ i ≤ 0xfc ∨ i = 0xff ∨ i = 0) ∧
    (ip_next p = 0xff → in_use p 0xff = false → i = 0xff) ∧
    (∀ payload out, encode_data_frame true i payload out = None ↔ i = 0xff ∨ i = 0)) ∧
  match alloc_id p with Done i _ => i = 0xfc | Stop _ _ => False end.
Proof.
  intros p. split; [|vm_compute; reflexivity]. apply (id_alloc p).
  constructor; vm_compute; (done || intuition congruence).
Defined.

(** C22: sessions on the wire.  In every run of the daemon, whatever clients
    do and however their tasks interleave: what each client sends is one
    session under one id and name (CONNECTED, data, at the end DISCONNECTED).
    Of ids other than 0, no two clients hold the same, and one is used for
    another client's session only after its previous holder's DISCONNECTED.
    The id 0 is what an exhausted pool gives: a client gets it only while all
    253 others are held; the daemon serves and announces such clients like any
    other, and any number of them have the 0 at once
    ([exhausted_pool_announces]). *)
Theorem muxd_sessions debug log d :
  run_of debug log d →
  (∀ c, session (of_client c log)) ∧ apart log ∧
  (∀ c cl c' cl' i, dm_clients d !! c = Some cl → dm_clients d !! c' = Some cl' →
     holds cl = Some i → holds cl' = Some i → i ≠ 0 → c = c') ∧
  (∀ ms d' c cl', step debug d ms d' → dm_clients d !! c = Some Enrolling →
     dm_clients d' !! c = Some cl' → holds cl' = Some 0 →
     ∀ i, id_ok i → i ≠ 0 → ∃ c' cl, dm_clients d !! c' = Some cl ∧ holds cl = Some i).
Proof.
  intros [Hp Hs _ _ Ha _]%muxd_inv_run. split_and!; [|done|apply Hp|].
  - intros c. specialize (Hs c). destruct (ch_open _); [by eapply session_at_session|done].
  - intros ms d' c cl'. by apply (gets_zero debug d ms d' c cl' Hp).
Qed.

(** Two clients, the second with the id the first gave back. *)
Definition demo_actions : list action :=
  [Connect; Connect; Enroll 0 (bs "sh"); Proceed 0; Proceed 0; Enroll 1 (bs "top"); Read 0 [x68; xfe];
   SinkWrite; Proceed 1; Proceed 1; Read 1 (bs "cpu"); SinkWrite; Eof 0; Proceed 0; SinkWrite; Proceed 0;
   SinkWrite; SinkWrite].
Definition demo_state : list (nat * msg) * daemon :=
  default ([], muxd_init) (acts true demo_actions [] muxd_init).

Lemma demo_run : run_of true demo_state.1 demo_state.2.
Proof.
  apply (acts_run true demo_actions [] muxd_init); [constructor|]. vm_compute. reflexivity.
Qed.

Lemma muxd_sessions_witness :
  length demo_state.1 = 5%nat ∧
  (∀ c, session (of_client c demo_state.1)) ∧ apart demo_state.1 ∧
  (∀ c cl c' cl' i, dm_clients demo_state.2 !! c = Some cl → dm_clients demo_state.2 !! c' = Some cl' →
     holds cl = Some i → holds cl' = Some i → i ≠ 0 → c = c') ∧
  (∀ ms d' c cl', step true demo_state.2 ms d' → dm_clients demo_state.2 !! c = Some Enrolling →
     dm_clients d' !! c = Some cl' → holds cl' = Some 0 →
     ∀ i, id_ok i → i ≠ 0 → ∃ c' cl, dm_clients demo_state.2 !! c' = Some cl ∧ holds cl = Some i).
Proof. split; [vm_compute; reflexivity|]. exact (muxd_sessions true _ _ demo_run). Defined.

(** C23: the wire format.  In every run the sink has received a prefix of the
    token encoding of what was sent, in the order in which it was sent: whole
    records, with every length and escape as the host's demultiplexer expects
    them; while the sink works the rest is what waits in the channel, at most
    256 frames. *)
Theorem muxd_wire debug log d :
  run_of debug log d →
  forallb token_ok (log_tokens log) = true ∧
  ∃ rest, wires (log_tokens log) = dm_sink d ++ rest ∧
    (ch_open (dm_chan d) = true → rest = concat (ch_queue (dm_chan d))) ∧
    (length (ch_queue (dm_chan d)) ≤ CHANNEL_CAPACITY)%nat.
Proof.
  intros [_ _ [Hl Hc] _ _ Hm]%muxd_inv_run. destruct (log_wires _ _ Hm) as [Hw Ht]. split; [done|].
  destruct (ch_open (dm_chan d)).
  - destruct Hc as (w & pd & Hlog & Hq & Hs). exists (encode_all debug pd).
    split; [by rewrite <-Hw, Hlog, encode_all_app, Hs|]. split; [by rewrite Hq|done].
  - destruct Hc as [_ [rest Hr]]. exists rest. by rewrite <-Hw, Hr.
Qed.

Lemma muxd_wire_witness :
  forallb token_ok (log_tokens demo_state.1) = true ∧
  ∃ rest, wires (log_tokens demo_state.1) = dm_sink demo_state.2 ++ rest ∧
    (ch_open (dm_chan demo_state.2) = true → rest = concat (ch_queue (dm_chan demo_state.2))) ∧
    (length (ch_queue (dm_chan demo_state.2)) ≤ CHANNEL_CAPACITY)%nat.
Proof. exact (muxd_wire true _ _ demo_run). Defined.

(** C39: the daemon winds down.  From any state a run can reach, once no
    client connects or sends any more, the tasks and the sink can only take
    finitely many steps, and they can stop only when every task has ended and
    the channel is empty: no task waits forever.  Then the only ids still in
    use are those of tasks that panicked. *)
Theorem muxd_winds_down debug log d :
  run_of debug log d →
  Acc (λ a b, wind debug b a) d ∧
  ∀ d', rtc (wind debug) d d' →
    (wound_down d' ∨ ∃ d2, wind debug d' d2) ∧
    (wound_down d' → ∀ i, id_ok i → i ≠ 0 → in_use (dm_pool d') i = true →
       ∃ c, dm_clients d' !! c = Some (Panicked i)).
Proof.
  intros Hr. split; [by eapply wind_acc|]. intros d' Hw.
  assert (∃ log', run_of debug log' d') as [log' Hr'].
  { revert log Hr. induction Hw as [d|d d1 d2 Hw _ IH]; intros log Hr; [by exists log|].
    destruct (wind_step _ _ _ Hw) as [ms Hs]. eapply IH. by eapply run_step. }
  pose proof (muxd_inv_run _ _ _ Hr') as Hi. split; [by eapply wind_progress|].
  intros [_ Hend] i Hok H0 Huse.
  destruct (pi_held _ _ (mi_pool _ _ _ Hi) i Hok H0 Huse) as (c & cl & Hc & Hh). exists c.
  destruct (Hend c cl Hc) as [->|[j ->]]; [done|]. cbn in Hh. congruence.
Qed.

Lemma muxd_winds_down_witness :
  Acc (λ a b, wind true b a) demo_state.2 ∧
  ∀ d', rtc (wind true) demo_state.2 d' →
    (wound_down d' ∨ ∃ d2, wind true d' d2) ∧
    (wound_down d' → ∀ i, id_ok i → i ≠ 0 → in_use (dm_pool d') i = true →
       ∃ c, dm_clients d' !! c = Some (Panicked i)).
Proof. exact (muxd_winds_down true _ _ demo_run). Defined.
