(* ===== verification/MuxdHost.v ===== *)
(** * The Linux daemon and the host

    What the daemon writes, fed to the host in raw mode: the host opens a PTY
    for every announced stream and offers it exactly that stream's data. *)

From S2P Require Import Prelude Proto CString HostState HostIo Flush Registry RegistryInv RegistryParse Startup Demux DemuxSpec DemuxInv StartupInv RegistrySpec Route RouteSpec Records Fds System Muxd MuxdInv MuxdSpec.

(** The host's table after a record: a new id gets an entry. *)
Definition announce (T : list tag) (m : msg) : list tag :=
  match m with
  | Connected i name =>
      if existsb (λ t, bool_decide (tag_value t = z2b i)) T then T
      else T ++ [Tag (Some (cstr (take 255 name))) (z2b i)]
  | _ => T
  end.
Definition announce_all (T : list tag) (l : list msg) : list tag := foldl announce T l.

(** The data of one stream. *)
Definition stream_data (sid : byte) (l : list msg) : list byte :=
  concat ((λ m, match m with
                | Data i payload => if bool_decide (z2b i = sid) then payload else []
                | _ => []
                end) <$> l).

(** Data only for streams that were announced. *)
Fixpoint announced (T : list tag) (l : list msg) : Prop :=
  match l with
  | [] => True
  | m :: l' =>
      match m with
      | Data i _ => ∃ t, t ∈ T ∧ tag_value t = z2b i
      | _ => True
      end ∧ announced (announce T m) l'
  end.

(** A host in raw mode, between records, that can open PTYs, without [-i]. *)
Record host_open (E : env) (logs : Z → bool) (h : host) (r : rx) : Prop := HostOpen {
  ho_idle : host_idle E h r;
  ho_own : own E logs h;
  ho_plain : disable_patch (cfg h) = true
}.

(** From [h] to [h'] every PTY was offered its stream's data. *)
Record carried (h : host) (l : list msg) (h' : host) : Prop := Carried {
  ca_tags : active_tags h' = announce_all (active_tags h) l;
  ca_old : ∀ j p, Z.of_nat j < num_proc h → pty_data h !! j = Some p →
    ∃ p', pty_data h' !! j = Some p' ∧ td_fd p' = td_fd p;
  ca_data : ∀ j t p, (3 ≤ j)%nat → active_tags h' !! j = Some t → pty_data h' !! j = Some p →
    ∃ before, offered (td_fd p) (trace h') = before ++ stream_data (tag_value t) l ∧
      (Z.of_nat j < num_proc h → before = offered (td_fd p) (trace h))
}.

(* ------------------------------------------------------------------ *)
(** ** Lemmas: one record *)

Section Host.
Context (E : env) (logs : Z → bool).
Hypothesis (Henv : good_fds E logs) (Ha : alloc_ok E) (Hpo : ptys_open E).

(** Announcing a stream writes to no descriptor. *)
Lemma connected_writes_nothing f sid name :
  preserves (λ h, ∀ fd, offered fd (trace h) = f fd) (apply_virtioso_stream_connected E sid name).
Proof.
  pose proof (offered_blind E f) as Hb. set (I := λ h, _) in *.
  assert (Hth : ∀ i, preserves I (create_thread_with_stack E i))
    by (intros i; unfold create_thread_with_stack; preserve).
  assert (Hem : ∀ i n, preserves I (emit_pty_session_record E i n))
    by (intros i n; unfold emit_pty_session_record; preserve).
  assert (Hpt : ∀ i n b, preserves I (create_pty_at_index E i n b))
    by (intros i n b; unfold create_pty_at_index; preserve).
  assert (Hx : ∀ l, preserves I (xstrndup E l)) by (intros l; unfold xstrndup; preserve).
  unfold apply_virtioso_stream_connected, find_virtioso_pty_idx_by_stream_id. preserve.
Qed.

(** A new stream gets its PTY. *)
Lemma wp_connected_adds sid name h :
  wf h → find_tag_value (active_tags h) sid 0 = -1 → num_proc h < VIRTIOSO_MAX_PTY_COUNT →
  wp total (apply_virtioso_stream_connected E sid name) (λ _ h', num_proc h' = num_proc h + 1) h.
Proof using Ha Hpo.
  intros Hwf Hnew Hn. pose proof (wf_shape _ Hwf) as Hs. pose proof (sh_n _ _ Hs).
  pose proof (shape_sized _ _ Hs) as (Hlt & Hlp & Hli).
  assert (Hlen : 0 ≤ num_proc h < Z.of_nat NPTY) by (unfold NPTY, VIRTIOSO_MAX_PTY_COUNT in *; lia).
  unfold apply_virtioso_stream_connected. eapply wp_bind_run; [by apply find_idx_run|].
  rewrite Hnew. change (0 <=? -1) with false. cbv iota. apply wp_bind, wp_get.
  rewrite (sh_cap _ _ Hs), (proj2 (Z.leb_gt _ _)) by done. cbv zeta.
  apply wp_bind, wp_xstrndup_ok; [done|]. intros r. cbv iota. set (h1 := set_trace _ h).
  apply wp_bind, wp_arr_set; [by rewrite Hlt|]. apply wp_bind, wp_modify, wp_bind.
  apply wp_arr_set; [by rewrite Hli|]. do 3 apply wp_bind, wp_modify.
  set (h2 := set_pty_max_count _ _).
  assert (Hs2 : shape h2 (num_proc h + 1)).
  { eapply shape_insert; cbn; rewrite ?length_insert; done. }
  apply wp_bind. eapply wp_mono.
  { apply wp_conj; [apply (wp_create_pty E total _ _ _ h2 _ Hs2); lia|].
    by apply (pty_opens E total _ _ _ h2 _ Hs2); [lia|]. }
  intros z h3 [(Ho & _) ->]. cbn [negb Z.eqb]. apply wp_ret. by rewrite (op_num _ _ _ Ho).
Qed.

(** The records of the host's raw mode: CONNECTED. *)
Lemma feed_record_run (Q : Z * rx → host → Prop) ctrl body h r :
  host_open E logs h r → body_ok body = true →
  (ctrl = VCMUX_PROTO_CONTROL_STREAM_CONNECTED ∨ ctrl = VCMUX_PROTO_CONTROL_STREAM_DISCONNECTED) →
  (∀ h2 r2, mirrored h r (control_record ctrl body) h2 r2 → virtioso_pending_ctrl_type h2 = ctrl →
     wp total (control_announce_done E (with_body VIRTIOSO_CONTROL_ANNOUNCE_PAYLOAD body r2))
       (λ a h', a.1 = 0 ∧ Q a h') h2) →
  ∃ r' h', feed_all (feed_nvidia_outer_or_virtioso_raw E) (control_record ctrl body) r h = Done (0, r') h' ∧
    Q (0, r') h' ∧ wf h' ∧ rx_ok h' r' ∧ own E logs h'.
Proof using Henv Ha.
  intros [[Hrd Hraw He Hc] Hown Hplain] Hb Hctrl HQ.
  pose proof (rd_wf _ _ _ Hrd) as Hwf. pose proof (rd_ok _ _ _ Hrd) as Hr.
  assert (Hwp : wp total (feed_all (feed_nvidia_outer_or_virtioso_raw E) (control_record ctrl body ++ []) r)
    (λ a h', a.1 = 0 ∧ Q a h') h).
  { apply (wp_mirror_record E h r Hrd Hraw total VIRTIOSO_CONTROL_ANNOUNCE_PAYLOAD);
      [done|by split; [|apply Hrd]|done|by right|].
    intros h2 r2 Hm Hp _. change (VIRTIOSO_CONTROL_ANNOUNCE_PAYLOAD =? _) with false in Hp.
    apply wp_bind. eapply wp_mono; [by apply HQ|]. intros [z r'] h' [Hz Hq]. cbn in Hz. subst z.
    change (0 <? 0) with false. cbv iota. by apply wp_ret. }
  rewrite app_nil_r in Hwp. set (bytes := control_record ctrl body) in *. clearbody bytes.
  pose proof (wp_feed_all total _ bytes r h (λ c r h, wp_feed_outer E total c r h) Hwf Hr) as Hsafe.
  destruct (wp_total_done _ _ _ (wp_conj _ _ _ _ _ Hsafe Hwp))
    as ([z r'] & h' & Hrun & (Hwf' & _ & Hok') & Hz & Hq). cbn in Hz. subst z.
  pose proof (own_feed_all E logs Henv bytes r h Hown) as Hown'. unfold wp in Hown'. rewrite Hrun in Hown'.
  exists r', h'. split_and!; [done..|by apply Hok'|done].
Qed.

(** After the record's copy the other PTYs are as before. *)
Lemma mirrored_offered h r fed h2 r2 j p :
  host_open E logs h r → mirrored h r fed h2 r2 → (0 < j)%nat → Z.of_nat j < num_proc h →
  pty_data h !! j = Some p → offered (td_fd p) (trace h2) = offered (td_fd p) (trace h).
Proof.
  intros [[Hrd _ _ _] _ _] [[_ _ _ Hch] _ _] Hj Hn Hp.
  pose proof (rd_wf _ _ _ Hrd) as Hwf. pose proof (rd_ok _ _ _ Hrd) as Hr.
  assert (Hlt : (j < NPTY)%nat).
  { pose proof (lookup_lt_Some _ _ _ Hp). by rewrite (sh_pty _ _ (wf_shape _ Hwf)) in *. }
  destruct (lookup_lt_is_Some_2 (seen_n r) j) as [n Hsn]; [by rewrite (ro_seen_n _ _ Hr)|].
  destruct (lookup_lt_is_Some_2 (seen_r r) j) as [c Hsc]; [by rewrite (ro_seen_r _ _ Hr)|].
  specialize (Hch j p n c ltac:(rewrite (wf_max _ Hwf); lia) Hp Hsn Hsc).
  rewrite for_pty_other in Hch by lia. cbn in Hch. destruct Hch as [Hoff _]. by rewrite app_nil_r in Hoff.
Qed.

(** What the end of a record leaves. *)
Definition ended (h : host) (m : msg) (a : Z * rx) (h' : host) : Prop :=
  in_escape a.2 = false ∧ cur_rx_stream a.2 = -1 ∧ control_state a.2 = VIRTIOSO_CONTROL_IDLE ∧
  cfg h' = cfg h ∧ carried h [m] h'.

Lemma ended_open h r m r' h' :
  host_open E logs h r → ended h m (0, r') h' → wf h' → rx_ok h' r' → own E logs h' →
  host_open E logs h' r' ∧ carried h [m] h'.
Proof using Henv.
  intros [[Hrd Hraw _ _] _ Hplain] (He & Hc & Hst & Hcfg & Hca) Hwf Hr Hown. cbn in *.
  split; [|done]. constructor; [|done|by rewrite Hcfg].
  constructor; [by eapply own_ready|by rewrite Hcfg|done..].
Qed.

(** A state that offers nothing new and keeps the table. *)
Lemma carried_same h r fed h2 r2 m :
  host_open E logs h r → mirrored h r fed h2 r2 → announce (active_tags h) m = active_tags h →
  (∀ sid, stream_data sid [m] = []) → carried h [m] h2.
Proof.
  intros Ho Hm Ht Hd. pose proof Hm as [[Hst _ _ _] _ _].
  pose proof (st_pty _ _ Hst) as Hp. pose proof (st_num_proc _ _ Hst) as Hn.
  pose proof (st_tags _ _ Hst) as Htg. cbn in Hp, Hn, Htg.
  assert (Hback : ∀ j p, pty_data h2 !! j = Some p → ∃ p', pty_data h !! j = Some p' ∧ td_fd p' = td_fd p).
  { intros j p Hj. apply (f_equal (.!! j)) in Hp. rewrite !list_lookup_fmap, Hj in Hp. cbn in Hp.
    destruct (pty_data h !! j) as [p'|]; [|done]. cbn in Hp. injection Hp as H1 H2 H3 H4. by exists p'. }
  constructor.
  - unfold announce_all. cbn. rewrite Ht. unfold active_tags. congruence.
  - intros j p _ Hj. apply (f_equal (.!! j)) in Hp. rewrite !list_lookup_fmap, Hj in Hp. cbn in Hp.
    destruct (pty_data h2 !! j) as [p'|]; [|done]. cbn in Hp. injection Hp as H1 H2 H3 H4. by exists p'.
  - intros j t p Hj _ Hpj. exists (offered (td_fd p) (trace h2)). rewrite Hd, app_nil_r.
    split; [done|]. intros Hjn. destruct (Hback j p Hpj) as (p' & Hp' & <-).
    exact (mirrored_offered h r fed h2 r2 j p' Ho Hm ltac:(lia) Hjn Hp').
Qed.

Lemma announce_done_ended h r fed h2 r2 body m :
  host_open E logs h r → mirrored h r fed h2 r2 →
  ∀ h', cfg h' = cfg h2 → carried h [m] h' →
  ended h m (0, set_control_state VIRTIOSO_CONTROL_IDLE
    (set_control_registry_json None (with_body VIRTIOSO_CONTROL_ANNOUNCE_PAYLOAD body r2))) h'.
Proof.
  intros [[Hrd Hraw He Hc] _ _] [[Hst _ _ _] (n & c & -> & _) _] h' Hcfg Hca.
  split_and!; [done..| |done]. rewrite Hcfg. exact (st_cfg _ _ Hst).
Qed.

(** DISCONNECTED: the PTY stays. *)
Lemma host_disconnected h r i name :
  host_open E logs h r → msg_ok (Disconnected i name) →
  ∃ r' h', feed_all (feed_nvidia_outer_or_virtioso_raw E) (wires (msg_tokens (Disconnected i name))) r h
             = Done (0, r') h' ∧ host_open E logs h' r' ∧ carried h [Disconnected i name] h'.
Proof using Henv Ha.
  intros Ho Hok. pose proof (encode_msg_wires false (Disconnected i name) (conj Hok I)) as [_ Htok].
  cbn [msg_tokens forallb token_ok] in Htok. rewrite andb_true_r in Htok.
  unfold wires. cbn [msg_tokens map concat]. rewrite app_nil_r. cbn [wire].
  destruct (feed_record_run (ended h (Disconnected i name)) VCMUX_PROTO_CONTROL_STREAM_DISCONNECTED
    (z2b i :: name) h r Ho Htok) as (r' & h' & Hrun & Hq & Hwf & Hr & Hown); [by right| |].
  - intros h2 r2 Hm Hp. unfold control_announce_done. apply wp_bind, wp_get, wp_bind.
    cbn [control_registry_json with_body set_control_state set_control_registry_len
      set_control_registry_pos set_control_registry_json]. rewrite Hp. cbn [bool_decide andb].
    apply wp_ret, wp_ret. split; [done|].
    eapply announce_done_ended; [done|exact Hm|done|]. by eapply carried_same.
  - exists r', h'. split; [done|]. by eapply ended_open.
Qed.

Lemma existsb_tag T v : existsb (λ t, bool_decide (tag_value t = v)) T = true ↔ ∃ t, t ∈ T ∧ tag_value t = v.
Proof.
  rewrite existsb_exists. split; intros (t & Ht & Hv); exists t; rewrite list_elem_of_In in *.
  - by apply bool_decide_eq_true in Hv.
  - split; [done|]. by apply bool_decide_eq_true.
Qed.

(** CONNECTED: a known id changes nothing, a new one gets a PTY. *)
Lemma wp_connected_carried h r fed h2 r2 i name :
  host_open E logs h r → mirrored h r fed h2 r2 →
  Z.of_nat (length (announce (active_tags h) (Connected i name))) ≤ VIRTIOSO_MAX_PTY_COUNT →
  wp total (apply_virtioso_stream_connected E (z2b i) name)
    (λ _ h', cfg h' = cfg h2 ∧ carried h [Connected i name] h') h2.
Proof using Ha Hpo Henv.
  intros Ho Hm Hcap. pose proof Ho as [[Hrd _ _ _] _ _]. pose proof (rd_wf _ _ _ Hrd) as Hwf.
  pose proof Hm as [[Hst _ _ _] _ _].
  assert (Hwf2 : wf h2) by (eapply wf_same; [exact (stable_wf _ _ Hst Hwf)|done..]).
  pose proof (st_num_proc _ _ Hst) as Hn2. pose proof (st_tags _ _ Hst) as Ht2. cbn in Hn2, Ht2.
  assert (Hact : active_tags h2 = active_tags h) by (unfold active_tags; congruence).
  pose proof (active_length _ (wf_shape _ Hwf)) as Hal. pose proof (sh_n _ _ (wf_shape _ Hwf2)) as Hn3.
  unfold announce in Hcap. destruct (existsb _ _) eqn:Hex.
  - apply existsb_tag in Hex as Hin. unfold apply_virtioso_stream_connected.
    eapply wp_bind_run; [by apply find_idx_run, (wf_shape _ Hwf2)|].
    destruct (find_tag_value_bound (active_tags h2) (z2b i) 0) as [Hnone|Hsome]; [lia| |].
    + rewrite (find_tag_value_none _ _ 0) in Hnone by lia. destruct Hin as (t & Ht & Hv).
      rewrite Hact in Hnone. by destruct (Hnone t).
    + rewrite (proj2 (Z.leb_le 0 _)) by lia. apply wp_ret. split; [done|].
      eapply carried_same; [done|exact Hm| |done]. unfold announce. by rewrite Hex.
  - assert (Hnew : find_tag_value (active_tags h2) (z2b i) 0 = -1).
    { apply (find_tag_value_none _ _ 0); [lia|]. intros t Ht Hv. rewrite Hact in Ht.
      assert (existsb (λ t, bool_decide (tag_value t = z2b i)) (active_tags h) = true); [|congruence].
      apply existsb_tag. eauto. }
    rewrite length_app in Hcap. cbn in Hcap.
    assert (Hlt : num_proc h2 < VIRTIOSO_MAX_PTY_COUNT) by lia.
    eapply wp_mono.
    { apply wp_conj; [by apply wp_connected_adds|]. apply wp_preserves with
        (I := λ h', ∀ fd, offered fd (trace h') = offered fd (trace h2)).
      - apply connected_writes_nothing.
      - done.
      - by apply wp_apply_connected. }
    intros [] h' [Hn' [[Hwf' [Hk [?|[_ Hent]]]] Hoff]]; [lia|].
    destruct Hent as (Htag & _). split; [apply Hk|].
    assert (Hat : active_tags h' = active_tags h ++ [Tag (Some (cstr (take 255 name))) (z2b i)]).
    { rewrite <-Hact. unfold active_tags. rewrite Hn'.
      replace (Z.to_nat (num_proc h2 + 1)) with (S (Z.to_nat (num_proc h2))) by lia.
      rewrite (take_S_r _ _ _ Htag). f_equal. apply list_eq. intros j.
      destruct (decide (j < Z.to_nat (num_proc h2))%nat) as [Hj|Hj].
      - rewrite !lookup_take_lt by done. apply (kp_tags _ _ _ Hk). lia.
      - rewrite !lookup_take_ge by lia. done. }
    pose proof (carried_same h r fed h2 r2 (Data 0 []) Ho Hm eq_refl) as Hsame.
    destruct Hsame as [_ Hold Hdata]; [intros sid; cbn; by case_bool_decide|].
    constructor.
    + rewrite Hat. unfold announce_all. cbn. by rewrite Hex.
    + intros j p Hj Hp. destruct (Hold j p Hj Hp) as (p' & Hp' & Hfd). exists p'. split; [|done].
      by rewrite (kp_pty _ _ _ Hk) by lia.
    + intros j t p Hj _ Hp. exists (offered (td_fd p) (trace h')). split; [by rewrite app_nil_r|].
      intros Hjn. rewrite (kp_pty _ _ _ Hk) in Hp by lia. rewrite Hoff.
      destruct (lookup_lt_is_Some_2 (active_tags h2) j) as [u Hu]; [rewrite Hact; lia|].
      destruct (Hdata j u p Hj Hu Hp) as (before & Heq & Hb). rewrite Heq, Hb by done.
      cbn. case_bool_decide; by rewrite app_nil_r.
Qed.

Lemma host_connected h r i name :
  host_open E logs h r → msg_ok (Connected i name) →
  Z.of_nat (length (announce (active_tags h) (Connected i name))) ≤ VIRTIOSO_MAX_PTY_COUNT →
  ∃ r' h', feed_all (feed_nvidia_outer_or_virtioso_raw E) (wires (msg_tokens (Connected i name))) r h
             = Done (0, r') h' ∧ host_open E logs h' r' ∧ carried h [Connected i name] h'.
Proof using Henv Ha Hpo.
  intros Ho Hok Hcap. pose proof (encode_msg_wires false (Connected i name) (conj Hok I)) as [_ Htok].
  cbn [msg_tokens forallb token_ok] in Htok. rewrite andb_true_r in Htok.
  unfold wires. cbn [msg_tokens map concat]. rewrite app_nil_r. cbn [wire].
  destruct (feed_record_run (ended h (Connected i name)) VCMUX_PROTO_CONTROL_STREAM_CONNECTED
    (z2b i :: name) h r Ho Htok) as (r' & h' & Hrun & Hq & Hwf & Hr & Hown); [by left| |].
  - intros h2 r2 Hm Hp. unfold control_announce_done. apply wp_bind, wp_get, wp_bind.
    cbn [control_registry_json with_body set_control_state set_control_registry_len
      set_control_registry_pos set_control_registry_json control_registry_len]. rewrite Hp.
    rewrite bool_decide_eq_true_2, (proj2 (Z.leb_le 1 _)) by (done || (cbn; lia)). cbn [andb].
    apply wp_bind, wp_arr_get; [cbn; lia|]. intros sid Hsid. cbn in Hsid. injection Hsid as <-.
    replace (Z.to_nat (Z.of_nat (length (z2b i :: name)) - 1)) with (length name) by (cbn; lia).
    cbn [drop app]. rewrite drop_0, take_app_length.
    eapply wp_mono; [by eapply wp_connected_carried|]. intros [] h' [Hcfg Hca]. apply wp_ret. split; [done|].
    by eapply announce_done_ended.
  - exists r', h'. split; [done|]. by eapply ended_open.
Qed.

(** The only index of a stream id that is not 0. *)
Lemma index_of_tag h j t v :
  wf h → (3 ≤ j)%nat → active_tags h !! j = Some t → v ≠ x00 → 
  (index_of h v =? Z.of_nat j) = bool_decide (v = tag_value t).
Proof.
  intros Hwf Hj Ht Hv. apply active_lookup in Ht as Hl. destruct Hl as [Hn Hl].
  case_bool_decide as Heq.
  - subst v. apply Z.eqb_eq. by apply find_registered.
  - apply Z.eqb_neq. intros Hi. apply Heq.
    destruct (find_tag_value_found (active_tags h) v 0) as (u & Hu & <-); [lia|unfold index_of in Hi; lia|].
    unfold index_of in Hi. rewrite Hi, Z.sub_0_r, Nat2Z.id, Ht in Hu. by injection Hu as ->.
Qed.

(** A data frame of a known stream. *)
Lemma host_data h r i payload :
  host_open E logs h r → id_ok i → i ≠ 0 → (∃ t, t ∈ active_tags h ∧ tag_value t = z2b i) →
  ∃ r' h', feed_all (feed_nvidia_outer_or_virtioso_raw E) (wires (msg_tokens (Data i payload))) r h
             = Done (0, r') h' ∧ host_open E logs h' r' ∧ carried h [Data i payload] h'.
Proof using Henv.
  intros [[Hrd Hraw He Hc] Hown Hplain] Hok H0 (t & Ht & Hv).
  pose proof (rd_wf _ _ _ Hrd) as Hwf. pose proof (rd_ok _ _ _ Hrd) as Hr.
  assert (Hsel : selectable (z2b i) = true).
  { destruct (encode_msg_wires false (Data i [])) as [_ Htok];
      [split; [done|split; [cbn; lia|done]]|].
    unfold msg_tokens in Htok. rewrite (proj2 (Z.eqb_neq i 0)) in Htok by done.
    by apply andb_prop in Htok as [? _]. }
  assert (Hz : z2b i ≠ x00) by (by apply selectable_spec in Hsel as [? _]).
  assert (Hkn : known h (z2b i)).
  { split; [done|]. unfold index_of.
    destruct (find_tag_value_bound (active_tags h) (z2b i) 0) as [Hnone|?]; [lia| |lia].
    rewrite (find_tag_value_none _ _ 0) in Hnone by lia. by destruct (Hnone t). }
  destruct (frames_taken E h r [(z2b i, payload)] Hrd Hraw He Hc) as (r' & h' & Hrun & Hrd' & He' & Hc' & Hst & Hrec);
    [by constructor|].
  assert (Hwire : frames [(z2b i, payload)] = wires (msg_tokens (Data i payload))).
  { unfold frames. cbn [map concat fst snd]. rewrite app_nil_r, frame_wires. unfold msg_tokens, frame_tokens.
    by rewrite (proj2 (Z.eqb_neq i 0)) by done. }
  rewrite Hwire in Hrun. exists r', h'. split; [done|].
  pose proof (own_feed_all E logs Henv (wires (msg_tokens (Data i payload))) r h Hown) as Hown'.
  unfold wp in Hown'. rewrite Hrun in Hown'. pose proof (st_cfg _ _ Hst) as Hcfg.
  split; [constructor; [constructor| |]; congruence || done|].
  assert (Hback : ∀ j p, pty_data h' !! j = Some p → ∃ p', pty_data h !! j = Some p' ∧ td_fd p' = td_fd p).
  { intros j p Hj. pose proof (st_pty _ _ Hst) as Hp. apply (f_equal (.!! j)) in Hp.
    rewrite !list_lookup_fmap, Hj in Hp. destruct (pty_data h !! j) as [p'|]; [|done].
    cbn in Hp. injection Hp as H1 H2 H3 H4. by exists p'. }
  assert (Hat : active_tags h' = active_tags h).
  { unfold active_tags. by rewrite (st_tags _ _ Hst), (st_num_proc _ _ Hst). }
  constructor; [done|..].
  - intros j p _ Hj. pose proof (st_pty _ _ Hst) as Hp. apply (f_equal (.!! j)) in Hp.
    rewrite !list_lookup_fmap, Hj in Hp. destruct (pty_data h' !! j) as [p'|]; [|done].
    cbn in Hp. injection Hp as H1 H2 H3 H4. by exists p'.
  - intros j u p Hj Hu Hp. rewrite Hat in Hu. destruct (Hback j p Hp) as (p' & Hp' & <-).
    assert (Hlt : (j < NPTY)%nat) by (rewrite <-(sh_pty _ _ (wf_shape _ Hwf)); by eapply lookup_lt_Some).
    destruct (lookup_lt_is_Some_2 (seen_n r) j) as [n Hsn]; [by rewrite (ro_seen_n _ _ Hr)|].
    destruct (lookup_lt_is_Some_2 (seen_r r) j) as [c Hsc]; [by rewrite (ro_seen_r _ _ Hr)|].
    pose proof (proj1 (active_lookup _ _ _) Hu) as [Hjn _].
    destruct (Hrec j p' n c ltac:(rewrite (wf_max _ Hwf); lia) Hp' Hsn Hsc) as [Hoff _].
    exists (offered (td_fd p') (trace h)). split; [|done]. rewrite Hoff, chan_plain by done.
    cbn [fst]. f_equal. unfold frames_recv. rewrite bool_decide_eq_false_2 by lia.
    unfold payload_for, stream_data. cbn. by rewrite (index_of_tag h j u).
Qed.

(* ------------------------------------------------------------------ *)
(** ** Lemmas: all records *)

Lemma announce_prefix T l : T `prefix_of` announce_all T l.
Proof.
  unfold announce_all. revert T. induction l as [|m l IH]; intros T; [done|]. cbn [foldl].
  etrans; [|apply IH]. destruct m as [i nm|i pl|i nm]; cbn [announce]; [|done..].
  destruct (existsb _ _); [done|]. by apply prefix_app_r.
Qed.

Lemma announced_data T l i payload :
  announced T l → Data i payload ∈ l → ∃ t, t ∈ announce_all T l ∧ tag_value t = z2b i.
Proof.
  revert T. induction l as [|m l IH]; intros T Hl Hin; [by apply elem_of_nil in Hin|].
  cbn [announced] in Hl. destruct Hl as [Hm Hl]. apply elem_of_cons in Hin as [<-|Hin]; [|by apply IH].
  destruct Hm as (t & Ht & Hv). exists t. split; [|done].
  destruct (announce_prefix T (Data i payload :: l)) as [k ->]. apply elem_of_app. by left.
Qed.

Lemma stream_data_cons sid m l : stream_data sid (m :: l) = stream_data sid [m] ++ stream_data sid l.
Proof. unfold stream_data. cbn. by rewrite app_nil_r. Qed.

(** A record, then the rest. *)
Lemma carried_cons h m h1 l h2 :
  wf h → wf h1 → wf h2 → carried h [m] h1 → carried h1 l h2 → announced (active_tags h) [m] → msg_id m ≠ 0 →
  id_ok (msg_id m) → carried h (m :: l) h2.
Proof.
  intros Hwf Hwf1 Hwf2 [Ht1 Ho1 Hd1] [Ht2 Ho2 Hd2] Hann H0 Hok.
  pose proof (active_length _ (wf_shape _ Hwf)) as Hl0. pose proof (active_length _ (wf_shape _ Hwf1)) as Hl1.
  assert (Hle : num_proc h ≤ num_proc h1).
  { rewrite <-Hl0, <-Hl1, Ht1. pose proof (prefix_length _ _ (announce_prefix (active_tags h) [m])). lia. }
  pose proof (announce_prefix (active_tags h1) l) as Hpre. rewrite <-Ht2 in Hpre. constructor.
  - rewrite Ht2, Ht1. done.
  - intros j p Hj Hp. destruct (Ho1 j p Hj Hp) as (p1 & Hp1 & <-). apply Ho2; [lia|done].
  - intros j t p Hj Ht Hp. rewrite stream_data_cons.
    destruct (Hd2 j t p Hj Ht Hp) as (b2 & Hoff2 & Hb2).
    destruct (decide (Z.of_nat j < num_proc h1)) as [Hj1|Hj1].
    + specialize (Hb2 Hj1). destruct (lookup_lt_is_Some_2 (active_tags h1) j) as [t1 Ht1']; [lia|].
      assert (t1 = t) as -> by (pose proof (prefix_lookup_Some _ _ _ _ Ht1' Hpre); congruence).
      pose proof (proj1 (active_lookup _ _ _) Ht1') as [_ Htag].
      destruct (lookup_lt_is_Some_2 (pty_data h1) j) as [p1 Hp1].
      { rewrite (sh_pty _ _ (wf_shape _ Hwf1)). pose proof (sh_n _ _ (wf_shape _ Hwf1)).
        unfold NPTY, VIRTIOSO_MAX_PTY_COUNT in *. lia. }
      destruct (Ho2 j p1 Hj1 Hp1) as (p2 & Hp2 & Hfd). assert (p2 = p) as -> by congruence.
      destruct (Hd1 j t p1 Hj Ht1' Hp1) as (b1 & Hoff1 & Hb1). exists b1.
      rewrite Hoff2, Hb2, Hfd, Hoff1, app_assoc. split; [done|]. intros Hjn. by apply Hb1.
    + exists b2. split; [|intros; lia]. rewrite Hoff2. f_equal.
      replace (stream_data (tag_value t) [m]) with (@nil byte); [done|].
      destruct m as [i nm|i pl|i nm]; [done| |done]. unfold stream_data. cbn.
      case_bool_decide as Heq; [|done]. exfalso. destruct Hann as [(u & Hu & Hv) _].
      apply list_elem_of_lookup in Hu as [k Hk].
      assert (Hk2 : active_tags h2 !! k = Some u).
      { eapply prefix_lookup_Some; [|exact Hpre]. rewrite Ht1. exact Hk. }
      apply active_lookup in Hk as [Hkn _], Hk2 as [Hkn2 Hk2], Ht as [Htn Ht].
      assert (k = j); [|subst; lia]. destruct Hwf2 as [_ [_ Hu2] _ _].
      apply (Hu2 k j u t); try done; [congruence|]. rewrite Hv. cbn in Hok, H0. destruct Hok as (Hr & _).
      intros Hz%(f_equal b2z). rewrite b2z_z2b_small in Hz by lia. done.
Qed.

(** All that was sent. *)
Lemma host_msgs l : ∀ h r,
  host_open E logs h r → Forall (msg_sent false) l → Forall (λ m, msg_id m ≠ 0) l →
  announced (active_tags h) l → Z.of_nat (length (announce_all (active_tags h) l)) ≤ VIRTIOSO_MAX_PTY_COUNT →
  ∃ r' h', feed_all (feed_nvidia_outer_or_virtioso_raw E) (wires (concat (msg_tokens <$> l))) r h
             = Done (0, r') h' ∧ host_open E logs h' r' ∧ carried h l h'.
Proof using Henv Ha Hpo.
  induction l as [|m l IH]; intros h r Ho Hok H0 Han Hcap.
  { exists r, h. split; [done|]. split; [done|]. constructor; [done|eauto|].
    intros j t p _ _ _. exists (offered (td_fd p) (trace h)). by rewrite app_nil_r. }
  apply Forall_cons in Hok as [[Hm Hs] Hok], H0 as [H0m H0]. destruct Han as [Hann Han].
  change (announce_all (active_tags h) (m :: l)) with (announce_all (announce (active_tags h) m) l) in Hcap.
  assert (Hcap1 : Z.of_nat (length (announce (active_tags h) m)) ≤ VIRTIOSO_MAX_PTY_COUNT).
  { pose proof (prefix_length _ _ (announce_prefix (announce (active_tags h) m) l)). lia. }
  assert (∃ r1 h1, feed_all (feed_nvidia_outer_or_virtioso_raw E) (wires (msg_tokens m)) r h = Done (0, r1) h1 ∧
    host_open E logs h1 r1 ∧ carried h [m] h1) as (r1 & h1 & Hrun1 & Ho1 & Hca1).
  { destruct m as [i nm|i pl|i nm]; [by apply host_connected| |by apply host_disconnected].
    by apply host_data. }
  assert (Htags : active_tags h1 = announce (active_tags h) m) by (by destruct Hca1).
  destruct (IH h1 r1 Ho1 Hok H0) as (r2 & h2 & Hrun2 & Ho2 & Hca2); [by rewrite Htags..|].
  exists r2, h2. split.
  - cbn [fmap list_fmap concat]. rewrite wires_app, feed_all_app.
    rewrite (run_bind _ _ _ _ _ Hrun1). exact Hrun2.
  - split; [done|]. eapply (carried_cons h m h1 l h2); try done; try by apply Ho || apply Ho1 || apply Ho2.
    destruct m; apply Hm.
Qed.
End Host.

(** A run's data follow their stream's announcement. *)
Lemma announced_intro l : ∀ T,
  (∀ l1 i payload l2, l = l1 ++ Data i payload :: l2 →
     (∃ t, t ∈ T ∧ tag_value t = z2b i) ∨ ∃ name, Connected i name ∈ l1) → announced T l.
Proof.
  induction l as [|m l IH]; intros T Hl; [done|]. cbn [announced]. split.
  - destruct m as [i nm|i pl|i nm]; [done| |done].
    destruct (Hl [] i pl l eq_refl) as [?|[nm Hn]]; [done|by apply elem_of_nil in Hn].
  - apply IH. intros l1 i pl l2 ->.
    assert (Hmono : ∀ t, t ∈ T → t ∈ announce T m).
    { intros t Ht. destruct (announce_prefix T [m]) as [k Hk]. unfold announce_all in Hk. cbn in Hk.
      rewrite Hk. apply elem_of_app. by left. }
    destruct (Hl (m :: l1) i pl l2 eq_refl) as [(t & Ht & Hv)|[nm [Heq|Hn]%elem_of_cons]]; [left; eauto| |by right; exists nm].
    left. subst m. cbn [announce]. destruct (existsb _ _) eqn:Hex; [by apply existsb_tag|].
    eexists. rewrite elem_of_app, list_elem_of_singleton. split; [by right|done].
Qed.

Lemma run_announced debug log d T : run_of debug log d → announced T (log.*2).
Proof.
  intros Hrun. apply announced_intro. intros l1 i pl l2 Heq. right.
  apply fmap_app_inv in Heq as (L1 & L2 & -> & Heq & ->).
  destruct L2 as [|[c m] L2]; [done|]. injection Heq as <- ->.
  pose proof (muxd_inv_run _ _ _ Hrun) as [_ Hs _ _ _ _]. specialize (Hs c).
  assert (Hses : session (of_client c (L1 ++ (c, Data i pl) :: L2)))
    by (destruct (ch_open _); [by eapply session_at_session|done]).
  rewrite of_client_app in Hses. unfold of_client in Hses at 2. rewrite filter_cons_True in Hses by done.
  cbn in Hses. fold (of_client c L2) in Hses.
  assert (∃ name, Connected i name ∈ of_client c L1) as [name Hn].
  { destruct Hses as [Hnil|(j & name & Hses)]; [by destruct (of_client c L1)|].
    destruct (of_client c L1) as [|m0 k].
    - by destruct Hses as [[ds [=]]|[ds [=]]].
    - exists name. rewrite elem_of_cons. left. cbn in Hses.
      assert (Data i pl ∈ m0 :: k ++ Data i pl :: of_client c L2) as Hin
        by (rewrite !elem_of_cons, elem_of_app, elem_of_cons; auto).
      destruct Hses as [[ds Heq]|[ds Heq]]; rewrite Heq in Hin; injection Heq as -> _;
        rewrite elem_of_cons, ?elem_of_app, ?list_elem_of_fmap, ?list_elem_of_singleton in Hin.
      + by destruct Hin as [?|(b & [= -> _] & _)].
      + by destruct Hin as [?|[(b & [= -> _] & _)|?]]. }
  exists name. apply elem_of_client in Hn. apply list_elem_of_fmap. by exists (c, Connected i name).
Qed.

(** A drained daemon: all that was sent is at the sink. *)
Lemma drained debug log d :
  run_of debug log d → ch_open (dm_chan d) = true → ch_queue (dm_chan d) = [] →
  Forall (λ e, msg_id e.2 ≠ 0) log →
  dm_sink d = wires (concat (msg_tokens <$> log.*2)) ∧ Forall (msg_sent false) log.*2.
Proof.
  intros Hrun Hopen Hq Hid. pose proof (muxd_inv_run _ _ _ Hrun) as [_ _ [_ Hch] _ _ Hm].
  rewrite Hopen in Hch. destruct Hch as (w & pd & Hlog & Hqq & Hs). rewrite Hq in Hqq.
  symmetry in Hqq. apply fmap_nil_inv in Hqq as ->. rewrite app_nil_r in Hlog.
  destruct (log_wires _ _ Hm) as [Hw _]. rewrite Hlog in Hw. rewrite <-Hs in Hw. split; [done|].
  apply Forall_fmap. eapply Forall_impl; [exact Hm|]. intros e [Hok Hd]. split; [done|].
  destruct e as [c []]; try done. cbn in *. destruct Hd as [? _]. split; [done|]. by intros.
Qed.

(* ------------------------------------------------------------------ *)
(** ** The property *)

(** C14: from the daemon's clients to the host's PTYs.  Take any run of the
    daemon in which no id ran out and whose channel has drained, and a host in
    raw mode that can open PTYs and has room for the announced streams.  The
    host takes all the daemon wrote without an error; its table gets exactly
    the announced streams that it did not know, in order, with their names
    (cut to 255 bytes); and each stream's PTY is offered exactly what the
    clients that held its id wrote, in order, however they interleaved. *)
Theorem muxd_to_host debug log d E logs h r :
  run_of debug log d → ch_open (dm_chan d) = true → ch_queue (dm_chan d) = [] →
  Forall (λ e, msg_id e.2 ≠ 0) log →
  good_fds E logs → alloc_ok E → ptys_open E → host_open E logs h r →
  Z.of_nat (length (announce_all (active_tags h) (log.*2))) ≤ VIRTIOSO_MAX_PTY_COUNT →
  ∃ r' h', feed_all (feed_nvidia_outer_or_virtioso_raw E) (dm_sink d) r h = Done (0, r') h' ∧
    host_open E logs h' r' ∧ carried h (log.*2) h'.
Proof.
  intros Hrun Hopen Hq Hid Henv Ha Hpo Ho Hcap. destruct (drained _ _ _ Hrun Hopen Hq Hid) as [-> Hm].
  apply host_msgs; try done; [by apply Forall_fmap|by eapply run_announced].
Qed.

Lemma demo_host_open : host_open good_env (λ _, true) demo_host rx_init.
Proof.
  assert (Hs : main_start good_env 1 (demo_options []) (host_boot (demo_options [])) = Done 0 demo_host)
    by (vm_compute; reflexivity).
  pose proof (wp_done_inv _ _ _ _ _ _ (wp_main_start_fds good_env (λ _, true) good_env_fds
    1 (demo_options []) eq_refl) Hs eq_refl) as Ho. clear Hs.
  pose proof demo_host_wf as Hwf. constructor; [|exact Ho|vm_compute; reflexivity].
  constructor; [|vm_compute; reflexivity|reflexivity|reflexivity].
  apply (own_ready good_env (λ _, true) good_env_fds); [exact Hwf| |exact Ho|reflexivity].
  apply rx_init_ok. vm_compute. congruence.
Qed.

(** C14 on two clients, of which the first ends while the second is open. *)
Lemma muxd_to_host_witness :
  ∃ r' h', feed_all (feed_nvidia_outer_or_virtioso_raw good_env) (dm_sink demo_state.2) rx_init demo_host
             = Done (0, r') h' ∧
    host_open good_env (λ _, true) h' r' ∧ carried demo_host (demo_state.1.*2) h'.
Proof.
  apply (muxd_to_host true demo_state.1 demo_state.2 good_env (λ _, true) demo_host rx_init demo_run).
  - vm_compute. reflexivity.
  - vm_compute. reflexivity.
  - repeat (constructor; [vm_compute; congruence|]). constructor.
  - exact good_env_fds.
  - by intros tr n.
  - exact good_env_ptys.
  - exact demo_host_open.
  - vm_compute. congruence.
Defined.
