(* ===== verification/Exec.v ===== *)
(** * The Linux exec helper

    [linux/virtioso-mux-exec]: a command whose two pipes are merged into one
    stream of the daemon.  The tasks are the main task, a forwarder for each
    pipe and the task that waits for the child; they share a bounded channel
    and a one-shot for the exit status.  [exec_act] is one step of one task,
    from one [await] to the next; the scheduler, the clock, the child and the
    socket choose the action. *)

From S2P Require Import Prelude.

(** The child's pipes. *)
Inductive pipe : Type := Stdout | Stderr.
#[global] Instance pipe_eq_decision : EqDecision pipe.
Proof. solve_decision. Defined.

(** What [child.wait()] gives; a child killed by a signal has no code. *)
Inductive wait_result : Type := Status (code : option Z) | WaitError.

(** [s.code().unwrap_or(1)], and 1 for an error. *)
Definition exit_code (w : wait_result) : Z :=
  match w with Status (Some c) => c | _ => 1 end.

(** Where a pipe's forwarder is. *)
Inductive forwarder : Type :=
| FwReading
| FwSending (data : list byte)       (** in [tx.send(..).await] *)
| FwDone.

(** Where the main task is; times in milliseconds. *)
Inductive place : Type :=
| Connecting (deadline : Z)
| Sleeping (deadline wake : Z)
| Naming (rest : list byte)       (** writing the name *)
| AwaitingId
| Spawning (id : Z)
| PollRx                             (** [select!] asks the channel first, *)
| PollExit                           (** then the one-shot *)
| Writing (rest : list byte)         (** in [conn.write_all(&data).await] *)
| Collecting                         (** in [exit_rx.await] *)
| Draining (code deadline : Z)       (** in [timeout_at(deadline, rx.recv())] *)
| DrainWriting (code deadline : Z) (rest : list byte)
| Finished (code : Z).               (** [std::process::exit(code)] *)

Record args : Type := Args { a_name : list byte; a_connect_timeout : Z }.

Record exec : Type := Exec {
  ex_now : Z;
  ex_main : place;
  ex_out : forwarder;
  ex_err : forwarder;
  ex_queue : list (list byte);       (** the channel *)
  ex_exit : option wait_result       (** what [exit_tx] sent *)
}.

Definition set_now (t : Z) (x : exec) : exec := Exec t (ex_main x) (ex_out x) (ex_err x) (ex_queue x) (ex_exit x).
Definition set_main (m : place) (x : exec) : exec := Exec (ex_now x) m (ex_out x) (ex_err x) (ex_queue x) (ex_exit x).
Definition set_queue (q : list (list byte)) (x : exec) : exec := Exec (ex_now x) (ex_main x) (ex_out x) (ex_err x) q (ex_exit x).
Definition set_exit (w : wait_result) (x : exec) : exec := Exec (ex_now x) (ex_main x) (ex_out x) (ex_err x) (ex_queue x) (Some w).
Definition fw (p : pipe) (x : exec) : forwarder := match p with Stdout => ex_out x | Stderr => ex_err x end.
Definition set_fw (p : pipe) (f : forwarder) (x : exec) : exec :=
  match p with
  | Stdout => Exec (ex_now x) (ex_main x) f (ex_err x) (ex_queue x) (ex_exit x)
  | Stderr => Exec (ex_now x) (ex_main x) (ex_out x) f (ex_queue x) (ex_exit x)
  end.

Definition EXEC_CAPACITY : nat := 64.
Definition PIPE_READ : nat := 4096.
Definition DRAIN_MS : Z := 2000.
Definition CONNECT_SLEEP_MS : Z := 200.

(** The start: [Args::parse] and the deadline of [connect_with_retry]. *)
Definition exec_start (a : args) (now : Z) : exec :=
  Exec now (Connecting (now + a_connect_timeout a * 1000)) FwReading FwReading [] None.

(** What can be seen of a step. *)
Inductive event : Type :=
| Linked                             (** connected to the socket *)
| Put (d : list byte)                (** the socket took [d] *)
| PutError (draining : bool)         (** a write failed *)
| GotId (id : Z)                     (** read the id *)
| Spawned
| Got (p : pipe) (d : list byte)     (** read [d] from a pipe *)
| ChildEnd (w : wait_result)         (** [child.wait()] returned *)
| TimedOut.                          (** the drain's deadline passed *)

(** What the scheduler and the environment choose. *)
Inductive exec_action : Type :=
| XTick (ms : Z)
| XConnect (ok : bool)
| XPut (n : nat) | XPutError
| XId (r : option Z)                 (** [conn.read_u8()] *)
| XSpawn (ok : bool)
| XGo                                (** the main task goes on by itself *)
| XTimeout
| XRead (p : pipe) (d : list byte) | XEof (p : pipe) | XSend (p : pipe)
| XChild (w : wait_result).

(** [rx.recv()]: the senders are dropped when both forwarders are done. *)
Inductive received : Type := RxData (d : list byte) (q : list (list byte)) | RxClosed | RxPending.

Definition rx_recv (x : exec) : received :=
  match ex_queue x with
  | d :: q => RxData d q
  | [] => match ex_out x, ex_err x with FwDone, FwDone => RxClosed | _, _ => RxPending end
  end.

(** After [spawn] and before the process ends, the other tasks live. *)
Definition running (m : place) : bool :=
  match m with
  | PollRx | PollExit | Writing _ | Collecting | Draining _ _ | DrainWriting _ _ _ => true
  | _ => false
  end.

(** One attempt of [connect_with_retry], and what [main] does with it. *)
Definition connect_with_retry (a : args) (ok : bool) (x : exec) : option (list event * exec) :=
  match ex_main x with
  | Connecting deadline =>
      if ok then
        if 255 <? Z.of_nat (length (a_name a)) then Some ([Linked], set_main (Finished 1) x)
        else Some ([Linked], set_main (Naming (z2b (Z.of_nat (length (a_name a))) :: a_name a)) x)
      else if ex_now x <? deadline then
        Some ([], set_main (Sleeping deadline (ex_now x + CONNECT_SLEEP_MS)) x)
      else Some ([], set_main (Finished 1) x)
  | _ => None
  end.

(** A write on the socket takes at least a byte. *)
Definition take_some (n : nat) (rest : list byte) : option (list byte * list byte) :=
  if (0 <? n)%nat && (n <=? length rest)%nat then Some (take n rest, drop n rest) else None.

Definition write_socket (n : nat) (x : exec) : option (list event * exec) :=
  match ex_main x with
  | Naming rest => '(d, rest') ← take_some n rest; Some ([Put d], set_main (Naming rest') x)
  | Writing rest => '(d, rest') ← take_some n rest; Some ([Put d], set_main (Writing rest') x)
  | DrainWriting code deadline rest =>
      '(d, rest') ← take_some n rest; Some ([Put d], set_main (DrainWriting code deadline rest') x)
  | _ => None
  end.

(** A write that fails; an empty one cannot. *)
Definition write_fails (x : exec) : option (list event * exec) :=
  match ex_main x with
  | Naming (_ :: _) | Writing (_ :: _) => Some ([PutError false], set_main (Finished 1) x)
  | DrainWriting code deadline (_ :: _) => Some ([PutError true], set_main (Draining code deadline) x)
  | _ => None
  end.

(** The answer to the enrollment. *)
Definition read_id (r : option Z) (x : exec) : option (list event * exec) :=
  match ex_main x, r with
  | AwaitingId, Some id =>
      Some ([GotId id], set_main (if id =? 0 then Finished 1 else Spawning id) x)
  | AwaitingId, None => Some ([], set_main (Finished 1) x)
  | _, _ => None
  end.

Definition spawn (ok : bool) (x : exec) : option (list event * exec) :=
  match ex_main x with
  | Spawning _ => if ok then Some ([Spawned], set_main PollRx x) else Some ([], set_main (Finished 1) x)
  | _ => None
  end.

(** [drain_with_child_exit] between two [await]s.  The [select!] is biased: it
    asks for data first and for the exit status if there is none; when there
    is neither the task sleeps until one of them comes. *)
Definition drain_with_child_exit (x : exec) : option exec :=
  match ex_main x with
  | PollRx =>
      match rx_recv x with
      | RxData d q => Some (set_main (Writing d) (set_queue q x))
      | RxClosed => Some (set_main Collecting x)
      | RxPending => Some (set_main PollExit x)
      end
  | PollExit =>
      match ex_exit x with
      | Some w => Some (set_main (Draining (exit_code w) (ex_now x + DRAIN_MS)) x)
      | None => match rx_recv x with RxPending => None | _ => Some (set_main PollRx x) end
      end
  | Writing [] => Some (set_main PollRx x)
  | Collecting =>
      match ex_exit x with Some w => Some (set_main (Finished (exit_code w)) x) | None => None end
  | Draining code deadline =>
      match rx_recv x with
      | RxData d q => Some (set_main (DrainWriting code deadline d) (set_queue q x))
      | RxClosed => Some (set_main (Finished code) x)
      | RxPending => None
      end
  | DrainWriting code deadline [] => Some (set_main (Draining code deadline) x)
  | _ => None
  end.

(** The main task by itself. *)
Definition go (x : exec) : option exec :=
  match ex_main x with
  | Sleeping deadline wake => if wake <=? ex_now x then Some (set_main (Connecting deadline) x) else None
  | Naming [] => Some (set_main AwaitingId x)
  | _ => drain_with_child_exit x
  end.

Definition drain_timeout (x : exec) : option (list event * exec) :=
  match ex_main x with
  | Draining code deadline =>
      if deadline <=? ex_now x then Some ([TimedOut], set_main (Finished code) x) else None
  | _ => None
  end.

(** The forwarder of a pipe.  The receiver lives as long as the process, so
    [send] waits or succeeds. *)
Definition forward_read (p : pipe) (d : list byte) (x : exec) : option (list event * exec) :=
  match fw p x with
  | FwReading =>
      if (0 <? length d)%nat && (length d <=? PIPE_READ)%nat
      then Some ([Got p d], set_fw p (FwSending d) x) else None
  | _ => None
  end.

Definition forward_eof (p : pipe) (x : exec) : option (list event * exec) :=
  match fw p x with FwReading => Some ([], set_fw p FwDone x) | _ => None end.

Definition forward_send (p : pipe) (x : exec) : option (list event * exec) :=
  match fw p x with
  | FwSending d =>
      if (length (ex_queue x) <? EXEC_CAPACITY)%nat
      then Some ([], set_fw p FwReading (set_queue (ex_queue x ++ [d]) x)) else None
  | _ => None
  end.

(** The task that waits for the child. *)
Definition child_wait (w : wait_result) (x : exec) : option (list event * exec) :=
  match ex_exit x with None => Some ([ChildEnd w], set_exit w x) | Some _ => None end.

Definition when {A} (b : bool) (o : option A) : option A := if b then o else None.

Definition exec_act (a : args) (act : exec_action) (x : exec) : option (list event * exec) :=
  let live := running (ex_main x) in
  match act with
  | XTick ms => when (0 <? ms) (Some ([], set_now (ex_now x + ms) x))
  | XConnect ok => connect_with_retry a ok x
  | XPut n => write_socket n x
  | XPutError => write_fails x
  | XId r => read_id r x
  | XSpawn ok => spawn ok x
  | XGo => x' ← go x; Some ([], x')
  | XTimeout => drain_timeout x
  | XRead p d => when live (forward_read p d x)
  | XEof p => when live (forward_eof p x)
  | XSend p => when live (forward_send p x)
  | XChild w => when live (child_wait w x)
  end.

(** Runs, with what was seen. *)
Inductive exec_step (a : args) (x : exec) (es : list event) (x' : exec) : Prop :=
| exec_does act : exec_act a act x = Some (es, x') → exec_step a x es x'.

Inductive exec_run (a : args) (now : Z) : list event → exec → Prop :=
| exec_run_start : exec_run a now [] (exec_start a now)
| exec_run_step log x es x' : exec_run a now log x → exec_step a x es x' → exec_run a now (log ++ es) x'.

Fixpoint exec_acts (a : args) (l : list exec_action) (log : list event) (x : exec)
    : option (list event * exec) :=
  match l with
  | [] => Some (log, x)
  | act :: l' => '(es, x') ← exec_act a act x; exec_acts a l' (log ++ es) x'
  end.
