(* ===== verification/ExecInv.v ===== *)
(** * The exec helper: lemmas

    The invariant of the helper's runs: what was read from the pipes is, in
    the order of the channel, what the socket took and what still waits; and
    a measure that shrinks once the child has ended and no more is read. *)

From S2P Require Import Prelude Exec.
From stdpp Require Import relations.
#[local] Open Scope Z_scope.
#[local] Open Scope list_scope.

(** What the socket took, and what came from a pipe. *)
Definition puts (log : list event) : list byte :=
  concat ((λ e, match e with Put d => d | _ => [] end) <$> log).
Definition gots (p : pipe) (log : list event) : list (list byte) :=
  concat ((λ e, match e with Got p' d => if bool_decide (p' = p) then [d] else [] | _ => [] end) <$> log).

(** The enrollment: the name with its length. *)
Definition hello (a : args) : list byte := z2b (Z.of_nat (length (a_name a))) :: a_name a.

(** What the main task has in hand. *)
Definition unwritten (a : args) (m : place) : list byte :=
  match m with
  | Connecting _ | Sleeping _ _ => hello a
  | Naming rest | Writing rest | DrainWriting _ _ rest => rest
  | _ => []
  end.

(** What a forwarder has in hand. *)
Definition holding (f : forwarder) : list (list byte) :=
  match f with FwSending d => [d] | _ => [] end.

(** The chunks of one pipe among those sent. *)
Definition of_pipe (p : pipe) (sent : list (pipe * list byte)) : list (list byte) :=
  (filter (λ e, e.1 = p) sent).*2.

(** Chunks of both pipes in the order in which they entered the channel. *)
Definition merges (log : list event) (x : exec) (sent : list (pipe * list byte)) : Prop :=
  ∀ p, gots p log = of_pipe p sent ++ holding (fw p x).

(** The stream as the helper means to send it. *)
Definition stream (a : args) (sent : list (pipe * list byte)) : list byte := hello a ++ concat sent.*2.

(** Both pipes are at their end and nothing waits. *)
Definition closed (x : exec) : Prop := ex_out x = FwDone ∧ ex_err x = FwDone ∧ ex_queue x = [].

(** What the exit code says. *)
Inductive ends (log : list event) (x : exec) : Z → Prop :=
| ends_early : (Spawned ∉ log) → ends log x 1
| ends_write_error : PutError false ∈ log → ends log x 1
| ends_timeout w : ex_exit x = Some w → TimedOut ∈ log → ends log x (exit_code w)
| ends_closed w : ex_exit x = Some w → closed x → ends log x (exit_code w).

(** Before the child is there. *)
Definition early (log : list event) (x : exec) : Prop :=
  (Spawned ∉ log) ∧ (PutError true ∉ log) ∧ ex_out x = FwReading ∧ ex_err x = FwReading ∧ ex_queue x = [] ∧ ex_exit x = None.

Definition before (m : place) : bool :=
  match m with
  | Connecting _ | Sleeping _ _ | Naming _ | AwaitingId | Spawning _ => true
  | _ => false
  end.

(** With the child. *)
Definition in_place (log : list event) (x : exec) : Prop :=
  match ex_main x with
  | PollRx | PollExit | Writing _ => (PutError true ∉ log)
  | Collecting => closed x
  | Draining code _ | DrainWriting code _ _ => ∃ w, ex_exit x = Some w ∧ code = exit_code w
  | _ => True
  end.

Definition place_inv (log : list event) (x : exec) : Prop :=
  match ex_main x with
  | Finished code => ends log x code
  | m => (TimedOut ∉ log) ∧ (PutError false ∉ log) ∧
      if running m then Spawned ∈ log ∧ in_place log x else early log x
  end.

(** What was sent through the channel, the socket took or has before it. *)
Definition balance (a : args) (log : list event) (x : exec) (sent : list (pipe * list byte)) : Prop :=
  match ex_main x with
  | Finished _ => ∃ rest, stream a sent = puts log ++ rest ∧
      (Spawned ∈ log → ¬ (PutError false ∈ log) → rest = concat (ex_queue x))
  | m => stream a sent = puts log ++ unwritten a m ++ concat (ex_queue x)
  end.

Record exec_inv (a : args) (log : list event) (x : exec) : Prop := ExecInv {
  xi_sent : ∃ sent, merges log x sent ∧ (PutError true ∉ log → balance a log x sent);
  xi_place : place_inv log x;
  xi_child w : ChildEnd w ∈ log ↔ ex_exit x = Some w
}.

(* ------------------------------------------------------------------ *)
(** ** Lemmas: the record of a run *)

Lemma puts_app l1 l2 : puts (l1 ++ l2) = puts l1 ++ puts l2.
Proof. unfold puts. by rewrite fmap_app, concat_app. Qed.

Lemma puts_one e : puts [e] = match e with Put d => d | _ => [] end.
Proof. unfold puts. cbn. by rewrite app_nil_r. Qed.

Lemma gots_app p l1 l2 : gots p (l1 ++ l2) = gots p l1 ++ gots p l2.
Proof. unfold gots. by rewrite fmap_app, concat_app. Qed.

Lemma of_pipe_app p l1 l2 : of_pipe p (l1 ++ l2) = of_pipe p l1 ++ of_pipe p l2.
Proof. unfold of_pipe. by rewrite filter_app, fmap_app. Qed.

Lemma stream_snoc a sent p d : stream a (sent ++ [(p, d)]) = stream a sent ++ d.
Proof. unfold stream. rewrite fmap_app, concat_app, app_assoc. cbn. by rewrite app_nil_r. Qed.

Lemma not_in_snoc (e : event) log es : (e ∉ log ++ es) ↔ (e ∉ log) ∧ e ∉ es.
Proof. rewrite elem_of_app. tauto. Qed.

(** A step of the main task leaves the forwarders and what was read. *)
Lemma sent_main a log x es x' :
  (∃ sent, merges log x sent ∧ (PutError true ∉ log → balance a log x sent)) →
  (∀ p, gots p es = []) → (∀ p, fw p x' = fw p x) →
  (∀ sent, (PutError true ∉ log) → (PutError true ∉ es) → balance a log x sent → balance a (log ++ es) x' sent) →
  ∃ sent, merges (log ++ es) x' sent ∧ ((PutError true ∉ log ++ es) → balance a (log ++ es) x' sent).
Proof.
  intros (sent & Hm & Hb) Hg Hf Hs. exists sent. split.
  - intros p. by rewrite gots_app, Hg, app_nil_r, Hf.
  - intros [H1 H2]%not_in_snoc. auto.
Qed.

(* ------------------------------------------------------------------ *)
(** ** Lemmas: the invariant is kept *)

Section Kept.
Context (a : args).

Lemma take_some_spec n rest d rest' :
  take_some n rest = Some (d, rest') → rest = d ++ rest' ∧ d ≠ [].
Proof.
  unfold take_some. destruct (_ && _) eqn:Hn; [|done]. z_bool. intros [= <- <-].
  split; [by rewrite take_drop|]. intros Hd%(f_equal length). rewrite length_take in Hd. cbn in Hd. lia.
Qed.

Ltac events :=
  repeat match goal with
  | H : _ ∉ _ ++ _ |- _ => apply not_in_snoc in H as [? ?]
  | |- _ ∉ _ ++ _ => apply not_in_snoc; split
  | |- _ ∉ [] => apply not_elem_of_nil
  | |- _ ∉ [_] => rewrite list_elem_of_singleton; congruence
  | |- _ ∈ _ ++ _ => apply elem_of_app; first [left; tauto|right; by apply list_elem_of_singleton]
  end.

(** The main task's part of the invariant. *)
Lemma inv_main log x es x' :
  exec_inv a log x → ex_out x' = ex_out x → ex_err x' = ex_err x → ex_exit x' = ex_exit x →
  (∀ p, gots p es = []) → (∀ w, ChildEnd w ∉ es) →
  place_inv (log ++ es) x' →
  (∀ sent, (PutError true ∉ log) → (PutError true ∉ es) → balance a log x sent → balance a (log ++ es) x' sent) →
  exec_inv a (log ++ es) x'.
Proof.
  intros [Hs Hp Hc] Ho He Hx Hg Hw Hp' Hb. constructor; [|done|].
  - apply (sent_main a log x); try done. by intros [].
  - intros w. rewrite elem_of_app, Hc, Hx. split; [|by left]. intros [?|?]; [done|by destruct (Hw w)].
Qed.

Ltac fields :=
  cbn [ex_now ex_main ex_out ex_err ex_queue ex_exit set_now set_main set_queue set_exit running unwritten] in *.

(** A step of the main task: what is left is its place and the balance. *)
Ltac main_step Hi :=
  eapply (inv_main _ _ _ _ Hi); [reflexivity..|by intros ?|by intros ?; events| |];
  [unfold place_inv, early, in_place, closed in *; fields; split_and?; events; try tauto
  |intros sent Ht Ht' Hb; unfold balance in *; fields;
   rewrite ?puts_app, ?puts_one, ?app_nil_r in *; try first [done|by rewrite Hb, <-?app_assoc]].

(** Before the child is there the process may end at any step. *)
Lemma inv_quits log x es :
  exec_inv a log x → before (ex_main x) = true → (es = [] ∨ es = [Linked] ∨ ∃ i, es = [GotId i]) →
  exec_inv a (log ++ es) (set_main (Finished 1) x).
Proof.
  intros Hi Hst Hes. destruct x as [now m out err q ex]. fields.
  assert (Hm : (∀ p, gots p es = []) ∧ (∀ w, ChildEnd w ∉ es) ∧ puts es = [] ∧ Spawned ∉ es).
  { destruct Hes as [->|[->|[i ->]]]; split_and!; try done; intros; events. }
  destruct Hm as (Hg & Hw & Hp & Hs).
  assert (Hearly : Spawned ∉ log).
  { pose proof (xi_place _ _ _ Hi) as Hpl. unfold place_inv, early in Hpl. fields.
    destruct m; try discriminate Hst; apply Hpl. }
  eapply (inv_main _ _ _ _ Hi); try done.
  - apply ends_early. events; done.
  - intros sent _ _ Hb. exists (unwritten a m ++ concat q). unfold balance in Hb. fields.
    rewrite puts_app, Hp, app_nil_r. split; [by destruct m|]. intros Hsp. exfalso. revert Hsp. by apply not_in_snoc.
Qed.

Lemma connect_inv ok log x es x' :
  exec_inv a log x → connect_with_retry a ok x = Some (es, x') → exec_inv a (log ++ es) x'.
Proof.
  intros Hi. destruct x as [now m out err q ex]. unfold connect_with_retry. fields.
  destruct m; try done. pose proof (xi_place _ _ _ Hi) as (H1 & H2 & H3 & H3' & H4).
  repeat case_match; intros [= <- <-]; try (apply inv_quits; [done..|by auto]); main_step Hi.
Qed.

Lemma write_inv n log x es x' :
  exec_inv a log x → write_socket n x = Some (es, x') → exec_inv a (log ++ es) x'.
Proof.
  intros Hi. pose proof (xi_place _ _ _ Hi) as Hp. destruct x as [now m out err q ex].
  unfold write_socket, place_inv in *. fields.
  destruct m; try done; destruct (take_some n rest) as [[d rest']|] eqn:Ht; try done;
    apply take_some_spec in Ht as [-> _]; cbn; intros [= <- <-]; main_step Hi.
Qed.

Lemma write_fails_inv log x es x' :
  exec_inv a log x → write_fails x = Some (es, x') → exec_inv a (log ++ es) x'.
Proof.
  intros Hi. pose proof (xi_place _ _ _ Hi) as Hp. destruct x as [now m out err q ex].
  unfold write_fails, place_inv in *. fields.
  assert (Hself : ∀ (b b' : bool), PutError b ∉ [PutError b'] → b ≠ b').
  { intros b b' Hn ->. apply Hn. by left. }
  destruct m as [| |[]| | | | |[]| | |? ? []|]; try done; intros [= <- <-]; main_step Hi.
  1,3: apply ends_write_error; events.
  - eexists. split; [done|]. intros _ []. events.
  - eexists. split; [done|]. intros _ []. events.
  - by apply Hself in Ht'.
Qed.

Lemma read_id_inv r log x es x' :
  exec_inv a log x → read_id r x = Some (es, x') → exec_inv a (log ++ es) x'.
Proof.
  intros Hi. pose proof (xi_place _ _ _ Hi) as Hp. destruct x as [now m out err q ex].
  unfold read_id, place_inv in *. fields. destruct m; try done. destruct r as [i|].
  - destruct (i =? 0); intros [= <- <-]; [apply inv_quits; eauto|main_step Hi].
  - intros [= <- <-]. apply inv_quits; auto.
Qed.

Lemma spawn_inv ok log x es x' :
  exec_inv a log x → spawn ok x = Some (es, x') → exec_inv a (log ++ es) x'.
Proof.
  intros Hi. pose proof (xi_place _ _ _ Hi) as Hp. destruct x as [now m out err q ex].
  unfold spawn, place_inv in *. fields. destruct m; try done. destruct ok; intros [= <- <-].
  - main_step Hi.
  - apply inv_quits; auto.
Qed.

Lemma timeout_inv log x es x' :
  exec_inv a log x → drain_timeout x = Some (es, x') → exec_inv a (log ++ es) x'.
Proof.
  intros Hi. pose proof (xi_place _ _ _ Hi) as Hp. destruct x as [now m out err q ex].
  unfold drain_timeout, place_inv, in_place in *. fields. destruct m; try done.
  destruct Hp as (H1 & H2 & H3 & w & Hw & ->).
  destruct (_ <=? _); [|done]. intros [= <- <-]. main_step Hi.
  - apply (ends_timeout _ _ w); [done|events].
  - eexists. split; [done|]. by intros.
Qed.

Lemma drain_inv log x x' :
  exec_inv a log x → drain_with_child_exit x = Some x' → exec_inv a (log ++ []) x'.
Proof.
  intros Hi. pose proof (xi_place _ _ _ Hi) as Hp. destruct x as [now m out err q ex].
  unfold drain_with_child_exit, rx_recv, place_inv, in_place, closed in *. fields.
  destruct m as [| | | | | | |[]| | |? ? []|]; try done.
  all: repeat case_match; simplify_eq; try (intros [= <-]; main_step Hi).
  - by exists w.
  - apply (ends_closed _ _ w); [done|apply Hp].
  - eexists. split; [done|]. by intros.
  - destruct Hp as (_ & _ & _ & w & -> & ->). by apply (ends_closed _ _ w).
  - exists []. by rewrite app_nil_r.
Qed.

Lemma go_inv log x x' : exec_inv a log x → go x = Some x' → exec_inv a (log ++ []) x'.
Proof.
  intros Hi. pose proof (drain_inv log x x' Hi) as Hd. revert Hd. pose proof (xi_place _ _ _ Hi) as Hp.
  destruct x as [now m out err q ex]. unfold go, place_inv in *. fields.
  destruct m as [| |[]| | | | |[]| | |? ? []|]; try by auto.
  - intros _. destruct (_ <=? _); [|done]. intros [= <-]. main_step Hi.
  - intros _ [= <-]. main_step Hi.
Qed.

(** A step of another task. *)
Lemma inv_task log x es x' :
  exec_inv a log x → running (ex_main x) = true → ex_main x' = ex_main x →
  (∀ w, ex_exit x = Some w → ex_exit x' = Some w) →
  (∀ w, ChildEnd w ∈ log ++ es ↔ ex_exit x' = Some w) →
  (TimedOut ∉ es) → (∀ b, PutError b ∉ es) → (closed x → closed x') →
  (∀ sent, merges log x sent → ∃ sent', merges (log ++ es) x' sent' ∧
     (balance a log x sent → balance a (log ++ es) x' sent')) →
  exec_inv a (log ++ es) x'.
Proof.
  intros [(sent & Hm & Hb) Hp _] Hrun Hx Hex Hc Ht Hpe Hcl Hs. constructor; [|clear Hs Hb|done].
  - destruct (Hs sent Hm) as (sent' & Hm' & Hb'). exists sent'. split; [done|].
    intros [? _]%not_in_snoc. auto.
  - unfold place_inv, in_place in *. rewrite Hx.
    destruct (ex_main x); try done; cbn [running] in *; destruct Hp as (H1 & H2 & H3 & H4);
      split_and!; events; try done; auto.
    + destruct H4 as (w & Hw & ->). by exists w; auto.
    + destruct H4 as (w & Hw & ->). by exists w; auto.
Qed.
Lemma read_inv p d log x es x' :
  exec_inv a log x → running (ex_main x) = true → forward_read p d x = Some (es, x') → exec_inv a (log ++ es) x'.
Proof.
  intros Hi Hrun. unfold forward_read. destruct (fw p x) eqn:Hf; [|done|done].
  destruct (_ && _); [|done]. intros [= <- <-]. pose proof (xi_child _ _ _ Hi) as Hc.
  apply (inv_task _ _ _ _ Hi Hrun).
  - by destruct p.
  - intros w. by destruct p.
  - intros w. rewrite elem_of_app, list_elem_of_singleton, Hc. destruct p; cbn; intuition congruence.
  - events.
  - intros b. events.
  - intros (H1 & H2 & _). destruct p; cbn in *; congruence.
  - intros sent Hm. exists sent. split.
    + intros p'. rewrite gots_app, Hm. unfold gots. cbn. case_bool_decide as Hp.
      * subst p'. rewrite Hf. by destruct p; cbn; rewrite app_nil_r.
      * rewrite app_nil_r. by destruct p, p'; cbn.
    + unfold balance. rewrite puts_app, puts_one, app_nil_r. by destruct p, x, ex_main.
Qed.

Lemma eof_inv p log x es x' :
  exec_inv a log x → running (ex_main x) = true → forward_eof p x = Some (es, x') → exec_inv a (log ++ es) x'.
Proof.
  intros Hi Hrun. unfold forward_eof. destruct (fw p x) eqn:Hf; [|done|done].
  intros [= <- <-]. pose proof (xi_child _ _ _ Hi) as Hc.
  apply (inv_task _ _ _ _ Hi Hrun).
  - by destruct p.
  - intros w. by destruct p.
  - intros w. rewrite app_nil_r, Hc. by destruct p.
  - events.
  - intros b. events.
  - intros (H1 & H2 & _). destruct p; cbn in *; congruence.
  - intros sent Hm. exists sent. rewrite app_nil_r. split.
    + intros p'. rewrite Hm. destruct (decide (p = p')) as [<-|]; [rewrite Hf; by destruct p|by destruct p, p'].
    + unfold balance. by destruct p, x, ex_main.
Qed.

Lemma send_inv p log x es x' :
  exec_inv a log x → running (ex_main x) = true → forward_send p x = Some (es, x') → exec_inv a (log ++ es) x'.
Proof.
  intros Hi Hrun. unfold forward_send. destruct (fw p x) as [|d|] eqn:Hf; [done| |done].
  destruct (_ <? _)%nat; [|done]. intros [= <- <-]. pose proof (xi_child _ _ _ Hi) as Hc.
  apply (inv_task _ _ _ _ Hi Hrun).
  - by destruct p.
  - intros w. by destruct p.
  - intros w. rewrite app_nil_r, Hc. by destruct p.
  - events.
  - intros b. events.
  - intros (H1 & H2 & _). destruct p; cbn in *; congruence.
  - intros sent Hm. exists (sent ++ [(p, d)]). rewrite app_nil_r. split.
    + intros p'. rewrite of_pipe_app, Hm. unfold of_pipe. rewrite filter_cons, filter_nil.
      case_decide as Hp; cbn in Hp.
      * subst p'. rewrite Hf. by destruct p; cbn; rewrite app_nil_r.
      * rewrite app_nil_r. by destruct p, p'.
    + unfold balance. rewrite stream_snoc. destruct x as [now m out err q ex], p; cbn [set_fw] in *; fields;
        destruct m; try done; intros ->; rewrite concat_app, <-!app_assoc; cbn; by rewrite app_nil_r.
Qed.

Lemma child_inv w log x es x' :
  exec_inv a log x → running (ex_main x) = true → child_wait w x = Some (es, x') → exec_inv a (log ++ es) x'.
Proof.
  intros Hi Hrun. unfold child_wait. destruct (ex_exit x) eqn:Hx; [done|].
  intros [= <- <-]. pose proof (xi_child _ _ _ Hi) as Hc. apply (inv_task _ _ _ _ Hi Hrun); try done.
  - intros w'. by rewrite Hx.
  - intros w'. rewrite elem_of_app, list_elem_of_singleton, Hc, Hx. cbn. intuition congruence.
  - events.
  - intros b. events.
  - intros sent Hm. exists sent. split.
    + intros p'. rewrite gots_app. unfold gots at 2. cbn. rewrite app_nil_r, Hm. by destruct p'.
    + unfold balance. rewrite puts_app, puts_one, app_nil_r. by destruct x, ex_main.
Qed.

Lemma exec_inv_act act log x es x' :
  exec_inv a log x → exec_act a act x = Some (es, x') → exec_inv a (log ++ es) x'.
Proof.
  intros Hi. destruct act; cbn [exec_act]; unfold when;
    try (destruct (running (ex_main x)) eqn:Hrun; [|done]).
  - destruct (0 <? ms); [|done]. intros [= <- <-]. rewrite app_nil_r.
    destruct x, Hi as [Hs Hp Hc]. constructor; [| |exact Hc].
    2: { destruct ex_main; try exact Hp. unfold place_inv in *. cbn in *.
         destruct Hp; [by apply ends_early|by apply ends_write_error|by eapply ends_timeout|by eapply ends_closed]. }
    destruct Hs as (sent & Hm & Hb). exists sent. split; [|exact Hb]. intros []; [apply (Hm Stdout)|apply (Hm Stderr)].
  - by apply connect_inv.
  - by apply write_inv.
  - by apply write_fails_inv.
  - by apply read_id_inv.
  - by apply spawn_inv.
  - destruct (go x) eqn:Hg; [|done]. cbn. intros [= <- <-]. by eapply go_inv.
  - by apply timeout_inv.
  - by apply read_inv.
  - by apply eof_inv.
  - by apply send_inv.
  - by apply child_inv.
Qed.

Lemma exec_inv_run now log x : exec_run a now log x → exec_inv a log x.
Proof.
  induction 1 as [|log x es x' _ IH [act Ha]]; [|by eapply exec_inv_act].
  constructor.
  - exists []. split; [by intros []|]. intros _. unfold balance, stream. cbn. by rewrite app_nil_r.
  - unfold place_inv, early. cbn. split_and!; events; try done; apply not_elem_of_nil.
  - intros w. cbn. split; [by intros ?%elem_of_nil|done].
Qed.

End Kept.
