(* ===== verification/ExecSpec.v ===== *)
(** * What the exec helper guarantees

    The command's output goes to the daemon whole and in order, the exit code
    is the command's, and the helper ends soon after the command even when a
    grandchild keeps the pipes open. *)

From S2P Require Import Prelude Exec ExecInv.
From stdpp Require Import relations.
#[local] Open Scope Z_scope.
#[local] Open Scope list_scope.

(** Actions that take no new input; time passes only for the drain. *)
Definition calm (x : exec) (act : exec_action) : bool :=
  match act with
  | XPut _ | XPutError | XGo | XTimeout | XEof _ | XSend _ => true
  | XTick _ => match ex_main x with Draining _ deadline => ex_now x <? deadline | _ => false end
  | _ => false
  end.

Inductive calm_step (a : args) (x x' : exec) : Prop :=
| calm_does act es : calm x act = true → exec_act a act x = Some (es, x') → calm_step a x x'.

(** What is left to do. *)
Definition ready (x : exec) : bool := match rx_recv x with RxPending => false | _ => true end.

Definition main_work (x : exec) : nat :=
  let drain := S (S (Z.to_nat DRAIN_MS)) in
  match ex_main x with
  | PollRx => drain + (if ready x then 0 else 2)
  | PollExit => drain + 1
  | Writing rest => drain + length rest + 3
  | Collecting => 1
  | Draining _ deadline => Z.to_nat (deadline - ex_now x) + 1
  | DrainWriting _ deadline rest => Z.to_nat (deadline - ex_now x) + length rest + 2
  | Naming rest => length rest + 3
  | AwaitingId => 2
  | Sleeping _ _ => 5
  | Connecting _ => 4
  | Spawning _ | Finished _ => 0
  end%nat.

Definition fw_work (f : forwarder) : nat :=
  match f with FwReading => 1 | FwSending d => length d + 6 | FwDone => 0 end%nat.

Definition exec_work (x : exec) : nat :=
  (main_work x + fw_work (ex_out x) + fw_work (ex_err x) +
   sum_list_with (λ d : list byte, length d + 4) (ex_queue x))%nat.

(* ------------------------------------------------------------------ *)
(** ** Lemmas: winding down *)

Section Calm.
Context (a : args).

Lemma take_some_shorter n rest d rest' :
  take_some n rest = Some (d, rest') → (length rest' < length rest)%nat.
Proof.
  intros [-> Hd]%take_some_spec. rewrite length_app. destruct d; [done|cbn; lia].
Qed.

Lemma calm_put n x es x' : write_socket n x = Some (es, x') → (exec_work x' < exec_work x)%nat.
Proof.
  destruct x as [now m out err q ex]. unfold write_socket. cbn [ex_main].
  destruct m; try done; destruct (take_some n rest) as [[d rest']|] eqn:Ht; try done;
    apply take_some_shorter in Ht; cbn; intros [= <- <-]; unfold exec_work, main_work; cbn; lia.
Qed.

Lemma calm_put_error x es x' : write_fails x = Some (es, x') → (exec_work x' < exec_work x)%nat.
Proof.
  destruct x as [now m out err q ex]. unfold write_fails. cbn [ex_main].
  destruct m as [| |[]| | | | |[]| | |? ? []|]; try done; intros [= <- <-]; unfold exec_work, main_work; cbn; lia.
Qed.

Lemma calm_go x x' : go x = Some x' → (exec_work x' < exec_work x)%nat.
Proof.
  destruct x as [now m out err q ex]. unfold go, drain_with_child_exit. cbn [ex_main ex_now ex_exit].
  destruct m as [| |[]| | | | |[]| | |? ? []|]; try done; unfold rx_recv; cbn [ex_queue ex_out ex_err];
    repeat case_match; intros [= <-]; simplify_eq; unfold exec_work, main_work, ready, rx_recv; cbn -[Z.to_nat].
  all: repeat case_match; rewrite ?Z.add_simpl_l; lia.
Qed.

(** Another task's step: the channel can only become ready. *)
Lemma calm_task x x' :
  ex_main x' = ex_main x → ex_now x' = ex_now x → (ready x = true → ready x' = true) →
  (fw_work (ex_out x') + fw_work (ex_err x') + sum_list_with (λ d : list byte, length d + 4) (ex_queue x') <
   fw_work (ex_out x) + fw_work (ex_err x) + sum_list_with (λ d : list byte, length d + 4) (ex_queue x))%nat →
  (exec_work x' < exec_work x)%nat.
Proof.
  intros Hm Hn Hr Hw. unfold exec_work, main_work. rewrite Hm, Hn.
  destruct (ex_main x); try lia. destruct (ready x); [rewrite Hr by done; lia|destruct (ready x'); lia].
Qed.

Lemma calm_eof p x es x' : forward_eof p x = Some (es, x') → (exec_work x' < exec_work x)%nat.
Proof.
  destruct x as [now m out err q ex]. unfold forward_eof. destruct p; cbn.
  all: [> destruct out|destruct err]; try done; intros [= <- <-]; apply calm_task; try done; unfold ready, rx_recv;
    cbn; try lia; by repeat case_match.
Qed.

Lemma sum_snoc (q : list (list byte)) (d : list byte) :
  sum_list_with (λ d, length d + 4)%nat (q ++ [d]) = (sum_list_with (λ d, length d + 4)%nat q + (length d + 4))%nat.
Proof. induction q as [|e q IH]; cbn; [lia|]. unfold sum_list_with in *. lia. Qed.

Lemma calm_send p x es x' : forward_send p x = Some (es, x') → (exec_work x' < exec_work x)%nat.
Proof.
  destruct x as [now m out err q ex]. unfold forward_send. destruct p; cbn.
  all: [> destruct out|destruct err]; try done; case_match; try done; intros [= <- <-]; apply calm_task; try done;
    cbn; rewrite ?sum_snoc; try lia; unfold ready, rx_recv; cbn; by destruct q.
Qed.

Lemma calm_work x x' : calm_step a x x' → (exec_work x' < exec_work x)%nat.
Proof.
  intros [act es Hc Ha]. destruct act; try done; cbn [exec_act] in Ha; unfold when in Ha.
  - destruct (0 <? ms) eqn:Hms; [|done]. injection Ha as <- <-. destruct x as [now m out err q ex].
    destruct m; try done. cbn in Hc. unfold exec_work, main_work. cbn -[Z.to_nat]. z_bool. lia.
  - by eapply calm_put.
  - by eapply calm_put_error.
  - destruct (go x) eqn:Hg; [|done]. injection Ha as <- <-. by apply calm_go.
  - destruct x as [now m out err q ex]. destruct m; try done. cbn in Ha. case_match; [|done].
    injection Ha as <- <-. unfold exec_work, main_work. cbn -[Z.to_nat]. lia.
  - destruct (running _); [by eapply calm_eof|done].
  - destruct (running _); [by eapply calm_send|done].
Qed.

Lemma calm_acc x : Acc (λ x2 x1, calm_step a x1 x2) x.
Proof.
  remember (exec_work x) as n eqn:Hn. revert x Hn. induction (lt_wf n) as [n _ IH]. intros x ->.
  constructor. intros x' Hc. by eapply IH; [apply (calm_work x x' Hc)|].
Qed.

Lemma calm_keeps log x x' now w :
  exec_run a now log x → ex_exit x = Some w → rtc (calm_step a) x x' →
  ∃ log', exec_run a now log' x' ∧ ex_exit x' = Some w.
Proof.
  intros Hr Hw Hc. revert log Hr Hw. induction Hc as [x|x x1 x2 [act es Hc Ha] _ IH]; intros log Hr Hw; [eauto|].
  pose proof (exec_inv_run a now _ _ Hr) as [_ _ Hch].
  assert (Hr1 : exec_run a now (log ++ es) x1) by (eapply exec_run_step; [done|by eapply exec_does]).
  apply (IH _ Hr1). pose proof (exec_inv_run a now _ _ Hr1) as [_ _ Hch1]. apply Hch1, elem_of_app. left. by apply Hch.
Qed.

(** A helper whose child has ended can go on. *)
Lemma calm_progress x log w :
  exec_inv a log x → ex_exit x = Some w → (∃ code, ex_main x = Finished code) ∨ ∃ x', calm_step a x x'.
Proof.
  intros [_ Hp _] Hw. unfold place_inv, early in Hp. destruct x as [now m out err q ex]. cbn in Hw, Hp. subst ex.
  assert (Hgo : ∀ x', go (Exec now m out err q (Some w)) = Some x' → ∃ x', calm_step a (Exec now m out err q (Some w)) x').
  { intros x' Hg. exists x'. apply (calm_does _ _ _ XGo []); [done|]. cbn [exec_act]. by rewrite Hg. }
  assert (Hput : ∀ x' es, write_socket 1 (Exec now m out err q (Some w)) = Some (es, x') →
    ∃ x', calm_step a (Exec now m out err q (Some w)) x').
  { intros x' es Hg. exists x'. by apply (calm_does _ _ _ (XPut 1) es). }
  destruct m as [| | | | | | |[|b rest]| |code deadline|code deadline [|b rest]|code];
    try (exfalso; by destruct Hp as (_ & _ & _ & _ & _ & _ & _ & ?)); [..|by left; eauto]; right;
    try (by eapply Hgo); try (by eapply Hput).
  - cbn in Hgo. unfold go in Hgo. cbn in Hgo. destruct (rx_recv _); by eapply Hgo.
  - destruct (rx_recv (Exec now (Draining code deadline) out err q (Some w))) eqn:Hrx.
    1,2: unfold go in Hgo; cbn in Hgo; rewrite Hrx in Hgo; by eapply Hgo.
    destruct (deadline <=? now) eqn:Hd.
    + eexists. apply (calm_does _ _ _ XTimeout [TimedOut]); [done|]. cbn. by rewrite Hd.
    + eexists. apply (calm_does _ _ _ (XTick 1) []); [|done]. cbn. z_bool. by apply Z.ltb_lt.
Qed.
End Calm.

(** A run that ends well. *)
Lemma delivered a log x code sent :
  exec_inv a log x → merges log x sent → balance a log x sent → ex_main x = Finished code →
  Spawned ∈ log → (∀ b, PutError b ∉ log) → (TimedOut ∉ log) →
  puts log = stream a sent ∧ (∀ p, gots p log = of_pipe p sent) ∧ ∃ w, ChildEnd w ∈ log ∧ code = exit_code w.
Proof.
  intros [_ Hp Hc] Hm Hb Hx Hsp Hpe Hto. unfold place_inv, balance in *. rewrite Hx in Hp, Hb.
  destruct Hb as (rest & Hs & Hrest).
  assert (∃ w, ex_exit x = Some w ∧ closed x ∧ code = exit_code w) as (w & Hw & (Ho & He & Hq) & ->).
  { destruct Hp as [|Hf|w Hw|w Hw]; [done|by destruct (Hpe false)|done|by exists w]. }
  rewrite Hrest, Hq in Hs by auto. cbn in Hs. rewrite app_nil_r in Hs. split; [done|]. split.
  - intros p. rewrite Hm. destruct p; cbn; by rewrite ?Ho, ?He, app_nil_r.
  - exists w. by rewrite Hc.
Qed.

(* ------------------------------------------------------------------ *)
(** ** Properties *)

(** C24: the command's output.  In every run of the helper that has ended,
    however its tasks, the child and the socket behave: the chunks read from
    the two pipes went through the channel in one order that keeps the order
    of each pipe; unless a write failed during the drain, the socket took a
    prefix of the enrollment and these chunks.  The exit code is 1 if the
    child was never started or a write failed before it ended, and the child's
    otherwise.  And if the child was started, no write failed and the drain did
    not time out, then the socket took all that was read, and the exit code is
    the child's. *)
Theorem exec_delivers a now log x code :
  exec_run a now log x → ex_main x = Finished code →
  ∃ sent, merges log x sent ∧
    ((PutError true ∉ log) → ∃ rest, stream a sent = puts log ++ rest) ∧
    ends log x code ∧
    (Spawned ∈ log → (∀ b, PutError b ∉ log) → (TimedOut ∉ log) →
       puts log = stream a sent ∧ (∀ p, gots p log = of_pipe p sent) ∧
       ∃ w, ChildEnd w ∈ log ∧ code = exit_code w).
Proof.
  intros Hi%exec_inv_run Hx. destruct (xi_sent _ _ _ Hi) as (sent & Hm & Hb). exists sent. split; [done|].
  pose proof (xi_place _ _ _ Hi) as Hp. unfold place_inv in Hp. rewrite Hx in Hp. split_and!; [|done|].
  - intros Ht. specialize (Hb Ht). unfold balance in Hb. rewrite Hx in Hb.
    destruct Hb as (rest & ? & _). by exists rest.
  - intros Hsp Hpe Hto. eapply delivered; eauto.
Qed.

(** A command named "sh" that writes to both pipes and exits with 3. *)
Definition demo_args : args := Args (bs "sh") 10.
Definition demo_exec : list exec_action :=
  [XConnect false; XTick 200; XGo; XConnect true; XPut 1; XPut 2; XGo; XId (Some 7); XSpawn true;
   XGo; XRead Stdout (bs "out"); XRead Stderr (bs "err"); XSend Stderr; XGo; XGo; XPut 1; XSend Stdout;
   XPut 2; XGo; XChild (Status (Some 3)); XEof Stdout; XGo; XEof Stderr; XPut 3; XGo; XGo; XGo].
Definition demo_exec_end : list event * exec :=
  default ([], exec_start demo_args 0) (exec_acts demo_args demo_exec [] (exec_start demo_args 0)).

Lemma exec_acts_run a now l log x log' x' :
  exec_run a now log x → exec_acts a l log x = Some (log', x') → exec_run a now log' x'.
Proof.
  revert log x. induction l as [|act l IH]; intros log x Hr; cbn [exec_acts]; [by intros [= <- <-]|].
  destruct (exec_act a act x) as [[es x1]|] eqn:Ha; [|done]. cbn. apply IH.
  by eapply exec_run_step; [|eapply exec_does].
Qed.

Lemma demo_exec_run : exec_run demo_args 0 demo_exec_end.1 demo_exec_end.2.
Proof.
  apply (exec_acts_run demo_args 0 demo_exec [] (exec_start demo_args 0)); [constructor|].
  vm_compute. reflexivity.
Qed.

Lemma exec_delivers_witness :
  puts demo_exec_end.1 = x02 :: bs "sherrout" ∧
  ∃ sent, merges demo_exec_end.1 demo_exec_end.2 sent ∧
    ((PutError true ∉ demo_exec_end.1) → ∃ rest, stream demo_args sent = puts demo_exec_end.1 ++ rest) ∧
    ends demo_exec_end.1 demo_exec_end.2 3 ∧
    (Spawned ∈ demo_exec_end.1 → (∀ b, PutError b ∉ demo_exec_end.1) → (TimedOut ∉ demo_exec_end.1) →
       puts demo_exec_end.1 = stream demo_args sent ∧
       (∀ p, gots p demo_exec_end.1 = of_pipe p sent) ∧
       ∃ w, ChildEnd w ∈ demo_exec_end.1 ∧ 3 = exit_code w).
Proof.
  split; [vm_compute; reflexivity|].
  exact (exec_delivers demo_args 0 _ _ 3 demo_exec_run ltac:(vm_compute; reflexivity)).
Defined.

(** C40: the helper ends.  Once the child has ended, and if nothing more is
    read from the pipes, the helper can take only finitely many steps and does
    not stop before its end, even when a grandchild keeps the pipes open; its
    exit code is then the child's, or 1 after a failed write. *)
Theorem exec_ends a now log x w :
  exec_run a now log x → ex_exit x = Some w →
  Acc (λ x2 x1, calm_step a x1 x2) x ∧
  ∀ x', rtc (calm_step a) x x' →
    (∃ code, ex_main x' = Finished code ∧ (code = exit_code w ∨ code = 1)) ∨
    ∃ x'', calm_step a x' x''.
Proof.
  intros Hr Hw. split; [apply calm_acc|]. intros x' Hc.
  destruct (calm_keeps _ _ _ _ _ _ Hr Hw Hc) as (log' & Hr' & Hw'). pose proof (exec_inv_run _ _ _ _ Hr') as Hi.
  destruct (calm_progress a x' log' w Hi Hw') as [[code Hx]|Hn]; [left|by right].
  exists code. split; [done|]. pose proof (xi_place _ _ _ Hi) as Hp. unfold place_inv in Hp. rewrite Hx in Hp.
  destruct Hp as [| |w' Hw2|w' Hw2]; [by right..| |]; left; congruence.
Qed.

(** A grandchild keeps both pipes open. *)
Definition hang_exec : list exec_action :=
  [XConnect true; XPut 3; XGo; XId (Some 7); XSpawn true; XGo; XRead Stdout (bs "out"); XSend Stdout;
   XChild (Status None)].
Definition hang_end : list event * exec :=
  default ([], exec_start demo_args 0) (exec_acts demo_args hang_exec [] (exec_start demo_args 0)).

Lemma exec_ends_witness :
  ex_exit hang_end.2 = Some (Status None) ∧
  Acc (λ x2 x1, calm_step demo_args x1 x2) hang_end.2 ∧
  ∀ x', rtc (calm_step demo_args) hang_end.2 x' →
    (∃ code, ex_main x' = Finished code ∧ (code = exit_code (Status None) ∨ code = 1)) ∨
    ∃ x'', calm_step demo_args x' x''.
Proof.
  split; [vm_compute; reflexivity|]. apply (exec_ends demo_args 0 hang_end.1); [|vm_compute; reflexivity].
  apply (exec_acts_run demo_args 0 hang_exec [] (exec_start demo_args 0)); [constructor|].
  vm_compute. reflexivity.
Defined.

(** The deadline is only looked at while the task waits for data: a write that
    blocks for a minute is not cut off, and data that came meanwhile is still
    taken. *)
Example drain_overstays :
  match exec_acts demo_args (hang_exec ++ [XGo; XGo; XTick 60000; XRead Stdout (bs "more"); XSend Stdout;
      XPut 3; XGo; XGo]) [] (exec_start demo_args 0) with
  | Some (_, x) => ex_main x = DrainWriting 1 2000 (bs "more") ∧ ex_now x = 60000
  | None => False
  end.
Proof. vm_compute. done. Qed.
