(* ===== verification/ExecMuxd.v ===== *)
(** * The exec helper and the daemon

    A helper connected to the daemon by a Unix socket: bytes arrive in order,
    reading ends when the other side has closed and all was read, writing
    fails when the other side has closed.  Other clients, the sink, the
    helper's pipes and its child do as they like. *)

From S2P Require Import Prelude Proto CString HostState HostIo Flush Registry RegistryInv RegistryParse Startup Demux DemuxSpec DemuxInv StartupInv RegistrySpec Route RouteSpec Records Fds System Muxd MuxdInv MuxdSpec MuxdHost Exec ExecInv ExecSpec.
From stdpp Require Import relations.
#[local] Open Scope Z_scope.
#[local] Open Scope list_scope.

(** Both programs, the helper's number among the daemon's clients, and the
    bytes on their way in each direction. *)
Record joint : Type := Joint {
  jt_daemon : daemon;
  jt_exec : exec;
  jt_client : option nat;
  jt_up : list byte;
  jt_down : list Z
}.

(** Does the daemon still have its end of the connection? *)
Definition peer_open (d : daemon) (c : nat) : bool :=
  match dm_clients d !! c with
  | Some Gone | Some (Panicked _) | None => false
  | Some _ => true
  end.

(** Has the helper closed its end? *)
Definition hung_up (x : exec) : bool := match ex_main x with Finished _ => true | _ => false end.

(** [l] without [pre] in front. *)
Fixpoint strip (pre l : list byte) : option (list byte) :=
  match pre, l with
  | [], _ => Some l
  | b :: pre', b' :: l' => if bool_decide (b = b') then strip pre' l' else None
  | _, _ => None
  end.

Definition links (act : exec_action) : bool := match act with XConnect true => true | _ => false end.

(** The socket under a step of the helper. *)
Definition exec_socket (act : exec_action) (es : list event) (open : bool) (up : list byte) (down : list Z)
    : option (list byte * list Z) :=
  match act with
  | XConnect true => None
  | XPut _ => if open then Some (up ++ puts es, down) else None
  | XPutError => if open then None else Some (up, down)
  | XId (Some i) => match down with j :: down' => if i =? j then Some (up, down') else None | [] => None end
  | XId None => match down with [] => if open then None else Some (up, down) | _ => None end
  | _ => Some (up, down)
  end.

(** A name that will not come: its length is 0, or the helper has closed. *)
Definition no_name (closed : bool) (up : list byte) : bool :=
  match up with
  | [] => closed
  | n :: rest => bool_decide (n = x00) || closed && (Z.of_nat (length rest) <? b2z n)
  end.

(** The socket under a step of the daemon's task for the helper. *)
Definition client_socket (act : action) (cl : client) (closed : bool) (up : list byte) (down : list Z)
    : option (list byte * list Z) :=
  match act, cl with
  | EnrollError _, _ => if no_name closed up then Some (up, down) else None
  | Enroll _ name_buf, _ =>
      up' ← strip (z2b (Z.of_nat (length name_buf)) :: name_buf) up; Some (up', down)
  | ReplyError _, _ => if closed then Some (up, down) else None
  | Proceed _, Replying id _ => Some (up, down ++ [id])
  | Read _ payload, _ => up' ← strip payload up; Some (up', down)
  | Eof _, _ => match up with [] => if closed then Some (up, down) else None | _ => None end
  | _, _ => Some (up, down)
  end.

Section Joint.
Context (debug : bool) (a : args).

Inductive joint_step : joint → list (nat * msg) → list event → joint → Prop :=
| joint_link d x d' x' es ms :
    exec_act a (XConnect true) x = Some (es, x') → act debug Connect d = Some (ms, d') →
    joint_step (Joint d x None [] []) ms es (Joint d' x' (Some (length (dm_clients d))) [] [])
| joint_alone d x x' es act :
    links act = false → exec_act a act x = Some (es, x') →
    joint_step (Joint d x None [] []) [] es (Joint d x' None [] [])
| joint_exec d x c up down act es x' up' down' :
    exec_act a act x = Some (es, x') →
    exec_socket act es (peer_open d c) up down = Some (up', down') →
    joint_step (Joint d x (Some c) up down) [] es (Joint d x' (Some c) up' down')
| joint_client d x c up down at_ cl ms d' up' down' :
    actor at_ = Some c → dm_clients d !! c = Some cl → act debug at_ d = Some (ms, d') →
    client_socket at_ cl (hung_up x) up down = Some (up', down') →
    joint_step (Joint d x (Some c) up down) ms [] (Joint d' x (Some c) up' down')
| joint_other d x co up down at_ ms d' :
    (co = None ∨ actor at_ ≠ co) → act debug at_ d = Some (ms, d') →
    joint_step (Joint d x co up down) ms [] (Joint d' x co up down).

Inductive joint_run (now : Z) : list (nat * msg) → list event → joint → Prop :=
| joint_start : joint_run now [] [] (Joint muxd_init (exec_start a now) None [] [])
| joint_go log xlog s ms es s' :
    joint_run now log xlog s → joint_step s ms es s' → joint_run now (log ++ ms) (xlog ++ es) s'.

End Joint.

(** The steps as a function of what is chosen. *)
Inductive joint_action : Type := JLink | JExec (act : exec_action) | JDaemon (at_ : action).

Definition joint_act (debug : bool) (a : args) (j : joint_action) (s : joint)
    : option (list (nat * msg) * list event * joint) :=
  let '(Joint d x co up down) := s in
  match j, co with
  | JLink, None =>
      '(es, x') ← exec_act a (XConnect true) x;
      '(ms, d') ← act debug Connect d;
      Some (ms, es, Joint d' x' (Some (length (dm_clients d))) [] [])
  | JExec act, _ =>
      if links act then None
      else
        '(es, x') ← exec_act a act x;
        match co with
        | None => Some ([], es, Joint d x' None up down)
        | Some c =>
            '(up', down') ← exec_socket act es (peer_open d c) up down;
            Some ([], es, Joint d x' (Some c) up' down')
        end
  | JDaemon at_, _ =>
      '(ms, d') ← act debug at_ d;
      match co with
      | Some c =>
          if decide (actor at_ = Some c) then
            cl ← dm_clients d !! c;
            '(up', down') ← client_socket at_ cl (hung_up x) up down;
            Some (ms, [], Joint d' x co up' down')
          else Some (ms, [], Joint d' x co up down)
      | None => Some (ms, [], Joint d' x co up down)
      end
  | _, _ => None
  end.

Fixpoint joint_acts (debug : bool) (a : args) (l : list joint_action) (log : list (nat * msg))
    (xlog : list event) (s : joint) : option (list (nat * msg) * list event * joint) :=
  match l with
  | [] => Some (log, xlog, s)
  | j :: l' => '(ms, es, s') ← joint_act debug a j s; joint_acts debug a l' (log ++ ms) (xlog ++ es) s'
  end.

(** What the daemon sent on for a client. *)
Definition data_of (c : nat) (log : list (nat * msg)) : list byte :=
  concat ((λ m, match m with Data _ payload => payload | _ => [] end) <$> of_client c log).

(** The id on its way, or read. *)
Definition id_sent (id : Z) (xlog : list event) (down : list Z) : Prop :=
  ∀ i, i ∈ down ∨ GotId i ∈ xlog → i = id.
Definition no_id (xlog : list event) (down : list Z) : Prop :=
  down = [] ∧ ∀ i, GotId i ∉ xlog.

(** What the daemon has read of what the helper wrote. *)
Definition enrolled (c : nat) (log : list (nat * msg)) (xlog : list event) (name up : list byte) : Prop :=
  ∃ nm, name = from_utf8_lossy nm ∧ (length nm ≤ 255)%nat ∧
    puts xlog = z2b (Z.of_nat (length nm)) :: nm ++ data_of c log ++ up.

Definition link_inv (c : nat) (log : list (nat * msg)) (xlog : list event) (s : joint) : Prop :=
  match dm_clients (jt_daemon s) !! c with
  | Some Enrolling => of_client c log = [] ∧ puts xlog = jt_up s ∧ no_id xlog (jt_down s)
  | Some (Replying _ name) => enrolled c log xlog name (jt_up s) ∧ no_id xlog (jt_down s)
  | Some (Announcing id name) | Some (Reading id name) =>
      enrolled c log xlog name (jt_up s) ∧ id_sent id xlog (jt_down s)
  | Some (Closing id name) =>
      enrolled c log xlog name [] ∧ jt_up s = [] ∧ hung_up (jt_exec s) = true ∧ id_sent id xlog (jt_down s)
  | Some (Freeing id) => 
      (∃ name, enrolled c log xlog name [] ∧ whole_session id name (of_client c log)) ∧
      jt_up s = [] ∧ hung_up (jt_exec s) = true ∧ id_sent id xlog (jt_down s)
  | Some Gone =>
      no_id xlog (jt_down s) ∨
      ∃ id name, enrolled c log xlog name [] ∧ whole_session id name (of_client c log) ∧
        hung_up (jt_exec s) = true ∧ id_sent id xlog (jt_down s)
  | Some (Panicked _) => True
  | None => False
  end.

(** Before the helper is connected. *)
Definition unlinked (xlog : list event) (x : exec) : Prop :=
  puts xlog = [] ∧ (∀ i, GotId i ∉ xlog) ∧
  match ex_main x with Connecting _ | Sleeping _ _ | Finished _ => True | _ => False end.

(** While the daemon's sink works. *)
Definition joint_inv (log : list (nat * msg)) (xlog : list event) (s : joint) : Prop :=
  match jt_client s with
  | None => unlinked xlog (jt_exec s)
  | Some c => ch_open (dm_chan (jt_daemon s)) = true → link_inv c log xlog s
  end.

(* ------------------------------------------------------------------ *)
(** ** Lemmas *)

Section Joint.
Context (debug : bool) (a : args).

Lemma strip_app pre l rest : strip pre l = Some rest → l = pre ++ rest.
Proof.
  revert l. induction pre as [|b pre IH]; intros l; cbn; [by intros [= <-]|].
  destruct l as [|b' l]; [done|]. case_bool_decide as Hb; [|done]. subst b'. by intros ->%IH.
Qed.

Lemma joint_runs now log xlog s :
  joint_run debug a now log xlog s → run_of debug log (jt_daemon s) ∧ exec_run a now xlog (jt_exec s).
Proof.
  induction 1 as [|log xlog s ms es s' _ [IH1 IH2] Hs]; [by split; constructor|].
  destruct Hs as [d x d' x' es ms Hx Hd|d x x' es act _ Hx|d x c up down act es x' up' down' Hx _
    |d x c up down at_ cl ms d' up' down' _ _ Hd _|d x co up down at_ ms d' _ Hd]; cbn [jt_daemon jt_exec] in *;
    rewrite ?app_nil_r; split; try done;
    try (by eapply run_step, act_sound); by eapply exec_run_step, exec_does.
Qed.

Lemma send_open frame ch ok ch' : send frame ch = Some (ok, ch') → ch_open ch' = ch_open ch.
Proof. unfold send. destruct ch as [q []]; cbn; repeat case_match; by intros [= <- <-]. Qed.

Lemma step_open d ms d' : step debug d ms d' → ch_open (dm_chan d') = true → ch_open (dm_chan d) = true.
Proof.
  intros [p ch sink cs|p ch sink cs c cl cl' p' ch' ms' _ Hs|p ch sink cs ch' sink' Hs]; cbn; [done| |].
  - destruct Hs; try done; match goal with H : send _ _ = _ |- _ => by rewrite (send_open _ _ _ _ H) end.
  - by destruct Hs.
Qed.

(** A step of the task of [c]: its place, and what it sent. *)
Lemma act_client_step at_ c cl d ms d' :
  actor at_ = Some c → dm_clients d !! c = Some cl → act debug at_ d = Some (ms, d') →
  ∃ cl' p' ch' ms', act_client debug at_ cl (dm_pool d) (dm_chan d) = Some (cl', p', ch', ms') ∧
    ms = map (pair c) ms' ∧ dm_clients d' !! c = Some cl' ∧ dm_chan d' = ch'.
Proof.
  intros Ha Hc. unfold act. rewrite Ha, Hc. cbn.
  destruct (act_client debug at_ cl (dm_pool d) (dm_chan d)) as [[[[cl' p'] ch'] ms']|]; [|done]. cbn.
  intros [= <- <-]. exists cl', p', ch', ms'. cbn. split_and!; try done.
  by eapply list_lookup_insert_eq, lookup_lt_Some.
Qed.

(** A step of another's leaves the task of [c] and what it sent. *)
Lemma act_other at_ c cl d ms d' :
  actor at_ ≠ Some c → dm_clients d !! c = Some cl → act debug at_ d = Some (ms, d') →
  dm_clients d' !! c = Some cl ∧ of_client c ms = [].
Proof.
  intros Ha Hc. unfold act. destruct (actor at_) as [c'|] eqn:Hat.
  - destruct (dm_clients d !! c') as [cl'|]; [|done]. cbn.
    destruct (act_client _ _ _ _ _) as [[[[cl2 p2] ch2] ms2]|]; [|done]. cbn. intros [= <- <-]. cbn.
    assert (c ≠ c') by congruence. split; [by rewrite list_lookup_insert_ne|by apply of_client_other].
  - destruct at_, d as [p [[|f q] []] sink cs]; cbn in *; try done; intros [= <- <-]; cbn; try done;
      (split; [|done]); by apply lookup_app_l_Some.
Qed.

(** The helper after its end. *)
Lemma exec_act_hung act x es x' :
  exec_act a act x = Some (es, x') → hung_up x = true → es = [] ∧ hung_up x' = true.
Proof.
  destruct x as [now m out err q ex]. unfold hung_up. cbn [ex_main]. intros Ha Hm.
  destruct m as [| | | | | | | | | | |code]; try done. destruct act as [ms|[]| | |[]|[]| | | | | |]; try done.
  cbn in Ha. unfold when in Ha. destruct (0 <? ms); [|done]. by injection Ha as <- <-.
Qed.

(** What a step of the helper shows. *)
Lemma exec_act_events act x es x' :
  exec_act a act x = Some (es, x') →
  match act with
  | XPut _ => ∃ d, es = [Put d]
  | XId (Some i) => es = [GotId i]
  | _ => puts es = [] ∧ ∀ i, GotId i ∉ es
  end.
Proof.
  assert (Hnone : puts [] = [] ∧ ∀ i, GotId i ∉ []) by (split; [done|intros; apply not_elem_of_nil]).
  assert (Hone : ∀ e, (∀ d, e ≠ Put d) → (∀ i, e ≠ GotId i) → puts [e] = [] ∧ ∀ i, GotId i ∉ [e]).
  { intros e Hp Hg. split; [rewrite puts_one; destruct e; try done; by destruct (Hp d)|].
    intros i Hi%list_elem_of_singleton. by destruct (Hg i). }
  destruct act as [ms| |n| |[r|]|ok| | |p d|p|p|w]; cbn [exec_act]; unfold when.
  - case_match; [|done]. by intros [= <- _].
  - unfold connect_with_retry. repeat case_match; intros [= <- _]; done || by apply Hone.
  - unfold write_socket. destruct (ex_main x); try done; destruct (take_some n _) as [[d r]|]; try done;
      intros [= <- _]; by exists d.
  - unfold write_fails. repeat case_match; intros [= <- _]; by apply Hone.
  - unfold read_id. repeat case_match; by intros [= <- _].
  - unfold read_id. repeat case_match; by intros [= <- _].
  - unfold spawn. repeat case_match; intros [= <- _]; done || by apply Hone.
  - destruct (go x); [|done]. by intros [= <- _].
  - unfold drain_timeout. repeat case_match; intros [= <- _]; by apply Hone.
  - unfold forward_read. repeat case_match; intros [= <- _]; by apply Hone.
  - unfold forward_eof. repeat case_match; by intros [= <- _].
  - unfold forward_send. repeat case_match; by intros [= <- _].
  - unfold child_wait. repeat case_match; intros [= <- _]; by apply Hone.
Qed.

(** A step of the helper that writes nothing and reads no id. *)
Lemma link_quiet c log xlog d x x' up down es :
  puts es = [] → (∀ i, GotId i ∉ es) → (hung_up x = true → hung_up x' = true) →
  link_inv c log xlog (Joint d x (Some c) up down) → link_inv c log (xlog ++ es) (Joint d x' (Some c) up down).
Proof.
  intros Hp Hg Hh.
  assert (Hputs : puts (xlog ++ es) = puts xlog) by (by rewrite puts_app, Hp, app_nil_r).
  assert (Hgot : ∀ i, GotId i ∈ xlog ++ es ↔ GotId i ∈ xlog).
  { intros i. rewrite elem_of_app. split; [intros [|]; [done|by destruct (Hg i)]|by left]. }
  unfold link_inv, enrolled, id_sent, no_id. cbn. rewrite Hputs.
  destruct (dm_clients d !! c) as [[]|]; try setoid_rewrite Hgot; intuition eauto.
  right. destruct H0 as (id & name & He & Hw & Hu & Hi). exists id, name. auto.
Qed.

(** A write. *)
Lemma link_put c log xlog d x x' up down b :
  peer_open d c = true → hung_up x = false →
  link_inv c log xlog (Joint d x (Some c) up down) →
  link_inv c log (xlog ++ [Put b]) (Joint d x' (Some c) (up ++ b) down).
Proof.
  intros Ho Hh.
  assert (Hgot : ∀ i, GotId i ∈ xlog ++ [Put b] ↔ GotId i ∈ xlog).
  { intros i. rewrite elem_of_app, list_elem_of_singleton. intuition congruence. }
  assert (He : ∀ name, enrolled c log xlog name up → enrolled c log (xlog ++ [Put b]) name (up ++ b)).
  { intros name (nm & -> & Hl & Hp). exists nm. split_and!; try done.
    rewrite puts_app, puts_one, Hp. cbn. by rewrite <-!app_assoc. }
  unfold link_inv, peer_open in *. cbn [jt_daemon jt_exec jt_up jt_down] in *.
  destruct (dm_clients d !! c) as [[]|]; try done; rewrite ?Hh; unfold id_sent, no_id in *.
  - setoid_rewrite Hgot. intros (H1 & <- & H2). by rewrite puts_app, puts_one.
  - setoid_rewrite Hgot. intros [H1 H2]. auto.
  - setoid_rewrite Hgot. intros [H1 H2]. auto.
  - setoid_rewrite Hgot. intros [H1 H2]. auto.
  - by intros (_ & _ & ? & _).
  - by intros (_ & _ & ? & _).
Qed.

(** The id arrives. *)
Lemma link_id c log xlog d x x' up down i :
  hung_up x = false →
  link_inv c log xlog (Joint d x (Some c) up (i :: down)) →
  link_inv c log (xlog ++ [GotId i]) (Joint d x' (Some c) up down).
Proof.
  intros Hh.
  assert (He : ∀ name up, enrolled c log xlog name up → enrolled c log (xlog ++ [GotId i]) name up).
  { intros name up' (nm & -> & Hl & Hp). exists nm. split_and!; try done. by rewrite puts_app, puts_one, app_nil_r. }
  assert (Hid : ∀ id, id_sent id xlog (i :: down) → id_sent id (xlog ++ [GotId i]) down).
  { intros id Hi j. rewrite elem_of_app, list_elem_of_singleton. specialize (Hi j).
    rewrite elem_of_cons in Hi. intros [?|[?|[= ->]]]; auto. }
  unfold link_inv in *. cbn [jt_daemon jt_exec jt_up jt_down] in *.
  destruct (dm_clients d !! c) as [[]|]; try done; rewrite ?Hh; unfold no_id.
  - by intros (_ & _ & ? & _).
  - by intros (_ & ? & _).
  - intros [? ?]. auto.
  - intros [? ?]. auto.
  - by intros (_ & _ & ? & _).
  - by intros (_ & _ & ? & _).
  - by intros [[? _]|(? & ? & _ & _ & ? & _)].
Qed.

Lemma link_exec c log xlog d x x' up down act es up' down' :
  exec_act a act x = Some (es, x') → exec_socket act es (peer_open d c) up down = Some (up', down') →
  link_inv c log xlog (Joint d x (Some c) up down) →
  link_inv c log (xlog ++ es) (Joint d x' (Some c) up' down').
Proof.
  intros Ha Hs Hl. pose proof (exec_act_events _ _ _ _ Ha) as He.
  assert (Hh : hung_up x = true → hung_up x' = true) by (intros; by eapply exec_act_hung).
  assert (Hnot : es ≠ [] → hung_up x = false).
  { intros Hes. destruct (hung_up x) eqn:Hx; [|done]. by destruct (exec_act_hung _ _ _ _ Ha Hx). }
  destruct act as [|[]| | |[r|]| | | | | | |]; cbn [exec_socket] in Hs; try done;
    try (injection Hs as <- <-; eapply link_quiet; by (apply He || eauto)).
  - destruct (peer_open d c) eqn:Ho; [|done]. injection Hs as <- <-. destruct He as [b ->].
    rewrite puts_one. by apply link_put with x; auto.
  - destruct He as [He1 He2]. case_match; [done|]. injection Hs as <- <-. by eapply link_quiet.
  - destruct down as [|j down]; [done|]. case_match; [|done]. z_bool. subst j. injection Hs as <- <-. subst es.
    by apply link_id with x; auto.
  - destruct He as [He1 He2]. repeat case_match; try done. injection Hs as <- <-. by eapply link_quiet.
Qed.

(** A step of the daemon's task for the helper. *)
Lemma data_of_snoc c log m :
  data_of c (log ++ map (pair c) [m]) =
  data_of c log ++ match m with Data _ payload => payload | _ => [] end.
Proof.
  unfold data_of. rewrite of_client_app, of_client_same, fmap_app, concat_app. cbn. by rewrite app_nil_r.
Qed.

Lemma link_client c log xlog d x up down at_ cl ms d' up' down' :
  run_of debug log d → ch_open (dm_chan d') = true →
  actor at_ = Some c → dm_clients d !! c = Some cl → act debug at_ d = Some (ms, d') →
  client_socket at_ cl (hung_up x) up down = Some (up', down') →
  (ch_open (dm_chan d) = true → link_inv c log xlog (Joint d x (Some c) up down)) →
  link_inv c (log ++ ms) xlog (Joint d' x (Some c) up' down').
Proof.
  intros Hrun Ho Ha Hc Hact Hs Hl. specialize (Hl (step_open _ _ _ (act_sound _ _ _ _ _ Hact) Ho)).
  destruct (act_client_step _ _ _ _ _ _ Ha Hc Hact) as (cl' & p' & ch' & ms' & Hac & -> & Hc' & Hch).
  pose proof (muxd_inv_run _ _ _ Hrun) as [_ Hses _ _ _ _]. specialize (Hses c).
  rewrite (step_open _ _ _ (act_sound _ _ _ _ _ Hact) Ho), Hc in Hses.
  unfold link_inv in *. cbn [jt_daemon jt_exec jt_up jt_down] in *. rewrite Hc in Hl. rewrite Hc'.
  assert (Hsent : ∀ frame m p next, act_send frame m p (dm_chan d) next = Some (cl', p', ch', ms') →
    cl' = next true ∧ ms' = [m]).
  { intros frame m p next (ok & Hsd & -> & _ & ->)%act_send_some. subst ch'. unfold send in Hsd.
    rewrite (step_open _ _ _ (act_sound _ _ _ _ _ Hact) Ho) in Hsd. cbn in Hsd. case_match; [|done].
    by injection Hsd as <- _. }
  assert (Hsame : ∀ name up1, enrolled c log xlog name up1 → ∀ m, (∀ i pl, m ≠ Data i pl) →
    enrolled c (log ++ map (pair c) [m]) xlog name up1).
  { intros name up1 (nm & -> & Hl1 & Hp) m Hm. exists nm. rewrite data_of_snoc, Hp.
    destruct m as [|i pl|]; [by rewrite app_nil_r|by destruct (Hm i pl)|by rewrite app_nil_r]. }
  destruct at_ as [| |c1 nm|c1|c1|c1|c1 pl| |], cl as [|i name|i name|i name|i name|i| |i]; cbn [act_client] in Hac; try done.
  - injection Hac as <- <- <- <-. cbn in Hs. case_match; [|done]. injection Hs as <- <-. left. apply Hl.
  - destruct (_ && _) eqn:Hlen in Hac; [|done]. destruct (alloc_id _) as [i p2|]; [|done].
    injection Hac as <- <- <- <-. destruct Hl as (Hno & Hp & Hid). cbn in Hs.
    destruct up as [|b up]; [done|]. case_bool_decide as Hb; [|done]. subst b.
    destruct (strip nm up) as [up2|] eqn:Hst; [|done]. injection Hs as <- <-. apply strip_app in Hst as ->.
    split; [|done]. exists nm. z_bool. split_and!; [done|lia|].
    rewrite Hp. unfold data_of. cbn [map]. rewrite app_nil_r, Hno. done.
  - destruct (free_id _ _) as [[] ?|]; [|done]. injection Hac as <- <- <- <-. cbn in Hs. case_match; [|done].
    injection Hs as <- <-. left. apply Hl.
  - injection Hac as <- <- <- <-. injection Hs as <- <-. cbn [map]. rewrite app_nil_r.
    destruct Hl as [He [-> Hn]]. split; [done|]. intros j [Hj%list_elem_of_singleton|Hj]; [done|by destruct (Hn j)].
  - apply Hsent in Hac as [-> ->]. injection Hs as <- <-. destruct Hl as [He Hid]. split; [|done]. by apply Hsame.
  - apply Hsent in Hac as [-> ->]. injection Hs as <- <-. destruct Hl as (He & -> & Hh & Hid).
    split_and!; try done. exists name. split; [by apply Hsame|].
    destruct Hses as [ds Hds]. exists ds. by rewrite of_client_app, of_client_same, Hds.
  - destruct (free_id _ _) as [[] ?|]; [|done]. injection Hac as <- <- <- <-. injection Hs as <- <-.
    cbn [map]. rewrite app_nil_r. destruct Hl as ((name & He & Hw) & -> & Hh & Hid). right. by exists i, name.
  - injection Hac as <- <- <- <-. cbn in Hs. destruct up; [|done]. case_match; [|done]. injection Hs as <- <-.
    cbn [map]. rewrite app_nil_r. destruct Hl as [He Hid]. by split_and!.
  - destruct (_ && _) eqn:Hlen in Hac; [|done]. destruct (encode_data_frame _ _ _ _) as [frame|]; [|by injection Hac as <- _ _ _].
    apply Hsent in Hac as [-> ->]. cbn in Hs. destruct (strip pl up) as [up2|] eqn:Hst; [|done].
    injection Hs as <- <-. apply strip_app in Hst as ->. destruct Hl as [(nm & -> & Hl1 & Hp) Hid]. split; [|done].
    exists nm. rewrite data_of_snoc, Hp, <-!app_assoc. done.
Qed.

Lemma link_other c log xlog d d' x up down at_ ms :
  actor at_ ≠ Some c → act debug at_ d = Some (ms, d') →
  link_inv c log xlog (Joint d x (Some c) up down) → link_inv c (log ++ ms) xlog (Joint d' x (Some c) up down).
Proof.
  intros Ha Hact. unfold link_inv. cbn [jt_daemon jt_exec jt_up jt_down].
  destruct (dm_clients d !! c) as [cl|] eqn:Hc; [|done]. destruct (act_other _ _ _ _ _ _ Ha Hc Hact) as [-> Hms].
  assert (Hof : of_client c (log ++ ms) = of_client c log) by (by rewrite of_client_app, Hms, app_nil_r).
  unfold enrolled, data_of. by rewrite Hof.
Qed.

(** Until it is connected the helper cannot write or read. *)
Lemma unlinked_step xlog x act es x' :
  exec_act a act x = Some (es, x') → unlinked xlog x →
  puts (xlog ++ es) = [] ∧ (∀ i, GotId i ∉ xlog ++ es) ∧ (links act = false → unlinked (xlog ++ es) x').
Proof.
  intros Ha (Hp & Hg & Hm). pose proof (exec_act_events _ _ _ _ Ha) as He.
  assert (Hq : puts es = [] ∧ (∀ i, GotId i ∉ es)).
  { destruct act as [| | | |[]| | | | | | |]; try done; cbn in Ha; unfold write_socket, read_id in Ha;
      by destruct (ex_main x). }
  destruct Hq as [Hq1 Hq2].
  assert (Hall : puts (xlog ++ es) = [] ∧ ∀ i, GotId i ∉ xlog ++ es).
  { rewrite puts_app, Hp, Hq1. split; [done|]. intros i. rewrite elem_of_app. intros [?|?]; [by apply (Hg i)|by apply (Hq2 i)]. }
  destruct Hall as [H1 H2]. split_and!; try done. intros Hact. split_and!; try done.
  destruct x as [now m out err q ex]. cbn in Hm.
  destruct m; try done; destruct act as [|[]| | | | | | | | | |]; try done; cbn in Ha; unfold when in Ha;
    repeat match type of Ha with context [if ?b then _ else _] => destruct b end; by simplify_eq/=.
Qed.

Lemma joint_inv_run now log xlog s : joint_run debug a now log xlog s → joint_inv log xlog s.
Proof.
  induction 1 as [|log xlog s ms es s' Hr IH Hs].
  - split_and!; try done. intros i. apply not_elem_of_nil.
  - destruct (joint_runs _ _ _ _ Hr) as [Hd _].
    destruct Hs as [d x d' x' es ms Hx Ha|d x x' es act Hne Hx|d x c up down act es x' up' down' Hx Hsk
      |d x c up down at_ cl ms d' up' down' Hat Hc Ha Hsk|d x co up down at_ ms d' Hat Ha];
      unfold joint_inv in *; cbn [jt_client jt_daemon jt_exec] in *; rewrite ?app_nil_r.
    + destruct (unlinked_step _ _ _ _ _ Hx IH) as (Hp & Hg & _).
      injection Ha as <- <-. intros Ho. cbn in Ho. unfold link_inv. cbn. rewrite lookup_app_r, Nat.sub_diag by done. cbn.
      rewrite app_nil_r. split_and!; try done.
      pose proof (muxd_inv_run _ _ _ Hd) as [_ Hses _ _ _ _]. specialize (Hses (length (dm_clients d))).
      rewrite lookup_ge_None_2 in Hses by done.
      by rewrite Ho in Hses.
    + by apply (unlinked_step _ _ _ _ _ Hx IH).
    + intros Ho. by eapply link_exec; [..|apply IH].
    + intros Ho. by eapply link_client.
    + destruct co as [c|]; [|done]. intros Ho. destruct Hat as [|Hat]; [done|].
      eapply link_other; [done|done|]. by apply IH, (step_open _ _ _ (act_sound _ _ _ _ _ Ha)).
Qed.

(** The helper has a stream of its own when the child starts. *)
Definition linked (m : place) : bool :=
  match m with Connecting _ | Sleeping _ _ | Finished _ => false | _ => true end.

Definition named (xlog : list event) (x : exec) : Prop :=
  (linked (ex_main x) = true → (length (a_name a) ≤ 255)%nat) ∧
  (∀ id, ex_main x = Spawning id → GotId id ∈ xlog) ∧
  (Spawned ∈ xlog → (length (a_name a) ≤ 255)%nat ∧ ∃ id, GotId id ∈ xlog).

Lemma act_linked act x es x' :
  exec_act a act x = Some (es, x') →
  (linked (ex_main x') = true → linked (ex_main x) = true ∨ (length (a_name a) ≤ 255)%nat) ∧
  (∀ id, ex_main x' = Spawning id → ex_main x = Spawning id ∨ GotId id ∈ es) ∧
  (Spawned ∈ es → ∃ id, ex_main x = Spawning id).
Proof.
  assert (Hes : ∀ e, Spawned ∈ [e] → e = Spawned) by (by intros e ->%list_elem_of_singleton).
  assert (Hno : Spawned ∉ []) by apply not_elem_of_nil.
  assert (Hin : ∀ i, GotId i ∈ [GotId i]) by (intros; by apply list_elem_of_singleton).
  assert (Hkeep : ∀ es' x2, (Spawned ∈ es' → False) → ex_main x2 = ex_main x → Some (es', x2) = Some (es, x') →
    (linked (ex_main x') = true → linked (ex_main x) = true ∨ (length (a_name a) ≤ 255)%nat) ∧
    (∀ id, ex_main x' = Spawning id → ex_main x = Spawning id ∨ GotId id ∈ es) ∧
    (Spawned ∈ es → ∃ id, ex_main x = Spawning id)).
  { intros es' x2 Hs Hm [= <- <-]. rewrite Hm. split_and!; auto. by intros ?%Hs. }
  destruct act as [ms|[]|n| |[r|]|ok| | |p d|p|p|w]; cbn [exec_act]; unfold when.
  - destruct (_ <? _); [by apply Hkeep|done].
  - unfold connect_with_retry. destruct (ex_main x); try done. case_match; z_bool; intros [= <- <-]; cbn;
      (split_and!; [intros; right; lia || done|done|by intros ?%Hes]).
  - unfold connect_with_retry. destruct (ex_main x); try done. case_match; intros [= <- <-]; cbn;
      (split_and!; [done..|by intros ?%Hno]).
  - unfold write_socket. destruct (ex_main x); try done; destruct (take_some n _) as [[d r]|]; try done;
      intros [= <- <-]; cbn; (split_and!; [by left|done|by intros ?%Hes]).
  - unfold write_fails. destruct (ex_main x) as [| |[]| | | | |[]| | |? ? []|]; try done;
      intros [= <- <-]; cbn; (split_and!; [by auto|done|by intros ?%Hes]).
  - unfold read_id. destruct (ex_main x); try done. destruct (r =? 0); intros [= <- <-]; cbn;
      (split_and!; [by auto|by intros ? [= ->]; right|by intros ?%Hes]).
  - unfold read_id. destruct (ex_main x); try done. intros [= <- <-]. cbn. split_and!; [done..|by intros ?%Hno].
  - unfold spawn. destruct (ex_main x); try done. destruct ok; intros [= <- <-]; cbn; split_and!; eauto; by intros.
  - destruct (go x) as [x2|] eqn:Hgo; [|done]. intros [= <- <-]. revert Hgo.
    unfold go, drain_with_child_exit.
    destruct (ex_main x) as [| |[]| | | | |[]| | |? ? []|]; try done; repeat case_match; intros [= <-]; cbn;
      (split_and!; [by auto|done|by intros ?%Hno]).
  - unfold drain_timeout. destruct (ex_main x); try done. case_match; [|done]. intros [= <- <-]. cbn.
    split_and!; [done..|by intros ?%Hes].
  - destruct (running _); [|done]. unfold forward_read. repeat case_match; try done.
    apply Hkeep; [by intros ?%Hes|by destruct p].
  - destruct (running _); [|done]. unfold forward_eof. repeat case_match; try done. apply Hkeep; [done|by destruct p].
  - destruct (running _); [|done]. unfold forward_send. repeat case_match; try done. apply Hkeep; [done|by destruct p].
  - destruct (running _); [|done]. unfold child_wait. repeat case_match; try done. apply Hkeep; [by intros ?%Hes|done].
Qed.

Lemma named_run now xlog x : exec_run a now xlog x → named xlog x.
Proof.
  unfold named. induction 1 as [|log x es x' _ (IH1 & IH2 & IH3) [act Ha]].
  - split_and!; [done..|]. by intros ?%not_elem_of_nil.
  - destruct (act_linked _ _ _ _ Ha) as (H1 & H2 & H3). setoid_rewrite elem_of_app. split_and!.
    + intros Hl. destruct (H1 Hl); auto.
    + intros id Hm. destruct (H2 id Hm); auto.
    + intros [Hs|Hs]; [destruct (IH3 Hs) as [? [id ?]]; eauto|]. destruct (H3 Hs) as [id Hm].
      split; [apply IH1; by rewrite Hm|]. exists id. left. by apply IH2.
Qed.

(** The daemon and a helper that has ended well: the session is the helper's
    name and all of its output. *)
Lemma exec_to_daemon now log xlog s c code :
  joint_run debug a now log xlog s → jt_client s = Some c →
  ex_main (jt_exec s) = Finished code → Spawned ∈ xlog → (∀ b, PutError b ∉ xlog) → (TimedOut ∉ xlog) →
  dm_clients (jt_daemon s) !! c = Some Gone → ch_open (dm_chan (jt_daemon s)) = true →
  ∃ id sent, GotId id ∈ xlog ∧ (∀ p, gots p xlog = of_pipe p sent) ∧ data_of c log = concat sent.*2 ∧
    whole_session id (from_utf8_lossy (a_name a)) (of_client c log) ∧ (∃ w, ChildEnd w ∈ xlog ∧ code = exit_code w).
Proof.
  intros Hrun Hcl Hx Hsp Hpe Hto Hg Ho. destruct (joint_runs _ _ _ _ Hrun) as [_ Hxr].
  destruct (named_run _ _ _ Hxr) as (_ & _ & Hn). destruct (Hn Hsp) as [Hlen [id Hid]].
  destruct (exec_inv_run _ _ _ _ Hxr) as [Hs Hp Hch].
  pose proof (joint_inv_run _ _ _ _ Hrun) as Hj. unfold joint_inv, link_inv in Hj. rewrite Hcl in Hj.
  specialize (Hj Ho). rewrite Hg in Hj. destruct Hj as [[_ Hno]|(id' & name & (nm & -> & Hl & Hputs) & Hw & _ & Hids)].
  { by destruct (Hno id). }
  assert (id = id') as <- by auto.
  destruct Hs as (sent & Hm & Hb).
  destruct (delivered a xlog (jt_exec s) code sent) as (Hst & Hgots & Hw2); [by constructor; [exists sent|..]|auto..].
  rewrite Hst in Hputs. unfold stream, hello in Hputs. rewrite app_nil_r in Hputs. cbn in Hputs.
  injection Hputs as Hb1 Hputs. apply (f_equal b2z) in Hb1. rewrite !b2z_z2b_small in Hb1 by lia.
  apply app_inj_1 in Hputs as [-> Hdata]; [|lia]. exists id, sent. split_and!; try done.
Qed.
End Joint.

(** A stream that one client has to itself. *)
Lemma stream_data_own c id log :
  id_ok id → (∀ c' m, (c', m) ∈ log → id_ok (msg_id m)) → (∀ m, (c, m) ∈ log → msg_id m = id) →
  (∀ c' m, (c', m) ∈ log → msg_id m = id → c' = c) →
  stream_data (z2b id) log.*2 = data_of c log.
Proof.
  intros Hid Hok Hown Huniq. induction log as [|[c' m] log IH]; [done|].
  assert (Hc : data_of c ((c', m) :: log) =
    (if decide (c' = c) then match m with Data _ pl => pl | _ => [] end else []) ++ data_of c log).
  { unfold data_of, of_client. rewrite filter_cons. cbn [fst]. by case_decide. }
  rewrite Hc. change (((c', m) :: log).*2) with (m :: log.*2). rewrite stream_data_cons, IH; cycle 1.
  { intros c2 m2 Hin. apply (Hok c2). by right. }
  { intros m2 Hin. apply Hown. by right. }
  { intros c2 m2 Hin. apply Huniq. by right. }
  f_equal. unfold stream_data. destruct m as [i nm|i pl|i nm]; cbn; rewrite ?app_nil_r; try by case_decide.
  assert (Hin : (c', Data i pl) ∈ (c', Data i pl) :: log) by by left.
  pose proof (Hok _ _ Hin) as (Hi & _). destruct Hid as (Hr & _). cbn in Hi. case_decide as Hcc.
  - subst c'. rewrite <-(Hown _ Hin). cbn. by rewrite bool_decide_true.
  - rewrite bool_decide_false; [done|]. intros Hz%(f_equal b2z). rewrite !b2z_z2b_small in Hz by lia.
    apply Hcc. by eapply Huniq; [exact Hin|].
Qed.

(** The host's entry for an announced stream. *)
Lemma announce_all_entry i name l : ∀ T,
  Connected i name ∈ l →
  (∀ i' name', Connected i' name' ∈ l → z2b i' = z2b i → name' = name) →
  ∃ t, t ∈ announce_all T l ∧ tag_value t = z2b i ∧
    ((∀ u, u ∈ T → tag_value u ≠ z2b i) → t = Tag (Some (cstr (take 255 name))) (z2b i)).
Proof.
  induction l as [|m l IH]; intros T Hin Hn; [by apply not_elem_of_nil in Hin|].
  change (announce_all T (m :: l)) with (announce_all (announce T m) l).
  destruct (existsb (λ t, bool_decide (tag_value t = z2b i)) (announce T m)) eqn:Hex.
  - apply existsb_tag in Hex as (t & Ht & Hv). destruct (announce_prefix (announce T m) l) as [k Hk].
    exists t. rewrite Hk, elem_of_app. split_and!; [by left|done|]. intros Hnew.
    unfold announce in Ht. destruct m as [i' n'|i' pl|i' n']; try by destruct (Hnew t).
    destruct (existsb _ T); [by destruct (Hnew t)|]. apply elem_of_app in Ht as [Ht| ->%list_elem_of_singleton].
    { by destruct (Hnew t). }
    cbn in Hv. rewrite (Hn i' n') by (done || by left). by rewrite Hv.
  - assert (Hnone : ∀ u, u ∈ announce T m → tag_value u ≠ z2b i).
    { intros u Hu Hv. by rewrite (proj2 (existsb_tag _ _) (ex_intro _ u (conj Hu Hv))) in Hex. }
    assert (Hin' : Connected i name ∈ l).
    { apply elem_of_cons in Hin as [<-|]; [|done]. exfalso. cbn in Hnone.
      destruct (existsb _ T) eqn:HT; [apply existsb_tag in HT as (t & Ht & Hv); by apply (Hnone t)|].
      eapply Hnone; [apply elem_of_app; right; by apply list_elem_of_singleton|done]. }
    destruct (IH (announce T m) Hin') as (t & Ht & Hv & Htag); [by intros; eapply Hn; [right|]|].
    exists t. auto.
Qed.

(** The records of one session have its id. *)
Lemma session_ids id name l m : whole_session id name l → m ∈ l → msg_id m = id.
Proof.
  intros [ds ->] [->|[Hm| ->%list_elem_of_singleton]%elem_of_app]%elem_of_cons; [done| |done].
  by apply list_elem_of_fmap in Hm as (d & -> & _).
Qed.

Lemma sent_ids debug (log : list (nat * msg)) c m : Forall (msg_sent debug) log.*2 → (c, m) ∈ log → id_ok (msg_id m).
Proof.
  intros Hm Hin. rewrite Forall_forall in Hm. destruct (Hm m) as [Hok _].
  - apply list_elem_of_fmap. by exists (c, m).
  - by destruct m; apply Hok.
Qed.

(** The function makes steps of the relation. *)
Lemma joint_act_sound debug a j d x co up down ms es s' :
  (co = None → up = [] ∧ down = []) →
  joint_act debug a j (Joint d x co up down) = Some (ms, es, s') →
  joint_step debug a (Joint d x co up down) ms es s' ∧ (jt_client s' = None → jt_up s' = [] ∧ jt_down s' = []).
Proof.
  intros Hn. cbn [joint_act]. destruct j as [|act|at_].
  - destruct co as [c|]; [done|]. destruct (Hn eq_refl) as [-> ->].
    destruct (exec_act a (XConnect true) x) as [[es' x']|] eqn:Hx; [|done]. cbn -[act].
    destruct (act debug Connect d) as [[ms' d']|] eqn:Hd; [|done]. cbn. intros [= <- <- <-].
    split; [by apply joint_link|done].
  - destruct (links act) eqn:Hl; [done|].
    destruct (exec_act a act x) as [[es' x']|] eqn:Hx; [|done]. cbn [mbind option_bind]. destruct co as [c|].
    + destruct (exec_socket act es' (peer_open d c) up down) as [[up' down']|] eqn:Hsk; [|done].
      intros [= <- <- <-]. split; [by eapply joint_exec|done].
    + destruct (Hn eq_refl) as [-> ->]. intros [= <- <- <-]. split; [by eapply joint_alone|done].
  - destruct (act debug at_ d) as [[ms' d']|] eqn:Hd; [|done]. cbn [mbind option_bind]. destruct co as [c|].
    + case_decide as Hat.
      * destruct (dm_clients d !! c) as [cl|] eqn:Hc; [|done]. cbn [mbind option_bind].
        destruct (client_socket at_ cl (hung_up x) up down) as [[up' down']|] eqn:Hsk; [|done].
        intros [= <- <- <-]. split; [by eapply joint_client|done].
      * intros [= <- <- <-]. split; [apply joint_other with at_; auto|done].
    + intros [= <- <- <-]. split; [apply joint_other with at_; auto|done].
Qed.

Lemma joint_acts_run debug a now l log xlog s log' xlog' s' :
  joint_run debug a now log xlog s → (jt_client s = None → jt_up s = [] ∧ jt_down s = []) →
  joint_acts debug a l log xlog s = Some (log', xlog', s') → joint_run debug a now log' xlog' s'.
Proof.
  revert log xlog s. induction l as [|j l IH]; intros log xlog s Hr Hn; cbn [joint_acts]; [by intros [= <- <- <-]|].
  destruct (joint_act debug a j s) as [[[ms es] s1]|] eqn:Ha; [|done]. cbn.
  destruct s as [d x co up down]. destruct (joint_act_sound _ _ _ _ _ _ _ _ _ _ _ Hn Ha) as [Hst Hn'].
  apply IH; [by eapply joint_go|done].
Qed.

(* ------------------------------------------------------------------ *)
(** ** The property *)

(** C15: from a command to its PTY on the host.  A command is run through the
    helper and the daemon, among any other clients and under any interleaving.
    The helper has ended without a failed write or a timeout, the daemon has
    given its session up and drained its channel into a sink that works, and no
    other client had the same id.  Then a host in raw mode that takes what the
    daemon wrote has an entry for the stream, under the helper's [--name] if
    its id was new; the entry's PTY is offered exactly what the command wrote
    to its two pipes, in an order that keeps the order of each pipe; and the
    helper's exit code is the command's. *)
Theorem exec_to_host debug a now log xlog s c code E logs h r :
  joint_run debug a now log xlog s → jt_client s = Some c →
  ex_main (jt_exec s) = Finished code → Spawned ∈ xlog → (∀ b, PutError b ∉ xlog) → (TimedOut ∉ xlog) →
  dm_clients (jt_daemon s) !! c = Some Gone →
  ch_open (dm_chan (jt_daemon s)) = true → ch_queue (dm_chan (jt_daemon s)) = [] →
  Forall (λ e, msg_id e.2 ≠ 0) log →
  (∀ c' m i, GotId i ∈ xlog → (c', m) ∈ log → msg_id m = i → c' = c) →
  good_fds E logs → alloc_ok E → ptys_open E → host_open E logs h r →
  Z.of_nat (length (announce_all (active_tags h) log.*2)) ≤ VIRTIOSO_MAX_PTY_COUNT →
  ∃ id sent r' h', GotId id ∈ xlog ∧ (∀ p, gots p xlog = of_pipe p sent) ∧
    (∃ w, ChildEnd w ∈ xlog ∧ code = exit_code w) ∧
    feed_all (feed_nvidia_outer_or_virtioso_raw E) (dm_sink (jt_daemon s)) r h = Done (0, r') h' ∧
    (∃ t, t ∈ active_tags h' ∧ tag_value t = z2b id ∧
       ((∀ u, u ∈ active_tags h → tag_value u ≠ z2b id) →
          tag_name t = Some (cstr (take 255 (from_utf8_lossy (a_name a)))))) ∧
    ∀ j t p, (3 ≤ j)%nat → active_tags h' !! j = Some t → tag_value t = z2b id → pty_data h' !! j = Some p →
      ∃ before, offered (td_fd p) (trace h') = before ++ concat sent.*2 ∧
        (Z.of_nat j < num_proc h → before = offered (td_fd p) (trace h)).
Proof.
  intros Hrun Hcl Hx Hsp Hpe Hto Hg Ho Hq H0 Huniq Henv Ha Hpo Hh Hcap.
  destruct (exec_to_daemon _ _ _ _ _ _ _ _ Hrun Hcl Hx Hsp Hpe Hto Hg Ho)
    as (id & sent & Hid & Hgots & Hdata & Hses & Hcode).
  destruct (joint_runs _ _ _ _ _ _ Hrun) as [Hd _]. destruct (drained _ _ _ Hd Ho Hq H0) as [-> Hm].
  destruct (host_msgs E logs Henv Ha Hpo log.*2 h r Hh Hm) as (r' & h' & Hrun' & Hh' & Hca);
    [by apply Forall_fmap|by eapply run_announced|done|].
  exists id, sent, r', h'. split_and!; try done.
  - assert (Hconn : (c, Connected id (from_utf8_lossy (a_name a))) ∈ log).
    { apply elem_of_client. destruct Hses as [ds ->]. by left. }
    rewrite (ca_tags _ _ _ Hca). destruct (announce_all_entry id (from_utf8_lossy (a_name a)) log.*2 (active_tags h))
      as (t & Ht & Hv & Hnew).
    + apply list_elem_of_fmap. by eexists (_, _).
    + intros i' n' ([c' m'] & Heq & Hin)%list_elem_of_fmap Hz. cbn in Heq. subst m'.
      pose proof (sent_ids _ _ _ _ Hm Hin) as (Hi & _). pose proof (sent_ids _ _ _ _ Hm Hconn) as (Hi' & _). cbn in *.
      apply (f_equal b2z) in Hz. rewrite !b2z_z2b_small in Hz by lia. subst i'.
      assert (c' = c) as -> by by eapply Huniq. apply elem_of_client in Hin. destruct Hses as [ds Hses].
      rewrite Hses, elem_of_cons, elem_of_app, list_elem_of_singleton, list_elem_of_fmap in Hin.
      by destruct Hin as [[= ->]|[(? & ? & _)|?]].
    + exists t. split_and!; try done. intros Hn. by rewrite (Hnew Hn).
  - intros j t p Hj Ht Hv Hp. destruct (ca_data _ _ _ Hca j t p Hj Ht Hp) as (b & Hoff & Hb). exists b.
    rewrite Hoff, Hv, (stream_data_own c), Hdata; [done|..].
    + assert (Hc : Connected id (from_utf8_lossy (a_name a)) ∈ of_client c log) by (destruct Hses as [ds ->]; by left).
      apply elem_of_client in Hc. apply (sent_ids _ _ _ _ Hm Hc).
    + intros c' m. by apply sent_ids with false.
    + intros m Hin%elem_of_client. by eapply session_ids.
    + intros c' m Hin Hi. by eapply Huniq.
Qed.

(** A command "sh" that writes to both pipes and exits with 3, next to another
    client. *)
Definition demo_joint : list joint_action :=
  [JDaemon Connect; JLink; JExec (XPut 3); JExec XGo; JDaemon (Enroll 0 (bs "top")); JDaemon (Proceed 0);
   JDaemon (Enroll 1 (bs "sh")); JDaemon (Proceed 1); JExec (XId (Some 2)); JExec (XSpawn true);
   JDaemon (Proceed 0); JDaemon (Proceed 1); JDaemon SinkWrite; JDaemon SinkWrite; JDaemon (Read 0 (bs "cpu"));
   JExec XGo; JExec (XRead Stdout [x6f; xfe; x75]); JExec (XRead Stderr (bs "err")); JExec (XSend Stderr);
   JExec XGo; JExec XGo; JExec (XPut 1); JDaemon (Read 1 (bs "e")); JExec (XSend Stdout); JExec (XPut 2); JExec XGo;
   JExec (XChild (Status (Some 3))); JExec (XEof Stdout); JExec XGo; JExec (XEof Stderr); JExec (XPut 3); JExec XGo;
   JExec XGo; JExec XGo; JDaemon (Read 1 (bs "rr" ++ [x6f])); JDaemon (Read 1 [xfe; x75]); JDaemon (Eof 1);
   JDaemon (Proceed 1); JDaemon (Proceed 1)] ++ replicate 5 (JDaemon SinkWrite).
Definition joint_init : joint := Joint muxd_init (exec_start demo_args 0) None [] [].
Definition demo_joint_end : list (nat * msg) * list event * joint :=
  default ([], [], joint_init) (joint_acts true demo_args demo_joint [] [] joint_init).
Definition demo_joint_log : list (nat * msg) := demo_joint_end.1.1.
Definition demo_joint_seen : list event := demo_joint_end.1.2.
Definition demo_joint_state : joint := demo_joint_end.2.

Lemma demo_joint_run : joint_run true demo_args 0 demo_joint_log demo_joint_seen demo_joint_state.
Proof.
  apply (joint_acts_run true demo_args 0 demo_joint [] [] joint_init); [constructor|done|].
  vm_compute. reflexivity.
Qed.

(** No write failed, no deadline passed, and nobody else had the id. *)
Lemma demo_joint_clean :
  (∀ b, PutError b ∉ demo_joint_seen) ∧ (TimedOut ∉ demo_joint_seen) ∧
  ∀ c' m i, GotId i ∈ demo_joint_seen → (c', m) ∈ demo_joint_log → msg_id m = i → c' = 1%nat.
Proof.
  assert (Hs : ∀ e, e ∈ demo_joint_seen → match e with PutError _ | TimedOut => False | GotId i => i = 2 | _ => True end).
  { apply Forall_forall. vm_compute. repeat constructor. }
  assert (Hl : ∀ e, e ∈ demo_joint_log → msg_id e.2 = 2 → e.1 = 1%nat).
  { apply (proj1 (Forall_forall (λ e : nat * msg, msg_id e.2 = 2 → e.1 = 1%nat) demo_joint_log)).
    vm_compute. repeat (constructor; [by intros|]). constructor. }
  split_and!; [by intros b ?%Hs|by intros ?%Hs|]. intros c' m i Hi%Hs Hm Hid. subst i. by apply (Hl (c', m)).
Qed.

Lemma exec_to_host_witness :
  ∃ id sent r' h', GotId id ∈ demo_joint_seen ∧ (∀ p, gots p demo_joint_seen = of_pipe p sent) ∧
    (∃ w, ChildEnd w ∈ demo_joint_seen ∧ 3 = exit_code w) ∧
    feed_all (feed_nvidia_outer_or_virtioso_raw good_env) (dm_sink (jt_daemon demo_joint_state)) rx_init demo_host
      = Done (0, r') h' ∧
    (∃ t, t ∈ active_tags h' ∧ tag_value t = z2b id ∧
       ((∀ u, u ∈ active_tags demo_host → tag_value u ≠ z2b id) →
          tag_name t = Some (cstr (take 255 (from_utf8_lossy (a_name demo_args)))))) ∧
    ∀ j t p, (3 ≤ j)%nat → active_tags h' !! j = Some t → tag_value t = z2b id → pty_data h' !! j = Some p →
      ∃ before, offered (td_fd p) (trace h') = before ++ concat sent.*2 ∧
        (Z.of_nat j < num_proc demo_host → before = offered (td_fd p) (trace demo_host)).
Proof.
  apply (exec_to_host true demo_args 0 demo_joint_log demo_joint_seen demo_joint_state 1 3 good_env (λ _, true)
    demo_host rx_init demo_joint_run).
  - vm_compute. reflexivity.
  - vm_compute. reflexivity.
  - apply (list_elem_of_lookup_2 _ 3). vm_compute. reflexivity.
  - exact (proj1 demo_joint_clean).
  - exact (proj1 (proj2 demo_joint_clean)).
  - vm_compute. reflexivity.
  - vm_compute. reflexivity.
  - vm_compute. reflexivity.
  - repeat (constructor; [vm_compute; congruence|]). constructor.
  - exact (proj2 (proj2 demo_joint_clean)).
  - exact good_env_fds.
  - by intros tr n.
  - exact good_env_ptys.
  - exact demo_host_open.
  - vm_compute. congruence.
Defined.
