(* ===== verification/Router.v ===== *)
(** * The console router's view of the host program

    [host/console_router.py] starts the host program and reads its standard
    output line by line to learn of the PTYs it opens.  Text is modelled by
    its UTF-8 bytes; reading files and manifests is not modelled. *)

From S2P Require Import Prelude Muxd.
From stdpp Require Import gmap.
From Stdlib Require Import Ascii.
#[local] Open Scope Z_scope.
#[local] Open Scope list_scope.

#[global] Program Instance byte_countable : Countable byte :=
  inj_countable Byte.to_N Byte.of_N _.
Next Obligation. intros b. apply Byte.of_to_N. Qed.

(* ------------------------------------------------------------------ *)
(** ** [str.strip] *)

(** The characters for which [str.isspace] holds, as UTF-8. *)
Definition py_spaces : list (list byte) :=
  [[x09]; [x0a]; [x0b]; [x0c]; [x0d]; [x1c]; [x1d]; [x1e]; [x1f]; [x20]; [xc2; x85]; [xc2; xa0];
   [xe1; x9a; x80]] ++
  ((λ b, [xe2; x80; b]) <$> [x80; x81; x82; x83; x84; x85; x86; x87; x88; x89; x8a; xa8; xa9; xaf]) ++
  [[xe2; x81; x9f]; [xe3; x80; x80]].

(** [l] without [pre] in front, if it is there. *)
Fixpoint after_prefix (pre l : list byte) : option (list byte) :=
  match pre, l with
  | [], _ => Some l
  | b :: pre', b' :: l' => if bool_decide (b = b') then after_prefix pre' l' else None
  | _, _ => None
  end.

Fixpoint drop_one (spaces : list (list byte)) (l : list byte) : option (list byte) :=
  match spaces with
  | [] => None
  | sp :: spaces' =>
      match after_prefix sp l with Some l' => Some l' | None => drop_one spaces' l end
  end.

(** At most one space per byte. *)
Fixpoint lstrip_with (spaces : list (list byte)) (fuel : nat) (l : list byte) : list byte :=
  match fuel with
  | O => l
  | S fuel' =>
      match drop_one spaces l with Some l' => lstrip_with spaces fuel' l' | None => l end
  end.

Definition lstrip (l : list byte) : list byte := lstrip_with py_spaces (length l) l.
Definition rstrip (l : list byte) : list byte :=
  rev (lstrip_with (map (@rev byte) py_spaces) (length l) (rev l)).
Definition py_strip (l : list byte) : list byte := rstrip (lstrip l).

(** [text.split(sep, 1)] when [sep] is in [text]: what is before and after. *)
Fixpoint split_at (sep : byte) (l : list byte) : option (list byte * list byte) :=
  match l with
  | [] => None
  | b :: l' =>
      if bool_decide (b = sep) then Some ([], l')
      else match split_at sep l' with Some (u, v) => Some (b :: u, v) | None => None end
  end.

(* ------------------------------------------------------------------ *)
(** ** Sessions *)

Record session : Type := Session {
  ss_name : list byte;
  ss_interactive : bool;
  ss_log_path : list byte;
  ss_pty_path : list byte
}.

(** What is done to the file system, newest last. *)
Inductive fsop : Type :=
| Mkdir (path : list byte)
| Relink (link target : list byte)                  (** [unlink] if there, [symlink_to] *)
| WriteChannel (path name raw_log : list byte) (interactive : bool)
| WriteSessions (path : list byte) (sessions : gmap (list byte) session).

Record router : Type := Router {
  rt_buffer : list byte;                            (** [mapping_buffer] *)
  rt_sessions : gmap (list byte) session;
  rt_ops : list fsop;
  rt_stdout : list byte;                            (** offered to [sys.stdout] *)
  rt_stderr : list byte;                            (** to [sys.stderr] and its log *)
  rt_input : list byte                              (** offered to the command's stdin *)
}.

(** [base / name]; an absolute name replaces the base. *)
Definition path_join (base name : list byte) : list byte :=
  match name with
  | b :: _ => if bool_decide (b = x2f) then name else base ++ [x2f] ++ name
  | [] => base
  end.

Section Router.
Context (runtime_dir logs_dir : list byte).

Definition sessions_path : list byte := path_join runtime_dir (bs "sessions.json").

(** [_record_dynamic_mux_session], with [_write_dynamic_sessions_manifest]. *)
Definition record_dynamic_mux_session (name pty_path log_path : list byte) (s : router) : router :=
  let channel_dir := path_join (path_join runtime_dir (bs "channels")) name in
  let interactive := negb (bool_decide (name = bs "RAW")) in
  let sessions := <[name := Session name interactive log_path pty_path]> (rt_sessions s) in
  Router (rt_buffer s) sessions
    (rt_ops s ++
     [Mkdir channel_dir; Relink (path_join channel_dir (bs "pty")) pty_path;
      WriteChannel (path_join channel_dir (bs "channel.json")) name log_path interactive;
      WriteSessions sessions_path sessions])
    (rt_stdout s) (rt_stderr s) (rt_input s).

(** One line of the host program's output, its newline included. *)
Definition mapping_line (line : list byte) (s : router) : router :=
  let s := Router (rt_buffer s) (rt_sessions s) (rt_ops s) (rt_stdout s ++ line) (rt_stderr s) (rt_input s) in
  let text := py_strip (from_utf8_lossy line) in
  match split_at x09 text with
  | None => s
  | Some (pty_path, name) =>
      if bool_decide (pty_path = []) || bool_decide (name = []) then s
      else record_dynamic_mux_session name pty_path (path_join logs_dir (name ++ bs ".txt")) s
  end.

(** The loop over the lines in the buffer: at most one per byte. *)
Fixpoint drain_lines (fuel : nat) (s : router) : router :=
  match fuel with
  | O => s
  | S fuel' =>
      match split_at x0a (rt_buffer s) with
      | None => s
      | Some (u, rest) =>
          drain_lines fuel'
            (mapping_line (u ++ [x0a])
               (Router rest (rt_sessions s) (rt_ops s) (rt_stdout s) (rt_stderr s) (rt_input s)))
      end
  end.

(** [_drain_virtioso_mux_mappings]. *)
Definition drain_virtioso_mux_mappings (data : list byte) (s : router) : router :=
  let buffer := rt_buffer s ++ data in
  drain_lines (length buffer)
    (Router buffer (rt_sessions s) (rt_ops s) (rt_stdout s) (rt_stderr s) (rt_input s)).

(** The sources of [_run_virtioso_vcmux]'s selector. *)
Inductive source : Type := MuxToProc | VirtiosoMuxStdout | VirtiosoMuxStderr | StdinIn.

(** One event of the loop: what was read from a source, nothing at its end. *)
Definition vcmux_event (kind : source) (data : list byte) (s : router) : router :=
  match data with
  | [] => s
  | _ =>
      match kind with
      | MuxToProc | StdinIn =>
          Router (rt_buffer s) (rt_sessions s) (rt_ops s) (rt_stdout s) (rt_stderr s) (rt_input s ++ data)
      | VirtiosoMuxStdout => drain_virtioso_mux_mappings data s
      | VirtiosoMuxStderr =>
          Router (rt_buffer s) (rt_sessions s) (rt_ops s) (rt_stdout s) (rt_stderr s ++ data) (rt_input s)
      end
  end.

Definition vcmux_events (l : list (source * list byte)) (s : router) : router :=
  foldl (λ s e, vcmux_event e.1 e.2 s) s l.

(** The start of the loop: an empty session list is written. *)
Definition vcmux_start : router :=
  Router [] ∅ [WriteSessions sessions_path ∅] [] [] [].

End Router.

(** After the loop: what is left of an incomplete line is printed. *)
Definition vcmux_end (s : router) : router :=
  match rt_buffer s with
  | [] => s
  | _ => Router (rt_buffer s) (rt_sessions s) (rt_ops s) (rt_stdout s ++ rt_buffer s) (rt_stderr s) (rt_input s)
  end.

(** The host program's options as [virtioso_mux_cmd] gives them. *)
Definition virtioso_mux_cmd (outer uart_slave_path logs_dir raw_log : list byte) : list (ascii * list byte) :=
  [("A"%char, []); ("O"%char, outer); ("d"%char, uart_slave_path); ("s"%char, logs_dir);
   ("l"%char, raw_log); ("L"%char, [])].

(** [_mirror_log_growth] on a file's content: what is written and the new
    offset. *)
Definition mirror_log_growth (content : option (list byte)) (offset : nat) : list byte * nat :=
  match content with
  | None => ([], offset)
  | Some c => (drop offset c, (offset + length (drop offset c))%nat)
  end.
