(* ===== verification/RouterSpec.v ===== *)
(** * What the console router learns

    How the output is cut into reads does not matter.  In the legacy mode the
    router records every PTY the host announces; but it starts the host in
    Virtioso mode, whose announcements it does not recognise. *)

From S2P Require Import Prelude Proto CString HostState HostIo Flush Json Registry Tty TtySpec Startup Demux HostTx Reader Main MainInv Muxd Router.
From stdpp Require Import gmap.
From Stdlib Require Import Ascii.
#[local] Open Scope Z_scope.
#[local] Open Scope list_scope.

(** What was printed on [stdout], oldest first. *)
Fixpoint stdout_of (tr : history) : list byte :=
  match tr with
  | [] => []
  | (RqStdout d, _) :: tr' => stdout_of tr' ++ d
  | _ :: tr' => stdout_of tr'
  end.

(** The complete lines of [l] after the bytes [cur] of an incomplete one, and
    the incomplete line at the end. *)
Fixpoint lines_from (cur l : list byte) : list (list byte) * list byte :=
  match l with
  | [] => ([], cur)
  | b :: l' =>
      if bool_decide (b = x0a) then let '(ls, r) := lines_from [] l' in ((cur ++ [b]) :: ls, r)
      else lines_from (cur ++ [b]) l'
  end.

Definition set_buffer (b : list byte) (s : router) : router :=
  Router b (rt_sessions s) (rt_ops s) (rt_stdout s) (rt_stderr s) (rt_input s).

(** What the router read from the host. *)
Definition host_output (l : list (source * list byte)) : list byte :=
  concat ((λ e, match e.1 with VirtiosoMuxStdout => e.2 | _ => [] end) <$> l).

(* ------------------------------------------------------------------ *)
(** ** Lemmas: lines *)

Lemma lines_from_app cur a b :
  lines_from cur (a ++ b) =
  let '(ls1, r1) := lines_from cur a in let '(ls2, r2) := lines_from r1 b in (ls1 ++ ls2, r2).
Proof.
  revert cur. induction a as [|x a IH]; intros cur; cbn [app lines_from]; [by destruct (lines_from cur b)|].
  case_bool_decide; [|apply IH]. rewrite IH. destruct (lines_from [] a) as [ls1 r1].
  by destruct (lines_from r1 b) as [ls2 r2].
Qed.

Lemma lines_from_split cur l :
  match split_at x0a l with
  | None => lines_from cur l = ([], cur ++ l)
  | Some (u, rest) =>
      lines_from cur l = let '(ls, r) := lines_from [] rest in ((cur ++ u ++ [x0a]) :: ls, r)
  end.
Proof.
  revert cur. induction l as [|x l IH]; intros cur; cbn [split_at lines_from]; [by rewrite app_nil_r|].
  case_bool_decide as Hx; [by subst x|]. specialize (IH (cur ++ [x])).
  destruct (split_at x0a l) as [[u rest]|]; rewrite IH; by rewrite <-!app_assoc.
Qed.

Lemma split_at_length sep l u rest : split_at sep l = Some (u, rest) → (length l = length u + S (length rest))%nat.
Proof.
  revert u. induction l as [|x l IH]; intros u; [done|]. cbn [split_at length].
  case_bool_decide; [by intros [= <- <-]|]. destruct (split_at sep l) as [[u' v]|]; [|done].
  intros [= <- <-]. cbn. by rewrite (IH u' eq_refl).
Qed.

Section Router.
Context (runtime_dir logs_dir : list byte).
Local Abbreviation mapping_line := (mapping_line runtime_dir logs_dir).
Local Abbreviation drain := (drain_virtioso_mux_mappings runtime_dir logs_dir).

Definition read_lines (ls : list (list byte)) (s : router) : router := foldl (λ s l, mapping_line l s) s ls.

(** A line does not look at the buffer. *)
Lemma mapping_line_buffer line b s : mapping_line line (set_buffer b s) = set_buffer b (mapping_line line s).
Proof. unfold Router.mapping_line. by repeat case_match. Qed.

Lemma read_lines_buffer ls b s : read_lines ls (set_buffer b s) = set_buffer b (read_lines ls s).
Proof.
  unfold read_lines. revert s. induction ls as [|l ls IH]; intros s; [done|].
  cbn [foldl]. by rewrite mapping_line_buffer, IH.
Qed.

Lemma drain_lines_spec fuel s :
  (length (rt_buffer s) ≤ fuel)%nat →
  drain_lines runtime_dir logs_dir fuel s =
  set_buffer (lines_from [] (rt_buffer s)).2 (read_lines (lines_from [] (rt_buffer s)).1 s).
Proof.
  revert s. induction fuel as [|fuel IH]; intros s Hl; cbn [drain_lines].
  { destruct s as [[|] ? ? ? ? ?]; [done|cbn in Hl; lia]. }
  pose proof (lines_from_split [] (rt_buffer s)) as Hsp.
  destruct (split_at x0a (rt_buffer s)) as [[u rest]|] eqn:Hs; rewrite Hsp; [|by destruct s].
  apply split_at_length in Hs. rewrite IH.
  - change (Router rest _ _ _ _ _) with (set_buffer rest s). rewrite mapping_line_buffer. cbn [rt_buffer set_buffer].
    rewrite read_lines_buffer. by destruct (lines_from [] rest) as [ls r].
  - change (Router rest _ _ _ _ _) with (set_buffer rest s). rewrite mapping_line_buffer. cbn. lia.
Qed.

(** Reading what was printed in pieces is reading it whole: the lines of the
    buffer and the new bytes are handled in order, the rest is kept. *)
Lemma drain_spec data s :
  x0a ∉ rt_buffer s →
  drain data s = set_buffer (lines_from (rt_buffer s) data).2 (read_lines (lines_from (rt_buffer s) data).1 s).
Proof.
  intros Hb. unfold drain_virtioso_mux_mappings. rewrite drain_lines_spec by done.
  change (Router (rt_buffer s ++ data) _ _ _ _ _) with (set_buffer (rt_buffer s ++ data) s).
  cbn [rt_buffer set_buffer]. rewrite read_lines_buffer, lines_from_app.
  assert (∀ cur l, x0a ∉ l → lines_from cur l = ([], cur ++ l)) as Hnone.
  { clear. intros cur l. revert cur. induction l as [|b l IH]; intros cur Hl; cbn; [by rewrite app_nil_r|].
    apply not_elem_of_cons in Hl as [Hb Hl]. rewrite bool_decide_eq_false_2 by done.
    by rewrite IH, <-app_assoc. }
  rewrite Hnone by done. cbn [app]. by destruct (lines_from (rt_buffer s) data) as [ls r].
Qed.

(** The incomplete line has no line end. *)
Lemma lines_from_rest cur l : x0a ∉ cur → x0a ∉ (lines_from cur l).2.
Proof.
  revert cur. induction l as [|b l IH]; intros cur Hc; cbn [lines_from]; [done|].
  case_bool_decide as Hb.
  - specialize (IH [] (not_elem_of_nil _)). by destruct (lines_from [] l).
  - apply IH. rewrite elem_of_app, list_elem_of_singleton. intros [?|?]; congruence.
Qed.

Lemma drain_buffer data s : x0a ∉ rt_buffer s → x0a ∉ rt_buffer (drain data s).
Proof. intros Hb. rewrite drain_spec by done. by apply lines_from_rest. Qed.

Lemma drain_app a b s : x0a ∉ rt_buffer s → drain (a ++ b) s = drain b (drain a s).
Proof.
  intros Hb. rewrite (drain_spec b) by by apply drain_buffer. rewrite !drain_spec, lines_from_app by done.
  cbn [set_buffer rt_buffer]. destruct (lines_from (rt_buffer s) a) as [ls1 r1]. cbn [fst snd].
  destruct (lines_from r1 b) as [ls2 r2]. cbn [fst snd].
  rewrite read_lines_buffer. unfold read_lines. by rewrite foldl_app.
Qed.

(** *** Lines without a tab *)

Lemma after_prefix_suffix pre l l' : after_prefix pre l = Some l' → ∃ k, l = k ++ l'.
Proof.
  revert l. induction pre as [|b pre IH]; intros l; cbn; [intros [= ->]; by exists []|].
  destruct l as [|b' l]; [done|]. case_bool_decide; [|done]. intros [k ->]%IH. by exists (b' :: k).
Qed.

Lemma lstrip_suffix sps fuel l : ∃ k, l = k ++ lstrip_with sps fuel l.
Proof.
  revert l. induction fuel as [|fuel IH]; intros l; cbn [lstrip_with]; [by exists []|].
  destruct (drop_one sps l) as [l'|] eqn:Hd; [|by exists []].
  assert (∃ k, l = k ++ l') as [k ->].
  { clear IH. induction sps as [|sp sps IH]; [done|]. cbn in Hd.
    destruct (after_prefix sp l) as [l2|] eqn:Ha; [|by apply IH]. injection Hd as ->. by eapply after_prefix_suffix. }
  destruct (IH l') as [k' Hk']. exists (k ++ k'). by rewrite <-app_assoc, <-Hk'.
Qed.

Lemma py_strip_elem b l : b ∈ py_strip l → b ∈ l.
Proof.
  unfold py_strip, rstrip. set (m := lstrip l). intros Hb.
  assert (Hrev : ∀ l, b ∈ rev l ↔ b ∈ l) by (intros; rewrite !list_elem_of_In; symmetry; apply in_rev).
  assert (Hm : b ∈ m).
  { destruct (lstrip_suffix (map (@rev byte) py_spaces) (length m) (rev m)) as [k Hk].
    apply Hrev. rewrite Hk, elem_of_app. right. by apply Hrev. }
  destruct (lstrip_suffix py_spaces (length l) l) as [k Hk]. rewrite Hk, elem_of_app. by right.
Qed.

Lemma from_utf8_lossy_elem b l : b ∈ from_utf8_lossy l → b ∈ l ∨ b ∈ REPLACEMENT.
Proof.
  unfold from_utf8_lossy. generalize (length l). intros fuel. revert l.
  induction fuel as [|fuel IH]; intros [|c l]; cbn [lossy_loop];
    try (by intros ?%elem_of_nil).
  assert (Hstep : ∀ x, x ∈ (utf8_step c l).1 → x ∈ c :: l ∨ x ∈ REPLACEMENT).
  { intros x. unfold utf8_step. cbv zeta.
    assert (Hg : ∀ n, x ∈ c :: take n l → x ∈ c :: l ∨ x ∈ REPLACEMENT).
    { intros n [->|Hx]%elem_of_cons; left; [by left|right]. rewrite <-(take_drop n l). apply elem_of_app. by left. }
    repeat match goal with |- context [if ?q then _ else _] => destruct q end; cbn [fst]; (apply Hg || by right). }
  destruct (utf8_step c l) as [out n]. rewrite elem_of_app. intros [Hb|Hb]; [by apply Hstep|].
  destruct (IH _ Hb) as [Hin|]; [|by right]. left. right. rewrite <-(take_drop n l). apply elem_of_app. by right.
Qed.

Lemma split_at_elem sep l u v : split_at sep l = Some (u, v) → sep ∈ l.
Proof.
  revert u. induction l as [|b l IH]; intros u; [done|]. cbn. case_bool_decide as Hb; [subst; by left|].
  destruct (split_at sep l) as [[u' v']|]; [|done]. intros [= _ <-]. right. by apply (IH u').
Qed.

Lemma mapping_line_tabless line s :
  x09 ∉ line → mapping_line line s = Router (rt_buffer s) (rt_sessions s) (rt_ops s) (rt_stdout s ++ line) (rt_stderr s) (rt_input s).
Proof.
  intros Hl. unfold Router.mapping_line. destruct (split_at x09 _) as [[u v]|] eqn:Hs; [|done].
  exfalso. apply split_at_elem, py_strip_elem, from_utf8_lossy_elem in Hs as [?|Hr]; [done|].
  revert Hr. by apply (bool_decide_unpack _).
Qed.

(** Output without a tab teaches the router nothing. *)
Lemma drain_tabless data s :
  x0a ∉ rt_buffer s → x09 ∉ rt_buffer s ++ data →
  rt_sessions (drain data s) = rt_sessions s ∧ rt_ops (drain data s) = rt_ops s ∧ (x09 ∉ rt_buffer (drain data s)).
Proof.
  intros Hn Ht. rewrite drain_spec by done. cbn [set_buffer rt_sessions rt_ops rt_buffer].
  assert (Hall : ∀ l cur, x09 ∉ cur ++ l →
    Forall (λ line, x09 ∉ line) (lines_from cur l).1 ∧ x09 ∉ (lines_from cur l).2).
  { clear. induction l as [|b l IH]; intros cur Hc; cbn [lines_from]; [by rewrite app_nil_r in Hc|].
    rewrite (app_assoc cur [b] l : cur ++ b :: l = _) in Hc. case_bool_decide; [|by apply IH].
    rewrite not_elem_of_app in Hc. destruct Hc as [Hc Hl]. destruct (IH [] Hl) as [H1 H2].
    destruct (lines_from [] l) as [ls r]. split; [by constructor|done]. }
  destruct (Hall data (rt_buffer s) Ht) as [Hls Hr]. clear Hall Ht. split_and!; [..|done]; clear Hr.
  all: unfold read_lines; revert Hls; generalize (lines_from (rt_buffer s) data).1; intros ls Hls; clear Hn;
    revert s; induction Hls as [|line ls Hl _ IH]; intros s; cbn [foldl]; [done|];
    by rewrite IH, mapping_line_tabless.
Qed.

End Router.

(* ------------------------------------------------------------------ *)
(** ** Lemmas: what the host prints in Virtioso mode *)

Lemma no_tab (l : list byte) : bool_decide (x09 ∈ l) = false → x09 ∉ l.
Proof. by intros ?%bool_decide_eq_false. Qed.

Lemma json_escape_tabless p : x09 ∉ json_escape p.
Proof. apply no_tab. by destruct p; vm_compute. Qed.

Lemma write_json_string_tabless v : x09 ∉ write_json_string v.
Proof.
  unfold write_json_string. rewrite !not_elem_of_app, !list_elem_of_singleton. split_and!; try done.
  intros (l & (p & <- & _)%in_map_iff & Hl)%list_elem_of_In%in_concat.
  by apply list_elem_of_In, json_escape_tabless in Hl.
Qed.

Lemma fmt_u_tabless n : x09 ∉ fmt_u n.
Proof.
  pose proof (dec_digits_digits 20 n) as Hd. fold (fmt_u n) in Hd. intros Ht%list_elem_of_In.
  rewrite forallb_forall in Hd. by specialize (Hd _ Ht).
Qed.

Lemma session_record_tabless h dev v name : x09 ∉ session_record h dev v name.
Proof.
  unfold session_record. rewrite !not_elem_of_app.
  split_and!; try (apply write_json_string_tabless || apply fmt_u_tabless || (apply no_tab; vm_compute; reflexivity)).
  destruct (save_output_path (cfg h)); [|apply not_elem_of_nil]. rewrite !not_elem_of_app.
  split_and!; try (apply write_json_string_tabless || (apply no_tab; vm_compute; reflexivity)).
Qed.

(** In Virtioso mode, without UUCP locks, nothing printed has a tab. *)
Definition tabless (h : host) : Prop :=
  virtioso_mode_enabled (cfg h) = true ∧ disable_uucp_lock (cfg h) = true ∧ x09 ∉ stdout_of (trace h).

#[global] Instance tabless_table : table_blind tabless.
Proof. by constructor. Qed.

Lemma tabless_print E d h : x09 ∉ d → tabless h → tabless (set_trace ((RqStdout d, E (trace h) (RqStdout d)) :: trace h) h).
Proof. intros Hd (Hv & Hu & Ht). split_and!; [done..|]. cbn. by rewrite not_elem_of_app. Qed.

Lemma tabless_blind E : call_blind E silent tabless.
Proof. intros h rq Hc Ht. by destruct rq. Qed.

#[global] Instance tabless_quiet E : quiet E tabless.
Proof.
  constructor.
  - eapply blind_weaken; [|apply tabless_blind]. by intros [].
  - intros i name h Ht. pose proof Ht as (Hv & _).
    assert (Hget : ∀ A (l : list A) k, wp partial (arr_get l k) (λ _ h', h' = h) h).
    { intros A l k. by apply (preserves_arr_get (λ h', h' = h)). }
    unfold emit_pty_session_record. apply wp_bind, wp_get, wp_bind. eapply wp_mono; [apply Hget|].
    intros p h1 ->. rewrite Hv. cbn [negb]. apply wp_bind. eapply wp_mono; [apply Hget|].
    intros t h1 ->. apply wp_bind, wp_sys. intros r ->. apply wp_ret, tabless_print; [|done].
    apply session_record_tabless.
  - intros h Ht. unfold emit_virtioso_registry_record. apply wp_bind, wp_get.
    destruct (virtioso_registry_json h) as [json|]; [|by apply wp_ret].
    apply wp_bind, wp_sys. intros r ->. apply wp_ret, tabless_print; [|done].
    rewrite !not_elem_of_app. split_and!; try apply write_json_string_tabless;
      apply no_tab; vm_compute; reflexivity.
Qed.

(** Start-up: the mode and the option are kept, and nothing is printed before
    the PTYs are created. *)
Lemma tabless_cfg c h :
  virtioso_mode_enabled c = virtioso_mode_enabled (cfg h) → disable_uucp_lock c = disable_uucp_lock (cfg h) →
  tabless h → tabless (set_cfg c h).
Proof. intros Hv Hu (H1 & H2 & H3). split_and!; cbn; by congruence || done. Qed.

Lemma tabless_init_tags E : preserves tabless (init_virtioso_tags E).
Proof.
  intros h Ht. unfold init_virtioso_tags.
  assert (Hset : ∀ A (l : list A) k v (h1 : host), wp partial (arr_set l k v) (λ _ h', h' = h1) h1).
  { intros A l k v h1. by apply (preserves_arr_set (λ h', h' = h1)). }
  apply wp_bind, wp_alloc. intros r ->. set (h1 := set_trace _ h).
  assert (Ht1 : tabless h1) by by apply (tabless_blind E). clearbody h1. destruct (negb _).
  { apply wp_bind, wp_modify, wp_ret. exact Ht1. }
  apply wp_bind, wp_modify, wp_bind, wp_get.
  do 3 (apply wp_bind; eapply wp_mono; [apply Hset|]; intros ? ? ->).
  do 4 apply wp_bind, wp_modify. apply wp_ret, tabless_cfg; done.
Qed.

Lemma tabless_setup E name : preserves tabless (main_setup E name).
Proof.
  intros h Ht. unfold main_setup. apply wp_bind. eapply wp_mono with (Q := λ _, tabless).
  - unfold main_tags. apply wp_bind, wp_get. rewrite (proj1 Ht). apply wp_bind.
    eapply wp_mono; [by apply tabless_init_tags|]. intros e h1 Ht1. cbv beta in Ht1.
    destruct (negb _); [by apply wp_ret|]. destruct (_ =? _); [|by apply wp_ret]. cbv zeta.
    apply wp_bind, wp_get, wp_bind, wp_modify, wp_ret. by apply tabless_cfg.
  - intros e h1 Ht1. destruct (negb _); [by apply wp_ret|]. apply wp_bind.
    eapply wp_mono with (Q := λ _, tabless).
    + unfold main_counts. apply wp_bind, wp_get. rewrite (proj1 Ht1).
      apply wp_bind, wp_modify, wp_modify. by apply tabless_cfg.
    + intros u h2 Ht2. cbv beta in Ht2. revert h2 Ht2. pose proof (tabless_blind E).
      assert (Hp : preserves tabless (main_arrays E)) by (unfold main_arrays; preserve). exact Hp.
Qed.

Lemma tabless_open E fuel : preserves tabless (open_tty_device E fuel).
Proof.
  apply preserves_open_tty; [apply tabless_blind|]. intros h Ht. unfold uucp_acquire.
  apply wp_bind, wp_get. rewrite (proj1 (proj2 Ht)). by apply wp_ret.
Qed.

Lemma tabless_start E fuel o : preserves tabless (main_start E fuel o).
Proof.
  pose proof (tabless_setup E (opt_tag_name o)). pose proof (tabless_open E fuel).
  assert (Hl : preserves tabless (main_launch E o)) by (apply (thr_launch E tabless _ o); by intros h v).
  unfold main_start, main_open_tty. preserve.
Qed.

#[global] Instance tabless_uart : uart_blind tabless.
Proof. by constructor. Qed.

(** The whole program: whenever it waits for its threads or has returned. *)
Lemma tabless_main E fuel o sched : preserves tabless (main_run E fuel o sched).
Proof.
  pose proof (tabless_start E fuel o). pose proof (thr_turns E fuel tabless _ (tabless_blind E) (tabless_open E fuel)).
  pose proof (thr_close E tabless _). pose proof (tabless_blind E).
  assert (Hj : ∀ ths l, preserves tabless (main_join ths l)) by (intros ths; induction l; cbn [main_join]; preserve).
  assert (Hu : preserves tabless (uucp_unlock_tty_device E)) by (unfold uucp_unlock_tty_device; preserve).
  unfold main_run, main_err, main_end. preserve.
Qed.

(* ------------------------------------------------------------------ *)
(** ** Lemmas: the event loop *)

(** What came from a source. *)
Definition is_input (k : source) : bool := match k with MuxToProc | StdinIn => true | _ => false end.
Definition is_stderr (k : source) : bool := match k with VirtiosoMuxStderr => true | _ => false end.
Definition read_from (p : source → bool) (l : list (source * list byte)) : list byte :=
  concat ((λ e, if p e.1 then e.2 else []) <$> l).

Lemma lines_from_concat cur l : concat (lines_from cur l).1 ++ (lines_from cur l).2 = cur ++ l.
Proof.
  revert cur. induction l as [|b l IH]; intros cur; cbn [lines_from]; [by rewrite app_nil_r|].
  case_bool_decide.
  - specialize (IH []). destruct (lines_from [] l) as [ls r]. cbn [fst snd concat] in *.
    by rewrite <-!app_assoc, IH.
  - by rewrite IH, <-app_assoc.
Qed.

Section Events.
Context (runtime_dir logs_dir : list byte).

Lemma mapping_line_keeps line s :
  let s' := mapping_line runtime_dir logs_dir line s in
  rt_stdout s' = rt_stdout s ++ line ∧ rt_stderr s' = rt_stderr s ∧ rt_input s' = rt_input s.
Proof. unfold mapping_line. by repeat case_match. Qed.

Lemma read_lines_keeps ls s :
  let s' := read_lines runtime_dir logs_dir ls s in
  rt_stdout s' = rt_stdout s ++ concat ls ∧ rt_stderr s' = rt_stderr s ∧ rt_input s' = rt_input s.
Proof.
  cbv zeta. unfold read_lines. revert s. induction ls as [|l ls IH]; intros s; cbn [foldl concat]; [by rewrite app_nil_r|].
  destruct (IH (mapping_line runtime_dir logs_dir l s)) as (-> & -> & ->).
  destruct (mapping_line_keeps l s) as (-> & -> & ->). by rewrite <-app_assoc.
Qed.

(** What is read from the other sources does not touch the sessions. *)
Definition reads_alike (s s' : router) : Prop :=
  rt_buffer s = rt_buffer s' ∧ rt_sessions s = rt_sessions s' ∧ rt_ops s = rt_ops s' ∧ rt_stdout s = rt_stdout s'.

#[local] Instance reads_alike_equiv : Equivalence reads_alike.
Proof. unfold reads_alike. split; [by intros s|intros s t H; intuition congruence|intros s t u H H'; intuition congruence]. Qed.

Lemma mapping_line_alike line s s' :
  reads_alike s s' → reads_alike (mapping_line runtime_dir logs_dir line s) (mapping_line runtime_dir logs_dir line s').
Proof.
  intros (Hb & Hs & Ho & Hw). unfold mapping_line. repeat case_match; unfold record_dynamic_mux_session, reads_alike; cbn;
    by rewrite ?Hb, ?Hs, ?Ho, ?Hw.
Qed.

Lemma drain_alike data s s' :
  reads_alike s s' → x0a ∉ rt_buffer s →
  reads_alike (drain_virtioso_mux_mappings runtime_dir logs_dir data s)
    (drain_virtioso_mux_mappings runtime_dir logs_dir data s').
Proof.
  intros Ha Hn. pose proof Ha as (Hb & _). rewrite !drain_spec by (done || by rewrite <-Hb). rewrite <-Hb.
  assert (Hr : ∀ ls s s', reads_alike s s' →
    reads_alike (read_lines runtime_dir logs_dir ls s) (read_lines runtime_dir logs_dir ls s')).
  { clear. unfold read_lines. induction ls as [|l ls IH]; intros s s' Ha; [done|]. by apply IH, mapping_line_alike. }
  destruct (Hr (lines_from (rt_buffer s) data).1 _ _ Ha) as (_ & H1 & H2 & H3). by split_and!.
Qed.

(** The loop, source by source. *)
Lemma vcmux_events_spec l s :
  x0a ∉ rt_buffer s →
  let s' := vcmux_events runtime_dir logs_dir l s in
  reads_alike s' (drain_virtioso_mux_mappings runtime_dir logs_dir (host_output l) s) ∧
  rt_stderr s' = rt_stderr s ++ read_from is_stderr l ∧ rt_input s' = rt_input s ++ read_from is_input l.
Proof.
  cbv zeta. unfold vcmux_events. revert s. induction l as [|[k d] l IH]; intros s Hn; cbn [foldl].
  - rewrite drain_spec by done. cbn. rewrite !app_nil_r. by destruct s.
  - set (s1 := vcmux_event runtime_dir logs_dir (k, d).1 (k, d).2 s).
    assert (H1 : (x0a ∉ rt_buffer s1) ∧
      reads_alike s1 (drain_virtioso_mux_mappings runtime_dir logs_dir (host_output [(k, d)]) s) ∧
      rt_stderr s1 = rt_stderr s ++ read_from is_stderr [(k, d)] ∧ rt_input s1 = rt_input s ++ read_from is_input [(k, d)]).
    { assert (Hnil : drain_virtioso_mux_mappings runtime_dir logs_dir [] s = s) by (rewrite drain_spec by done; by destruct s).
      subst s1. unfold vcmux_event, host_output, read_from. destruct k; cbn; rewrite !app_nil_r; destruct d as [|b d];
        rewrite ?Hnil; try (split_and!; rewrite ?app_nil_r; (done || apply drain_buffer; done)).
      split; [by apply drain_buffer|]. split; [done|]. rewrite drain_spec by done. cbn [set_buffer rt_stderr rt_input].
      destruct (read_lines_keeps (lines_from (rt_buffer s) (b :: d)).1 s) as (_ & -> & ->). done. }
    destruct H1 as (Hn1 & Ha1 & He1 & Hi1). destruct (IH s1 Hn1) as (Ha & He & Hi).
    assert (Hout : ∀ (f : source * list byte → list byte),
      concat (f <$> (k, d) :: l) = concat (f <$> [(k, d)]) ++ concat (f <$> l)) by (intros f; cbn; by rewrite app_nil_r).
    unfold host_output, read_from in *. rewrite !Hout, drain_app, He, He1, Hi, Hi1, <-!app_assoc by done.
    split; [|done]. rewrite Ha. by apply drain_alike.
Qed.
End Events.

(* ------------------------------------------------------------------ *)
(** ** Properties *)

Lemma vcmux_end_stdout s : rt_stdout (vcmux_end s) = rt_stdout s ++ rt_buffer s.
Proof. unfold vcmux_end. destruct (rt_buffer s) eqn:Hb; cbn; by rewrite ?Hb, ?app_nil_r. Qed.

(** The options do not undo one another. *)
Lemma main_option_keeps o c arg o' :
  main_option o c arg = Done o' tt →
  (opt_virtioso o = true ∨ c = "A"%char → opt_virtioso o' = true) ∧
  (opt_no_lock o = true ∨ c = "L"%char → opt_no_lock o' = true).
Proof.
  destruct (decide (c = "A"%char)) as [->|HA]; [by intros [= <-]; split; intros [|]|].
  destruct (decide (c = "L"%char)) as [->|HL]; [by intros [= <-]; split; intros [|]|].
  intros Ho. assert (Hk : opt_virtioso o' = opt_virtioso o ∧ opt_no_lock o' = opt_no_lock o); [|naive_solver].
  revert Ho. unfold main_option. generalize (MAX_PATH <? Z.of_nat (length arg) + 1), (save_path arg),
    (bool_decide (arg = bs "raw")), (bool_decide (arg = bs "nvidia-tcu")). intros b p b1 b2.
  repeat (case_match; try done); intros Ho; injection Ho as <-; done.
Qed.

Lemma main_options_keep o l o' :
  main_options o l = Done o' tt →
  (opt_virtioso o = true ∨ "A"%char ∈ l.*1 → opt_virtioso o' = true) ∧
  (opt_no_lock o = true ∨ "L"%char ∈ l.*1 → opt_no_lock o' = true).
Proof.
  revert o. induction l as [|[c arg] l IH]; intros o; cbn [main_options].
  - intros [= <-]. by split; intros [|?%elem_of_nil].
  - destruct (main_option o c arg) as [o1 []|] eqn:H1; [|done]. intros [HV HL]%IH.
    apply main_option_keeps in H1 as [HV1 HL1]. cbn [fmap list_fmap fst]. rewrite !elem_of_cons. split; naive_solver.
Qed.

Lemma router_options outer dev logs raw o :
  main_options default_options (virtioso_mux_cmd outer dev logs raw) = Done o tt →
  opt_virtioso o = true ∧ opt_no_lock o = true.
Proof.
  intros [HV HL]%main_options_keep. split; [apply HV|apply HL]; right; apply (bool_decide_unpack _); reflexivity.
Qed.

(** A PTY announced in the legacy mode is recorded under its name. *)
Example legacy_record_is_read :
  rt_sessions (vcmux_events (bs "/run") (bs "/logs")
    [(VirtiosoMuxStdout, bs "/dev/pt"); (MuxToProc, [x09; x0a]); (VirtiosoMuxStdout, bs "s/7" ++ [x09] ++ bs "vm" ++ [x0a])]
    (vcmux_start (bs "/run"))) !! bs "vm" =
  Some (Session (bs "vm") true (bs "/logs/vm.txt") (bs "/dev/pts/7")).
Proof. vm_compute. reflexivity. Qed.

Lemma run_done {A} (m : HM A) h r h' : m h = Done r h' → run m h = h'.
Proof. unfold run. by intros ->. Qed.

(** The host as the router starts it, its output in two reads, and what comes
    from the other sources. *)
Definition demo_router_options : options :=
  match main_options default_options (virtioso_mux_cmd (bs "nvidia-tcu") (bs "/dev/pts/3") (bs "/logs") (bs "/run/raw.log")) with
  | Done o _ => o
  | Stop _ _ => default_options
  end.

Definition demo_printed : list byte :=
  stdout_of (trace (run (main_run good_env 1 demo_router_options [0%nat]) (host_boot demo_router_options))).

Definition demo_events : list (source * list byte) :=
  [(VirtiosoMuxStderr, bs "x"); (VirtiosoMuxStdout, take 40 demo_printed); (MuxToProc, bs "hi"); (VirtiosoMuxStdout, drop 40 demo_printed)].

(** C29: the router's loop.  However the sources' bytes are cut and interleaved:
    the command's input is offered what came from the UART and from standard
    input, in order; standard error what the host printed there; standard
    output, at the end, all of the host's output; and the sessions and the
    files are those of reading the host's output line by line.  But when that
    output is what a host prints that was started with the router's own command
    line, for every sequence of turns of its threads and whatever it receives,
    then no session is ever recorded: its announcements have no tab. *)
Theorem router_run runtime_dir logs_dir events :
  let s := vcmux_events runtime_dir logs_dir events (vcmux_start runtime_dir) in
  rt_input s = read_from is_input events ∧ rt_stderr s = read_from is_stderr events ∧
  rt_stdout (vcmux_end s) = host_output events ∧
  (let lines := read_lines runtime_dir logs_dir (lines_from [] (host_output events)).1 (vcmux_start runtime_dir) in
   rt_sessions s = rt_sessions lines ∧ rt_ops s = rt_ops lines) ∧
  ∀ E fuel outer uart_slave_path raw_log o sched r h,
    main_options default_options (virtioso_mux_cmd outer uart_slave_path logs_dir raw_log) = Done o tt →
    main_run E fuel o sched (host_boot o) = Done r h → host_output events `prefix_of` stdout_of (trace h) →
    rt_sessions s = ∅ ∧ rt_ops s = rt_ops (vcmux_start runtime_dir).
Proof.
  cbv zeta. assert (Hn : x0a ∉ rt_buffer (vcmux_start runtime_dir)) by apply not_elem_of_nil.
  destruct (vcmux_events_spec runtime_dir logs_dir events _ Hn) as ((Hb & Hs & Ho & Hw) & He & Hi).
  pose proof (drain_spec runtime_dir logs_dir (host_output events) _ Hn) as Hd.
  split_and!; [done|done| |by rewrite Hs, Hd|by rewrite Ho, Hd|].
  - rewrite vcmux_end_stdout, Hw, Hb, Hd. cbn [rt_stdout rt_buffer set_buffer].
    rewrite (proj1 (read_lines_keeps _ _ _ _)). cbn [vcmux_start rt_stdout rt_buffer app]. apply lines_from_concat.
  - intros E fuel outer dev raw o sched r h Hopt Hrun Hpre. rewrite Hs, Ho.
    assert (Ht : x09 ∉ stdout_of (trace h)).
    { pose proof (tabless_main E fuel o sched (host_boot o)) as Hm. unfold wp in Hm. rewrite Hrun in Hm.
      apply Hm. destruct (router_options _ _ _ _ _ Hopt) as [Hv Hl]. split_and!; [done|done|apply not_elem_of_nil]. }
    destruct Hpre as [k Hk]. rewrite Hk, not_elem_of_app in Ht. destruct Ht as [Ht _].
    destruct (drain_tabless runtime_dir logs_dir (host_output events) _ Hn Ht) as (-> & -> & _). done.
Qed.

Lemma demo_router_done : ∃ r h, main_run good_env 1 demo_router_options [0%nat] (host_boot demo_router_options) = Done r h.
Proof.
  assert (Hd : (match main_run good_env 1 demo_router_options [0%nat] (host_boot demo_router_options) with
                | Done _ _ => true | Stop _ _ => false end) = true) by (vm_compute; reflexivity).
  destruct (main_run _ _ _ _ _) as [r h|]; [by exists r, h|done].
Qed.

Lemma demo_events_output : host_output demo_events = demo_printed.
Proof. unfold host_output, demo_events. generalize demo_printed. intros d. cbn [fmap list_fmap fst snd concat app]. by rewrite app_nil_r, take_drop. Qed.

Lemma router_run_witness :
  let s := vcmux_events (bs "/run") (bs "/logs") demo_events (vcmux_start (bs "/run")) in
  rt_input s = bs "hi" ∧ (40 <? Z.of_nat (length (rt_stdout s))) = true ∧ rt_sessions s = ∅.
Proof.
  cbv zeta. pose proof (router_run (bs "/run") (bs "/logs") demo_events) as Hs. cbv zeta in Hs.
  destruct Hs as (Hi & _ & _ & _ & Hs).
  split; [exact Hi|]. split; [vm_compute; reflexivity|].
  destruct demo_router_done as (r & h & Hrun).
  apply (Hs good_env 1%nat (bs "nvidia-tcu") (bs "/dev/pts/3") (bs "/run/raw.log") demo_router_options [0%nat] r h).
  - vm_compute. reflexivity.
  - exact Hrun.
  - rewrite demo_events_output. unfold demo_printed. rewrite (run_done _ _ _ _ Hrun).
    exists []. symmetry. apply app_nil_r.
Defined.
