(* ===== verification/Stdio.v ===== *)
(** * The console router around one process

    [host/console_router.py]: manifests ([load_manifest]) and the
    [process_stdio] mode of [run_command], which copies a command's output to
    the terminal, a raw log, an event log and a PTY, and what is typed to the
    command.  A Python string is the list of its code points, all below 256;
    [json.loads] gives the value of a manifest. *)

From S2P Require Import Prelude CString Generator Regex Router.

(* ------------------------------------------------------------------ *)
(** ** Manifests *)

(** What [json.loads] returns; the keys of a dictionary are distinct. *)
#[local] Unset Elimination Schemes.
Inductive value : Type :=
| VNull
| VBool (b : bool)
| VInt (z : Z)
| VFloat (text : list byte)
| VStr (s : list byte)
| VList (l : list value)
| VDict (l : list (list byte * value)).
#[local] Set Elimination Schemes.

Inductive router_error : Type :=
| NotAnObject                                     (** the root, the transport or a channel *)
| NotAString (field : list byte)
| NotAnInteger (field : list byte)
| NotABoolean (field : list byte)
| NotAList
| BadVersion
| DuplicateId (id : Z)
| DuplicateName (name : list byte)
| BadTransport
| NotOneChannel.

Definition result (A : Type) : Type := A + router_error.
Definition rbind {A B} (m : result A) (f : A → result B) : result B :=
  match m with inl a => f a | inr e => inr e end.
Local Notation "'let?' x := m 'in' k" := (rbind m (λ x, k)) (at level 10, x name, m at level 100, k at level 200).

(** [data.get(key)]. *)
Fixpoint get_key (key : list byte) (l : list (list byte * value)) : option value :=
  match l with
  | [] => None
  | (k, v) :: l' => if bool_decide (k = key) then Some v else get_key key l'
  end.

(** The value of an [int]; [True] and [False] are of that type, too. *)
Definition int_of (v : value) : option Z :=
  match v with VInt z => Some z | VBool b => Some (if b then 1 else 0) | _ => None end.

Definition require_str (l : list (list byte * value)) (key : list byte) : result (list byte) :=
  match get_key key l with
  | Some (VStr s) => if forallb is_space s then inr (NotAString key) else inl s
  | _ => inr (NotAString key)
  end.
Definition require_int (l : list (list byte * value)) (key : list byte) : result (value * Z) :=
  match get_key key l with
  | Some v => match int_of v with Some z => inl (v, z) | None => inr (NotAnInteger key) end
  | None => inr (NotAnInteger key)
  end.
Definition require_bool (l : list (list byte * value)) (key : list byte) : result bool :=
  match get_key key l with Some (VBool b) => inl b | _ => inr (NotABoolean key) end.

Record channel : Type := Channel {
  ch_id : value; ch_name : list byte; ch_kind : list byte; ch_interactive : bool; ch_pty : bool;
  ch_extras : list (list byte * value)
}.
Record manifest : Type := Manifest {
  mf_version : value; mf_run_id : list byte; mf_target : list byte; mf_binary_name : list byte;
  mf_transport : list (list byte * value); mf_channels : list channel
}.

Definition channel_keys : list (list byte) := [bs "id"; bs "name"; bs "kind"; bs "interactive"; bs "pty"].

(** The loop of [load_manifest] over the channels. *)
Fixpoint load_channels (l : list value) (seen_ids : list Z) (seen_names : list (list byte)) : result (list channel) :=
  match l with
  | [] => inl []
  | VDict entry :: l' =>
      let? id := require_int entry (bs "id") in
      let? name := require_str entry (bs "name") in
      let? kind := require_str entry (bs "kind") in
      let? interactive := require_bool entry (bs "interactive") in
      let? pty_enabled := require_bool entry (bs "pty") in
      if bool_decide (id.2 ∈ seen_ids) then inr (DuplicateId id.2)
      else if bool_decide (name ∈ seen_names) then inr (DuplicateName name)
      else
        let extras := filter (λ kv, kv.1 ∉ channel_keys) entry in
        let? channels := load_channels l' (id.2 :: seen_ids) (name :: seen_names) in
        inl (Channel id.1 name kind interactive pty_enabled extras :: channels)
  | _ :: _ => inr NotAnObject
  end.

Definition load_manifest (v : value) : result manifest :=
  match v with
  | VDict data =>
      let? version := require_int data (bs "version") in
      if negb (version.2 =? 1) then inr BadVersion
      else
        match get_key (bs "transport") data with
        | Some (VDict transport) =>
            match get_key (bs "channels") data with
            | Some (VList (entry :: raw_channels)) =>
                let? channels := load_channels (entry :: raw_channels) [] [] in
                let? run_id := require_str data (bs "run_id") in
                let? target := require_str data (bs "target") in
                let? binary_name := require_str data (bs "binary_name") in
                inl (Manifest version.1 run_id target binary_name transport channels)
            | _ => inr NotAList
            end
        | _ => inr NotAnObject
        end
  | _ => inr NotAnObject
  end.

(** [{..., **extras}]: a key that is there keeps its place. *)
Fixpoint dict_set (k : list byte) (v : value) (l : list (list byte * value)) : list (list byte * value) :=
  match l with
  | [] => [(k, v)]
  | (k', v') :: l' => if bool_decide (k' = k) then (k, v) :: l' else (k', v') :: dict_set k v l'
  end.
Definition dict_update (l extras : list (list byte * value)) : list (list byte * value) :=
  foldl (λ l kv, dict_set kv.1 kv.2 l) l extras.

Definition runtime_path (name file : list byte) : list byte := bs "channels/" ++ name ++ file.

(** [_runtime_manifest_payload]. *)
Definition channel_payload (c : channel) : value :=
  VDict (dict_update
    [(bs "id", ch_id c); (bs "name", VStr (ch_name c)); (bs "kind", VStr (ch_kind c));
     (bs "interactive", VBool (ch_interactive c)); (bs "pty", VBool (ch_pty c));
     (bs "runtime_dir", VStr (runtime_path (ch_name c) []));
     (bs "raw_log", VStr (runtime_path (ch_name c) (bs "/raw.log")));
     (bs "events_log", VStr (runtime_path (ch_name c) (bs "/events.jsonl")));
     (bs "pty_link", if ch_pty c then VStr (runtime_path (ch_name c) (bs "/pty")) else VNull)]
    (ch_extras c)).
Definition runtime_manifest_payload (m : manifest) : value :=
  VDict
    [(bs "version", mf_version m); (bs "run_id", VStr (mf_run_id m)); (bs "target", VStr (mf_target m));
     (bs "binary_name", VStr (mf_binary_name m)); (bs "transport", VDict (mf_transport m));
     (bs "channels", VList (channel_payload <$> mf_channels m))].

(* ------------------------------------------------------------------ *)
(** ** The recordings of a channel *)

(** [base64.b64encode]. *)
Definition b64_char (n : Z) : byte :=
  z2b (if n <? 26 then 65 + n else if n <? 52 then 71 + n else if n <? 62 then n - 4
       else if n =? 62 then 43 else 47).
Fixpoint b64encode (l : list byte) : list byte :=
  match l with
  | a :: b :: c :: l' =>
      let n := b2z a * 65536 + b2z b * 256 + b2z c in
      b64_char (n / 262144) :: b64_char (n / 4096 mod 64) :: b64_char (n / 64 mod 64) :: b64_char (n mod 64) :: b64encode l'
  | [a; b] =>
      let n := b2z a * 65536 + b2z b * 256 in
      [b64_char (n / 262144); b64_char (n / 4096 mod 64); b64_char (n / 64 mod 64); x3d]
  | [a] =>
      let n := b2z a * 65536 in
      [b64_char (n / 262144); b64_char (n / 4096 mod 64); x3d; x3d]
  | [] => []
  end.

Record event : Type := Event {
  ev_source : list byte; ev_dir : list byte; ev_seq : Z; ev_monotonic : Z; ev_realtime : Z;
  ev_payload : list byte; ev_len : Z
}.

(** [json.dumps(event) + "\n"]. *)
Definition jobject (fields : list (list byte * list chunk)) : list chunk :=
  CRaw (bs "{") :: comma_sep (map (λ kv, CStr kv.1 :: CRaw (bs ": ") :: kv.2) fields) ++ [CRaw (bs "}")].
Definition event_json (e : event) : list byte :=
  text (jobject
    [(bs "source", jstr (ev_source e)); (bs "dir", jstr (ev_dir e)); (bs "seq", jint (ev_seq e));
     (bs "clock_monotonic_ns", jint (ev_monotonic e)); (bs "clock_realtime_ns", jint (ev_realtime e));
     (bs "payload_b64", jstr (ev_payload e)); (bs "payload_len", jint (ev_len e))]).

(* ------------------------------------------------------------------ *)
(** ** The loop of [run_command] *)

Inductive source : Type := ProcOut | PtyIn | StdinIn.
#[global] Instance source_eq_dec : EqDecision source.
Proof. solve_decision. Defined.

Inductive errno : Type := EIO | EBADF | EAGAIN | OtherError.

(** What [os.read] gives: data, nothing at the end, or an error. *)
Inductive reading : Type := Data (d : list byte) | Failed (e : errno).

(** What [os.write] does to the data it is given: it writes the first [n]
    bytes and returns [n], or raises an [OSError].  The command's input is
    non-blocking, the standard output is where it shares the terminal with the
    standard input: both may take less than they are given, or nothing. *)
Inductive writing : Type := Wrote (n : nat) | WriteFailed (e : errno).
Definition written (w : writing) (data : list byte) : list byte :=
  match w with Wrote n => take n data | WriteFailed _ => [] end.

(** Where [os.write] goes: the standard output, the PTY's master, the command. *)
Inductive dest : Type := Terminal | PtyMaster | CommandInput.

(** What is done to the file system before the loop, newest last. *)
Inductive fsop : Type :=
| MakeDir (path : list byte)
| WriteJson (path : list byte) (v : value)
| Touch (path : list byte)
| LinkPty (path : list byte).                      (** to the slave's name *)

Record stdio : Type := Stdio {
  so_ops : list fsop;
  so_stdout : list byte;                           (** written to [sys.stdout] *)
  so_child : list byte;                            (** written to the command's stdin *)
  so_raw : list byte;                              (** [raw.log] *)
  so_events : list byte;                           (** [events.jsonl] *)
  so_seq : Z;
  so_pty : list byte;                              (** written to the PTY's master *)
  so_registered : list source
}.

Inductive run : Type :=
| Running (s : stdio)
| Returned (code : Z) (s : stdio)
| Raised (e : errno) (s : stdio).

Section Loop.
(** The channel; the two clocks when the event of a number is recorded; what
    [os.write] does when the chunk of a number goes to a destination. *)
Context (c : channel) (clock : Z → Z * Z) (writes : dest → Z → list byte → writing).

(** [emit_event]. *)
Definition emit_event (direction data : list byte) (s : stdio) : stdio :=
  let seq := so_seq s + 1 in
  let e := Event (ch_name c) direction seq (clock seq).1 (clock seq).2 (b64encode data) (Z.of_nat (length data)) in
  Stdio (so_ops s) (so_stdout s) (so_child s) (so_raw s) (so_events s ++ event_json e ++ [x0a]) seq (so_pty s) (so_registered s).

(** [append_raw], to a file that takes everything. *)
Definition append_raw (data : list byte) (s : stdio) : stdio :=
  Stdio (so_ops s) (so_stdout s) (so_child s) (so_raw s ++ data) (so_events s) (so_seq s) (so_pty s) (so_registered s).
(** Its [OSError] is caught, its result ignored: what was not written is lost. *)
Definition forward_to_pty (data : list byte) (s : stdio) : stdio :=
  if ch_pty c
  then
    let out := written (writes PtyMaster (so_seq s) data) data in
    Stdio (so_ops s) (so_stdout s) (so_child s) (so_raw s) (so_events s) (so_seq s) (so_pty s ++ out) (so_registered s)
  else s.

(** The result is ignored, an [OSError] ends the loop; the chunk's number is
    the next one. *)
Definition write_stdout (data : list byte) (s : stdio) : run :=
  let w := writes Terminal (so_seq s + 1) data in
  match w with
  | Wrote _ =>
      Running (Stdio (so_ops s) (so_stdout s ++ written w data) (so_child s) (so_raw s) (so_events s) (so_seq s) (so_pty s)
        (so_registered s))
  | WriteFailed e => Raised e s
  end.

(** [_write_proc_input]; the pipe is there and the data not empty. *)
Definition write_proc_input (data : list byte) (s : stdio) : stdio :=
  let out := written (writes CommandInput (so_seq s) data) data in
  Stdio (so_ops s) (so_stdout s) (so_child s ++ out) (so_raw s) (so_events s) (so_seq s) (so_pty s) (so_registered s).
Definition unregister (k : source) (s : stdio) : stdio :=
  Stdio (so_ops s) (so_stdout s) (so_child s) (so_raw s) (so_events s) (so_seq s) (so_pty s)
    (filter (λ k', k' ≠ k) (so_registered s)).

(** Output of the command, in the loop and after its end. *)
Definition proc_output (data : list byte) (s : stdio) : run :=
  match write_stdout data s with
  | Running s => Running (forward_to_pty data (emit_event (bs "rx") data (append_raw data s)))
  | other => other
  end.
Definition proc_input (data : list byte) (s : stdio) : stdio :=
  write_proc_input data (emit_event (bs "tx") data s).

(** The body of the loop over the events: what a ready source gives. *)
Definition stdio_event (k : source) (r : reading) (s : stdio) : run :=
  match k, r with
  | ProcOut, Data [] | ProcOut, Failed EIO => Running (unregister ProcOut s)
  | ProcOut, Data data => proc_output data s
  | ProcOut, Failed e => Raised e s
  | _, Data [] | _, Failed EIO | _, Failed EBADF => Running (unregister k s)
  | _, Data data => Running (proc_input data s)
  | _, Failed e => Raised e s
  end.

(** Only registered sources are ready. *)
Fixpoint stdio_events (l : list (source * reading)) (s : stdio) : run :=
  match l with
  | [] => Running s
  | (k, r) :: l' =>
      if bool_decide (k ∈ so_registered s) then
        match stdio_event k r s with Running s' => stdio_events l' s' | other => other end
      else stdio_events l' s
  end.

(** The reads after the command has ended: up to one that gives nothing. *)
Fixpoint trailing (l : list reading) : list byte :=
  match l with
  | Data (b :: d) :: l' => (b :: d) ++ trailing l'
  | _ => []
  end.

(** A turn: the events, then [proc.poll()]; with an exit code, the rest of the
    output. *)
Definition stdio_turn (events : list (source * reading)) (polled : option Z) (rest : list reading) (s : stdio) : run :=
  match stdio_events events s with
  | Running s =>
      match polled with
      | None => Running s
      | Some code =>
          match trailing rest with
          | [] => Returned code s
          | data => match proc_output data s with Running s => Returned code s | other => other end
          end
      end
  | other => other
  end.

Fixpoint stdio_loop (turns : list (list (source * reading) * option Z * list reading)) (s : stdio) : run :=
  match turns with
  | [] => Running s
  | (events, polled, rest) :: turns' =>
      match stdio_turn events polled rest s with Running s' => stdio_loop turns' s' | other => other end
  end.
End Loop.

(* ------------------------------------------------------------------ *)
(** ** The commands *)

Section Commands.
(** The directory; the names of the PTYs' slaves, by channel. *)
Context (runtime_dir : list byte) (ttyname : list byte → list byte).

Definition channel_root (c : channel) : list byte := path_join (path_join runtime_dir (bs "channels")) (ch_name c).

(** [ChannelRuntime.prepare]. *)
Definition prepare (c : channel) : list fsop :=
  let root := channel_root c in
  [MakeDir root;
   WriteJson (path_join root (bs "channel.json"))
     (VDict (dict_update
       [(bs "id", ch_id c); (bs "name", VStr (ch_name c)); (bs "kind", VStr (ch_kind c));
        (bs "interactive", VBool (ch_interactive c)); (bs "pty", VBool (ch_pty c));
        (bs "raw_log", VStr (bs "raw.log")); (bs "events_log", VStr (bs "events.jsonl"))]
       (ch_extras c)));
   Touch (path_join root (bs "raw.log")); Touch (path_join root (bs "events.jsonl"))] ++
  (if ch_pty c then [LinkPty (path_join root (bs "pty"))] else []).

Definition session_payload (c : channel) : value :=
  VDict
    [(bs "session_id", VStr (ch_name c)); (bs "name", VStr (ch_name c)); (bs "kind", VStr (ch_kind c));
     (bs "interactive", VBool (ch_interactive c));
     (bs "log_path", VStr (path_join (channel_root c) (bs "raw.log")));
     (bs "events_path", VStr (path_join (channel_root c) (bs "events.jsonl")));
     (bs "pty_path", if ch_pty c then VStr (ttyname (ch_name c)) else VNull)].

(** [_prepare_channel_runtimes], with [_channel_runtimes] and
    [_write_sessions_manifest]. *)
Definition prepare_channel_runtimes (m : manifest) : list fsop :=
  [MakeDir runtime_dir;
   WriteJson (path_join runtime_dir (bs "runtime-manifest.json")) (runtime_manifest_payload m);
   MakeDir (path_join runtime_dir (bs "channels"))] ++
  concat (prepare <$> mf_channels m) ++
  [WriteJson (path_join runtime_dir (bs "sessions.json"))
     (VDict [(bs "version", VInt 1); (bs "sessions", VList (session_payload <$> mf_channels m))])].

Definition describe_manifest (v : value) : result value :=
  let? m := load_manifest v in inl (runtime_manifest_payload m).
Definition prepare_runtime (v : value) : result (list fsop) :=
  let? m := load_manifest v in inl (prepare_channel_runtimes m).

(** What the logs hold already; whether the terminal can be registered. *)
Context (clock : Z → Z * Z) (writes : dest → Z → list byte → writing) (raw events : list byte) (stdin_ok : bool).

Definition stdio_start (m : manifest) (c : channel) : stdio :=
  Stdio (prepare_channel_runtimes m) [] [] raw events 0 []
    (ProcOut :: (if ch_pty c then [PtyIn] else []) ++ (if stdin_ok then [StdinIn] else [])).

Inductive started : Type :=
| Vcmux (m : manifest)                            (** [Router] *)
| Process (r : run).

Definition run_command (v : value) (turns : list (list (source * reading) * option Z * list reading)) : result started :=
  let? m := load_manifest v in
  match get_key (bs "type") (mf_transport m) with
  | Some (VStr type) =>
      if bool_decide (type = bs "virtioso_vcmux") then inl (Vcmux m)
      else if negb (bool_decide (type = bs "process_stdio")) then inr BadTransport
      else
        match mf_channels m with
        | [c] => inl (Process (stdio_loop c clock writes turns (stdio_start m c)))
        | _ => inr NotOneChannel
        end
  | _ => inr BadTransport
  end.
End Commands.
