(* ===== verification/StdioSpec.v ===== *)
(** * The console router around one process: what it records

    Everything read from the command and from the terminals is recorded once,
    in order, up to a write to the standard output that fails; what was not
    taken by the other end is lost there.  What a manifest must be, and that
    the description of a manifest is one. *)

From S2P Require Import Prelude CString Generator RegistryText Regex GenTextSpec GenC Router Stdio.

(* ------------------------------------------------------------------ *)
(** ** Base64 *)

(** The value of a character; the bytes of four. *)
Definition b64_val (c : byte) : option Z :=
  let z := b2z c in
  if (65 <=? z) && (z <=? 90) then Some (z - 65)
  else if (97 <=? z) && (z <=? 122) then Some (z - 71)
  else if (48 <=? z) && (z <=? 57) then Some (z + 4)
  else if z =? 43 then Some 62 else if z =? 47 then Some 63 else None.

Fixpoint b64decode (l : list byte) : option (list byte) :=
  match l with
  | [] => Some []
  | p :: q :: r :: t :: l' =>
      v1 ← b64_val p; v2 ← b64_val q;
      let first := z2b (v1 * 4 + v2 / 16) in
      if bool_decide (r = x3d) then (if bool_decide (t = x3d ∧ l' = []) then Some [first] else None)
      else
        v3 ← b64_val r;
        let second := z2b (v2 mod 16 * 16 + v3 / 4) in
        if bool_decide (t = x3d) then (if bool_decide (l' = []) then Some [first; second] else None)
        else v4 ← b64_val t; rest ← b64decode l'; Some (first :: second :: z2b (v3 mod 4 * 64 + v4) :: rest)
  | _ => None
  end.

Lemma b64_val_char n : 0 ≤ n < 64 → b64_val (b64_char n) = Some n ∧ b64_char n ≠ x3d.
Proof.
  intros Hn. replace n with (Z.of_nat (Z.to_nat n)) by lia. assert (Hi : Z.to_nat n ∈ seq 0 64) by (apply elem_of_seq; lia).
  revert Hi. generalize (Z.to_nat n). apply Forall_forall. repeat (constructor; [vm_compute; split; [reflexivity|discriminate]|]). constructor.
Qed.

Lemma b64_step (a b c : byte) :
  let n := b2z a * 65536 + b2z b * 256 + b2z c in
  (0 ≤ n / 262144 < 64) ∧ n / 262144 * 4 + n / 4096 mod 64 / 16 = b2z a ∧
  n / 4096 mod 64 mod 16 * 16 + n / 64 mod 64 / 4 = b2z b ∧ n / 64 mod 64 mod 4 * 64 + n mod 64 = b2z c.
Proof.
  intros n. pose proof (b2z_range a). pose proof (b2z_range b). pose proof (b2z_range c). unfold n. clear n.
  split_and!; Z.to_euclidean_division_equations; lia.
Qed.

Lemma three_ind (P : list byte → Prop) :
  P [] → (∀ a, P [a]) → (∀ a b, P [a; b]) → (∀ a b c l, P l → P (a :: b :: c :: l)) → ∀ l, P l.
Proof.
  intros H0 H1 H2 H3 l. induction l as [l IH] using (induction_ltof1 _ length). unfold ltof in IH.
  destruct l as [|a [|b [|c l]]]; [done..|]. apply H3, IH. cbn. lia.
Qed.

Lemma b64_round_trip l : b64decode (b64encode l) = Some l.
Proof.
  induction l as [|a|a b|a b c l IH] using three_ind; [done|..]; cbn [b64encode].
  - destruct (b64_step a x00 x00) as (H1 & Ha & _ & _). change (b2z x00) with 0 in *.
    rewrite Z.mul_0_l, !Z.add_0_r in *. set (n := b2z a * 65536) in *.
    destruct (b64_val_char (n / 262144)) as [E1 _]; [done|].
    destruct (b64_val_char (n / 4096 mod 64)) as [E2 _]; [by apply Z.mod_pos_bound|].
    cbn [b64decode]. rewrite E1, E2. cbn [mbind option_bind].
    rewrite !bool_decide_eq_true_2 by done. by rewrite Ha, z2b_b2z.
  - destruct (b64_step a b x00) as (H1 & Ha & Hb & _). change (b2z x00) with 0 in *.
    rewrite !Z.add_0_r in *. set (n := b2z a * 65536 + b2z b * 256) in *.
    destruct (b64_val_char (n / 262144)) as [E1 _]; [done|].
    destruct (b64_val_char (n / 4096 mod 64)) as [E2 _]; [by apply Z.mod_pos_bound|].
    destruct (b64_val_char (n / 64 mod 64)) as [E3 N3]; [by apply Z.mod_pos_bound|].
    cbn [b64decode]. rewrite E1, E2. cbn [mbind option_bind]. rewrite (bool_decide_eq_false_2 _ N3), E3.
    cbn [mbind option_bind]. rewrite !bool_decide_eq_true_2 by done. by rewrite Ha, Hb, !z2b_b2z.
  - destruct (b64_step a b c) as (H1 & Ha & Hb & Hc). set (n := b2z a * 65536 + b2z b * 256 + b2z c) in *.
    destruct (b64_val_char (n / 262144)) as [E1 _]; [done|].
    destruct (b64_val_char (n / 4096 mod 64)) as [E2 _]; [by apply Z.mod_pos_bound|].
    destruct (b64_val_char (n / 64 mod 64)) as [E3 N3]; [by apply Z.mod_pos_bound|].
    destruct (b64_val_char (n mod 64)) as [E4 N4]; [by apply Z.mod_pos_bound|].
    cbn [b64decode]. rewrite E1, E2. cbn [mbind option_bind]. rewrite (bool_decide_eq_false_2 _ N3), E3.
    cbn [mbind option_bind]. rewrite (bool_decide_eq_false_2 _ N4), E4. cbn [mbind option_bind]. rewrite IH.
    cbn [mbind option_bind]. by rewrite Ha, Hb, Hc, !z2b_b2z.
Qed.

(* ------------------------------------------------------------------ *)
(** ** What was read *)

(** Data from the command ([true]) or for it ([false]). *)
Definition chunk_of (e : source * reading) : list (bool * list byte) :=
  match e.2 with Data (b :: d) => [(bool_decide (e.1 = ProcOut), b :: d)] | _ => [] end.
Definition chunks (l : list (source * reading)) : list (bool * list byte) := concat (chunk_of <$> l).
Definition side (b : bool) (h : list (bool * list byte)) : list byte :=
  concat (snd <$> filter (λ x, x.1 = b) h).

(** A source is not ready any more after its end. *)
Definition ended (e : source * reading) : bool :=
  match e.2 with
  | Data [] | Failed EIO => true
  | Failed EBADF => negb (bool_decide (e.1 = ProcOut))
  | _ => false
  end.
Definition left_after (regs : list source) (e : source * reading) : list source :=
  if ended e then filter (λ k, k ≠ e.1) regs else regs.
Fixpoint live (regs : list source) (l : list (source * reading)) : bool :=
  match l with
  | [] => true
  | e :: l' => bool_decide (e.1 ∈ regs) && live (left_after regs e) l'
  end.

Lemma live_app regs l l' : live regs (l ++ l') = live regs l && live (foldl left_after regs l) l'.
Proof. revert regs. induction l as [|e l IH]; intros regs; cbn; [done|]. by rewrite IH, andb_assoc. Qed.

Lemma chunks_app l l' : chunks (l ++ l') = chunks l ++ chunks l'.
Proof. unfold chunks. by rewrite fmap_app, concat_app. Qed.

Lemma side_app b h h' : side b (h ++ h') = side b h ++ side b h'.
Proof. unfold side. by rewrite filter_app, fmap_app, concat_app. Qed.

Lemma side_one b b' d : side b [(b', d)] = if bool_decide (b' = b) then d else [].
Proof.
  unfold side. rewrite filter_cons, filter_nil. case_decide as Hb; cbn in Hb; [|by rewrite bool_decide_eq_false_2].
  rewrite bool_decide_eq_true_2 by done. apply app_nil_r.
Qed.

(* ------------------------------------------------------------------ *)
(** ** What is recorded *)

(** The event [e] is of the [i]th chunk. *)
Definition event_of (c : channel) (i : nat) (e : event) (x : bool * list byte) : Prop :=
  ev_source e = ch_name c ∧ ev_dir e = (if x.1 then bs "rx" else bs "tx") ∧ ev_seq e = Z.of_nat i + 1 ∧
  b64decode (ev_payload e) = Some x.2 ∧ ev_len e = Z.of_nat (length x.2).

Definition lines (evs : list event) : list byte := concat ((λ e, event_json e ++ [x0a]) <$> evs).

(** What a destination took of the chunks of one side: of each what [os.write]
    wrote when it was given the chunk of that number. *)
Definition got (writes : dest → Z → list byte → writing) (to : dest) (b : bool) (h : list (bool * list byte))
    : list byte :=
  concat (imap (λ i x, if bool_decide (x.1 = b) then written (writes to (Z.of_nat i + 1) x.2) x.2 else []) h).

(** A destination that takes everything. *)
Definition takes_all (writes : dest → Z → list byte → writing) (to : dest) : Prop :=
  ∀ k d, writes to k d = Wrote (length d).

(** After the chunks [h]: the raw log has all that came from the command, the
    event log all of both sides; the terminal and the PTY have what they took
    of the command's output, the command what it took of what was typed, all
    of it where they take everything; no write to the terminal has failed. *)
Record records (c : channel) (writes : dest → Z → list byte → writing) (raw events : list byte)
    (h : list (bool * list byte)) (s : stdio) : Prop := Records {
  rc_stdout : so_stdout s = got writes Terminal true h;
  rc_raw : so_raw s = raw ++ side true h;
  rc_pty : so_pty s = if ch_pty c then got writes PtyMaster true h else [];
  rc_child : so_child s = got writes CommandInput false h;
  rc_whole :
    (takes_all writes Terminal → so_stdout s = side true h) ∧
    (takes_all writes PtyMaster → ch_pty c = true → so_pty s = side true h) ∧
    (takes_all writes CommandInput → so_child s = side false h);
  rc_alive : ∀ (i : nat) d, h !! i = Some (true, d) → ∃ n, writes Terminal (Z.of_nat i + 1) d = Wrote n;
  rc_events : ∃ evs, so_events s = events ++ lines evs ∧ Forall (λ e, x0a ∉ event_json e) evs ∧
    length evs = length h ∧ ∀ (i : nat) e x, evs !! i = Some e → h !! i = Some x → event_of c i e x;
  rc_seq : so_seq s = Z.of_nat (length h)
}.

Lemma ascii_field k v : ascii_chunks v = true → ascii_chunks (CStr k :: CRaw (bs ": ") :: v) = true.
Proof. done. Qed.

Lemma ascii_jobject fields : Forall (λ kv, ascii_chunks kv.2 = true) fields → ascii_chunks (jobject fields) = true.
Proof.
  intros Hf. change (ascii_chunks (comma_sep (map (λ kv, CStr kv.1 :: CRaw (bs ": ") :: kv.2) fields) ++ [CRaw (bs "}")]) = true).
  rewrite ascii_chunks_app, ascii_comma_sep; [done|]. apply Forall_fmap. eapply Forall_impl; [exact Hf|].
  intros kv. apply ascii_field.
Qed.

Lemma event_one_line e : x0a ∉ event_json e.
Proof.
  assert (Ha : ascii (event_json e) = true).
  { apply text_ascii, ascii_jobject. repeat (apply Forall_cons; split); try apply Forall_nil_2;
      first [apply ascii_jstr|apply ascii_jint]. }
  unfold ascii in Ha. rewrite forallb_forall in Ha. intros Hin%list_elem_of_In%Ha. done.
Qed.

Section Records.
Context (c : channel) (clock : Z → Z * Z) (writes : dest → Z → list byte → writing) (raw events : list byte).
Local Abbreviation records := (records c writes raw events).
Local Abbreviation got := (got writes).

Lemma got_snoc to b h b' d :
  got to b (h ++ [(b', d)]) =
  got to b h ++ if bool_decide (b' = b) then written (writes to (Z.of_nat (length h) + 1) d) d else [].
Proof.
  unfold got. rewrite imap_app, concat_app. cbn. by rewrite Nat.add_0_r, app_nil_r.
Qed.

Lemma got_all to b h : takes_all writes to → got to b h = side b h.
Proof.
  intros Ht. induction h as [|[b' d] h IH] using rev_ind; [done|].
  rewrite got_snoc, side_app, side_one, IH, Ht. cbn [written]. by rewrite firstn_all.
Qed.


Lemma lines_snoc evs e : lines (evs ++ [e]) = lines evs ++ event_json e ++ [x0a].
Proof. unfold lines. rewrite fmap_app, concat_app. f_equal. apply app_nil_r. Qed.

(** One more chunk in the event log. *)
Lemma events_snoc (h : list (bool * list byte)) (evs : list event) (b : bool) d mono real :
  (length evs = length h ∧ ∀ (i : nat) e x, evs !! i = Some e → h !! i = Some x → event_of c i e x) →
  let e := Event (ch_name c) (if b then bs "rx" else bs "tx") (Z.of_nat (length h) + 1) mono real (b64encode d) (Z.of_nat (length d)) in
  length (evs ++ [e]) = length (h ++ [(b, d)]) ∧
  ∀ (i : nat) e' x, (evs ++ [e]) !! i = Some e' → (h ++ [(b, d)]) !! i = Some x → event_of c i e' x.
Proof.
  intros [Hlen He] e. split; [rewrite !length_app, Hlen; done|]. intros i e' x.
  rewrite !lookup_snoc_Some. intros [[Hi Hl]|[-> <-]] [[Hi' Hl']|[Hi' <-]]; [by eapply He|lia|lia|].
  unfold event_of. cbn. rewrite b64_round_trip, Hlen. by split_and!.
Qed.

(** The fields that the event log does not touch. *)
Lemma records_event h d (b : bool) s s' :
  records h s → so_events s' = so_events (emit_event c clock (if b then bs "rx" else bs "tx") d s) →
  so_seq s' = so_seq s + 1 →
  so_stdout s' = so_stdout s ++ (if b then written (writes Terminal (so_seq s + 1) d) d else []) →
  so_raw s' = so_raw s ++ (if b then d else []) →
  so_child s' = so_child s ++ (if b then [] else written (writes CommandInput (so_seq s + 1) d) d) →
  so_pty s' = so_pty s ++ (if b && ch_pty c then written (writes PtyMaster (so_seq s + 1) d) d else []) →
  (b = true → ∃ n, writes Terminal (so_seq s + 1) d = Wrote n) →
  records (h ++ [(b, d)]) s'.
Proof.
  intros [Ho Hr Hp Hc _ Ha (evs & He & Hl & Hev) Hs] E1 E2 E3 E4 E5 E6 E7.
  assert (F1 : so_stdout s' = got Terminal true (h ++ [(b, d)])) by (rewrite E3, Ho, got_snoc, Hs; by destruct b).
  assert (F2 : so_child s' = got CommandInput false (h ++ [(b, d)])) by (rewrite E5, Hc, got_snoc, Hs; by destruct b).
  assert (F3 : so_pty s' = if ch_pty c then got PtyMaster true (h ++ [(b, d)]) else []).
  { rewrite E6, Hp, Hs. destruct (ch_pty c); [rewrite got_snoc|]; by destruct b. }
  constructor; [done| |done|done|..].
  - rewrite E4, Hr, side_app, side_one, <-app_assoc. by destruct b.
  - split_and!; intros Ht.
    + by rewrite F1, got_all.
    + intros Hpty. by rewrite F3, Hpty, got_all.
    + by rewrite F2, got_all.
  - intros i d'. rewrite lookup_snoc_Some. intros [[_ Hi]|[-> [= -> ->]]]; [by apply Ha|].
    rewrite <-Hs. by apply E7.
  - exists (evs ++ [Event (ch_name c) (if b then bs "rx" else bs "tx") (Z.of_nat (length h) + 1) (clock (so_seq s + 1)).1
      (clock (so_seq s + 1)).2 (b64encode d) (Z.of_nat (length d))]).
    split; [|split; [|by apply events_snoc]].
    + rewrite E1, lines_snoc. unfold emit_event. cbn [so_events]. by rewrite He, Hs, <-app_assoc.
    + apply Forall_app_2; [done|]. constructor; [apply event_one_line|done].
  - rewrite E2, Hs, length_app. cbn. lia.
Qed.

(** The write to the terminal that ends the loop: the chunk of the next number. *)
Definition stdout_fails (h : list (bool * list byte)) (d : list byte) (e : errno) : Prop :=
  d ≠ [] ∧ writes Terminal (Z.of_nat (length h) + 1) d = WriteFailed e.

Lemma records_output h d s :
  records h s → d ≠ [] →
  match proc_output c clock writes d s with
  | Running s' => records (h ++ [(true, d)]) s' ∧ so_registered s' = so_registered s
  | Returned _ _ => False
  | Raised e s' => s' = s ∧ stdout_fails h d e
  end.
Proof.
  intros Hh Hd. unfold proc_output, write_stdout, forward_to_pty.
  destruct (writes Terminal (so_seq s + 1) d) as [n|e] eqn:Hw.
  2:{ split; [done|]. unfold stdout_fails. by rewrite <-(rc_seq _ _ _ _ _ _ Hh). }
  split; [|by destruct (ch_pty c)].
  eapply (records_event h d true s); [done|..]; rewrite ?Hw; destruct (ch_pty c); cbn; rewrite ?app_nil_r; eauto.
Qed.

Lemma records_input h d s : records h s → records (h ++ [(false, d)]) (proc_input c clock writes d s).
Proof.
  intros Hh. unfold proc_input.
  eapply (records_event h d false s); [done|..]; cbn; rewrite ?app_nil_r; done.
Qed.

Lemma records_unregister h k s : records h s → records h (unregister k s).
Proof. by intros []. Qed.

(** *** The loop *)

Lemma event_progress h k r s :
  records h s →
  match stdio_event c clock writes k r s with
  | Running s' => records (h ++ chunk_of (k, r)) s' ∧ so_registered s' = left_after (so_registered s) (k, r)
  | Returned _ _ => False
  | Raised e s' => s' = s ∧ (r = Failed e ∨ k = ProcOut ∧ ∃ d, r = Data d ∧ stdout_fails h d e)
  end.
Proof.
  intros Hh. pose proof (records_unregister h k s Hh) as Hu.
  assert (Hreg : so_registered (unregister k s) = filter (λ k', k' ≠ k) (so_registered s)) by done.
  destruct r as [[|b d]|e]; [..|destruct e]; destruct k; cbn -[unregister proc_output proc_input]; unfold left_after, ended, chunk_of;
    cbn -[unregister proc_output proc_input filter]; rewrite ?app_nil_r; try (by auto).
  - pose proof (records_output h (b :: d) s Hh ltac:(done)) as Ho.
    destruct (proc_output c clock writes (b :: d) s); [done|done|]. destruct Ho as [-> Hf]. eauto 6.
  - split; [by apply records_input|done].
  - split; [by apply records_input|done].
Qed.

(** What ended the loop: a read that failed, or a write to the terminal. *)
Definition fatal (h : list (bool * list byte)) (l : list (source * reading)) (e : errno) (s : stdio) : Prop :=
  ∃ l1 k r l2, l = l1 ++ (k, r) :: l2 ∧ records (h ++ chunks l1) s ∧
    (r = Failed e ∨ k = ProcOut ∧ ∃ d, r = Data d ∧ stdout_fails (h ++ chunks l1) d e).

Lemma fatal_before h l l' e s : fatal (h ++ chunks l) l' e s → fatal h (l ++ l') e s.
Proof.
  intros (l1 & k & r & l2 & -> & Hs & Hf). exists (l ++ l1), k, r, l2.
  split; [by rewrite <-app_assoc|]. by rewrite chunks_app, (app_assoc h).
Qed.

Lemma fatal_after h l l' e s : fatal h l e s → fatal h (l ++ l') e s.
Proof.
  intros (l1 & k & r & l2 & -> & Hs & Hf). exists l1, k, r, (l2 ++ l'). by rewrite <-app_assoc.
Qed.

Lemma events_progress l h s :
  live (so_registered s) l = true → records h s →
  match stdio_events c clock writes l s with
  | Running s' => records (h ++ chunks l) s' ∧ so_registered s' = foldl left_after (so_registered s) l
  | Returned _ _ => False
  | Raised e s' => fatal h l e s'
  end.
Proof.
  revert h s. induction l as [|[k r] l IH]; intros h s; cbn [live stdio_events foldl].
  { intros _ Hh. split; [by rewrite app_nil_r|done]. }
  intros [Hk Hl]%andb_prop Hh. cbn [fst] in Hk. rewrite Hk. pose proof (event_progress h k r s Hh) as He.
  destruct (stdio_event c clock writes k r s) as [s1|code s1|e s1]; [|done|].
  - destruct He as [Hh1 Hr]. rewrite <-Hr in Hl |- *.
    assert (Hc : chunk_of (k, r) = chunks [(k, r)]) by (unfold chunks; cbn; by rewrite app_nil_r).
    rewrite Hc in Hh1. specialize (IH _ _ Hl Hh1).
    change ((k, r) :: l) with ([(k, r)] ++ l). rewrite chunks_app, app_assoc.
    destruct (stdio_events c clock writes l s1) as [s2|code s2|e s2]; [done..|]. by apply fatal_before.
  - destruct He as [-> Hf]. exists [], k, r, l. cbn. by rewrite app_nil_r.
Qed.

Definition turn : Type := list (source * reading) * option Z * list reading.
Definition events_of (turns : list turn) : list (source * reading) := concat ((λ t, t.1.1) <$> turns).

(** What is left in the pipe, as one chunk: data up to a read that gives none. *)
Definition no_data (l : list reading) : Prop := match l with Data (_ :: _) :: _ => False | _ => True end.
Definition left_in_pipe (rest : list reading) (d : list byte) : Prop :=
  ∃ ds stop, rest = (Data <$> ds) ++ stop ∧ Forall (λ d, d ≠ []) ds ∧ no_data stop ∧ d = concat ds.
Definition tail_chunk (d : list byte) : list (bool * list byte) := match d with [] => [] | _ => [(true, d)] end.

Lemma trailing_left rest : left_in_pipe rest (trailing rest).
Proof.
  induction rest as [|r rest IH]; [by exists [], []|]. destruct r as [[|b d]|e].
  - by exists [], (Data [] :: rest).
  - destruct IH as (ds & stop & -> & Hds & Hs & Ht). exists ((b :: d) :: ds), stop. cbn [trailing]. rewrite Ht.
    split_and!; [done|by constructor|done|done].
  - by exists [], (Failed e :: rest).
Qed.

(** What a run has recorded, from the chunks [h] on. *)
Definition recorded (h : list (bool * list byte)) (turns : list turn) (r : run) : Prop :=
  match r with
  | Running s => Forall (λ t, t.1.2 = None) turns ∧ records (h ++ chunks (events_of turns)) s
  | Returned code s =>
      ∃ pre ev rest post d, turns = pre ++ (ev, Some code, rest) :: post ∧ Forall (λ t, t.1.2 = None) pre ∧
        left_in_pipe rest d ∧ records (h ++ chunks (events_of pre ++ ev) ++ tail_chunk d) s
  | Raised e s =>
      fatal h (events_of turns) e s ∨
      ∃ pre ev code rest post d, turns = pre ++ (ev, Some code, rest) :: post ∧ Forall (λ t, t.1.2 = None) pre ∧
        left_in_pipe rest d ∧ records (h ++ chunks (events_of pre ++ ev)) s ∧
        stdout_fails (h ++ chunks (events_of pre ++ ev)) d e
  end.

Lemma events_of_cons ev polled rest turns : events_of ((ev, polled, rest) :: turns) = ev ++ events_of turns.
Proof. done. Qed.

(** A turn that polls no exit code, before others. *)
Lemma recorded_cons h ev rest turns r :
  recorded (h ++ chunks ev) turns r → recorded h ((ev, None, rest) :: turns) r.
Proof.
  assert (Happ : ∀ l, (h ++ chunks ev) ++ chunks l = h ++ chunks (ev ++ l)) by (intros l; by rewrite chunks_app, app_assoc).
  destruct r as [s|code s|e s]; unfold recorded.
  - intros [Hn Hs]. split; [by constructor|]. by rewrite events_of_cons, <-Happ.
  - intros (pre & ev' & rest' & post & d & -> & Hn & Hd & Hs).
    exists ((ev, None, rest) :: pre), ev', rest', post, d. split_and!; [done|by constructor|done|].
    rewrite app_assoc, Happ, <-app_assoc in Hs. by rewrite events_of_cons, <-app_assoc.
  - intros [Hf|(pre & ev' & code & rest' & post & d & -> & Hn & Hd & Hs & Hf)].
    + left. rewrite events_of_cons. by apply fatal_before.
    + right. exists ((ev, None, rest) :: pre), ev', code, rest', post, d. rewrite Happ in Hs, Hf.
      split_and!; [done|by constructor|done|..]; by rewrite events_of_cons, <-app_assoc.
Qed.

Lemma loop_recorded (turns : list turn) h s :
  live (so_registered s) (events_of turns) = true → records h s → recorded h turns (stdio_loop c clock writes turns s).
Proof.
  revert h s. induction turns as [|[[ev polled] rest] turns IH]; intros h s Hl Hh.
  { split; [done|]. by rewrite app_nil_r. }
  rewrite events_of_cons, live_app in Hl. apply andb_prop in Hl as [Hev Hl].
  cbn [stdio_loop]. unfold stdio_turn. pose proof (events_progress ev h s Hev Hh) as He.
  destruct (stdio_events c clock writes ev s) as [s1|code s1|e s1]; [|done|].
  2:{ left. rewrite events_of_cons. by apply fatal_after. }
  destruct He as [Hh1 Hr]. rewrite <-Hr in Hl. destruct polled as [code|].
  - pose proof (trailing_left rest) as Hd. destruct (trailing rest) as [|b d].
    { exists [], ev, rest, turns, []. split_and!; [done|done|done|]. by rewrite app_nil_r. }
    pose proof (records_output (h ++ chunks ev) (b :: d) s1 Hh1 ltac:(done)) as Ho.
    destruct (proc_output c clock writes (b :: d) s1) as [s2|code2 s2|e s2]; [|done|].
    + exists [], ev, rest, turns, (b :: d). split_and!; [done|done|done|]. by rewrite app_assoc; apply Ho.
    + destruct Ho as [-> Hf]. right. by exists [], ev, code, rest, turns, (b :: d).
  - specialize (IH _ _ Hl Hh1). apply recorded_cons. by destruct (stdio_loop c clock writes turns s1).
Qed.
End Records.

(* ------------------------------------------------------------------ *)
(** ** Manifests *)

Lemma rbind_inl {A B} (m : result A) (f : A → result B) b : rbind m f = inl b → ∃ a, m = inl a ∧ f a = inl b.
Proof. destruct m as [a|]; [by exists a|done]. Qed.

Lemma require_int_inl l key id : require_int l key = inl id → get_key key l = Some id.1 ∧ int_of id.1 = Some id.2.
Proof.
  unfold require_int. destruct (get_key key l) as [v|]; [|done]. destruct (int_of v) as [z|] eqn:Hz; [|done]. by intros [= <-].
Qed.

Lemma require_str_inl l key s : require_str l key = inl s → get_key key l = Some (VStr s) ∧ forallb is_space s = false.
Proof.
  unfold require_str. destruct (get_key key l) as [[]|]; try done. destruct (forallb is_space s0) eqn:Hs; [done|]. by intros [= <-].
Qed.

Lemma require_str_some l key s : get_key key l = Some (VStr s) → forallb is_space s = false → require_str l key = inl s.
Proof. unfold require_str. by intros -> ->. Qed.

Lemma require_int_some l key v z : get_key key l = Some v → int_of v = Some z → require_int l key = inl (v, z).
Proof. unfold require_int. by intros -> ->. Qed.

(** What is true of a channel of a manifest. *)
Definition channel_fine (c : channel) : Prop :=
  is_Some (int_of (ch_id c)) ∧ forallb is_space (ch_name c) = false ∧ forallb is_space (ch_kind c) = false ∧
  Forall (λ kv, kv.1 ∉ channel_keys) (ch_extras c).

Lemma load_channels_inl l ids names cs :
  load_channels l ids names = inl cs →
  Forall channel_fine cs ∧ NoDup (int_of ∘ ch_id <$> cs) ∧ NoDup (ch_name <$> cs) ∧
  Forall (λ c, (∀ z, int_of (ch_id c) = Some z → z ∉ ids) ∧ (ch_name c ∉ names)) cs.
Proof.
  revert ids names cs. induction l as [|v l IH]; intros ids names cs; cbn [load_channels].
  { intros [= <-]. split_and!; constructor. }
  destruct v as [| | | | | |entry]; try done.
  intros ([v z] & [Hg Hv]%require_int_inl & Hr)%rbind_inl. cbn [fst snd] in *.
  apply rbind_inl in Hr as (name & [_ Hn]%require_str_inl & Hr).
  apply rbind_inl in Hr as (kind & [_ Hk]%require_str_inl & Hr).
  apply rbind_inl in Hr as (inter & _ & Hr). apply rbind_inl in Hr as (pty & _ & Hr).
  case_bool_decide as Hid; [done|]. case_bool_decide as Hname; [done|].
  apply rbind_inl in Hr as (cs' & (Hf & Hni & Hnn & Hseen)%IH & [= <-]).
  rewrite Forall_forall in Hseen. rewrite !fmap_cons. split_and!.
  - constructor; [|done]. split_and!; [by exists z|done..|]. cbn [ch_extras]. apply Forall_forall.
    by intros kv [? _]%list_elem_of_filter.
  - constructor; [|done]. intros (c & Hc & Hin)%list_elem_of_fmap. cbn in Hc. rewrite Hv in Hc.
    destruct (Hseen c Hin) as [Hz _]. apply (Hz z); [done|by left].
  - constructor; [|done]. intros (c & Hc & Hin)%list_elem_of_fmap. cbn in Hc. destruct (Hseen c Hin) as [_ Hno].
    apply Hno. rewrite <-Hc. by left.
  - constructor.
    + cbn. split; [|done]. intros z'. rewrite Hv. by intros [= <-].
    + apply Forall_forall. intros c Hin. destruct (Hseen c Hin) as [Hz Hno]. split.
      * intros z' Hz' Hin'. by apply (Hz z'); [|right].
      * intros Hin'. by apply Hno; right.
Qed.

(** A manifest that is accepted. *)
Record manifest_fine (m : manifest) : Prop := ManifestFine {
  mf_fine : Forall channel_fine (mf_channels m);
  mf_ids : NoDup (int_of ∘ ch_id <$> mf_channels m);
  mf_names : NoDup (ch_name <$> mf_channels m);
  mf_some : mf_channels m ≠ [];
  mf_one : int_of (mf_version m) = Some 1;
  mf_texts : forallb is_space (mf_run_id m) = false ∧ forallb is_space (mf_target m) = false ∧
    forallb is_space (mf_binary_name m) = false
}.

Lemma load_channels_length l ids names cs : load_channels l ids names = inl cs → length cs = length l.
Proof.
  revert ids names cs. induction l as [|v l IH]; intros ids names cs; cbn [load_channels]; [by intros [= <-]|].
  destruct v as [| | | | | |entry]; try done.
  intros (? & _ & Hr)%rbind_inl. do 4 apply rbind_inl in Hr as (? & _ & Hr).
  do 2 (case_bool_decide; [done|]). apply rbind_inl in Hr as (cs' & Hl%IH & [= <-]). cbn. by rewrite Hl.
Qed.

Lemma load_manifest_fine v m : load_manifest v = inl m → manifest_fine m.
Proof.
  destruct v as [| | | | | |data]; try done. cbn [load_manifest].
  intros ([v z] & [_ Hv]%require_int_inl & Hr)%rbind_inl. cbn [fst snd] in *.
  destruct (z =? 1) eqn:Hz; [|done]. cbn [negb] in Hr. z_bool. subst z.
  destruct (get_key (bs "transport") data) as [[| | | | | |transport]|]; try done.
  destruct (get_key (bs "channels") data) as [[| | | | |[|entry raw]|]|]; try done.
  apply rbind_inl in Hr as (cs & Hcs & Hr). pose proof (load_channels_length _ _ _ _ Hcs) as Hlen.
  apply load_channels_inl in Hcs as (Hf & Hi & Hn & _).
  apply rbind_inl in Hr as (? & [_ ?]%require_str_inl & Hr). apply rbind_inl in Hr as (? & [_ ?]%require_str_inl & Hr).
  apply rbind_inl in Hr as (? & [_ ?]%require_str_inl & [= <-]).
  constructor; cbn; try done. by destruct cs.
Qed.

(** *** The description of a manifest *)

Lemma get_key_set k k' v l : k ≠ k' → get_key k (dict_set k' v l) = get_key k l.
Proof.
  intros Hk. induction l as [|[k1 v1] l IH]; cbn [dict_set get_key].
  - by rewrite bool_decide_eq_false_2.
  - case_bool_decide as H1; cbn [get_key]; [subst; by rewrite !bool_decide_eq_false_2|]. by rewrite IH.
Qed.

Lemma get_key_update k extras l :
  Forall (λ kv, kv.1 ∉ channel_keys) extras → k ∈ channel_keys → get_key k (dict_update l extras) = get_key k l.
Proof.
  intros He Hk. revert l. induction He as [|[k' v'] extras Hn _ IH]; intros l; cbn [dict_update foldl]; [done|].
  etrans; [apply IH|]. apply get_key_set. by intros ->.
Qed.

(** The same but for what the source does not name. *)
Definition same_channel (c c' : channel) : Prop :=
  ch_id c' = ch_id c ∧ ch_name c' = ch_name c ∧ ch_kind c' = ch_kind c ∧
  ch_interactive c' = ch_interactive c ∧ ch_pty c' = ch_pty c.

Lemma payload_fields c z :
  channel_fine c → int_of (ch_id c) = Some z →
  ∃ entry, channel_payload c = VDict entry ∧ require_int entry (bs "id") = inl (ch_id c, z) ∧
    require_str entry (bs "name") = inl (ch_name c) ∧ require_str entry (bs "kind") = inl (ch_kind c) ∧
    require_bool entry (bs "interactive") = inl (ch_interactive c) ∧ require_bool entry (bs "pty") = inl (ch_pty c).
Proof.
  intros (_ & Hn & Hk & He) Hz. eexists. split; [reflexivity|]. split_and!.
  - apply require_int_some; [|done]. rewrite get_key_update by (done || by apply (bool_decide_unpack _)). done.
  - apply require_str_some; [|done]. rewrite get_key_update by (done || by apply (bool_decide_unpack _)). done.
  - apply require_str_some; [|done]. rewrite get_key_update by (done || by apply (bool_decide_unpack _)). done.
  - unfold require_bool. rewrite get_key_update by (done || by apply (bool_decide_unpack _)). done.
  - unfold require_bool. rewrite get_key_update by (done || by apply (bool_decide_unpack _)). done.
Qed.

Lemma channels_reload cs ids names :
  Forall channel_fine cs → NoDup (int_of ∘ ch_id <$> cs) → NoDup (ch_name <$> cs) →
  Forall (λ c, (∀ z, int_of (ch_id c) = Some z → z ∉ ids) ∧ (ch_name c ∉ names)) cs →
  ∃ cs', load_channels (channel_payload <$> cs) ids names = inl cs' ∧ Forall2 same_channel cs cs'.
Proof.
  intros Hf. revert ids names. induction Hf as [|c cs Hc _ IH]; intros ids names Hi Hnm Hs; [by exists []|].
  rewrite !fmap_cons in *. apply NoDup_cons in Hi as [Hci Hi]. apply NoDup_cons in Hnm as [Hcn Hnm].
  apply Forall_cons in Hs as [[Hid Hname] Hs]. pose proof Hc as ([z Hz] & _).
  destruct (payload_fields c z Hc Hz) as (entry & -> & E1 & E2 & E3 & E4 & E5). cbn [load_channels].
  rewrite E1, E2, E3, E4, E5. cbn [rbind fst snd].
  rewrite (bool_decide_eq_false_2 _ (Hid z Hz)), (bool_decide_eq_false_2 _ Hname).
  destruct (IH (z :: ids) (ch_name c :: names)) as (cs' & -> & Hsame); [done..| |].
  - rewrite Forall_forall in Hs |- *. intros c' Hin. destruct (Hs c' Hin) as [H1 H2]. split.
    + intros z' Hz' [->|?]%elem_of_cons; [|by eapply H1]. apply Hci, list_elem_of_fmap. exists c'. cbn. by rewrite Hz.
    + intros [Hn|?]%elem_of_cons; [|done]. apply Hcn, list_elem_of_fmap. by exists c'.
  - eexists. split; [reflexivity|]. constructor; [by split_and!|exact Hsame].
Qed.

Lemma describe_reloads v m :
  load_manifest v = inl m →
  ∃ m', load_manifest (runtime_manifest_payload m) = inl m' ∧ mf_version m' = mf_version m ∧ mf_run_id m' = mf_run_id m ∧
    mf_target m' = mf_target m ∧ mf_binary_name m' = mf_binary_name m ∧ mf_transport m' = mf_transport m ∧
    Forall2 same_channel (mf_channels m) (mf_channels m').
Proof.
  intros [Hf Hi Hn Hne Hone (T1 & T2 & T3)]%load_manifest_fine.
  destruct (channels_reload (mf_channels m) [] [] Hf Hi Hn) as (cs' & Hcs & Hsame).
  { apply Forall_forall. intros c _. split; [intros z _|]; apply not_elem_of_nil. }
  unfold runtime_manifest_payload, load_manifest.
  rewrite (require_int_some _ _ (mf_version m) 1) by done. cbn [rbind fst snd].
  change (get_key (bs "transport") _) with (Some (VDict (mf_transport m))).
  change (get_key (bs "channels") _) with (Some (VList (channel_payload <$> mf_channels m))).
  change (negb (1 =? 1)) with false. cbn [negb].
  destruct (mf_channels m) as [|c cs] eqn:Hm; [done|]. rewrite fmap_cons in Hcs |- *. rewrite Hcs. cbn [rbind].
  rewrite (require_str_some _ (bs "run_id") (mf_run_id m)) by done. cbn [rbind].
  rewrite (require_str_some _ (bs "target") (mf_target m)) by done. cbn [rbind].
  rewrite (require_str_some _ (bs "binary_name") (mf_binary_name m)) by done. cbn [rbind]. eexists. split; [reflexivity|]. by split_and!.
Qed.

(* ------------------------------------------------------------------ *)
(** ** The property *)

(** C30: what the router records and passes on around one process.  Take a
    manifest that [run_command] runs in [process_stdio] mode, any turns of its
    loop in which the selector reports a source only before its end, and any
    behaviour of [os.write]: whole or short writes, or errors.  The manifest
    has one channel, valid and unambiguous, and its description is a manifest
    of the same channel.  Then, whatever the sources give in whatever order:
    the raw log gets exactly what was read from the command, in order, what is
    left in its pipe at its exit included, and [events.jsonl] gains one line
    per chunk read on either side, numbered from 1, whose Base64 payload
    decodes to it.  The terminal and the PTY get of each chunk of the command's
    output, and the command of each chunk typed, what [os.write] wrote of it at
    its one call (the rest is lost: errors on the PTY and on the command's
    input are ignored), all of it where every write is whole.  The run returns
    with the first exit code polled, or stops at the first read that fails or
    at the first write to the terminal that raises an error: then all that was
    read before is recorded, but the chunk of that write is in no log. *)
Theorem stdio_records runtime_dir ttyname clock writes raw events stdin_ok v turns r :
  run_command runtime_dir ttyname clock writes raw events stdin_ok v turns = inl (Process r) →
  (∀ m c, load_manifest v = inl m → mf_channels m = [c] →
     live (so_registered (stdio_start runtime_dir ttyname raw events stdin_ok m c)) (events_of turns) = true) →
  ∃ m c, load_manifest v = inl m ∧ mf_channels m = [c] ∧ channel_fine c ∧
    recorded c writes raw events [] turns r ∧
    ∃ v' m' c', describe_manifest v = inl v' ∧ load_manifest v' = inl m' ∧ mf_channels m' = [c'] ∧ same_channel c c'.
Proof.
  unfold run_command. intros (m & Hm & Hr)%rbind_inl Hlive. exists m.
  destruct (get_key _ _) as [[| | | |type| |]|]; try done.
  case_bool_decide; [done|]. destruct (negb _); [done|].
  destruct (mf_channels m) as [|c [|]] eqn:Hc; try done. injection Hr as <-. exists c.
  pose proof (load_manifest_fine v m Hm) as [Hf _ _ _ _ _]. rewrite Hc in Hf. apply Forall_cons in Hf as [Hf _].
  split_and!; [done..| |].
  - apply loop_recorded; [by apply Hlive|]. constructor; cbn; try done.
    + by rewrite app_nil_r.
    + by destruct (ch_pty c).
    + exists []. split_and!; [by rewrite app_nil_r|constructor|done|by intros i e x Hi].
  - destruct (describe_reloads v m Hm) as (m' & Hm' & _ & _ & _ & _ & _ & Hs). rewrite Hc in Hs.
    apply Forall2_cons_inv_l in Hs as (c' & l' & Hs & Hnil & Hm''). apply Forall2_nil_inv_l in Hnil as ->.
    exists (runtime_manifest_payload m), m', c'. unfold describe_manifest. rewrite Hm. by split_and!.
Qed.

Definition demo_manifest : value :=
  VDict
    [(bs "version", VInt 1); (bs "run_id", VStr (bs "run1")); (bs "target", VStr (bs "qemu"));
     (bs "binary_name", VStr (bs "vm_multi"));
     (bs "transport", VDict [(bs "type", VStr (bs "process_stdio"))]);
     (bs "channels", VList [VDict
       [(bs "id", VInt 1); (bs "name", VStr (bs "vm0")); (bs "kind", VStr (bs "console"));
        (bs "interactive", VBool true); (bs "pty", VBool true); (bs "note", VStr (bs "first"))]])].
Definition demo_turns : list turn :=
  [([(ProcOut, Data (bs "login: "))], None, []);
   ([(PtyIn, Data (bs "root")); (ProcOut, Data (bs "root")); (StdinIn, Data [])], None, []);
   ([(ProcOut, Failed EIO)], None, []);
   ([], Some 3, [Data (bs "bye"); Failed EAGAIN; Data (bs "late")])].
(** Five bytes at a time to the terminal, two to the command. *)
Definition demo_writes (to : dest) (k : Z) (d : list byte) : writing :=
  Wrote (match to with Terminal => 5 | PtyMaster => length d | CommandInput => 2 end).
Definition demo_run (writes : dest → Z → list byte → writing) : run :=
  match run_command (bs "/run") (λ _, bs "/dev/pts/7") (λ i, (i, 1000 + i)) writes (bs "old") [] true demo_manifest demo_turns with
  | inl (Process r) => r
  | _ => Raised OtherError (Stdio [] [] [] [] [] 0 [] [])
  end.

(** C30 where the terminal and the command take less than they are given. *)
Lemma stdio_records_witness :
  (∃ s, demo_run demo_writes = Returned 3 s ∧ so_stdout s = bs "loginrootbye" ∧ so_raw s = bs "oldlogin: rootbye" ∧
     so_pty s = bs "login: rootbye" ∧ so_child s = bs "ro" ∧ so_seq s = 4) ∧
  ∃ m c, load_manifest demo_manifest = inl m ∧ mf_channels m = [c] ∧ channel_fine c ∧
    recorded c demo_writes (bs "old") [] [] demo_turns (demo_run demo_writes) ∧
    ∃ v' m' c', describe_manifest demo_manifest = inl v' ∧ load_manifest v' = inl m' ∧ mf_channels m' = [c'] ∧ same_channel c c'.
Proof.
  split; [eexists; split; [vm_compute; reflexivity|by split_and!]|].
  apply (stdio_records (bs "/run") (λ _, bs "/dev/pts/7") (λ i, (i, 1000 + i)) demo_writes (bs "old") [] true demo_manifest
    demo_turns (demo_run demo_writes)).
  - vm_compute. reflexivity.
  - intros m c Hm Hc. vm_compute in Hm. injection Hm as <-. injection Hc as <-. vm_compute. reflexivity.
Defined.

(** Whole writes pass everything on. *)
Example whole_writes :
  match demo_run (λ _ _ d, Wrote (length d)) with
  | Returned code s => code = 3 ∧ so_stdout s = bs "login: rootbye" ∧ so_pty s = bs "login: rootbye" ∧ so_child s = bs "root"
  | _ => False
  end.
Proof. by vm_compute. Qed.

(** A terminal that is full at the second chunk of output: the router stops,
    and that chunk is in no log. *)
Example terminal_blocks :
  match demo_run (λ to k d, match to with Terminal => if k =? 3 then WriteFailed EAGAIN else Wrote (length d) | _ => Wrote (length d) end) with
  | Raised EAGAIN s => so_stdout s = bs "login: " ∧ so_raw s = bs "oldlogin: " ∧ so_child s = bs "root" ∧ so_seq s = 2
  | _ => False
  end.
Proof. by vm_compute. Qed.

(** [True] is a version, and an id. *)
Example boolean_version :
  load_manifest (VDict
    [(bs "version", VBool true); (bs "run_id", VStr (bs "r")); (bs "target", VStr (bs "t"));
     (bs "binary_name", VStr (bs "b")); (bs "transport", VDict []);
     (bs "channels", VList [VDict
       [(bs "id", VBool true); (bs "name", VStr (bs "c")); (bs "kind", VStr (bs "k"));
        (bs "interactive", VBool true); (bs "pty", VBool false)]])]) =
  inl (Manifest (VBool true) (bs "r") (bs "t") (bs "b") [] [Channel (VBool true) (bs "c") (bs "k") true false []]).
Proof. reflexivity. Qed.
