(* ===== verification/Bridge.v ===== *)
(** * The QEMU bridge

    [host/qemu_mux_uplink_bridge.py]: it starts a producer, connects to the
    socket the producer opens, and copies between the socket and its own
    standard input and output.  Readings are as in [Stdio]. *)

From S2P Require Import Prelude Regex Stdio.

(* ------------------------------------------------------------------ *)
(** ** Connecting *)

(** A turn of [_wait_for_socket_connect]: the time, whether the producer has
    ended, whether the socket's path is there, whether [connect] succeeds. *)
Record attempt : Type := Attempt { at_now : Z; at_ended : bool; at_exists : bool; at_connects : bool }.

Inductive connecting : Type :=
| Connected
| ProducerEnded                                  (** the two [BridgeError]s *)
| TimedOut
| Waiting.

Fixpoint wait_for_socket_connect (deadline : Z) (l : list attempt) : connecting :=
  match l with
  | [] => Waiting
  | a :: l' =>
      if negb (at_now a <? deadline) then TimedOut
      else if at_ended a && negb (at_exists a) then ProducerEnded
      else if at_connects a then Connected
      else wait_for_socket_connect deadline l'
  end.

(* ------------------------------------------------------------------ *)
(** ** Copying *)

Record bridge : Type := Bridge {
  br_stdout : list byte;                         (** offered to [sys.stdout] *)
  br_sent : list byte;                           (** sent on the socket *)
  br_sock : bool;                                (** the socket is open *)
  br_stdin : bool                                (** the terminal is registered *)
}.

Inductive outcome : Type :=
| Copying (s : bridge)
| Ended (rc : Z) (s : bridge)
| Broken (s : bridge).                           (** an error that is not caught *)

(** What is ready; for input, how much of it [sendall] sends before it fails,
    if it does. *)
Inductive ready : Type :=
| Sock (r : reading)
| Stdin (r : reading) (fails_after : option nat).

Definition bridge_event (e : ready) (s : bridge) : outcome :=
  match e with
  | Sock (Data []) => Copying (Bridge (br_stdout s) (br_sent s) false (br_stdin s))
  | Sock (Data d) => Copying (Bridge (br_stdout s ++ d) (br_sent s) (br_sock s) (br_stdin s))
  | Sock (Failed EAGAIN) => Copying s
  | Sock (Failed _) => Broken s
  | Stdin (Data []) _ | Stdin (Failed EIO) _ | Stdin (Failed EBADF) _ =>
      Copying (Bridge (br_stdout s) (br_sent s) (br_sock s) false)
  | Stdin (Data d) fails =>
      if br_sock s then
        match fails with
        | None => Copying (Bridge (br_stdout s) (br_sent s ++ d) (br_sock s) (br_stdin s))
        | Some n => Broken (Bridge (br_stdout s) (br_sent s ++ take n d) (br_sock s) (br_stdin s))
        end
      else Copying s
  | Stdin (Failed _) _ => Broken s
  end.

Definition registered (e : ready) (s : bridge) : bool := match e with Sock _ => br_sock s | Stdin _ _ => br_stdin s end.

Fixpoint bridge_events (l : list ready) (s : bridge) : outcome :=
  match l with
  | [] => Copying s
  | e :: l' =>
      if registered e s then
        match bridge_event e s with Copying s' => bridge_events l' s' | other => other end
      else bridge_events l' s
  end.

(** The loop: the events of each turn, then what [child.poll()] says. *)
Fixpoint bridge_loop (turns : list (list ready * option Z)) (s : bridge) : outcome :=
  match turns with
  | [] => Copying s
  | (events, polled) :: turns' =>
      match bridge_events events s with
      | Copying s' =>
          match polled with
          | Some rc => if br_sock s' then bridge_loop turns' s' else Ended rc s'
          | None => bridge_loop turns' s'
          end
      | other => other
      end
  end.

Definition run_bridge (stdin_ok : bool) (turns : list (list ready * option Z)) : outcome :=
  bridge_loop turns (Bridge [] [] true stdin_ok).

(* ------------------------------------------------------------------ *)
(** ** What is copied *)

(** The data of the socket up to its end; the input up to its own. *)
Fixpoint from_sock (l : list ready) : list byte :=
  match l with
  | [] => []
  | Sock (Data []) :: _ => []
  | Sock (Data d) :: l' => d ++ from_sock l'
  | _ :: l' => from_sock l'
  end.
(** The input before either ends. *)
Fixpoint from_stdin (l : list ready) : list byte :=
  match l with
  | [] => []
  | Sock (Data []) :: _ | Stdin (Data []) _ :: _ | Stdin (Failed EIO) _ :: _ | Stdin (Failed EBADF) _ :: _ => []
  | Stdin (Data d) _ :: l' => d ++ from_stdin l'
  | _ :: l' => from_stdin l'
  end.

(** Nothing goes wrong with an event. *)
Definition calm (e : ready) : bool :=
  match e with
  | Sock (Failed EAGAIN) | Sock (Data _) => true
  | Stdin (Data _) None | Stdin (Failed EIO) _ | Stdin (Failed EBADF) _ => true
  | _ => false
  end.

Lemma calm_event e s : calm e = true → ∃ s', bridge_event e s = Copying s'.
Proof. destruct e as [[[|b d]|[]]|[[|b d]|[]] [n|]]; cbn; try done; destruct (br_sock s); eauto. Qed.

(** While the socket is open it gives what is offered to [sys.stdout], and the
    terminal what is sent. *)
Lemma events_copied l s :
  forallb calm l = true →
  ∃ s', bridge_events l s = Copying s' ∧
    br_stdout s' = br_stdout s ++ (if br_sock s then from_sock l else []) ∧
    br_sent s' = br_sent s ++ (if br_sock s && br_stdin s then from_stdin l else []).
Proof.
  revert s. induction l as [|e l IH]; intros s; cbn [forallb bridge_events].
  { intros _. exists s. by destruct (br_sock s), (br_stdin s); cbn; rewrite !app_nil_r. }
  intros [He Hl]%andb_prop. destruct s as [o t sock inp].
  destruct e as [[[|b d]|[]]|[[|b d]|[]] [n|]]; try done; destruct sock, inp; cbn;
    (edestruct IH as (s' & -> & E1 & E2); [done|]); exists s'; rewrite E1, E2; cbn; rewrite ?app_nil_r, <-?app_assoc; done.
Qed.

Lemma events_app l1 l2 s :
  bridge_events (l1 ++ l2) s = match bridge_events l1 s with Copying s' => bridge_events l2 s' | other => other end.
Proof.
  revert s. induction l1 as [|e l1 IH]; intros s; cbn [app bridge_events]; [done|].
  destruct (registered e s); [|apply IH]. destruct (bridge_event e s); [apply IH|done..].
Qed.

Definition bridge_events_of (turns : list (list ready * option Z)) : list ready := concat (turns.*1).

(** The loop is its events, up to the first exit code after the socket's end. *)
Lemma loop_events turns s :
  forallb calm (bridge_events_of turns) = true →
  match bridge_loop turns s with
  | Copying s' => bridge_events (bridge_events_of turns) s = Copying s'
  | Ended rc s' => ∃ pre ev post, turns = pre ++ (ev, Some rc) :: post ∧ br_sock s' = false ∧
      bridge_events (bridge_events_of pre ++ ev) s = Copying s'
  | Broken _ => False
  end.
Proof.
  revert s. induction turns as [|[ev polled] turns IH]; intros s; [done|].
  change (bridge_events_of ((ev, polled) :: turns)) with (ev ++ bridge_events_of turns).
  rewrite forallb_app. intros [Hev Hl]%andb_prop. cbn [bridge_loop].
  destruct (events_copied ev s Hev) as (s1 & Hs1 & _). rewrite Hs1.
  assert (Hgo : match bridge_loop turns s1 with
    | Copying s' => bridge_events (ev ++ bridge_events_of turns) s = Copying s'
    | Ended rc s' => ∃ pre ev' post, (ev, polled) :: turns = pre ++ (ev', Some rc) :: post ∧ br_sock s' = false ∧
        bridge_events (bridge_events_of pre ++ ev') s = Copying s'
    | Broken _ => False
    end).
  { specialize (IH s1 Hl). destruct (bridge_loop turns s1) as [s2|rc s2|s2]; [|destruct IH as (pre & ev' & post & -> & Hk & He)|done].
    - by rewrite events_app, Hs1.
    - exists ((ev, polled) :: pre), ev', post. split_and!; [done..|].
      change (bridge_events_of ((ev, polled) :: pre)) with (ev ++ bridge_events_of pre).
      by rewrite <-app_assoc, events_app, Hs1. }
  destruct polled as [rc|]; [|done]. destruct (br_sock s1) eqn:Hk; [done|]. by exists [], ev, turns.
Qed.

(** The bridge copies both ways.  While reads and sends do not fail, it offers
    its standard output exactly what the socket gives, sends exactly what the
    terminal gives before either ends, and returns the producer's exit code
    once the socket has ended. *)
Theorem bridge_copies stdin_ok turns :
  forallb calm (bridge_events_of turns) = true →
  match run_bridge stdin_ok turns with
  | Copying s => br_stdout s = from_sock (bridge_events_of turns) ∧
      br_sent s = if stdin_ok then from_stdin (bridge_events_of turns) else []
  | Ended rc s => ∃ pre ev post, turns = pre ++ (ev, Some rc) :: post ∧ br_sock s = false ∧
      br_stdout s = from_sock (bridge_events_of pre ++ ev) ∧
      br_sent s = if stdin_ok then from_stdin (bridge_events_of pre ++ ev) else []
  | Broken _ => False
  end.
Proof.
  intros Hc. pose proof (loop_events turns (Bridge [] [] true stdin_ok) Hc) as Hl. unfold run_bridge.
  destruct (bridge_loop _ _) as [s|rc s|s]; [..|done].
  - destruct (events_copied _ (Bridge [] [] true stdin_ok) Hc) as (s' & Hs & Ho & Ht). rewrite Hl in Hs. by injection Hs as <-.
  - destruct Hl as (pre & ev & post & -> & Hk & Hs). exists pre, ev, post. split; [done|]. split; [done|].
    unfold bridge_events_of in Hc. rewrite fmap_app, concat_app, forallb_app in Hc. cbn in Hc.
    rewrite forallb_app, !andb_true_iff in Hc. destruct Hc as (H1 & H2 & _).
    assert (H12 : forallb calm (bridge_events_of pre ++ ev) = true) by (unfold bridge_events_of; by rewrite forallb_app, H1, H2).
    destruct (events_copied _ (Bridge [] [] true stdin_ok) H12) as (s' & Hs' & Ho & Ht). rewrite Hs in Hs'. by injection Hs' as <-.
Qed.

(** A burst that the socket does not take at once ends the bridge. *)
Example burst_breaks :
  run_bridge true [([Stdin (Data (bs "abc")) (Some 1%nat)], None)] = Broken (Bridge [] (bs "a") true true).
Proof. reflexivity. Qed.
